(* ===== verification/_CoqProject ===== *)
-Q . S2P
Prelude.v
OrdMap.v
Kernel.v
Protocol.v
Utf8.v
Wire.v
RoundTrip.v
Scalars.v
CodecRequest.v
CodecResult.v
Codec.v
CodecSpec.v
Layout.v
ProtocolErrors.v
Framing.v
ResponseSpec.v
Frame.v
FrameSpec.v
Jobs.v
JobSystem.v
JobSpec.v
JobOutcome.v
JobOps.v
Service.v
ServiceSystem.v
ServiceLink.v
ServiceSpec.v
SessionSpec.v
Dispatch.v
Progress.v
Quit.v
Startup.v
StartupSpec.v
Posix.v
UnixSocket.v
UnixSocketSpec.v
DaemonMain.v
DaemonMainSpec.v
Client.v
ClientSpec.v
Server.v
ServerSpec.v
ServerLife.v
ServerTalk.v
EndToEnd.v
ServerStop.v
ServerShut.v
ServerEnd.v
Hosted.v
HostedSpec.v
HostedLife.v
HostedFiles.v
HostedShut.v
Daemon.v
DaemonSpec.v
DaemonLife.v
DaemonAsk.v
DaemonEnd.v
Deployment.v
DeploymentSpec.v
DeploymentFiles.v
DeploymentEnd.v
RefKernel.v
CodecWitness.v
JobWitness.v
ServiceWitness.v
NetWitness.v
ServerWitness.v
EndToEndWitness.v
HostedWitness.v
DaemonWitness.v
DeploymentWitness.v
Findings.v
