(* ===== verification/Prelude.v ===== *)
(** The Photospider daemon, verified.

    [photospiderd] is a daemon on a local socket: clients of the same user create Sessions
    of workflow graphs, submit them as Jobs, follow and cancel the Jobs, and fetch their
    results.  This development models the C++ implementation, from the bytes on the socket
    to the worker threads, and proves what makes it correct.  Definitions keep the names of
    the source; a comment names the function where the name differs.  This file holds what
    everything shares: bytes and machine integers, the exception monad [exec], tactics,
    hints and generic lemmas.

    ** The parts of the program, and where they are

    - Data: [Protocol] has the public types ([include/photospider/ipc/protocol.hpp]) and the
      messages ([lib/ipc/codec.hpp]); [OrdMap] is [std::map]; [Kernel] is the installed
      Photospider kernel, whose headers are not in the repository: a class of opaque types
      and functions, with what the daemon relies on as [KernelLaws].
    - Codec ([lib/ipc/codec.cpp]): [Utf8] validates text; [Wire] has the classes [Encoder]
      and [Decoder] and the count fence; [CodecRequest], [CodecResult] and [Codec] have the
      documents, values, results, requests, responses and protocol errors.  An encoder or a
      decoder is a computation on the object's members that returns or throws.
    - Frames ([lib/ipc/frame.cpp]): [Frame] runs the loops over [recv] and [send] against a
      script of what the kernel answers.
    - Jobs (class [JobRegistry] of [lib/orchestration/service.cpp]): [Jobs] has each critical
      section on a heap of shared records and the program of a worker; [JobSystem] their
      interleaving.
    - Service (the rest of that file): [Service] has Sessions, their reservation and closing,
      admission and the fences of [dispatch]; a call of [dispatch] is a program counter, and
      calls and workers interleave.  [Startup] is the construction ([make_instance_id],
      [JobRegistry::JobRegistry] and [Service::Impl::Impl]) with its rollback.
    - Sockets ([lib/ipc/unix_socket.cpp]): [Posix] is the state of the operating system, where
      other processes act between two system calls and any call may be refused; [UnixSocket]
      has descriptors, the guard of the socket node, the listener, accepting and connecting.
    - Server ([lib/server/server.cpp]): [Server] has the accepting thread, the handler
      threads, [stop] and the destructor, around the service of [Service] and the frames of
      [Frame]; the kernel's answers are its inputs.  [Hosted] puts it on the kernel of
      [Posix]: the construction from the command line's configuration to the listener, and
      each step with the system calls it makes.
    - Client ([lib/ipc/client.cpp]): [Client] has the class on the state of [Posix] and a
      stream to any peer.
    - Entry point ([apps/photospiderd/main.cpp]): [DaemonMain] has the command line;
      [Daemon] the process: the main thread and the signal waiter around the server, the
      signal mask and the pending signals, what is printed and the exit code.
    - The whole: [Deployment] runs the process of [Daemon] with the construction and the
      system calls of [Hosted], from the start of [main] to the exit.

    A request goes from [Client.call] through [encode_request] and [write_frame] to
    [read_frame], [decode_request] and [dispatch] in a handler of [Server]; the call admits a
    record to the registry, whose workers run it through [Runtime]; and the response goes
    back the same way.  The step relation of the server contains that of the service
    ([server_service_reachable]), which contains that of the registry
    ([service_refines_registry]), so what is proved of a part holds of it inside the whole.
    Below it, the server with its system calls refines the server
    ([server_runs_on_world]); above it, the process steps the server it has constructed
    ([daemon_step]); and the process on its world refines the process alone
    ([daemon_runs_on_world]).  At the other end of the socket, [EndToEnd] puts a client
    against a handler thread.

    ** What is proved

    - Messages.  [RoundTrip] states how an encoder and its decoder relate and has the rules to
      prove it along the text of the codec, [Scalars] the base cases.  [CodecSpec] and
      [ResponseSpec]: messages round trip, and whatever bytes are decoded the message is well
      formed.  [Layout]: the encoders produce exactly the abstract wire layout.  [Framing]:
      no exception leaves an entry point, and the format is prefix-free.  [ProtocolErrors]:
      a peer that sent anything at all can be told so.  [Utf8]: the validator is exact.
    - Frames.  [FrameSpec]: reading is a reference parser of the stream, writing sends a
      prefix of the frame and all of it on success, under every chunking.
    - Jobs.  [JobSpec] and [JobOutcome]: records move forward only, terminal ones do not
      change, a cancelled one does not succeed, executions end, and a snapshot can always be
      sent.  [JobOps]: every operation, on every branch.
    - Service.  [ServiceSystem], [ServiceLink] and [ServiceSpec] have the invariants of the
      sessions, of the calls and of what they share with the registry; [SessionSpec] and
      [Dispatch] the promises: capacity, settled and complete closes, responses that answer
      their request, nothing admitted after shutdown.  [Progress]: every call comes to an
      answer, so there is no deadlock; [Quit]: the joins of its destructor return.
      [StartupSpec]: the service starts whole or leaves no worker behind.
    - Sockets.  [UnixSocketSpec]: descriptors are closed once and never lost, no foreign
      socket node is removed, only peers of the same user come in.
    - Server.  [ServerSpec]: handlers and connections are accounted for exactly.
      [ServerTalk]: every connection is answered in order, each request once, with its own
      response.  [ServerLife]: the service is destroyed only when nobody uses it.
      [ServerStop] and [ServerEnd]: no peer can hold up a stop, and a server that was asked to
      stop comes to the end of its destructor by itself.  [ServerShut]: when the listener is
      closed.
    - The server on its world.  [HostedSpec] has what a step does to descriptors,
      [HostedLife] that each descriptor has one owner from the construction to the end and
      that the system calls never hold the server back, [HostedFiles] that the socket node
      is there exactly while the server serves.
    - Client and entry point.  [ClientSpec]: a call is one exchange or the end of the
      connection, and it meets the server's half of the protocol.  [DaemonMainSpec]: accepted
      options are usable, and usable ones can be written down.  [DaemonSpec] and
      [DaemonLife]: the waiter never uses a server that is gone, no managed signal kills the
      process while it serves, and the exit code tells what happened.  [DaemonAsk] and
      [DaemonEnd]: once asked, by a signal or a peer, the process exits.
    - Both ends and the whole.  [EndToEnd]: an answered call of a client returns the response
      that [dispatch] gave to exactly its request.  [DeploymentSpec] and [DeploymentFiles]:
      the daemon with its system calls is the process of [Daemon], is not held back by what
      other processes do, and leaves neither a descriptor nor a file behind.  [HostedShut] and
      [DeploymentEnd]: once the listener is closed [accept] reports it, and a daemon that was
      asked to stop comes to its exit with its system calls.

    [RefKernel] is a kernel and a runtime that satisfy every hypothesis; the [*Witness] files
    run the properties there on concrete inputs.  [Findings] runs the cases in which the code
    departs from its comments.

    ** Bounds and fuel

    Machine integers are [Z] with their range in the statement ([is_uint]) and wrap-around
    written out ([mod 2 ^ w]) where the code computes with them.  The loops over a stream
    take as fuel the number of answers the script can give, plus one ([read_weight],
    [write_weight]); [read_frame_fuel] and [write_frame_fuel] show that it suffices.  Retried
    system calls take the length of the schedule.  The loops of the codec recur on the bytes
    or on a count read under the fence.  Nothing else needs fuel: threads are step relations.

    ** What is taken from elsewhere

    [KernelLaws] (the error codes are distinct bytes, the members of a valid [Value] can be
    published again) and [RuntimeLaws] (a fresh cancellation source is not cancelled, a
    cancelled one is) are the documented behaviour of the installed kernel; compilation and
    execution answer anything or throw anything.  Where a property needs an honest kernel it
    says so ([honest_event]).  [Posix] takes the constants of the system headers, with
    different errors having different numbers ([errno_distinct]).

    ** Not modelled

    The kernel itself, since its sources are not in the repository.  The blocks compiled
    only into the test runtime, and the counters only tests read.  The socket code for
    systems other than Linux.  Failing allocations in the diagnostics of the codec and of
    the sockets, but for the exception they raise in the accept loop; elsewhere they are
    inputs of the steps.  Handlers of signals: the managed ones have their default
    disposition.  In [Deployment], an exception of the constructor that is no
    [std::exception].  Weak memory: the atomics are taken as sequentially consistent.  A
    [recv] or [send] of the server is part of one step of its thread, with its blocking;
    time is not modelled.  What no definition names in the modelled files is declarations
    with their comments, deleted members, accessors and, in the test runtime, the hooks;
    every operation that changes state is a definition. *)
From Stdlib Require Import Ascii.
From stdpp Require Export base numbers strings list option gmap sorting.
From Stdlib Require Export ZArith Lia.

#[export] Set Default Goal Selector "!".

Open Scope Z_scope.

(** ** Bytes and machine integers *)

(** A [std::vector<std::uint8_t>], and the characters of a [std::string]. *)
Abbreviation bytes := (list Z).

(** [size()] of a vector or of a string. *)
Definition zlen {A} (l : list A) : Z := Z.of_nat (length l).

(** The characters of a literal. *)
Fixpoint lit (s : string) : bytes :=
  match s with
  | EmptyString => []
  | String c s' => Z.of_N (N_of_ascii c) :: lit s'
  end.

(** A [w]-bit unsigned value, and a 64-bit two's complement one. *)
Definition is_uint (w v : Z) : Prop := 0 <= v < 2 ^ w.
Definition is_int64 (v : Z) : Prop := - 2 ^ 63 <= v < 2 ^ 63.

#[export] Instance is_uint_dec w v : Decision (is_uint w v).
Proof. unfold is_uint. apply _. Defined.
#[export] Instance is_int64_dec v : Decision (is_int64 v).
Proof. unfold is_int64. apply _. Defined.

(** ** Outcomes: C++ functions that return or throw *)

Inductive outcome (E A : Type) : Type :=
| Return (a : A)
| Throw (e : E).
Arguments Return {E A} a.
Arguments Throw {E A} e.

(** A member function that reads and updates an object of type [S], and returns
    or throws. After a throw the object is not observed. *)
Definition exec (E S A : Type) : Type := S -> outcome E (A * S).

#[export] Instance exec_ret E S : MRet (exec E S) := fun A a s => Return (a, s).
#[export] Instance exec_bind E S : MBind (exec E S) :=
  fun A B f m s => match m s with
                   | Return (a, s') => f a s'
                   | Throw e => Throw e
                   end.

Definition throw {E S A} (e : E) : exec E S A := fun _ => Throw e.

(** [if (c) throw e;] *)
Definition throw_if {E S} (c : bool) (e : E) : exec E S unit :=
  if c then throw e else mret tt.

(** The range-for loop over a container. *)
Fixpoint for_each {E S A} (f : A -> exec E S unit) (l : list A) : exec E S unit :=
  match l with
  | [] => mret tt
  | x :: l' => _ ← f x; for_each f l'
  end.

(** A counted loop that threads the object it fills. *)
Fixpoint iterate {E S A} (n : nat) (body : A -> exec E S A) (acc : A) : exec E S A :=
  match n with
  | O => mret acc
  | S n' => acc' ← body acc; iterate n' body acc'
  end.

(** A counted loop whose body is pushed back into a vector. *)
Definition collect {E S A} (n : nat) (m : exec E S A) : exec E S (list A) :=
  iterate n (fun acc => x ← m; mret (acc ++ [x])) [].

(** [static_cast<Result<T>>]-free reading of an outcome. *)
Definition outcome_ok {E A} (o : outcome E A) : bool :=
  match o with Return _ => true | Throw _ => false end.

(** ** Automation *)

Create HintDb photo discriminated.

(** Splits a computation in a hypothesis at its first bind or test. *)
Ltac exec_step H :=
  cbv [mbind exec_bind mret exec_ret throw throw_if] in H; cbn beta iota in H.

Ltac case_match_in H :=
  match type of H with
  | context [match ?x with _ => _ end] => destruct x eqn:?; try discriminate H
  end.

(** [0 < 2 ^ n] and friends, so that [lia] can use wire widths. *)
Lemma pow2_pos n : 0 <= n -> 0 < 2 ^ n.
Proof. intros. apply Z.pow_pos_nonneg; lia. Qed.

Lemma zlen_nonneg {A} (l : list A) : 0 <= zlen l.
Proof. unfold zlen. lia. Qed.

Lemma zlen_nil {A} : zlen (@nil A) = 0.
Proof. reflexivity. Qed.

Lemma zlen_cons {A} (x : A) l : zlen (x :: l) = 1 + zlen l.
Proof. unfold zlen. cbn [length]. lia. Qed.

Lemma zlen_app {A} (l1 l2 : list A) : zlen (l1 ++ l2) = zlen l1 + zlen l2.
Proof. unfold zlen. rewrite length_app. lia. Qed.

Lemma zlen_to_nat {A} (l : list A) : Z.to_nat (zlen l) = length l.
Proof. unfold zlen. lia. Qed.

#[export] Hint Resolve zlen_nonneg : photo.
Create Rewrite HintDb zlen.
#[export] Hint Rewrite @zlen_nil @zlen_cons @zlen_app : zlen.

(** Membership in an explicit list. *)
Ltac known_code := repeat first [by left | right].

(** Normalises sizes and calls [lia]. *)
Ltac zlen_lia :=
  autorewrite with zlen in *;
  repeat match goal with
         | _ : context [zlen ?l] |- _ =>
           lazymatch goal with
           | _ : 0 <= zlen l |- _ => fail
           | _ => pose proof (zlen_nonneg l)
           end
         | |- context [zlen ?l] =>
           lazymatch goal with
           | _ : 0 <= zlen l |- _ => fail
           | _ => pose proof (zlen_nonneg l)
           end
         end; lia.

(** ** Bit arithmetic *)

(** Disjoint fields: [lor] is addition. *)
Lemma lor_shiftl_add a b n :
  0 <= n -> 0 <= a < 2 ^ n -> Z.lor a (Z.shiftl b n) = a + b * 2 ^ n.
Proof.
  intros Hn Ha. pose proof (Z.add_lor_land a (Z.shiftl b n)) as E.
  rewrite Z.shiftl_mul_pow2 in * by done.
  replace (Z.land a (b * 2 ^ n)) with 0 in E; [lia|].
  symmetry. apply Z.bits_inj'. intros i Hi. rewrite Z.land_spec, Z.bits_0.
  destruct (Z.lt_ge_cases i n).
  - rewrite Z.mul_pow2_bits_low by lia. apply andb_false_r.
  - rewrite <- (Z.mod_small a (2 ^ n)) by done.
    by rewrite Z.mod_pow2_bits_high by lia.
Qed.

(** Appending the next byte of [v] to its low [n] bits. *)
Lemma low_bits_snoc v n :
  0 <= n -> Z.lor (v mod 2 ^ n) (Z.shiftl (Z.land (Z.shiftr v n) 0xff) n) = v mod 2 ^ (n + 8).
Proof.
  intros Hn. pose proof (pow2_pos n Hn).
  rewrite lor_shiftl_add by (first [done | apply Z.mod_pos_bound; lia]).
  change 0xff with (Z.ones 8). rewrite Z.land_ones, Z.shiftr_div_pow2 by lia.
  rewrite Z.pow_add_r, Z.rem_mul_r by lia. lia.
Qed.

(** A strictly increasing list has no duplicates. *)
Lemma strongly_sorted_nodup (l : list nat) : StronglySorted lt l -> NoDup l.
Proof.
  induction 1 as [|x l Hl IH Hx]; constructor; [|done]. intros Hin.
  rewrite Forall_forall in Hx. specialize (Hx x Hin). lia.
Qed.
