(* ===== verification/OrdMap.v ===== *)
(** Ordered maps: the [std::map]s of the public data model.

    The codec and the registries iterate over [std::map]s in key order, so a map
    is its list of bindings in increasing key order; [emplace] inserts at the
    key's place and reports an existing key, as [std::map::emplace(..).second]
    does.  [sorted_map] is the invariant of the container. *)
From S2P Require Import Prelude.

(** [std::less<Key>]. *)
Class KeyOrder (K : Type) := key_lt : K -> K -> bool.

Class KeyOrderLaws (K : Type) `{KeyOrder K} : Prop := {
  key_lt_irrefl k : key_lt k k = false;
  key_lt_trans k1 k2 k3 : key_lt k1 k2 = true -> key_lt k2 k3 = true -> key_lt k1 k3 = true;
  key_lt_total k1 k2 : key_lt k1 k2 = false -> key_lt k2 k1 = false -> k1 = k2;
}.

#[export] Instance Z_order : KeyOrder Z := Z.ltb.
#[export] Instance Z_order_laws : KeyOrderLaws Z.
Proof.
  split; unfold key_lt, Z_order; intros.
  - apply Z.ltb_irrefl.
  - rewrite !Z.ltb_lt in *. lia.
  - rewrite !Z.ltb_ge in *. lia.
Qed.

(** [std::string::compare]: characters compare as unsigned bytes. *)
Fixpoint bytes_lt (s t : bytes) : bool :=
  match s, t with
  | _, [] => false
  | [], _ :: _ => true
  | a :: s', b :: t' => (a <? b) || ((a =? b) && bytes_lt s' t')
  end.
#[export] Instance bytes_order : KeyOrder bytes := bytes_lt.
#[export] Instance bytes_order_laws : KeyOrderLaws bytes.
Proof.
  split; unfold key_lt, bytes_order.
  - intros k. induction k as [|a k IH]; [done|]. cbn. rewrite IH. lia.
  - intros k1. induction k1 as [|a k1 IH]; intros [|b k2] [|c k3]; try done.
    cbn. rewrite !orb_true_iff, !andb_true_iff. intros H1 H2.
    destruct H1 as [H1|[H1 H1']]; [left; destruct H2 as [H2|[H2 _]]; lia|].
    destruct H2 as [H2|[H2 H2']]; [left; lia|]. right. split; [lia|eauto].
  - intros k1. induction k1 as [|a k1 IH]; intros [|b k2]; try done.
    cbn. rewrite !orb_false_iff, !andb_false_iff. intros [H1 H1'] [H2 H2'].
    assert (a = b) as -> by lia. f_equal.
    apply IH; [destruct H1'|destruct H2']; (done || lia).
Qed.

Section OrdMap.
Context {K V : Type} `{KeyOrderLaws K}.

(** [m.emplace(k, v).second]: [None] when the key exists and the map is left alone. *)
Fixpoint emplace (k : K) (v : V) (m : list (K * V)) : option (list (K * V)) :=
  match m with
  | [] => Some [(k, v)]
  | (k', v') :: m' =>
    if key_lt k k' then Some ((k, v) :: m)
    else if key_lt k' k then option_map (cons (k', v')) (emplace k v m')
    else None
  end.

(** Every key of [m] is below [k], or above it. *)
Definition below (k : K) (m : list (K * V)) : Prop :=
  Forall (fun p => key_lt p.1 k = true) m.
Definition above (k : K) (m : list (K * V)) : Prop :=
  Forall (fun p => key_lt k p.1 = true) m.

(** The container invariant: strictly increasing keys. *)
Fixpoint sorted_map (m : list (K * V)) : Prop :=
  match m with
  | [] => True
  | (k, _) :: m' => above k m' /\ sorted_map m'
  end.

Lemma above_trans k k' m : key_lt k k' = true -> above k' m -> above k m.
Proof.
  intros Hlt Hm. eapply Forall_impl; [exact Hm|]. intros p Hp. by eapply key_lt_trans.
Qed.

Lemma emplace_above k k' v m m' :
  emplace k v m = Some m' -> key_lt k' k = true -> above k' m -> above k' m'.
Proof.
  revert m'. induction m as [|[k2 v2] m IH]; cbn; intros m' He Hlt Hm.
  - injection He as <-. by repeat constructor.
  - destruct (key_lt k k2) eqn:E1; [injection He as <-; by constructor|].
    destruct (key_lt k2 k) eqn:E2; [|done].
    destruct (emplace k v m) as [m2|]; [|done]. injection He as <-.
    inversion Hm; subst. constructor; [done|]. by apply IH.
Qed.

(** Emplacing keeps the container invariant. *)
Lemma emplace_sorted k v m m' :
  emplace k v m = Some m' -> sorted_map m -> sorted_map m'.
Proof.
  revert m'. induction m as [|[k2 v2] m IH]; cbn; intros m' He Hm.
  - injection He as <-. cbn. split; [constructor|done].
  - destruct Hm as [Ha Hs]. destruct (key_lt k k2) eqn:E1.
    + injection He as <-. cbn. split; [|done].
      constructor; [done|]. by eapply above_trans.
    + destruct (key_lt k2 k) eqn:E2; [|done].
      destruct (emplace k v m) as [m2|] eqn:Em; [|done]. injection He as <-.
      cbn. split; [by eapply emplace_above|]. by apply IH.
Qed.

(** Emplacing a key above every key of the map appends its binding. *)
Lemma emplace_last k v m : below k m -> emplace k v m = Some (m ++ [(k, v)]).
Proof.
  induction m as [|[k2 v2] m IH]; cbn; intros Hb; [done|].
  inversion Hb as [|? ? Hlt Hb']; subst. cbn in Hlt.
  destruct (key_lt k k2) eqn:E1.
  { pose proof (key_lt_trans _ _ _ E1 Hlt) as E. by rewrite key_lt_irrefl in E. }
  rewrite Hlt, IH by done. done.
Qed.

(** The bindings of an emplaced map. *)
Lemma emplace_elem k v m m' p :
  emplace k v m = Some m' -> p ∈ m' <-> p = (k, v) \/ p ∈ m.
Proof.
  revert m'. induction m as [|[k2 v2] m IH]; cbn; intros m' He.
  - injection He as <-. rewrite list_elem_of_singleton. split; [by left|].
    intros [->|Hp]; [done|]. by apply elem_of_nil in Hp.
  - destruct (key_lt k k2); [injection He as <-; by rewrite elem_of_cons|].
    destruct (key_lt k2 k); [|done].
    destruct (emplace k v m) as [m2|]; [|done]. injection He as <-.
    rewrite !elem_of_cons, IH by done. tauto.
Qed.

Lemma emplace_length k v m m' : emplace k v m = Some m' -> length m' = S (length m).
Proof.
  revert m'. induction m as [|[k2 v2] m IH]; cbn; intros m' He.
  - by injection He as <-.
  - destruct (key_lt k k2); [by injection He as <-|].
    destruct (key_lt k2 k); [|done].
    destruct (emplace k v m) as [m2|]; [|done]. injection He as <-. cbn.
    by rewrite (IH m2).
Qed.

Lemma sorted_map_app m1 m2 :
  sorted_map (m1 ++ m2) <->
  sorted_map m1 /\ sorted_map m2 /\ Forall (fun p => below p.1 m1) m2.
Proof.
  induction m1 as [|[k v] m1 IH]; cbn.
  - split; [|tauto]. intros Hs. split_and!; [done..|]. apply Forall_true. intros. constructor.
  - unfold above, below in *. rewrite Forall_app, IH, !Forall_forall.
    setoid_rewrite Forall_cons. firstorder.
Qed.

Lemma sorted_map_snoc m k v : sorted_map (m ++ [(k, v)]) <-> sorted_map m /\ below k m.
Proof. rewrite sorted_map_app, Forall_singleton. cbn. unfold above. intuition. Qed.

(** [m.find(k)], and [m.erase(m.find(k))]. *)
Fixpoint map_find (k : K) (m : list (K * V)) : option V :=
  match m with
  | [] => None
  | (k', v) :: m' =>
    if key_lt k k' then None else if key_lt k' k then map_find k m' else Some v
  end.

Fixpoint map_erase (k : K) (m : list (K * V)) : list (K * V) :=
  match m with
  | [] => []
  | (k', v) :: m' =>
    if key_lt k k' then m else if key_lt k' k then (k', v) :: map_erase k m' else m'
  end.

Lemma above_elem k m p : above k m -> p ∈ m -> key_lt k p.1 = true.
Proof. unfold above. rewrite Forall_forall. auto. Qed.

Lemma sorted_map_unique m k v v' : sorted_map m -> (k, v) ∈ m -> (k, v') ∈ m -> v = v'.
Proof.
  induction m as [|[k0 v0] m IH]; intros Hs Hv Hv'; [by apply not_elem_of_nil in Hv|].
  destruct Hs as [Ha Hs]. apply elem_of_cons in Hv as [Hv|Hv], Hv' as [Hv'|Hv']; simplify_eq; auto.
  - apply (above_elem _ _ _ Ha) in Hv'. cbn in Hv'. by rewrite key_lt_irrefl in Hv'.
  - apply (above_elem _ _ _ Ha) in Hv. cbn in Hv. by rewrite key_lt_irrefl in Hv.
Qed.

Lemma map_find_elem m k v : sorted_map m -> map_find k m = Some v <-> (k, v) ∈ m.
Proof.
  induction m as [|[k0 v0] m IH]; intros Hs; cbn.
  { split; [done|]. intros Hv. by apply not_elem_of_nil in Hv. }
  destruct Hs as [Ha Hs]. rewrite elem_of_cons.
  destruct (key_lt k k0) eqn:Hlt; [|destruct (key_lt k0 k) eqn:Hgt].
  - split; [done|]. intros [[= -> ->]|Hv]; [by rewrite key_lt_irrefl in Hlt|].
    apply (above_elem _ _ _ Ha) in Hv. cbn in Hv.
    pose proof (key_lt_trans _ _ _ Hlt Hv) as Hc. by rewrite key_lt_irrefl in Hc.
  - rewrite IH by done. split; [by right|]. intros [[= -> ->]|Hv]; [|done].
    by rewrite key_lt_irrefl in Hgt.
  - pose proof (key_lt_total _ _ Hlt Hgt) as ->. split; [intros [= ->]; by left|].
    intros [[= ->]|Hv]; [done|]. apply (above_elem _ _ _ Ha) in Hv. cbn in Hv.
    by rewrite key_lt_irrefl in Hv.
Qed.

Lemma map_find_none m k v : sorted_map m -> map_find k m = None -> (k, v) ∉ m.
Proof. intros Hs Hf Hv. apply (map_find_elem _ _ _ Hs) in Hv. congruence. Qed.

Lemma map_erase_elem m k p : sorted_map m -> p ∈ map_erase k m <-> p ∈ m /\ p.1 <> k.
Proof.
  induction m as [|[k0 v0] m IH]; intros Hs; cbn.
  { split; [intros Hp; by apply not_elem_of_nil in Hp|]. by intros [Hp _]. }
  destruct Hs as [Ha Hs].
  destruct (key_lt k k0) eqn:Hlt; [|destruct (key_lt k0 k) eqn:Hgt].
  - split; [|by intros []]. intros Hp. split; [done|]. intros <-. apply elem_of_cons in Hp as [->|Hp].
    + cbn in Hlt. by rewrite key_lt_irrefl in Hlt.
    + pose proof (key_lt_trans _ _ _ Hlt (above_elem _ _ _ Ha Hp)) as Hc.
      by rewrite key_lt_irrefl in Hc.
  - rewrite !elem_of_cons, IH by done. split; [|tauto].
    intros [->|[? ?]]; [|tauto]. split; [by left|]. cbn. intros ->. by rewrite key_lt_irrefl in Hgt.
  - pose proof (key_lt_total _ _ Hlt Hgt) as ->. rewrite elem_of_cons. split.
    + intros Hp. split; [by right|]. intros Hk. apply (above_elem _ _ _ Ha) in Hp.
      by rewrite Hk, key_lt_irrefl in Hp.
    + intros [[->|Hp] Hk]; [done|done].
Qed.

Lemma map_erase_sublist m k : sublist (map_erase k m) m.
Proof.
  induction m as [|[k0 v0] m IH]; cbn; [done|].
  destruct (key_lt k k0); [done|]. destruct (key_lt k0 k); by constructor.
Qed.

Lemma sorted_map_sublist m m' : sublist m m' -> sorted_map m' -> sorted_map m.
Proof.
  induction 1 as [|[k v] m m' Hsub IH|[k v] m m' Hsub IH]; [done|..]; intros [Ha Hs].
  - split; [|by apply IH]. unfold above in *. rewrite Forall_forall in *. intros p Hp. apply Ha.
    by eapply elem_of_submseteq, sublist_submseteq.
  - by apply IH.
Qed.

Lemma emplace_none m k v : sorted_map m -> emplace k v m = None <-> is_Some (map_find k m).
Proof.
  induction m as [|[k0 v0] m IH]; cbn; intros Hs; [split; [done|by intros []]|].
  destruct (key_lt k k0); [split; [done|by intros []]|].
  destruct (key_lt k0 k); [|split; [eauto|done]].
  rewrite <- IH by apply Hs. by destruct (emplace k v m).
Qed.

(** Erasing undoes an insertion. *)
Lemma map_erase_emplace m m' k v :
  sorted_map m -> emplace k v m = Some m' -> map_erase k m' = m.
Proof.
  revert m'. induction m as [|[k0 v0] m IH]; cbn; intros m' Hs He.
  - injection He as <-. cbn. by rewrite key_lt_irrefl.
  - destruct (key_lt k k0) eqn:Hlt.
    + injection He as <-. cbn. by rewrite key_lt_irrefl.
    + destruct (key_lt k0 k) eqn:Hgt; [|done].
      destruct (emplace k v m) as [m1|] eqn:Hm; [|done]. injection He as <-. cbn.
      rewrite Hlt, Hgt. f_equal. apply (IH m1); [apply Hs|done].
Qed.
End OrdMap.
