(* ===== verification/Kernel.v ===== *)
(** The installed Photospider kernel, as the daemon uses it.

    The kernel's headers ([photospider/core/status.hpp],
    [photospider/compiler/workflow_document.hpp],
    [photospider/execution/execution.hpp]) are not part of the repository.  What
    the daemon's sources read of them is a parameter: the class [Kernel] holds
    the enumerators, the opaque types and the functions, the records below hold
    the members the sources name, and [KernelLaws] states what they rely on. *)
From S2P Require Import Prelude OrdMap.

(** The enumerators of [ErrorCode] the daemon names, as their underlying bytes. *)
Class ErrorCodes : Type := {
  Ok : Z;
  InvalidArgument : Z;
  NotFound : Z;
  ResourceExhausted : Z;
  Cancelled : Z;
  Internal : Z;
}.

(** They are distinct bytes, and [Internal] is the greatest of the enumeration
    (the codec rejects every raw code above it). *)
Class ErrorCodesLaws (E : ErrorCodes) : Prop := {
  codes_distinct :
    NoDup [Ok; InvalidArgument; NotFound; ResourceExhausted; Cancelled; Internal];
  codes_bounded :
    Forall (fun c => 0 <= c <= Internal)
      [Ok; InvalidArgument; NotFound; ResourceExhausted; Cancelled; Internal];
  internal_u8 : Internal < 2 ^ 8;
}.

(** Decides equalities between error codes. *)
Ltac codes :=
  let H := fresh in
  pose proof codes_distinct as H; rewrite !NoDup_cons, !not_elem_of_cons in H;
  destruct_and? H; unfold not in *;
  first [ congruence | lia | exfalso; eauto with congruence ].

(** [ps::Status]: a category and a diagnostic. *)
Record Status := mk_Status { code : Z; message : bytes }.

#[export] Instance Status_eq_dec : EqDecision Status.
Proof. solve_decision. Defined.

Section Status.
Context `{ErrorCodes}.

Definition success : Status := mk_Status Ok [].
Definition failure (c : Z) (m : bytes) : Status := mk_Status c m.
Definition status_ok (s : Status) : bool := code s =? Ok.
End Status.

(** A failure is not [Ok]. *)
Lemma failure_fails `{ErrorCodesLaws} c m :
  c ∈ [InvalidArgument; NotFound; ResourceExhausted; Cancelled; Internal] ->
  status_ok (failure c m) = false.
Proof.
  intros Hc. apply Z.eqb_neq. cbn. pose proof codes_distinct as Hnd.
  apply NoDup_cons in Hnd as [Hnd _]. by intros ->.
Qed.

(** [ps::Result<T>]. *)
Inductive Result (T : Type) : Type :=
| ROk (value : T)
| RErr (status : Status).
Arguments ROk {T} value.
Arguments RErr {T} status.

Definition result_ok {T} (r : Result T) : bool :=
  match r with ROk _ => true | RErr _ => false end.

Definition result_status `{ErrorCodes} {T} (r : Result T) : Status :=
  match r with ROk _ => success | RErr s => s end.

(** A typed source parameter; the [double] is its binary64 bit pattern. *)
Inductive ParameterValue :=
| PInt64 (v : Z)
| PDouble (bits : Z)
| PBool (b : bool)
| PString (s : bytes).

#[export] Instance ParameterValue_eq_dec : EqDecision ParameterValue.
Proof. solve_decision. Defined.

Record WorkflowNodeOutput := mk_WorkflowNodeOutput {
  source_node : Z;
  source_port : bytes;
}.

Record WorkflowOutput := mk_WorkflowOutput {
  output_name : bytes;
  output_node_id : Z;
  output_port : bytes;
}.

Record RegionDimension := mk_RegionDimension { dim_offset : Z; dim_extent : Z }.

Record ValueDescriptor := mk_ValueDescriptor { element_type : Z; shape : list Z }.

(** [StridedLayout]; the aggregate's third member defaults to an empty origin. *)
Record StridedLayout := mk_StridedLayout {
  byte_offset : Z;
  byte_strides : list Z;
  origin : list Z;
}.

Record ValueFacet := mk_ValueFacet {
  facet_key : bytes;
  facet_version : Z;
  facet_payload : bytes;
}.

Record OperationTiming := mk_OperationTiming {
  timing_node_id : Z;
  timing_backend : Z;
  duration_us : Z;
  timing_outcome : Z;
}.

Record ExecutionDiagnostics := mk_ExecutionDiagnostics {
  execute_us : Z;
  selected_backends : list (Z * Z);
  transfer_count : Z;
  transfer_bytes : Z;
  peak_live_bytes : Z;
  fallback_reasons : list bytes;
  operation_timings : list OperationTiming;
  plan_digest : bytes;
  result_digest : bytes;
}.

(** The kernel's opaque types, enumerators and functions. *)
Class Kernel : Type := {
  kernel_codes :: ErrorCodes;
  (** A workflow input declaration, and a node input that is no node output. *)
  InputDeclaration : Type;
  RuntimeBinding : Type;
  (** [WorkflowDocument{}.schema_version]. *)
  default_schema_version : Z;
  (** [ElementType] and [Backend] enumerators. *)
  ElementType_UInt8 : Z;
  ElementType_Float32 : Z;
  ElementType_Float64 : Z;
  Backend_Cpu : Z;
  Backend_Gpu : Z;
  (** The immutable runtime [Value] and its observers. *)
  Value : Type;
  Value_valid : Value -> bool;
  Value_descriptor : Value -> ValueDescriptor;
  Value_region : Value -> list RegionDimension;
  Value_layout : Value -> StridedLayout;
  Value_facets : Value -> list ValueFacet;
  Value_bytes : Value -> bytes;
  (** [Region(dimensions)]: [Some what] when the constructor throws
      [std::invalid_argument]. *)
  Region_invalid : list RegionDimension -> option bytes;
  (** [Value::create]. *)
  Value_create :
    ValueDescriptor -> list RegionDimension -> StridedLayout -> bytes ->
    list ValueFacet -> Result Value;
}.

(** [WorkflowInput]: the alternative IPC carries, and the others. *)
Inductive WorkflowInput `{Kernel} :=
| NodeOutput (source : WorkflowNodeOutput)
| OtherInput (binding : RuntimeBinding).

Record WorkflowNode `{Kernel} := mk_WorkflowNode {
  node_id : Z;
  operation : bytes;
  node_inputs : list WorkflowInput;
  parameters : list (bytes * ParameterValue);
}.

Record WorkflowDocument `{Kernel} := mk_WorkflowDocument {
  schema_version : Z;
  doc_inputs : list InputDeclaration;
  nodes : list WorkflowNode;
  outputs : list WorkflowOutput;
}.

Record ExecutionResult `{Kernel} := mk_ExecutionResult {
  values : list (bytes * Value);
  diagnostics : ExecutionDiagnostics;
}.

Arguments NodeOutput {_} source.
Arguments OtherInput {_} binding.
Arguments mk_WorkflowNode {_} node_id operation node_inputs parameters.
Arguments mk_WorkflowDocument {_} schema_version doc_inputs nodes outputs.
Arguments mk_ExecutionResult {_} values diagnostics.

(** Default-constructed aggregates. *)
Definition default_document `{Kernel} : WorkflowDocument :=
  mk_WorkflowDocument default_schema_version [] [] [].
Definition default_diagnostics : ExecutionDiagnostics :=
  mk_ExecutionDiagnostics 0 [] 0 0 0 [] [] [] [].
Definition default_execution_result `{Kernel} : ExecutionResult :=
  mk_ExecutionResult [] default_diagnostics.

(** The part of a [Value] that IPC v3 carries. *)
Record WireValue := mk_WireValue {
  wire_descriptor : ValueDescriptor;
  wire_region : list RegionDimension;
  wire_offset : Z;
  wire_strides : list Z;
  wire_facets : list ValueFacet;
  wire_bytes : bytes;
}.

Definition wire_view `{Kernel} (v : Value) : WireValue :=
  mk_WireValue (Value_descriptor v) (Value_region v)
    (byte_offset (Value_layout v)) (byte_strides (Value_layout v))
    (Value_facets v) (Value_bytes v).

(** [encode_value] accepts the storage origin and the element type. *)
Definition wire_supported `{Kernel} (v : Value) : Prop :=
  element_type (Value_descriptor v) <> ElementType_Float32 /\
  Forall (fun o => o = 0) (origin (Value_layout v)).

(** A [Value] the two sides agree on: its members fit the wire's widths. *)
Record value_fits `{Kernel} (v : Value) : Prop := {
  fits_type : ElementType_UInt8 <= element_type (Value_descriptor v) <= ElementType_Float64;
  fits_rank : 1 <= zlen (shape (Value_descriptor v));
  fits_shape : Forall (is_uint 64) (shape (Value_descriptor v));
  fits_dims : length (Value_region v) = length (shape (Value_descriptor v));
  fits_region : Forall (fun d => is_uint 64 (dim_offset d) /\ is_uint 64 (dim_extent d))
                  (Value_region v);
  fits_offset : is_uint 64 (byte_offset (Value_layout v));
  fits_nstrides : length (byte_strides (Value_layout v)) = length (shape (Value_descriptor v));
  fits_strides : Forall is_int64 (byte_strides (Value_layout v));
  fits_facets : Forall (fun f => is_uint 32 (facet_version f)) (Value_facets v);
}.

(** What the daemon relies on. *)
Class KernelLaws (K : Kernel) : Prop := {
  kernel_codes_laws :: ErrorCodesLaws kernel_codes;
  element_types_u32 : 0 <= ElementType_UInt8 /\ ElementType_Float64 < 2 ^ 32;
  backends_u8 : is_uint 8 Backend_Cpu /\ is_uint 8 Backend_Gpu;
  schema_u32 : is_uint 32 default_schema_version;
  (** A valid [Value] of a supported type has a descriptor, Region and layout of
      one rank, with members of their declared types. *)
  valid_fits v :
    Value_valid v = true ->
    element_type (Value_descriptor v) <> ElementType_Float32 ->
    value_fits v;
  (** Republishing the members of a valid [Value] whose origins are zero
      succeeds, and gives a valid [Value] with those members. *)
  create_republishes v :
    Value_valid v = true -> wire_supported v ->
    Region_invalid (Value_region v) = None /\
    exists v',
      Value_create (Value_descriptor v) (Value_region v)
        (mk_StridedLayout (byte_offset (Value_layout v)) (byte_strides (Value_layout v)) [])
        (Value_bytes v) (Value_facets v) = ROk v' /\
      Value_valid v' = true /\ wire_supported v' /\ wire_view v' = wire_view v;
}.

(** ** The compiler and the execution context

    Compilation and execution are calls whose answer the model leaves open: any
    [kernel_answer], at any time. *)
Class Runtime `{Kernel} : Type := {
  (** The retained source graph of a namespace, built from its document. *)
  GraphContext : Type;
  make_graph : WorkflowDocument -> GraphContext;
  (** What compilation gives and execution takes. *)
  ExecutionPlan : Type;
  ExecutionMode : Type;
  CpuExact : ExecutionMode;
  MetalFp32 : ExecutionMode;
  default_mode : ExecutionMode;
  (** [CancellationSource]: requesting cancellation, and reading its token. *)
  CancellationSource : Type;
  fresh_source : CancellationSource;
  cancel_source : CancellationSource -> CancellationSource;
  token_cancelled : CancellationSource -> bool;
}.

Class RuntimeLaws `{Kernel} (R : Runtime) : Prop := {
  (** A new source is not cancelled, a cancelled one is, and stays so. *)
  fresh_not_cancelled : token_cancelled fresh_source = false;
  cancel_cancels c : token_cancelled (cancel_source c) = true;
}.

(** An exception as the fences classify it: [std::bad_alloc], another
    [std::exception] with its [what()] (null or text), or anything else. *)
Inductive exn :=
| BadAlloc
| StdException (what : option bytes)
| NonStandard.

Inductive kernel_answer (T : Type) : Type :=
| Answered (r : Result T)
| Raised (e : exn).
Arguments Answered {T} r.
Arguments Raised {T} e.
