(* ===== verification/Protocol.v ===== *)
(** The public protocol types ([include/photospider/ipc/protocol.hpp]) and the
    decoded requests and responses ([src/lib/ipc/codec.hpp]).

    An [enum class] with a fixed underlying type can hold any value of that type;
    [Unknown] carries a byte outside the enumerators, so that [raw] and [of_raw]
    are the two [static_cast]s. *)
From S2P Require Import Prelude OrdMap Kernel.

Definition kProtocolVersion : Z := 3.
Definition kMaximumFramePayloadBytes : Z := 4 * 1024 * 1024.

Record SessionId := mk_SessionId { session_instance : Z; session_value : Z }.
Record JobId := mk_JobId { job_instance : Z; job_value : Z }.

#[export] Instance SessionId_eq_dec : EqDecision SessionId.
Proof. solve_decision. Defined.
#[export] Instance JobId_eq_dec : EqDecision JobId.
Proof. solve_decision. Defined.

Definition default_SessionId := mk_SessionId 0 0.
Definition default_JobId := mk_JobId 0 0.

Module JobState.
Inductive t :=
| Queued
| Running
| Succeeded
| Failed
| Cancelled
| Unknown (raw_byte : Z).

#[global] Instance eq_dec : EqDecision t.
Proof. solve_decision. Defined.

Definition raw (s : t) : Z :=
  match s with
  | Queued => 1 | Running => 2 | Succeeded => 3 | Failed => 4 | Cancelled => 5
  | Unknown b => b
  end.

Definition of_raw (b : Z) : t :=
  if b =? 1 then Queued else if b =? 2 then Running else if b =? 3 then Succeeded
  else if b =? 4 then Failed else if b =? 5 then Cancelled else Unknown b.
End JobState.

Module Method.
Inductive t :=
| SessionCreate
| SessionClose
| JobSubmit
| JobStatus
| JobCancel
| JobResult
| JobRelease
| DaemonInfo
| DaemonShutdown
| Unknown (raw_byte : Z).

#[global] Instance eq_dec : EqDecision t.
Proof. solve_decision. Defined.

Definition raw (m : t) : Z :=
  match m with
  | SessionCreate => 1 | SessionClose => 2 | JobSubmit => 3 | JobStatus => 4
  | JobCancel => 5 | JobResult => 6 | JobRelease => 7 | DaemonInfo => 8
  | DaemonShutdown => 9 | Unknown b => b
  end.

Definition of_raw (b : Z) : t :=
  if b =? 1 then SessionCreate else if b =? 2 then SessionClose
  else if b =? 3 then JobSubmit else if b =? 4 then JobStatus
  else if b =? 5 then JobCancel else if b =? 6 then JobResult
  else if b =? 7 then JobRelease else if b =? 8 then DaemonInfo
  else if b =? 9 then DaemonShutdown else Unknown b.

(** A value of the enumeration, i.e. one of the nine enumerators or a byte that
    is none of them. *)
Definition wf (m : t) : Prop :=
  match m with Unknown b => ~ 1 <= b <= 9 | _ => True end.
End Method.

Record JobSubmitOptions := mk_JobSubmitOptions {
  allow_gpu : bool;
  maximum_parallelism : Z;
}.
Definition default_submit_options := mk_JobSubmitOptions false 0.

Record JobStatus := mk_JobStatus {
  js_job_id : JobId;
  js_session_id : SessionId;
  js_state : JobState.t;
  js_outcome : Status;
}.

Record DaemonInfo := mk_DaemonInfo {
  protocol_version : Z;
  instance_id : Z;
  service_version : bytes;
  transport : bytes;
  methods : list bytes;
  active_sessions : Z;
  active_jobs : Z;
  maximum_concurrency : Z;
  maximum_sessions : Z;
}.
Definition default_daemon_info : DaemonInfo :=
  mk_DaemonInfo kProtocolVersion 0 [] [] [] 0 0 0 0.

Section Messages.
Context `{Kernel}.

Definition default_job_status : JobStatus :=
  mk_JobStatus default_JobId default_SessionId JobState.Queued success.

Record Request := mk_Request {
  req_request_id : Z;
  req_method : Method.t;
  req_document : WorkflowDocument;
  req_session_id : SessionId;
  req_job_id : JobId;
  req_submit_options : JobSubmitOptions;
}.

Definition default_request : Request :=
  mk_Request 0 Method.DaemonInfo default_document default_SessionId default_JobId
    default_submit_options.

Record Response := mk_Response {
  resp_request_id : Z;
  resp_method : Method.t;
  resp_status : Status;
  resp_session_id : SessionId;
  resp_job_id : JobId;
  resp_job_status : JobStatus;
  resp_execution_result : ExecutionResult;
  resp_daemon_info : DaemonInfo;
  resp_shutdown_after_write : bool;
}.

Definition default_response : Response :=
  mk_Response 0 Method.DaemonInfo success default_SessionId default_JobId
    default_job_status default_execution_result default_daemon_info false.

(** A response header with every method payload at its default. *)
Definition response_header (id : Z) (m : Method.t) (s : Status) : Response :=
  mk_Response id m s default_SessionId default_JobId
    default_job_status default_execution_result default_daemon_info false.
End Messages.

(** ** The casts are inverse on the enumerations *)

Lemma method_of_raw_raw m : Method.wf m -> Method.of_raw (Method.raw m) = m.
Proof.
  destruct m; try done. cbn. intros Hb. unfold Method.of_raw.
  repeat case_match; try (exfalso; lia). done.
Qed.

Lemma method_raw_of_raw b : Method.raw (Method.of_raw b) = b.
Proof. unfold Method.of_raw. repeat case_match; cbn; lia. Qed.

Lemma job_state_of_raw_raw s :
  match s with JobState.Unknown b => ~ 1 <= b <= 5 | _ => True end ->
  JobState.of_raw (JobState.raw s) = s.
Proof.
  destruct s; try done. cbn. intros Hb. unfold JobState.of_raw.
  repeat case_match; try (exfalso; lia). done.
Qed.
