(* ===== verification/Utf8.v ===== *)
(** UTF-8 validation ([valid_utf8] of [src/lib/ipc/codec.cpp]) and the encoding
    form it recognises. *)
From S2P Require Import Prelude.

(** The lead byte: continuation count, initial scalar and least legal scalar. *)
Definition lead_byte (first : Z) : option (nat * Z * Z) :=
  if (0xc2 <=? first) && (first <=? 0xdf) then Some (1%nat, Z.land first 0x1f, 0x80)
  else if (0xe0 <=? first) && (first <=? 0xef) then Some (2%nat, Z.land first 0x0f, 0x800)
  else if (0xf0 <=? first) && (first <=? 0xf4) then Some (3%nat, Z.land first 0x07, 0x10000)
  else None.

(** The continuation loop: [None] on a byte that is no continuation byte. *)
Fixpoint continuation_bytes (n : nat) (scalar : Z) (s : bytes) : option (Z * bytes) :=
  match n, s with
  | O, _ => Some (scalar, s)
  | S _, [] => None
  | S n', byte :: s' =>
    if negb (Z.land byte 0xc0 =? 0x80) then None
    else continuation_bytes n' (Z.lor (Z.shiftl scalar 6) (Z.land byte 0x3f)) s'
  end.

(** One iteration of the loop of [valid_utf8]: the bytes after the next scalar. *)
Definition utf8_step (first : Z) (s : bytes) : option bytes :=
  if first <=? 0x7f then Some s
  else
    match lead_byte first with
    | None => None
    | Some (continuation_count, scalar, minimum) =>
      if Nat.ltb (length s) continuation_count then None
      else
        match continuation_bytes continuation_count scalar s with
        | None => None
        | Some (scalar', rest) =>
          if (scalar' <? minimum) || (0x10ffff <? scalar')
             || ((0xd800 <=? scalar') && (scalar' <=? 0xdfff))
          then None
          else Some rest
        end
    end.

(** The loop, with the number of unread bytes as fuel. *)
Fixpoint utf8_loop (fuel : nat) (s : bytes) : bool :=
  match s with
  | [] => true
  | first :: s' =>
    match fuel with
    | O => false
    | S fuel' =>
      match utf8_step first s' with
      | None => false
      | Some rest => utf8_loop fuel' rest
      end
    end
  end.

Definition valid_utf8 (value : bytes) : bool := utf8_loop (length value) value.

(** ** The Unicode encoding form *)

(** A Unicode scalar value. *)
Definition is_scalar (c : Z) : Prop := 0 <= c <= 0x10ffff /\ ~ 0xd800 <= c <= 0xdfff.

(** Its UTF-8 form (Unicode, table 3-6). *)
Definition utf8_encode (c : Z) : bytes :=
  if c <=? 0x7f then [c]
  else if c <=? 0x7ff then [0xc0 + c / 64; 0x80 + c mod 64]
  else if c <=? 0xffff then [0xe0 + c / 4096; 0x80 + c / 64 mod 64; 0x80 + c mod 64]
  else [0xf0 + c / 262144; 0x80 + c / 4096 mod 64; 0x80 + c / 64 mod 64; 0x80 + c mod 64].

Definition utf8_text (scalars : list Z) : bytes := concat (map utf8_encode scalars).

(** ** [valid_utf8] recognises exactly the UTF-8 form of scalar sequences *)

Ltac Zify.zify_post_hook ::= Z.to_euclidean_division_equations.

(** Checks a boolean property of bytes by running it on all of them. *)
Lemma byte_check (P : Z -> bool) b :
  forallb P (seqZ 0 256) = true -> is_uint 8 b -> P b = true.
Proof.
  rewrite forallb_forall. intros HP Hb. apply HP.
  apply list_elem_of_In, elem_of_seqZ. unfold is_uint in Hb. lia.
Qed.

Lemma continuation_test b :
  is_uint 8 b -> (Z.land b 0xc0 =? 0x80) = (0x80 <=? b) && (b <? 0xc0).
Proof.
  intros Hb. apply eqb_prop.
  by apply (byte_check
    (fun b => eqb (Z.land b 0xc0 =? 0x80) ((0x80 <=? b) && (b <? 0xc0)))).
Qed.

Lemma push_bits scalar b :
  0 <= scalar -> is_uint 8 b ->
  Z.lor (Z.shiftl scalar 6) (Z.land b 0x3f) = scalar * 64 + b mod 64.
Proof.
  intros Hs Hb. change 0x3f with (Z.ones 6). rewrite Z.land_ones by lia.
  pose proof (Z.add_lor_land (Z.shiftl scalar 6) (b mod 2 ^ 6)) as E.
  rewrite Z.shiftl_mul_pow2 in * by lia.
  replace (Z.land (scalar * 2 ^ 6) (b mod 2 ^ 6)) with 0 in E; [lia|].
  symmetry. apply Z.bits_inj'. intros n Hn. rewrite Z.land_spec, Z.bits_0.
  destruct (Z.lt_ge_cases n 6).
  - by rewrite Z.mul_pow2_bits_low by lia.
  - rewrite (Z.mod_pow2_bits_high b 6 n) by lia. apply andb_false_r.
Qed.

(** The continuation loop reads [n] continuation bytes. *)
Lemma continuation_bytes_cons n scalar b s :
  is_uint 8 b -> 0 <= scalar ->
  continuation_bytes (S n) scalar (b :: s) =
  if (0x80 <=? b) && (b <? 0xc0)
  then continuation_bytes n (scalar * 64 + b mod 64) s else None.
Proof.
  intros Hb Hs. cbn [continuation_bytes]. rewrite continuation_test, push_bits by done.
  by destruct ((0x80 <=? b) && (b <? 0xc0)).
Qed.

Lemma lead_byte_lands first :
  lead_byte first =
  if (0xc2 <=? first) && (first <=? 0xdf) then Some (1%nat, first mod 32, 0x80)
  else if (0xe0 <=? first) && (first <=? 0xef) then Some (2%nat, first mod 16, 0x800)
  else if (0xf0 <=? first) && (first <=? 0xf4) then Some (3%nat, first mod 8, 0x10000)
  else None.
Proof.
  unfold lead_byte.
  change 0x1f with (Z.ones 5). change 0x0f with (Z.ones 4). change 0x07 with (Z.ones 3).
  by rewrite !Z.land_ones by lia.
Qed.

(** Decides the boolean guards of a goal by arithmetic, from the outside in. *)
Ltac decide_guards :=
  repeat match goal with
         | |- context [if ?c then _ else _] =>
           first [ replace c with true by lia | replace c with false by lia ]; cbn iota
         end.

(** One step of the loop, for each lead byte. *)
Lemma utf8_step_1 first s : first <= 0x7f -> utf8_step first s = Some s.
Proof. intros. unfold utf8_step. by decide_guards. Qed.

Lemma utf8_step_2 first b1 s :
  0xc2 <= first <= 0xdf -> 0x80 <= b1 < 0xc0 -> utf8_step first (b1 :: s) = Some s.
Proof.
  intros. unfold utf8_step. rewrite lead_byte_lands. decide_guards.
  rewrite continuation_bytes_cons by (unfold is_uint; lia). decide_guards.
  cbn [continuation_bytes length Nat.ltb Nat.leb]. by decide_guards.
Qed.

Lemma utf8_step_3 first b1 b2 s c :
  0xe0 <= first <= 0xef -> 0x80 <= b1 < 0xc0 -> 0x80 <= b2 < 0xc0 ->
  c = (first mod 16 * 64 + b1 mod 64) * 64 + b2 mod 64 ->
  utf8_step first (b1 :: b2 :: s) =
  if (c <? 0x800) || (0xd800 <=? c) && (c <=? 0xdfff) then None else Some s.
Proof.
  intros ??? ->. unfold utf8_step. rewrite lead_byte_lands. decide_guards.
  rewrite !continuation_bytes_cons by (unfold is_uint; lia). decide_guards.
  cbn [continuation_bytes length Nat.ltb Nat.leb].
  set (c := _ + b2 mod 64). replace (0x10ffff <? c) with false by (subst c; lia).
  by rewrite orb_false_r.
Qed.

Lemma utf8_step_4 first b1 b2 b3 s c :
  0xf0 <= first <= 0xf4 -> 0x80 <= b1 < 0xc0 -> 0x80 <= b2 < 0xc0 -> 0x80 <= b3 < 0xc0 ->
  c = ((first mod 8 * 64 + b1 mod 64) * 64 + b2 mod 64) * 64 + b3 mod 64 ->
  utf8_step first (b1 :: b2 :: b3 :: s) =
  if (c <? 0x10000) || (0x10ffff <? c) then None else Some s.
Proof.
  intros ???? ->. unfold utf8_step. rewrite lead_byte_lands. decide_guards.
  rewrite !continuation_bytes_cons by (unfold is_uint; lia). decide_guards.
  cbn [continuation_bytes length Nat.ltb Nat.leb].
  set (c := _ + b3 mod 64).
  destruct (c <? 0x10000) eqn:?; [done|]. cbn [orb].
  replace ((0xd800 <=? c) && (c <=? 0xdfff)) with false by lia.
  by rewrite orb_false_r.
Qed.

Lemma utf8_step_encode c first s rest :
  is_scalar c -> first :: s = utf8_encode c ++ rest -> utf8_step first s = Some rest.
Proof.
  intros Hc Hs. unfold is_scalar in Hc. unfold utf8_encode in Hs.
  destruct (Z.leb_spec c 0x7f); [|destruct (Z.leb_spec c 0x7ff);
    [|destruct (Z.leb_spec c 0xffff)]]; injection Hs as -> ->.
  - by apply utf8_step_1.
  - apply utf8_step_2; lia.
  - rewrite (utf8_step_3 _ _ _ _ c) by lia. by decide_guards.
  - rewrite (utf8_step_4 _ _ _ _ _ c) by lia. by decide_guards.
Qed.

(** Equality of explicit lists of bytes, element by element. *)
Ltac list_lia := repeat (apply (f_equal2 cons); [lia|]); reflexivity.

Lemma continuation_bytes_inv n scalar s scalar' rest :
  0 <= scalar -> Forall (is_uint 8) s ->
  continuation_bytes n scalar s = Some (scalar', rest) ->
  exists bs, s = bs ++ rest /\ length bs = n /\ Forall (fun b => 0x80 <= b < 0xc0) bs.
Proof.
  revert scalar s. induction n as [|n IH]; intros scalar s Hsc Hs He.
  { cbn in He. simplify_eq. by exists []. }
  destruct s as [|b s]; [done|]. inversion Hs; subst.
  rewrite continuation_bytes_cons in He by done.
  destruct ((0x80 <=? b) && (b <? 0xc0)) eqn:?; [|done].
  apply IH in He as (bs & -> & <- & Hbs); [|lia|done].
  exists (b :: bs). split_and!; [done|done|]. constructor; [lia|done].
Qed.

(** The base-64 digits of a scalar value. *)
Lemma digits4 a x y z :
  0 <= a -> 0 <= x < 64 -> 0 <= y < 64 -> 0 <= z < 64 ->
  let c := ((a * 64 + x) * 64 + y) * 64 + z in
  c / 262144 = a /\ c / 4096 mod 64 = x /\ c / 64 mod 64 = y /\ c mod 64 = z.
Proof.
  intros Ha Hx Hy Hz c.
  assert (E1 : c / 64 = (a * 64 + x) * 64 + y) by (subst c; lia).
  assert (E2 : c / 4096 = a * 64 + x).
  { change 4096 with (64 * 64). rewrite <- Z.div_div by lia. rewrite E1. lia. }
  assert (E3 : c / 262144 = a).
  { change 262144 with (4096 * 64). rewrite <- Z.div_div by lia. rewrite E2. lia. }
  rewrite E1, E2, E3. subst c. clear E1 E2 E3. lia.
Qed.

(** A step that does not fail read the UTF-8 form of one scalar value. *)
Lemma utf8_step_inv first s rest :
  Forall (is_uint 8) (first :: s) -> utf8_step first s = Some rest ->
  exists c, is_scalar c /\ first :: s = utf8_encode c ++ rest.
Proof.
  intros Hb He. inversion Hb as [|? ? Hf Hs]; subst.
  destruct (Z.leb_spec first 0x7f) as [Hle|Hgt].
  { rewrite utf8_step_1 in He by done. simplify_eq. exists first.
    unfold utf8_encode, is_scalar, is_uint in *. decide_guards. split; [lia|done]. }
  pose proof He as He'. unfold utf8_step in He. rewrite lead_byte_lands in He.
  rewrite (proj2 (Z.leb_gt _ _)) in He by done.
  assert (Hlead : forall n sc mn, 0 <= sc ->
    match (if Nat.ltb (length s) n then None else continuation_bytes n sc s) with
    | Some (c, r) => (if (c <? mn) || (0x10ffff <? c) || ((0xd800 <=? c) && (c <=? 0xdfff))
                     then None else Some r)
    | None => None end = Some rest ->
    exists bs, s = bs ++ rest /\ length bs = n /\ Forall (fun b => 0x80 <= b < 0xc0) bs).
  { intros n sc mn Hsc Hm. case_match; [|done]. case_match. subst.
    destruct (Nat.ltb (length s) n); [done|]. case_match; [done|]. simplify_eq.
    by eapply continuation_bytes_inv. }
  destruct ((0xc2 <=? first) && (first <=? 0xdf)) eqn:E2;
    [|destruct ((0xe0 <=? first) && (first <=? 0xef)) eqn:E3;
    [|destruct ((0xf0 <=? first) && (first <=? 0xf4)) eqn:E4; [|done]]].
  - destruct (Hlead 1%nat (first mod 32) 0x80) as (bs & -> & Hlen & Hbs); [lia| |].
    { by destruct (Nat.ltb _ _). }
    destruct bs as [|b1 [|]]; try done. rewrite !Forall_cons in Hbs. destruct Hbs as [H1 _].
    exists (first mod 32 * 64 + b1 mod 64). unfold is_scalar, utf8_encode.
    split; [lia|]. decide_guards. cbn. list_lia.
  - destruct (Hlead 2%nat (first mod 16) 0x800) as (bs & -> & Hlen & Hbs); [lia| |].
    { by destruct (Nat.ltb _ _). }
    destruct bs as [|b1 [|b2 [|]]]; try done.
    rewrite !Forall_cons in Hbs. destruct Hbs as (H1 & H2 & _).
    assert (0xe0 <= first <= 0xef) as Hf3 by lia.
    cbn in He'. rewrite (utf8_step_3 _ _ _ _ _ Hf3 H1 H2 eq_refl) in He'.
    set (c := _ + b2 mod 64) in *. exists c.
    destruct ((c <? _) || _) eqn:Hc; [done|]. unfold is_scalar, utf8_encode.
    subst c. split; [lia|]. decide_guards. cbn. list_lia.
  - destruct (Hlead 3%nat (first mod 8) 0x10000) as (bs & -> & Hlen & Hbs); [lia| |].
    { by destruct (Nat.ltb _ _). }
    destruct bs as [|b1 [|b2 [|b3 [|]]]]; try done.
    rewrite !Forall_cons in Hbs. destruct Hbs as (H1 & H2 & H3 & _).
    assert (0xf0 <= first <= 0xf4) as Hf4 by lia.
    cbn in He'. rewrite (utf8_step_4 _ _ _ _ _ _ Hf4 H1 H2 H3 eq_refl) in He'.
    set (c := _ + b3 mod 64) in *. exists c.
    destruct ((c <? _) || _) eqn:Hc; [done|]. unfold is_scalar, utf8_encode.
    
    destruct (digits4 (first mod 8) (b1 mod 64) (b2 mod 64) (b3 mod 64)) as (D1 & D2 & D3 & D4);
      [lia..|]. fold c in D1, D2, D3, D4.
    split; [lia|]. decide_guards. rewrite D1, D2, D3, D4. clear D1 D2 D3 D4. cbn. list_lia.
Qed.

Lemma utf8_encode_cons c : exists first s, utf8_encode c = first :: s.
Proof. unfold utf8_encode. repeat case_match; eauto. Qed.

Lemma utf8_loop_encode fuel scalars :
  Forall is_scalar scalars -> (length (utf8_text scalars) <= fuel)%nat ->
  utf8_loop fuel (utf8_text scalars) = true.
Proof.
  revert fuel. induction scalars as [|c scalars IH]; intros fuel Hsc Hfuel; [by destruct fuel|].
  inversion Hsc; subst. unfold utf8_text in *. cbn [map concat] in *.
  destruct (utf8_encode_cons c) as (first & s & Hc).
  set (rest := concat (map utf8_encode scalars)) in *.
  pose proof (utf8_step_encode c first (s ++ rest) rest H1) as Hstep.
  rewrite Hc in *. specialize (Hstep eq_refl). cbn [app length] in *.
  rewrite length_app in Hfuel. destruct fuel as [|fuel]; [lia|].
  cbn [utf8_loop]. rewrite Hstep.
  apply IH; [done|lia].
Qed.

Lemma utf8_loop_inv fuel s :
  Forall (is_uint 8) s -> utf8_loop fuel s = true ->
  exists scalars, Forall is_scalar scalars /\ s = utf8_text scalars.
Proof.
  revert s. induction fuel as [|fuel IH]; intros [|first s] Hb He; try done; try by exists [].
  cbn in He. destruct (utf8_step first s) as [rest|] eqn:Hs; [|done].
  pose proof Hs as (c & Hc & Heq)%utf8_step_inv; [|done].
  assert (Forall (is_uint 8) rest) as Hr by (rewrite Heq in Hb; by apply Forall_app in Hb as [??]).
  destruct (IH rest Hr He) as (scalars & Hsc & ->).
  exists (c :: scalars). split; [by constructor|done].
Qed.

(** C38: [valid_utf8] accepts exactly the byte strings that are the UTF-8 form of
    a sequence of Unicode scalar values: no overlong form, no surrogate, nothing
    above U+10FFFF, no truncated or stray continuation. *)
Theorem valid_utf8_iff s :
  Forall (is_uint 8) s ->
  valid_utf8 s = true <-> exists scalars, Forall is_scalar scalars /\ s = utf8_text scalars.
Proof.
  intros Hb. split; [by apply utf8_loop_inv|].
  intros (scalars & Hsc & ->). by apply utf8_loop_encode.
Qed.

Lemma valid_utf8_iff_witness :
  Forall (is_uint 8) [0xe2; 0x82; 0xac] /\
  (valid_utf8 [0xe2; 0x82; 0xac] = true <->
   exists scalars, Forall is_scalar scalars /\ [0xe2; 0x82; 0xac] = utf8_text scalars).
Proof.
  assert (Forall (is_uint 8) [0xe2; 0x82; 0xac]) as Hb
    by (repeat constructor; vm_compute; discriminate).
  split; [exact Hb|]. exact (valid_utf8_iff _ Hb).
Defined.
