(* ===== verification/Wire.v ===== *)
(** The bounded little-endian payload builder and reader: classes [Encoder] and
    [Decoder], and the count fence, of [src/lib/ipc/codec.cpp].

    An [Encoder] accumulates [payload_]; a [Decoder] keeps the whole payload and
    the next unread [offset_].  Every member function is an [exec]: it returns
    with the updated object, or throws.  [std::size_t] subtractions are taken
    modulo [2 ^ 64]; the invariants [enc_inv] and [dec_inv] show they never
    wrap. *)
From S2P Require Import Prelude Kernel Protocol Utf8.

(** The exceptions a codec entry point catches. *)
Inductive CodecExn :=
| CodecFailure (failure_code : Z) (what : bytes)
| StdInvalidArgument (what : bytes).

Record Encoder := mk_Encoder { payload_ : bytes }.
Record Decoder := mk_Decoder { payload : bytes; offset_ : Z }.

Abbreviation enc := (exec CodecExn Encoder).
Abbreviation dec := (exec CodecExn Decoder).

(** [a - b] on [std::size_t]. *)
Definition size_sub (a b : Z) : Z := (a - b) mod 2 ^ 64.

Definition uint32_max : Z := 2 ^ 32 - 1.

Module Enc.
Section Enc.
Context `{Kernel}.

(** [Encoder::append]. *)
Definition append (data : bytes) : enc unit := fun e =>
  if size_sub kMaximumFramePayloadBytes (zlen (payload_ e)) <? zlen data
  then Throw (CodecFailure ResourceExhausted (lit "wire payload exceeds maximum frame size"))
  else Return (tt, mk_Encoder (payload_ e ++ data)).

Definition u8 (value : Z) : enc unit := append [value].

(** The shared loop of [u16], [u32] and [u64]. *)
Definition unsigned (width : nat) (value : Z) : enc unit :=
  for_each (fun index => u8 (Z.land (Z.shiftr value (Z.of_nat index * 8)) 0xff))
    (seq 0 width).

Definition u16 : Z -> enc unit := unsigned 2.
Definition u32 : Z -> enc unit := unsigned 4.
Definition u64 : Z -> enc unit := unsigned 8.

(** [i64] and [f64] copy the bits. *)
Definition i64 (value : Z) : enc unit := u64 (value mod 2 ^ 64).
Definition f64 (value : Z) : enc unit := u64 value.

Definition boolean (value : bool) : enc unit := u8 (if value then 1 else 0).

Definition text (value : bytes) (maximum : Z) : enc unit :=
  _ ← throw_if ((maximum <? zlen value) || (uint32_max <? zlen value) || negb (valid_utf8 value))
        (CodecFailure InvalidArgument (lit "wire text exceeds its bound or is invalid UTF-8"));
  _ ← u32 (zlen value);
  append value.

Definition blob (value : bytes) : enc unit :=
  _ ← throw_if (uint32_max <? zlen value)
        (CodecFailure ResourceExhausted (lit "wire byte vector exceeds uint32"));
  _ ← u32 (zlen value);
  append value.
End Enc.
End Enc.

(** ** The count fence *)

Record CountContract := mk_CountContract {
  minimum_entry_bytes : Z;
  required_suffix_bytes : Z;
}.

Definition kWorkflowNodesContract := mk_CountContract 20 4.
Definition kWorkflowInputsContract := mk_CountContract 12 8.
Definition kWorkflowParametersContract := mk_CountContract 6 4.
Definition kWorkflowOutputsContract := mk_CountContract 16 0.
Definition kValueAxesContract := mk_CountContract 32 65.
Definition kValueFacetsContract := mk_CountContract 12 56.
Definition kDiagnosticBackendsContract := mk_CountContract 9 40.
Definition kDiagnosticReasonsContract := mk_CountContract 4 12.
Definition kDiagnosticTimingsContract := mk_CountContract 18 8.
Definition kResultValuesContract := mk_CountContract 54 52.
Definition kDaemonMethodsContract := mk_CountContract 4 24.

(** [count_fits]; the division is only reached with a nonzero divisor. *)
Definition count_fits (count remaining_bytes : Z) (c : CountContract) : bool :=
  negb (minimum_entry_bytes c =? 0) &&
  ((required_suffix_bytes c <=? remaining_bytes) &&
   (count <=? size_sub remaining_bytes (required_suffix_bytes c) / minimum_entry_bytes c)).

Module Dec.
Section Dec.
Context `{Kernel}.

Definition remaining (d : Decoder) : Z := size_sub (zlen (payload d)) (offset_ d).

(** [Decoder::require]. *)
Definition require (size : Z) : dec unit := fun d =>
  if remaining d <? size
  then Throw (CodecFailure InvalidArgument (lit "wire payload is truncated"))
  else Return (tt, d).

(** [payload_[offset_++]]. *)
Definition next : dec Z := fun d =>
  Return (default 0 (payload d !! Z.to_nat (offset_ d)), mk_Decoder (payload d) (offset_ d + 1)).

Definition u8 : dec Z := _ ← require 1; next.

(** The shared loop of [u16], [u32] and [u64]. *)
Fixpoint unsigned_loop (indices : list nat) (value : Z) : dec Z :=
  match indices with
  | [] => mret value
  | index :: indices' =>
    byte ← u8;
    unsigned_loop indices' (Z.lor value (Z.shiftl byte (Z.of_nat index * 8)))
  end.
Definition unsigned (width : nat) : dec Z := unsigned_loop (seq 0 width) 0.

Definition u16 : dec Z := unsigned 2.
Definition u32 : dec Z := unsigned 4.
Definition u64 : dec Z := unsigned 8.

(** [i64] copies the bits: two's complement. *)
Definition i64 : dec Z :=
  bits ← u64;
  mret (if bits <? 2 ^ 63 then bits else bits - 2 ^ 64).
Definition f64 : dec Z := u64.

Definition boolean : dec bool :=
  value ← u8;
  _ ← throw_if (1 <? value)
        (CodecFailure InvalidArgument (lit "wire boolean is not zero or one"));
  mret (negb (value =? 0)).

(** Copies [size] bytes from the offset and advances past them. *)
Definition slice (size : Z) : dec bytes := fun d =>
  Return (take (Z.to_nat size) (drop (Z.to_nat (offset_ d)) (payload d)),
          mk_Decoder (payload d) (offset_ d + size)).

Definition text (maximum : Z) : dec bytes :=
  size ← u32;
  _ ← throw_if (maximum <? size)
        (CodecFailure InvalidArgument (lit "wire text exceeds its method bound"));
  _ ← require size;
  value ← slice size;
  _ ← throw_if (negb (valid_utf8 value))
        (CodecFailure InvalidArgument (lit "wire text is invalid UTF-8"));
  mret value.

Definition blob (maximum : Z) : dec bytes :=
  size ← u32;
  _ ← throw_if (maximum <? size)
        (CodecFailure InvalidArgument (lit "wire byte vector exceeds its method bound"));
  _ ← require size;
  value ← slice size;
  mret value.

Definition require_count_fits (count : Z) (c : CountContract) : dec unit := fun d =>
  if count_fits count (remaining d) c then Return (tt, d)
  else Throw (CodecFailure InvalidArgument (lit "wire collection count exceeds remaining bytes")).

Definition require_end : dec unit := fun d =>
  if offset_ d =? zlen (payload d) then Return (tt, d)
  else Throw (CodecFailure InvalidArgument (lit "wire payload has trailing bytes")).

(** The constructor. *)
Definition open_payload (p : bytes) : outcome CodecExn Decoder :=
  if kMaximumFramePayloadBytes <? zlen p
  then Throw (CodecFailure InvalidArgument (lit "wire payload exceeds maximum frame size"))
  else Return (mk_Decoder p 0).
End Dec.
End Dec.

(** ** Invariants *)

Definition enc_inv (e : Encoder) : Prop := zlen (payload_ e) <= kMaximumFramePayloadBytes.

Record dec_inv (d : Decoder) : Prop := {
  dec_bounded : zlen (payload d) <= kMaximumFramePayloadBytes;
  dec_offset : 0 <= offset_ d <= zlen (payload d);
}.

(** The bytes the decoder has not read yet. *)
Definition unread (d : Decoder) : bytes := drop (Z.to_nat (offset_ d)) (payload d).

Lemma size_sub_small a b : 0 <= b <= a -> a < 2 ^ 64 -> size_sub a b = a - b.
Proof. intros. unfold size_sub. apply Z.mod_small. lia. Qed.

(** The decoder's subtraction never wraps: it is the number of unread bytes. *)
Lemma remaining_unread d : dec_inv d -> Dec.remaining d = zlen (unread d).
Proof.
  intros [Hb Ho]. unfold Dec.remaining, unread, kMaximumFramePayloadBytes in *.
  rewrite size_sub_small by lia. unfold zlen in *. rewrite length_drop. lia.
Qed.

(** What the fence means: the entries and the suffix fit in the unread bytes. *)
Lemma count_fits_spec count rem c :
  0 <= count -> 0 < minimum_entry_bytes c -> 0 <= required_suffix_bytes c ->
  0 <= rem < 2 ^ 64 ->
  count_fits count rem c = true <->
  count * minimum_entry_bytes c + required_suffix_bytes c <= rem.
Proof.
  intros Hc Hm Hs Hr. unfold count_fits.
  rewrite !andb_true_iff, negb_true_iff, Z.eqb_neq, !Z.leb_le. split.
  - intros (_ & Hle & Hq). rewrite size_sub_small in Hq by lia.
    pose proof (Z.mul_div_le (rem - required_suffix_bytes c) (minimum_entry_bytes c) Hm). nia.
  - intros Hle. assert (0 <= count * minimum_entry_bytes c) by nia.
    split_and!; [lia..|]. rewrite size_sub_small by lia.
    apply Z.div_le_lower_bound; lia.
Qed.
