(* ===== verification/RoundTrip.v ===== *)
(** The relation between an encoder and its decoder.

    [roundtrip R x e d m n] says: when [e] returns, it appended some bytes, at
    least [m] of them, and [d], run on those bytes followed by at least [n]
    others, returns a [y] related to [x] by [R] and consumes exactly the bytes
    [e] appended.  [n] is the suffix a count fence of [d] may ask for.  The rules
    below follow the monad, so a codec is proved by following its text.

    [decodes d P] is the converse reading: whatever bytes [d] is run on, when it
    returns, the value satisfies [P] and the decoder's invariant still holds. *)
From S2P Require Import Prelude OrdMap Kernel Protocol Utf8 Wire.

Section RoundTrip.
Context `{Kernel}.

Definition roundtrip {A B} (R : A -> B -> Prop) (x : A) (e : enc unit) (d : dec B)
    (m n : Z) : Prop :=
  forall st st', enc_inv st -> e st = Return (tt, st') ->
  enc_inv st' /\
  exists bs, payload_ st' = payload_ st ++ bs /\ m <= zlen bs /\
  forall ds rest, dec_inv ds -> unread ds = bs ++ rest -> n <= zlen rest ->
  exists y ds', d ds = Return (y, ds') /\ R x y /\ dec_inv ds' /\ unread ds' = rest.

Definition decodes {B} (d : dec B) (P : B -> Prop) : Prop :=
  forall ds y ds', dec_inv ds -> Forall (is_uint 8) (payload ds) -> d ds = Return (y, ds') ->
  P y /\ dec_inv ds' /\ payload ds' = payload ds /\ offset_ ds <= offset_ ds'.

(** *** Rules for [roundtrip] *)

Lemma rt_weaken {A B} (R R' : A -> B -> Prop) x e d m m' n n' :
  roundtrip R x e d m n -> (forall y, R x y -> R' x y) -> m' <= m -> n <= n' ->
  roundtrip R' x e d m' n'.
Proof.
  intros Hrt HR Hm Hn st st' Hst He.
  destruct (Hrt st st' Hst He) as (Hst' & bs & Hbs & Hlen & Hd).
  split; [done|]. exists bs. split_and!; [done|lia|].
  intros ds rest Hds Hun Hrest. destruct (Hd ds rest Hds Hun ltac:(lia)) as (y & ds' & ? & ? & ?).
  exists y, ds'. auto.
Qed.

Lemma rt_ret {A B} (R : A -> B -> Prop) x y n :
  R x y -> roundtrip R x (mret tt) (mret y) 0 n.
Proof.
  intros HR st st' Hst He. injection He as <-. split; [done|].
  exists []. rewrite app_nil_r. split_and!; [done|done|].
  intros ds rest Hds Hun _. by exists y, ds.
Qed.

(** Sequencing: the first part may count the second one's bytes as suffix. *)
Lemma rt_bind {A A1 B1 B} (R1 : A1 -> B1 -> Prop) (R : A -> B -> Prop)
    x1 x e1 e2 d1 (k : B1 -> dec B) m1 n1 m2 m n :
  (exists y1, R1 x1 y1) ->
  roundtrip R1 x1 e1 d1 m1 n1 ->
  (forall y1, R1 x1 y1 -> roundtrip R x e2 (k y1) m2 n) ->
  n1 <= m2 + n -> m <= m1 + m2 ->
  roundtrip R x (_ ← e1; e2) (y1 ← d1; k y1) m n.
Proof.
  intros [y0 Hy0] H1 H2 Hn Hm st st' Hst He. cbv [mbind exec_bind] in He.
  destruct (e1 st) as [[[] st1]|] eqn:He1; [|done].
  destruct (H1 st st1 Hst He1) as (Hst1 & bs1 & Hbs1 & Hlen1 & Hd1).
  destruct (H2 y0 Hy0 st1 st' Hst1 He) as (Hst' & bs2 & Hbs2 & Hlen2 & _).
  split; [done|]. exists (bs1 ++ bs2). rewrite app_assoc, <- Hbs1, <- Hbs2, zlen_app.
  split_and!; [done|lia|]. intros ds rest Hds Hun Hrest.
  rewrite <- app_assoc in Hun.
  destruct (Hd1 ds (bs2 ++ rest) Hds Hun) as (y1 & ds1 & Hy1 & HR1 & Hds1 & Hun1).
  { rewrite zlen_app. lia. }
  destruct (H2 y1 HR1 st1 st' Hst1 He) as (_ & bs2' & Hbs2' & _ & Hd2).
  assert (bs2' = bs2) as -> by (rewrite Hbs2 in Hbs2'; by apply app_inv_head in Hbs2').
  destruct (Hd2 ds1 rest Hds1 Hun1 Hrest) as (y & ds' & ? & ? & ?).
  exists y, ds'. cbv [mbind exec_bind]. rewrite Hy1. auto.
Qed.

(** The same for a first part that comes back equal. *)
Lemma rt_seq {A A1 B} (R : A -> B -> Prop) x1 x e1 e2 d1 (k : A1 -> dec B) m1 n1 m2 m n :
  roundtrip eq x1 e1 d1 m1 n1 -> roundtrip R x e2 (k x1) m2 n ->
  n1 <= m2 + n -> m <= m1 + m2 ->
  roundtrip R x (_ ← e1; e2) (y1 ← d1; k y1) m n.
Proof. intros H1 H2. apply (rt_bind eq R x1 x e1 e2 d1 k m1 n1 m2 m n); [eauto|done|by intros ? <-]. Qed.

(** A last part whose value goes into the result. *)
Lemma rt_last {A A1 B1 B} (R1 : A1 -> B1 -> Prop) (R : A -> B -> Prop) x1 x e d (f : B1 -> B) m n :
  roundtrip R1 x1 e d m n -> (forall y1, R1 x1 y1 -> R x (f y1)) ->
  roundtrip R x e (y1 ← d; mret (f y1)) m n.
Proof.
  intros Hrt HR st st' Hst He. destruct (Hrt st st' Hst He) as (Hst' & bs & Hbs & Hlen & Hd).
  split; [done|]. exists bs. split_and!; [done..|]. intros ds rest Hds Hun Hrest.
  destruct (Hd ds rest Hds Hun Hrest) as (y & ds' & Hy & ? & ?).
  exists (f y), ds'. cbv [mbind exec_bind mret exec_ret]. rewrite Hy. auto.
Qed.

(** The last part written; the decoder goes on checking its value. *)
Lemma rt_tail {A A1 B1 B} (R1 : A1 -> B1 -> Prop) (R : A -> B -> Prop) x1 x e d
    (k : B1 -> dec B) m n :
  roundtrip R1 x1 e d m n -> (forall y1, R1 x1 y1 -> roundtrip R x (mret tt) (k y1) 0 n) ->
  roundtrip R x e (y1 ← d; k y1) m n.
Proof.
  intros Hrt Hk st st' Hst He. destruct (Hrt st st' Hst He) as (Hst' & bs & Hbs & Hlen & Hd).
  split; [done|]. exists bs. split_and!; [done..|]. intros ds rest Hds Hun Hrest.
  destruct (Hd ds rest Hds Hun Hrest) as (y & ds1 & Hy & HR & Hds1 & Hun1).
  destruct (Hk y HR st' st' Hst' eq_refl) as (_ & bs' & Hbs' & _ & Hd').
  assert (bs' = []) as ->.
  { rewrite <- (app_nil_r (payload_ st')) in Hbs' at 1. by apply app_inv_head in Hbs'. }
  cbv [mbind exec_bind]. rewrite Hy. by apply Hd'.
Qed.

Lemma rt_tail_eq {A A1 B} (R : A -> B -> Prop) x1 x e d (k : A1 -> dec B) m n :
  roundtrip eq x1 e d m n -> roundtrip R x (mret tt) (k x1) 0 n ->
  roundtrip R x e (y1 ← d; k y1) m n.
Proof. intros H1 H2. apply (rt_tail eq R x1); [done|by intros ? <-]. Qed.

(** The same rules for a part that asks for no suffix. *)
Lemma rt_any {A B} (R : A -> B -> Prop) x e d m n :
  roundtrip R x e d m 0 -> roundtrip R x e d m n.
Proof.
  intros Hrt st st' Hst He. destruct (Hrt st st' Hst He) as (Hst' & bs & Hbs & Hlen & Hd).
  split; [done|]. exists bs. split_and!; [done..|]. intros ds rest Hds Hun _.
  apply (Hd ds rest Hds Hun). apply zlen_nonneg.
Qed.

Lemma rt_field {A A1 B} (R : A -> B -> Prop) x1 x e1 e2 d1 (k : A1 -> dec B) m1 m2 n :
  roundtrip eq x1 e1 d1 m1 0 -> roundtrip R x e2 (k x1) m2 n ->
  roundtrip R x (_ ← e1; e2) (y1 ← d1; k y1) (m1 + m2) n.
Proof. intros H1 H2. eapply (rt_seq _ x1); [by apply (rt_any _ _ _ _ _ (m2 + n))|done|lia..]. Qed.

Lemma rt_final {A A1 B} (R : A -> B -> Prop) x1 x e d (k : A1 -> dec B) m n :
  roundtrip eq x1 e d m 0 -> roundtrip R x (mret tt) (k x1) 0 n ->
  roundtrip R x e (y1 ← d; k y1) m n.
Proof. intros H1 H2. apply (rt_tail_eq _ x1); [by apply rt_any|done]. Qed.

(** Asks for fewer bytes than were counted. *)
Lemma rt_min {A B} (R : A -> B -> Prop) x e d m m' n :
  roundtrip R x e d m' n -> m <= m' -> roundtrip R x e d m n.
Proof. intros Hrt Hm. by apply (rt_weaken R R x e d m' m n n). Qed.

(** A check of the encoder gives its negation to the rest. *)
Lemma rt_enc_check {A B} (R : A -> B -> Prop) x c exn e d m n :
  (c = false -> roundtrip R x e d m n) -> roundtrip R x (_ ← throw_if c exn; e) d m n.
Proof. intros Hrt st st' Hst He. destruct c; [done|]. by apply Hrt. Qed.

(** A check of the decoder must pass. *)
Lemma rt_dec_check {A B} (R : A -> B -> Prop) x c exn e d m n :
  c = false -> roundtrip R x e d m n -> roundtrip R x e (_ ← throw_if c exn; d) m n.
Proof. intros -> Hrt. exact Hrt. Qed.

(** The fence passes when the entries were written. *)
Lemma rt_fence {A B} (R : A -> B -> Prop) x count c e d m n :
  0 <= count -> 0 < minimum_entry_bytes c -> 0 <= required_suffix_bytes c ->
  count * minimum_entry_bytes c + required_suffix_bytes c <= m + n ->
  roundtrip R x e d m n ->
  roundtrip R x e (_ ← Dec.require_count_fits count c; d) m n.
Proof.
  intros Hc Hmin Hsuf Hfit Hrt st st' Hst He.
  destruct (Hrt st st' Hst He) as (Hst' & bs & Hbs & Hlen & Hd).
  split; [done|]. exists bs. split_and!; [done..|]. intros ds rest Hds Hun Hrest.
  cbv [mbind exec_bind Dec.require_count_fits].
  assert (Hrem : Dec.remaining ds = zlen bs + zlen rest).
  { rewrite remaining_unread, Hun, zlen_app by done. done. }
  replace (count_fits count (Dec.remaining ds) c) with true; [by apply Hd|].
  symmetry. apply count_fits_spec; [done..| |lia].
  pose proof (dec_bounded _ Hds) as Hb. rewrite remaining_unread by done.
  unfold unread, kMaximumFramePayloadBytes, zlen in *. rewrite length_drop. lia.
Qed.

(** *** Rules for [decodes] *)

Lemma dc_ret {B} (y : B) (P : B -> Prop) : P y -> decodes (mret y) P.
Proof. intros HP ds y' ds' Hds _ He. injection He as <- <-. split_and!; [done..|lia]. Qed.

Lemma dc_bind {B C} (d : dec B) (k : B -> dec C) P Q :
  decodes d P -> (forall y, P y -> decodes (k y) Q) -> decodes (y ← d; k y) Q.
Proof.
  intros Hd Hk ds z ds' Hds Hby He. cbv [mbind exec_bind] in He.
  destruct (d ds) as [[y ds1]|] eqn:Hy; [|done].
  destruct (Hd ds y ds1 Hds Hby Hy) as (HP & Hds1 & Hp1 & Ho1).
  destruct (Hk y HP ds1 z ds' Hds1 ltac:(by rewrite Hp1) He) as (? & ? & Hp2 & Ho2).
  split_and!; [done|done|congruence|lia].
Qed.

Lemma dc_weaken {B} (d : dec B) (P Q : B -> Prop) :
  decodes d P -> (forall y, P y -> Q y) -> decodes d Q.
Proof. intros Hd HPQ ds y ds' Hds Hby He. destruct (Hd ds y ds' Hds Hby He) as (?&?&?&?). auto. Qed.

Lemma dc_throw {B} exn (P : B -> Prop) : decodes (throw exn) P.
Proof. intros ds y ds' _ _ He. done. Qed.

Lemma dc_check {B} (c : bool) exn (d : dec B) P :
  (c = false -> decodes d P) -> decodes (_ ← throw_if c exn; d) P.
Proof. intros Hd ds y ds' Hds Hby He. destruct c; [done|]. by eapply Hd. Qed.

Lemma dc_fence {B} count c (d : dec B) P :
  decodes d P -> decodes (_ ← Dec.require_count_fits count c; d) P.
Proof.
  intros Hd ds y ds' Hds Hby He. cbv [mbind exec_bind Dec.require_count_fits] in He.
  destruct (count_fits _ _ _); [|done]. by eapply Hd.
Qed.
End RoundTrip.
