(* ===== verification/Scalars.v ===== *)
(** Round trips and ranges of the scalar, text and byte-vector members, and of
    the loops built from them. *)
From S2P Require Import Prelude OrdMap Kernel Protocol Utf8 Wire RoundTrip.

Section Scalars.
Context `{Kernel}.

Lemma enc_append st st' data :
  enc_inv st -> Enc.append data st = Return (tt, st') ->
  enc_inv st' /\ payload_ st' = payload_ st ++ data.
Proof.
  unfold enc_inv, Enc.append, kMaximumFramePayloadBytes. intros Hst He.
  pose proof (zlen_nonneg (payload_ st)).
  rewrite size_sub_small in He by lia. case_match; [done|]. injection He as <-.
  cbn. rewrite zlen_app. split; [lia|done].
Qed.

Lemma unread_length d : dec_inv d -> zlen (unread d) = zlen (payload d) - offset_ d.
Proof. intros [_ Ho]. unfold unread, zlen in *. rewrite length_drop. lia. Qed.

(** Advancing by the size of a known prefix. *)
Lemma advance d bs rest :
  dec_inv d -> unread d = bs ++ rest ->
  let d' := mk_Decoder (payload d) (offset_ d + zlen bs) in
  dec_inv d' /\ unread d' = rest.
Proof.
  intros Hd Hun d'. pose proof (unread_length d Hd) as Hlen. rewrite Hun, zlen_app in Hlen.
  pose proof (zlen_nonneg bs). pose proof (zlen_nonneg rest).
  destruct Hd as [Hb Ho]. split; [split; cbn; [done|lia]|].
  unfold unread, d' in *. cbn. replace (Z.to_nat (offset_ d + zlen bs))
    with (Z.to_nat (offset_ d) + length bs)%nat by (unfold zlen; lia).
  rewrite <- drop_drop, Hun. apply drop_app_length.
Qed.

Lemma dec_require d size :
  dec_inv d -> size <= zlen (unread d) -> Dec.require size d = Return (tt, d).
Proof.
  intros Hd Hs. unfold Dec.require. rewrite remaining_unread by done.
  case_match; [lia|done].
Qed.

Lemma dc_require size : decodes (Dec.require size) (fun _ => True).
Proof.
  intros ds y ds' Hds _ He. unfold Dec.require in He.
  case_match; [done|]. injection He as <- <-. split_and!; [done..|lia].
Qed.

Lemma dec_u8 d b rest :
  dec_inv d -> unread d = b :: rest ->
  Dec.u8 d = Return (b, mk_Decoder (payload d) (offset_ d + 1)).
Proof.
  intros Hd Hun. unfold Dec.u8. cbv [mbind exec_bind].
  rewrite dec_require by first [done | rewrite Hun; zlen_lia].
  unfold Dec.next. repeat f_equal.
  replace (payload d !! Z.to_nat (offset_ d)) with (unread d !! 0%nat).
  - by rewrite Hun.
  - unfold unread. rewrite lookup_drop. f_equal. lia.
Qed.

Lemma rt_u8 v : is_uint 8 v -> roundtrip eq v (Enc.u8 v) Dec.u8 1 0.
Proof.
  intros Hv st st' Hst He. apply enc_append in He as [Hst' Hp]; [|done].
  split; [done|]. exists [v]. split_and!; [done|done|].
  intros ds rest Hds Hun _. pose proof (advance ds [v] rest Hds Hun) as [? ?].
  eexists v, _. by rewrite (dec_u8 _ _ _ Hds Hun).
Qed.

Lemma dc_u8 : decodes Dec.u8 (is_uint 8).
Proof.
  intros ds y ds' Hds Hy He. unfold Dec.u8, Dec.require in He. cbv [mbind exec_bind] in He.
  destruct (Dec.remaining ds <? 1) eqn:Hr; [done|]. unfold Dec.next in He. injection He as <- <-.
  rewrite remaining_unread, unread_length in Hr by done. destruct Hds as [Hb Ho].
  split_and!; [|split; cbn; [done|lia]|done|cbn; lia].
  destruct (payload ds !! Z.to_nat (offset_ ds)) as [b|] eqn:E; cbn.
  - rewrite Forall_lookup in Hy. by eapply Hy.
  - apply lookup_ge_None in E. unfold zlen in *. lia.
Qed.

(** *** The integer loops *)

Lemma rt_unsigned_loop v i n :
  roundtrip eq (v mod 2 ^ (Z.of_nat (i + n) * 8))
    (for_each (fun index => Enc.u8 (Z.land (Z.shiftr v (Z.of_nat index * 8)) 0xff)) (seq i n))
    (Dec.unsigned_loop (seq i n) (v mod 2 ^ (Z.of_nat i * 8))) (Z.of_nat n) 0.
Proof.
  revert i. induction n as [|n IH]; intros i.
  { cbn. rewrite Nat.add_0_r. by apply rt_ret. }
  cbn [seq for_each Dec.unsigned_loop].
  eapply (rt_seq _ (Z.land (Z.shiftr v (Z.of_nat i * 8)) 0xff)).
  - apply rt_u8. change 0xff with (Z.ones 8). rewrite Z.land_ones by lia.
    unfold is_uint. apply Z.mod_pos_bound. lia.
  - rewrite low_bits_snoc by lia.
    replace (i + S n)%nat with (S i + n)%nat by lia.
    replace (Z.of_nat i * 8 + 8) with (Z.of_nat (S i) * 8) by lia. apply IH.
  - lia.
  - lia.
Qed.

Lemma rt_unsigned width v :
  is_uint (Z.of_nat width * 8) v ->
  roundtrip eq v (Enc.unsigned width v) (Dec.unsigned width) (Z.of_nat width) 0.
Proof.
  intros Hv. pose proof (rt_unsigned_loop v 0 width) as Hrt. cbn [Nat.add] in Hrt.
  rewrite (Z.mod_small v) in Hrt by done.
  change (Z.of_nat 0 * 8) with 0 in Hrt. by rewrite Z.mod_1_r in Hrt.
Qed.

Lemma dc_unsigned_loop i n acc :
  is_uint (Z.of_nat i * 8) acc ->
  decodes (Dec.unsigned_loop (seq i n) acc) (is_uint (Z.of_nat (i + n) * 8)).
Proof.
  revert i acc. induction n as [|n IH]; intros i acc Hacc.
  { rewrite Nat.add_0_r. by apply dc_ret. }
  cbn [seq Dec.unsigned_loop]. eapply dc_bind; [apply dc_u8|]. intros b Hb.
  replace (i + S n)%nat with (S i + n)%nat by lia. apply IH.
  unfold is_uint in *. rewrite lor_shiftl_add by lia.
  replace (Z.of_nat (S i) * 8) with (Z.of_nat i * 8 + 8) by lia.
  rewrite Z.pow_add_r by lia. change (2 ^ 8) with 256 in *. nia.
Qed.

Lemma dc_unsigned width : decodes (Dec.unsigned width) (is_uint (Z.of_nat width * 8)).
Proof. apply (dc_unsigned_loop 0). unfold is_uint. cbn. lia. Qed.

Lemma rt_u16 v : is_uint 16 v -> roundtrip eq v (Enc.u16 v) Dec.u16 2 0.
Proof. apply (rt_unsigned 2). Qed.
Lemma rt_u32 v : is_uint 32 v -> roundtrip eq v (Enc.u32 v) Dec.u32 4 0.
Proof. apply (rt_unsigned 4). Qed.
Lemma rt_u64 v : is_uint 64 v -> roundtrip eq v (Enc.u64 v) Dec.u64 8 0.
Proof. apply (rt_unsigned 8). Qed.
Lemma dc_u16 : decodes Dec.u16 (is_uint 16).
Proof. apply (dc_unsigned 2). Qed.
Lemma dc_u32 : decodes Dec.u32 (is_uint 32).
Proof. apply (dc_unsigned 4). Qed.
Lemma dc_u64 : decodes Dec.u64 (is_uint 64).
Proof. apply (dc_unsigned 8). Qed.

(** Two's complement. *)
Lemma rt_i64 v : is_int64 v -> roundtrip eq v (Enc.i64 v) Dec.i64 8 0.
Proof.
  intros Hv. unfold is_int64 in Hv. unfold Enc.i64, Dec.i64.
  eapply (rt_last eq eq (v mod 2 ^ 64)).
  - apply rt_u64. apply Z.mod_pos_bound. lia.
  - intros ? <-. destruct (Z.neg_nonneg_cases v).
    + assert (v mod 2 ^ 64 = v + 2 ^ 64) as -> by (symmetry; apply (Z.mod_unique _ _ (-1)); lia).
      case_match; lia.
    + rewrite Z.mod_small by lia. case_match; lia.
Qed.

Lemma dc_i64 : decodes Dec.i64 is_int64.
Proof.
  eapply dc_bind; [apply dc_u64|]. intros bits Hb. apply dc_ret.
  unfold is_uint, is_int64 in *. case_match; lia.
Qed.

Lemma rt_boolean b : roundtrip eq b (Enc.boolean b) Dec.boolean 1 0.
Proof.
  assert (is_uint 8 (if b then 1 else 0)) as Hu by (unfold is_uint; destruct b; lia).
  intros st st' Hst He. destruct (rt_u8 _ Hu st st' Hst He)
    as (Hst' & bs & Hbs & Hlen & Hd).
  split; [done|]. exists bs. split_and!; [done|lia|].
  intros ds rest Hds Hun Hrest. destruct (Hd ds rest Hds Hun Hrest) as (y & ds' & Hy & <- & ?).
  exists b, ds'. unfold Dec.boolean. cbv [mbind exec_bind]. rewrite Hy. by destruct b.
Qed.

Lemma dc_boolean : decodes Dec.boolean (fun _ => True).
Proof.
  eapply dc_bind; [apply dc_u8|]. intros v _. apply dc_check. intros _. by apply dc_ret.
Qed.

(** *** Length-framed text and bytes *)

Lemma dec_slice d bs rest :
  dec_inv d -> unread d = bs ++ rest ->
  Dec.slice (zlen bs) d = Return (bs, mk_Decoder (payload d) (offset_ d + zlen bs)).
Proof.
  intros Hd Hun. unfold Dec.slice. fold (unread d). rewrite Hun, zlen_to_nat.
  by rewrite take_app_length.
Qed.

Lemma dc_slice {B} size (f : bytes -> dec B) P :
  0 <= size ->
  (forall bs, zlen bs = size -> Forall (is_uint 8) bs -> decodes (f bs) P) ->
  decodes (_ ← Dec.require size; value ← Dec.slice size; f value) P.
Proof.
  intros Hsize Hf ds y ds' Hds Hy He. cbv [mbind exec_bind] in He. unfold Dec.require in He.
  destruct (Dec.remaining ds <? size) eqn:Hr; [done|].
  rewrite remaining_unread, unread_length in Hr by done. unfold Dec.slice in He.
  set (ds1 := mk_Decoder _ _) in He. set (bs := take _ _) in He.
  assert (dec_inv ds1) as Hds1 by (destruct Hds; split; cbn; [done|lia]).
  destruct Hds as [Hb Ho].
  assert (zlen bs = size) by (unfold bs, zlen in *; rewrite length_take, length_drop; lia).
  destruct (Hf bs) with ds1 y ds' as (? & ? & ? & ?);
    [done|by apply Forall_take, Forall_drop|done|done|done|].
  cbn in *. split_and!; [done..|lia].
Qed.

(** The data after a length prefix. *)
Lemma rt_payload {A B} (R : A -> B -> Prop) x value (f : bytes -> dec B) n :
  roundtrip R x (mret tt) (f value) 0 n ->
  roundtrip R x (Enc.append value)
    (_ ← Dec.require (zlen value); value' ← Dec.slice (zlen value); f value') (zlen value) n.
Proof.
  intros Hf st st' Hst He. apply enc_append in He as [Hst' Hp]; [|done].
  split; [done|]. exists value. split_and!; [done|lia|].
  intros ds rest Hds Hun Hrest. pose proof (advance ds value rest Hds Hun) as [Hds1 Hun1].
  cbv [mbind exec_bind].
  rewrite dec_require by first [done | rewrite Hun; zlen_lia].
  rewrite (dec_slice _ _ _ Hds Hun).
  destruct (Hf st' st' Hst' eq_refl) as (_ & bs & Hbs & _ & Hd).
  assert (bs = []) as ->.
  { rewrite <- (app_nil_r (payload_ st')) in Hbs at 1. by apply app_inv_head in Hbs. }
  by apply (Hd _ rest).
Qed.

Lemma rt_length_prefix (value : bytes) :
  zlen value <= uint32_max ->
  roundtrip eq (zlen value) (Enc.u32 (zlen value)) Dec.u32 4 0.
Proof. intros. apply rt_u32. unfold is_uint, uint32_max in *. zlen_lia. Qed.

Lemma rt_text (value : bytes) maximum :
  roundtrip eq value (Enc.text value maximum) (Dec.text maximum) 4 0.
Proof.
  apply rt_enc_check. intros Hc. rewrite !orb_false_iff, negb_false_iff in Hc.
  destruct Hc as [[Hmax Hu32] Hutf].
  eapply rt_seq; [apply rt_length_prefix; lia| | |].
  - apply rt_dec_check; [done|]. apply rt_payload. apply rt_dec_check; [by rewrite Hutf|].
    by apply rt_ret.
  - zlen_lia.
  - zlen_lia.
Qed.

Lemma dc_text maximum :
  decodes (Dec.text maximum)
    (fun s => zlen s <= maximum /\ valid_utf8 s = true /\ Forall (is_uint 8) s).
Proof.
  eapply dc_bind; [apply dc_u32|]. intros size Hsize. apply dc_check. intros Hmax.
  apply dc_slice; [unfold is_uint in Hsize; lia|]. intros bs Hlen Hbs.
  apply dc_check. intros Hutf. apply dc_ret. apply negb_false_iff in Hutf.
  split_and!; [lia|done|done].
Qed.

Lemma rt_blob (value : bytes) maximum :
  zlen value <= maximum ->
  roundtrip eq value (Enc.blob value) (Dec.blob maximum) 4 0.
Proof.
  intros Hlen. apply rt_enc_check. intros Hu32.
  eapply rt_seq; [apply rt_length_prefix; lia| | |].
  - apply rt_dec_check; [lia|]. apply rt_payload. by apply rt_ret.
  - zlen_lia.
  - zlen_lia.
Qed.

(** A byte vector that was written fits in the frame. *)
Lemma rt_blob_frame (value : bytes) :
  roundtrip eq value (Enc.blob value) (Dec.blob kMaximumFramePayloadBytes) 4 0.
Proof.
  intros st st' Hst He. refine (rt_blob value _ _ st st' Hst He).
  revert He. unfold Enc.blob. destruct (uint32_max <? zlen value) eqn:Hu; [done|].
  cbv [throw_if mret exec_ret mbind exec_bind].
  destruct (Enc.u32 (zlen value) st) as [[[] st1]|] eqn:H1; [|done]. intros H2.
  destruct (rt_length_prefix value ltac:(lia) st st1 Hst H1) as (Hst1 & _).
  apply enc_append in H2 as [Hst' Hp]; [|done]. unfold enc_inv in Hst'.
  rewrite Hp, zlen_app in Hst'. pose proof (zlen_nonneg (payload_ st1)). lia.
Qed.

Lemma dc_blob maximum :
  decodes (Dec.blob maximum) (fun s => zlen s <= maximum /\ Forall (is_uint 8) s).
Proof.
  eapply dc_bind; [apply dc_u32|]. intros size Hsize. apply dc_check. intros Hmax.
  apply dc_slice; [unfold is_uint in Hsize; lia|]. intros bs Hlen Hbs.
  apply dc_ret. split; [lia|done].
Qed.

(** *** Collections *)

(** A vector: the elements written one after the other. *)
Lemma rt_iterate_collect {A B} (R : A -> B -> Prop) (f : A -> enc unit) (d : dec B) l m n acc acc' :
  0 <= m -> 0 <= n ->
  (forall x, x ∈ l -> roundtrip R x (f x) d m n) ->
  (forall x, x ∈ l -> exists y, R x y) ->
  Forall2 R acc acc' ->
  roundtrip (Forall2 R) (acc ++ l) (for_each f l)
    (iterate (length l) (fun acc => x ← d; mret (acc ++ [x])) acc') (m * zlen l) n.
Proof.
  intros Hm Hn. revert acc acc'. induction l as [|x l IH]; intros acc acc' Hrt Hex Hacc.
  { cbn. rewrite app_nil_r, zlen_nil, Z.mul_0_r. by apply rt_ret. }
  cbn [for_each length iterate]. rewrite zlen_cons.
  eapply (rt_bind (fun z w => exists y, w = acc' ++ [y] /\ R z y) _ x).
  - destruct (Hex x) as [y Hy]; [left|]. eauto.
  - apply (rt_last R _ x); [apply Hrt; left|]. intros y Hy. eauto.
  - intros w (y & -> & Hy). replace (acc ++ x :: l) with ((acc ++ [x]) ++ l)
      by by rewrite <- app_assoc.
    apply IH; [intros; apply Hrt; by right|intros; apply Hex; by right|].
    apply Forall2_app; [done|]. by constructor.
  - pose proof (zlen_nonneg l). nia.
  - lia.
Qed.

Lemma rt_collect {A B} (R : A -> B -> Prop) (f : A -> enc unit) (d : dec B) l m n :
  0 <= m -> 0 <= n ->
  (forall x, x ∈ l -> roundtrip R x (f x) d m n) ->
  (forall x, x ∈ l -> exists y, R x y) ->
  roundtrip (Forall2 R) l (for_each f l) (collect (length l) d) (m * zlen l) n.
Proof. intros. by apply (rt_iterate_collect R f d l m n [] []). Qed.

Lemma rt_collect_eq {A} (f : A -> enc unit) (d : dec A) l m n :
  0 <= m -> 0 <= n ->
  (forall x, x ∈ l -> roundtrip eq x (f x) d m n) ->
  roundtrip eq l (for_each f l) (collect (length l) d) (m * zlen l) n.
Proof.
  intros Hm Hn Hrt. apply (rt_weaken (Forall2 eq) _ _ _ _ (m * zlen l) _ n);
    [apply rt_collect; eauto| |lia..].
  intros y Hy. by apply list_eq_Forall2.
Qed.

Lemma dc_collect {B} (d : dec B) P n :
  decodes d P -> decodes (collect n d) (fun l => length l = n /\ Forall P l).
Proof.
  intros Hd. unfold collect.
  enough (forall acc, Forall P acc ->
    decodes (iterate n (fun acc => x ← d; mret (acc ++ [x])) acc)
      (fun l => length l = (length acc + n)%nat /\ Forall P l)) as Hgen.
  { by apply (Hgen []). }
  induction n as [|n IH]; intros acc Hacc; cbn [iterate].
  { apply dc_ret. split; [lia|done]. }
  eapply dc_bind; [eapply dc_bind; [apply Hd|]|].
  - intros y Hy. apply (dc_ret _ (fun l => length l = S (length acc) /\ Forall P l)).
    rewrite length_app, Forall_app. cbn. split; [lia|]. auto.
  - intros l [Hl HP]. eapply dc_weaken; [by apply IH|]. cbn. intros l' [Hl' ?].
    split; [lia|done].
Qed.

(** A map: its bindings in key order, put back one by one with [emplace]. *)
Definition emplace_or_throw {K V} `{KeyOrder K} (exn : CodecExn) (m : list (K * V)) (kv : K * V) :
    dec (list (K * V)) :=
  match emplace kv.1 kv.2 m with
  | Some m' => mret m'
  | None => throw exn
  end.

Lemma rt_emplace {K V W} `{KeyOrderLaws K} (R : V -> W -> Prop) (f : K * V -> enc unit)
    (d : dec (K * W)) exn l m n :
  0 <= m -> 0 <= n -> sorted_map l ->
  (forall p, p ∈ l -> roundtrip (fun p q => p.1 = q.1 /\ R p.2 q.2) p (f p) d m n) ->
  (forall p, p ∈ l -> exists y, R p.2 y) ->
  roundtrip (Forall2 (fun p q => p.1 = q.1 /\ R p.2 q.2)) l (for_each f l)
    (iterate (length l) (fun acc => kv ← d; emplace_or_throw exn acc kv) []) (m * zlen l) n.
Proof.
  intros Hm Hn. set (RP := fun (p : K * V) (q : K * W) => p.1 = q.1 /\ R p.2 q.2).
  enough (forall acc acc', Forall2 RP acc acc' -> sorted_map (acc ++ l) ->
    (forall p, p ∈ l -> roundtrip RP p (f p) d m n) ->
    (forall p, p ∈ l -> exists y, R p.2 y) ->
    roundtrip (Forall2 RP) (acc ++ l) (for_each f l)
      (iterate (length l) (fun acc => kv ← d; emplace_or_throw exn acc kv) acc')
      (m * zlen l) n) as Hgen.
  { intros Hs Hrt Hex. by apply (Hgen [] []). }
  induction l as [|p l IH]; intros acc acc' Hacc Hs Hrt Hex.
  { cbn. rewrite app_nil_r, zlen_nil, Z.mul_0_r. by apply rt_ret. }
  cbn [for_each length iterate]. rewrite zlen_cons.
  rewrite (cons_middle p acc l), app_assoc in *.
  assert (below p.1 acc) as Hbelow.
  { apply sorted_map_app in Hs as (Hs & _ & _). destruct p. by apply sorted_map_snoc in Hs as []. }
  assert (forall q : K * W, p.1 = q.1 -> below q.1 acc') as Hbelow'.
  { intros q <-. clear -Hacc Hbelow. induction Hacc as [|? ? ? ? [Hk _]]; [constructor|].
    inversion Hbelow; subst. constructor; [by rewrite <- Hk|by apply IHHacc]. }
  eapply (rt_bind (fun z w => exists q, w = acc' ++ [q] /\ RP z q) _ p).
  - destruct (Hex p) as [y Hy]; [left|]. exists (acc' ++ [(p.1, y)]), (p.1, y). done.
  - intros st st' Hst He.
    destruct (Hrt p ltac:(left) st st' Hst He) as (Hst' & bs & Hbs & Hlen & Hd).
    split; [done|]. exists bs. split_and!; [done..|]. intros ds rest Hds Hun Hrest.
    destruct (Hd ds rest Hds Hun Hrest) as ([k y] & ds' & Hy & [Hk HR] & ?).
    exists (acc' ++ [(k, y)]), ds'. cbv [mbind exec_bind]. rewrite Hy.
    unfold emplace_or_throw. cbn in *. rewrite emplace_last by by apply (Hbelow' (k, y)).
    split_and!; [done|by exists (k, y)|tauto..].
  - intros w (q & -> & Hq). apply IH; [by apply Forall2_app; [|constructor]|done|..].
    + intros. apply Hrt. by right.
    + intros. apply Hex. by right.
  - pose proof (zlen_nonneg l). nia.
  - lia.
Qed.

Lemma dc_emplace {K V} `{KeyOrderLaws K} (d : dec (K * V)) exn P n :
  decodes d P ->
  decodes (iterate n (fun acc => kv ← d; emplace_or_throw exn acc kv) [])
    (fun l => length l = n /\ sorted_map l /\ Forall P l).
Proof.
  intros Hd.
  enough (forall acc, sorted_map acc -> Forall P acc ->
    decodes (iterate n (fun acc => kv ← d; emplace_or_throw exn acc kv) acc)
      (fun l => length l = (length acc + n)%nat /\ sorted_map l /\ Forall P l)) as Hgen.
  { by apply (Hgen []). }
  induction n as [|n IH]; intros acc Hs Hacc; cbn [iterate].
  { apply dc_ret. split; [lia|done]. }
  eapply (dc_bind _ _ (fun l => length l = S (length acc) /\ sorted_map l /\ Forall P l)).
  - eapply dc_bind; [apply Hd|]. intros [k v] Hkv. unfold emplace_or_throw. cbn.
    destruct (emplace k v acc) as [l|] eqn:He; [|apply dc_throw].
    apply dc_ret. split_and!; [by eapply emplace_length|by eapply emplace_sorted|].
    apply Forall_forall. intros q. rewrite (emplace_elem _ _ _ _ q He).
    rewrite Forall_forall in Hacc. intros [->|Hq]; auto.
  - intros l (Hl & Hsl & HP). eapply dc_weaken; [by apply IH|]. cbn. intros l' (Hl' & ? & ?).
    split_and!; [lia|done..].
Qed.

(** A counted collection: the count, its semantic maximum, the fence, the loop.
    [mc] is the width of the count, [mi] the least size of an entry, [ni] what an
    entry's own fences need after it. *)
Section Counted.
Context {A B C D : Type} (Rl : list A -> C -> Prop) (R : B -> D -> Prop) (x : B).
Context (l : list A) (bound : Z) (exn : CodecExn) (contract : CountContract).
Context (ec : enc unit) (dc : dec Z) (f : A -> enc unit) (loop : Z -> dec C).
Context (mc mi m2 ni n : Z).
Context (Hcount : roundtrip eq (zlen l) ec dc mc 0).
Context (Hbound : (bound <? zlen l) = false).
Context (Hloop : roundtrip Rl l (for_each f l) (loop (zlen l)) (mi * zlen l) ni).
Context (Hmin : 0 < minimum_entry_bytes contract <= mi).
Context (Hsuffix : 0 <= required_suffix_bytes contract).

Lemma rt_counted e2 (k : C -> dec D) :
  required_suffix_bytes contract <= m2 + n -> ni <= m2 + n ->
  (exists y, Rl l y) ->
  (forall y, Rl l y -> roundtrip R x e2 (k y) m2 n) ->
  roundtrip R x
    (_ ← ec; _ ← for_each f l; e2)
    (count ← dc;
     _ ← throw_if (bound <? count) exn;
     _ ← Dec.require_count_fits count contract;
     y ← loop count; k y)
    (mc + (mi * zlen l + m2)) n.
Proof.
  intros Hs Hn Hex Hk. pose proof (zlen_nonneg l).
  eapply rt_field; [exact Hcount|]. apply rt_dec_check; [exact Hbound|].
  apply rt_fence; [done|lia|done|nia|].
  eapply (rt_bind Rl); [done|exact Hloop|exact Hk|lia|lia].
Qed.

Lemma rt_counted_last (k : C -> dec D) :
  required_suffix_bytes contract <= n -> ni <= n ->
  (forall y, Rl l y -> roundtrip R x (mret tt) (k y) 0 n) ->
  roundtrip R x
    (_ ← ec; for_each f l)
    (count ← dc;
     _ ← throw_if (bound <? count) exn;
     _ ← Dec.require_count_fits count contract;
     y ← loop count; k y)
    (mc + mi * zlen l) n.
Proof.
  intros Hs Hn Hk. pose proof (zlen_nonneg l).
  eapply rt_field; [exact Hcount|]. apply rt_dec_check; [exact Hbound|].
  apply rt_fence; [done|lia|done|nia|].
  eapply (rt_tail Rl); [|exact Hk].
  by eapply rt_weaken; [exact Hloop|..].
Qed.
End Counted.

(** The decoded side of a counted collection. *)
Lemma dc_counted {C D} (dc : dec Z) bound exn contract (loop : Z -> dec C) (k : C -> dec D)
    P (Q : Z -> C -> Prop) (T : D -> Prop) :
  decodes dc P ->
  (forall count, P count -> count <= bound -> decodes (loop count) (Q count)) ->
  (forall count y, P count -> count <= bound -> Q count y -> decodes (k y) T) ->
  decodes
    (count ← dc;
     _ ← throw_if (bound <? count) exn;
     _ ← Dec.require_count_fits count contract;
     y ← loop count; k y) T.
Proof.
  intros Hdc Hloop Hk. eapply dc_bind; [exact Hdc|]. intros count HP.
  apply dc_check. intros Hb. apply dc_fence.
  eapply dc_bind; [apply Hloop; [done|lia]|]. intros y HQ. apply (Hk count); [done|lia|done].
Qed.
End Scalars.

#[export] Hint Resolve rt_u8 rt_u16 rt_u32 rt_u64 rt_i64 rt_boolean rt_text rt_blob : photo.
#[export] Hint Resolve dc_u8 dc_u16 dc_u32 dc_u64 dc_i64 dc_boolean dc_text dc_blob : photo.
