(* ===== verification/CodecRequest.v ===== *)
(** Statuses, source parameters and workflow documents on the wire
    ([src/lib/ipc/codec.cpp]): definitions, then their round trips and the ranges
    of what is decoded. *)
From S2P Require Import Prelude OrdMap Kernel Protocol Utf8 Wire RoundTrip Scalars.

Definition static_cast_u8 (v : Z) : Z := v mod 2 ^ 8.
Definition static_cast_u32 (v : Z) : Z := v mod 2 ^ 32.

Definition is_empty {A} (l : list A) : bool := match l with [] => true | _ => false end.

Section Codec.
Context `{Kernel}.

(** ** Status *)

Definition encode_status (status : Status) : enc unit :=
  let raw := static_cast_u8 (code status) in
  _ ← throw_if ((Internal <? raw) || (status_ok status && negb (is_empty (message status))))
        (CodecFailure InvalidArgument (lit "wire status is not canonical"));
  _ ← Enc.u8 (static_cast_u8 (code status));
  Enc.text (message status) 4096.

Definition decode_status : dec Status :=
  raw ← Dec.u8;
  _ ← throw_if (Internal <? raw)
        (CodecFailure InvalidArgument (lit "wire status error code is unknown"));
  message ← Dec.text 4096;
  _ ← throw_if ((raw =? Ok) && negb (is_empty message))
        (CodecFailure InvalidArgument (lit "wire success status contains a diagnostic"));
  mret (if raw =? Ok then success else failure raw message).

(** ** Source parameters *)

Definition encode_parameter (value : ParameterValue) : enc unit :=
  match value with
  | PInt64 v => _ ← Enc.u8 1; Enc.i64 v
  | PDouble bits => _ ← Enc.u8 2; Enc.f64 bits
  | PBool b => _ ← Enc.u8 3; Enc.boolean b
  | PString s => _ ← Enc.u8 4; Enc.text s 8192
  end.

Definition decode_parameter : dec ParameterValue :=
  tag ← Dec.u8;
  if tag =? 1 then v ← Dec.i64; mret (PInt64 v)
  else if tag =? 2 then v ← Dec.f64; mret (PDouble v)
  else if tag =? 3 then v ← Dec.boolean; mret (PBool v)
  else if tag =? 4 then v ← Dec.text 8192; mret (PString v)
  else throw (CodecFailure InvalidArgument (lit "wire parameter tag is unknown")).

(** ** Workflow documents *)

Definition encode_input (input : WorkflowInput) : enc unit :=
  match input with
  | NodeOutput source =>
    _ ← Enc.u64 (source_node source);
    Enc.text (source_port source) 64
  | OtherInput _ =>
    throw (CodecFailure InvalidArgument (lit "IPC v3 accepts only node-output edges"))
  end.

Definition encode_binding (parameter : bytes * ParameterValue) : enc unit :=
  _ ← Enc.text parameter.1 1024;
  encode_parameter parameter.2.

(** The body of the loop over [document.nodes]. *)
Definition encode_node (node : WorkflowNode) : enc unit :=
  _ ← throw_if ((1024 <? zlen (node_inputs node)) || (1024 <? zlen (parameters node)))
        (CodecFailure InvalidArgument (lit "workflow node count exceeds wire bounds"));
  _ ← Enc.u64 (node_id node);
  _ ← Enc.text (operation node) 1024;
  _ ← Enc.u32 (static_cast_u32 (zlen (node_inputs node)));
  _ ← for_each encode_input (node_inputs node);
  _ ← Enc.u32 (static_cast_u32 (zlen (parameters node)));
  for_each encode_binding (parameters node).

Definition encode_output (output : WorkflowOutput) : enc unit :=
  _ ← Enc.text (output_name output) 1024;
  _ ← Enc.u64 (output_node_id output);
  Enc.text (output_port output) 64.

Definition encode_document (document : WorkflowDocument) : enc unit :=
  _ ← throw_if ((65536 <? zlen (nodes document)) || (4096 <? zlen (outputs document)))
        (CodecFailure InvalidArgument (lit "workflow document count exceeds wire bounds"));
  _ ← throw_if (negb (is_empty (doc_inputs document)))
        (CodecFailure InvalidArgument
           (lit "IPC v3 does not carry workflow input declarations"));
  _ ← Enc.u32 (schema_version document);
  _ ← Enc.u32 (static_cast_u32 (zlen (nodes document)));
  _ ← for_each encode_node (nodes document);
  _ ← Enc.u32 (static_cast_u32 (zlen (outputs document)));
  for_each encode_output (outputs document).

Definition decode_input : dec WorkflowInput :=
  node ← Dec.u64;
  port ← Dec.text 64;
  mret (NodeOutput (mk_WorkflowNodeOutput node port)).

Definition decode_binding : dec (bytes * ParameterValue) :=
  key ← Dec.text 1024;
  value ← decode_parameter;
  mret (key, value).

(** The body of the loop over the node count. *)
Definition decode_node : dec WorkflowNode :=
  id ← Dec.u64;
  operation ← Dec.text 1024;
  input_count ← Dec.u32;
  _ ← throw_if (1024 <? input_count)
        (CodecFailure InvalidArgument (lit "wire workflow has too many inputs"));
  _ ← Dec.require_count_fits input_count kWorkflowInputsContract;
  inputs ← collect (Z.to_nat input_count) decode_input;
  parameter_count ← Dec.u32;
  _ ← throw_if (1024 <? parameter_count)
        (CodecFailure InvalidArgument (lit "wire workflow has too many parameters"));
  _ ← Dec.require_count_fits parameter_count kWorkflowParametersContract;
  parameters ← iterate (Z.to_nat parameter_count)
    (fun acc =>
       kv ← decode_binding;
       emplace_or_throw
         (CodecFailure InvalidArgument (lit "wire workflow duplicates a parameter key")) acc kv)
    [];
  mret (mk_WorkflowNode id operation inputs parameters).

Definition decode_output : dec WorkflowOutput :=
  name ← Dec.text 1024;
  node ← Dec.u64;
  port ← Dec.text 64;
  mret (mk_WorkflowOutput name node port).

Definition decode_document : dec WorkflowDocument :=
  schema_version ← Dec.u32;
  node_count ← Dec.u32;
  _ ← throw_if (65536 <? node_count)
        (CodecFailure InvalidArgument (lit "wire workflow has too many nodes"));
  _ ← Dec.require_count_fits node_count kWorkflowNodesContract;
  nodes ← collect (Z.to_nat node_count) decode_node;
  output_count ← Dec.u32;
  _ ← throw_if (4096 <? output_count)
        (CodecFailure InvalidArgument (lit "wire workflow has too many outputs"));
  _ ← Dec.require_count_fits output_count kWorkflowOutputsContract;
  outputs ← collect (Z.to_nat output_count) decode_output;
  mret (mk_WorkflowDocument schema_version (doc_inputs default_document) nodes outputs).

(** ** Members within their declared types *)

Definition status_fits (s : Status) : Prop := is_uint 8 (code s).

Definition parameter_fits (p : ParameterValue) : Prop :=
  match p with
  | PInt64 v => is_int64 v
  | PDouble bits => is_uint 64 bits
  | PBool _ | PString _ => True
  end.

Definition input_fits (i : WorkflowInput) : Prop :=
  match i with NodeOutput source => is_uint 64 (source_node source) | OtherInput _ => True end.

Record node_fits (n : WorkflowNode) : Prop := {
  nf_id : is_uint 64 (node_id n);
  nf_inputs : Forall input_fits (node_inputs n);
  nf_sorted : sorted_map (parameters n);
  nf_parameters : Forall (fun p => parameter_fits p.2) (parameters n);
}.

Definition output_fits (o : WorkflowOutput) : Prop := is_uint 64 (output_node_id o).

Record document_fits (d : WorkflowDocument) : Prop := {
  df_schema : is_uint 32 (schema_version d);
  df_nodes : Forall node_fits (nodes d);
  df_outputs : Forall output_fits (outputs d);
}.

Lemma static_cast_u8_id v : is_uint 8 v -> static_cast_u8 v = v.
Proof. intros. by apply Z.mod_small. Qed.

Lemma static_cast_u32_size {A} (l : list A) bound :
  (bound <? zlen l) = false -> bound < 2 ^ 32 ->
  static_cast_u32 (zlen l) = zlen l /\ is_uint 32 (zlen l).
Proof.
  intros Hl Hb. pose proof (zlen_nonneg l). unfold static_cast_u32, is_uint.
  rewrite Z.mod_small by lia. lia.
Qed.

(** ** Round trips *)

(** Steps over the checks of the two sides that the context decides. *)
Ltac rt_checks := repeat first [ apply rt_dec_check; [done || lia|] ].

Lemma rt_status s : status_fits s -> roundtrip eq s (encode_status s) decode_status 5 0.
Proof.
  intros Hs. unfold encode_status, decode_status. rewrite static_cast_u8_id by done.
  apply rt_enc_check. intros [Hint Hok]%orb_false_iff. eapply rt_min.
  - apply (rt_field _ (code s)); [auto with photo|]. rt_checks.
    apply (rt_final _ (message s)); [auto with photo|]. rt_checks.
    apply rt_ret. unfold status_ok in Hok.
    destruct s as [c m]. cbn in *. destruct (c =? Ok) eqn:E; [|done].
    apply Z.eqb_eq in E as ->. by destruct m.
  - lia.
Qed.

Lemma rt_parameter p :
  parameter_fits p -> roundtrip eq p (encode_parameter p) decode_parameter 2 0.
Proof.
  intros Hp. unfold encode_parameter, decode_parameter.
  destruct p; cbn in Hp; (eapply rt_min;
    [eapply rt_field; [apply rt_u8; unfold is_uint; lia|]; cbn [Z.eqb Pos.eqb];
     eapply rt_final; [eauto with photo|by apply rt_ret] | lia]).
Qed.

Lemma rt_input i : input_fits i -> roundtrip eq i (encode_input i) decode_input 12 0.
Proof.
  intros Hi. destruct i as [src|b]; [|by intros st st' _ He].
  unfold encode_input, decode_input. destruct src as [id port]. eapply rt_min.
  - eapply rt_field; [eauto with photo|]. eapply rt_final; [eauto with photo|].
    by apply rt_ret.
  - lia.
Qed.

Lemma rt_output o : output_fits o -> roundtrip eq o (encode_output o) decode_output 16 0.
Proof.
  intros Ho. destruct o as [name id port]. unfold encode_output, decode_output. eapply rt_min.
  - eapply rt_field; [eauto with photo|]. eapply rt_field; [eauto with photo|].
    eapply rt_final; [eauto with photo|]. by apply rt_ret.
  - lia.
Qed.

Lemma rt_binding p :
  parameter_fits p.2 -> roundtrip eq p (encode_binding p) decode_binding 6 0.
Proof.
  intros Hp. destruct p as [key v]. unfold encode_binding, decode_binding. eapply rt_min.
  - eapply rt_field; [eauto with photo|]. eapply rt_final; [by apply rt_parameter|].
    by apply rt_ret.
  - lia.
Qed.

Lemma rt_size {A} (l : list A) bound :
  (bound <? zlen l) = false -> bound < 2 ^ 32 ->
  roundtrip eq (zlen l) (Enc.u32 (static_cast_u32 (zlen l))) Dec.u32 4 0.
Proof.
  intros Hl Hb. destruct (static_cast_u32_size l bound Hl Hb) as [-> Hu]. by apply rt_u32.
Qed.

(** A vector loop, entry by entry. *)
Lemma rt_vector {A} (f : A -> enc unit) (d : dec A) (P : A -> Prop) l m n :
  0 <= m -> 0 <= n -> Forall P l -> (forall x, P x -> roundtrip eq x (f x) d m n) ->
  roundtrip eq l (for_each f l) (collect (Z.to_nat (zlen l)) d) (m * zlen l) n.
Proof.
  intros Hm Hn Hl Hrt. rewrite zlen_to_nat. apply rt_collect_eq; [done..|].
  intros x Hx. apply Hrt. rewrite Forall_forall in Hl. auto.
Qed.

(** A map loop, binding by binding. *)
Lemma rt_map {K V} `{KeyOrderLaws K} (f : K * V -> enc unit) (d : dec (K * V))
    (P : K * V -> Prop) exn l m n :
  0 <= m -> 0 <= n -> sorted_map l -> Forall P l ->
  (forall p, P p -> roundtrip eq p (f p) d m n) ->
  roundtrip eq l (for_each f l)
    (iterate (Z.to_nat (zlen l)) (fun acc => kv ← d; emplace_or_throw exn acc kv) [])
    (m * zlen l) n.
Proof.
  intros Hm Hn Hs Hl Hrt. rewrite zlen_to_nat.
  eapply (rt_weaken _ _ _ _ _ (m * zlen l) _ n);
    [apply (rt_emplace (V := V) eq f d exn l m n); [done|done|done| |eauto]| |lia|lia].
  - intros p Hp. eapply (rt_weaken eq _ _ _ _ m m n); [|by intros ? <-|lia..].
    apply Hrt. rewrite Forall_forall in Hl. auto.
  - intros y Hy. apply list_eq_Forall2. eapply Forall2_impl; [exact Hy|].
    intros [k v] [k' v'] [Hk Hv]. cbn in *. by subst.
Qed.

Lemma rt_node nd : node_fits nd -> roundtrip eq nd (encode_node nd) decode_node 20 4.
Proof.
  intros [Hid Hin Hsort Hpar]. unfold encode_node, decode_node.
  apply rt_enc_check. intros [Hni Hnp]%orb_false_iff.
  pose proof (zlen_nonneg (node_inputs nd)). pose proof (zlen_nonneg (parameters nd)).
  eapply rt_min.
  - eapply rt_field; [eauto with photo|]. eapply rt_field; [eauto with photo|].
    eapply (rt_counted eq eq) with (l := node_inputs nd) (mi := 12) (ni := 0)
      (m2 := 4 + 6 * zlen (parameters nd)); cbn [minimum_entry_bytes required_suffix_bytes
        kWorkflowInputsContract]; [| |apply (rt_vector _ _ input_fits)|..];
      eauto using rt_input, rt_size with lia.
    intros ? <-.
    eapply (rt_counted_last eq eq) with (l := parameters nd) (ni := 0);
      cbn [minimum_entry_bytes required_suffix_bytes kWorkflowParametersContract];
      [| |apply (rt_map _ _ (fun p => parameter_fits p.2))|..];
      eauto using rt_binding, rt_size with lia.
    intros ? <-. apply rt_ret. by destruct nd.
  - lia.
Qed.

Lemma rt_document d :
  document_fits d -> roundtrip eq d (encode_document d) decode_document 12 0.
Proof.
  intros [Hs Hn Ho]. unfold encode_document, decode_document.
  apply rt_enc_check. intros [Hnn Hno]%orb_false_iff. apply rt_enc_check. intros Hin.
  pose proof (zlen_nonneg (nodes d)). pose proof (zlen_nonneg (outputs d)).
  eapply rt_min.
  - eapply rt_field; [eauto with photo|].
    eapply (rt_counted eq eq) with (l := nodes d) (mi := 20) (ni := 4)
      (m2 := 4 + 16 * zlen (outputs d)); cbn [minimum_entry_bytes required_suffix_bytes
        kWorkflowNodesContract]; [| |apply (rt_vector _ _ node_fits)|..];
      eauto using rt_node, rt_size with lia.
    intros ? <-.
    eapply (rt_counted_last eq eq) with (l := outputs d) (ni := 0);
      cbn [minimum_entry_bytes required_suffix_bytes kWorkflowOutputsContract];
      [| |apply (rt_vector _ _ output_fits)|..];
      eauto using rt_output, rt_size with lia.
    intros ? <-. apply rt_ret. destruct d as [v ins ns os]. cbn in *. by destruct ins.
  - lia.
Qed.

(** ** What the decoders let through *)

Definition text_ok (maximum : Z) (s : bytes) : Prop :=
  zlen s <= maximum /\ valid_utf8 s = true /\ Forall (is_uint 8) s.

(** A status [encode_status] accepts. *)
Definition status_ok_wire (s : Status) : Prop :=
  0 <= code s <= Internal /\ text_ok 4096 (message s) /\ (code s = Ok -> message s = []).

Definition parameter_ok (p : ParameterValue) : Prop :=
  parameter_fits p /\ match p with PString s => text_ok 8192 s | _ => True end.

Definition input_ok (i : WorkflowInput) : Prop :=
  exists source, i = NodeOutput source /\ is_uint 64 (source_node source) /\
    text_ok 64 (source_port source).

Record node_ok (n : WorkflowNode) : Prop := {
  no_id : is_uint 64 (node_id n);
  no_operation : text_ok 1024 (operation n);
  no_inputs : zlen (node_inputs n) <= 1024 /\ Forall input_ok (node_inputs n);
  no_sorted : sorted_map (parameters n);
  no_parameters : zlen (parameters n) <= 1024 /\
    Forall (fun p => text_ok 1024 p.1 /\ parameter_ok p.2) (parameters n);
}.

Definition output_ok (o : WorkflowOutput) : Prop :=
  text_ok 1024 (output_name o) /\ is_uint 64 (output_node_id o) /\ text_ok 64 (output_port o).

(** A document within every bound of the wire. *)
Record document_ok (d : WorkflowDocument) : Prop := {
  do_schema : is_uint 32 (schema_version d);
  do_inputs : doc_inputs d = [];
  do_nodes : zlen (nodes d) <= 65536 /\ Forall node_ok (nodes d);
  do_outputs : zlen (outputs d) <= 4096 /\ Forall output_ok (outputs d);
}.

Lemma node_ok_fits n : node_ok n -> node_fits n.
Proof.
  intros [Hid Hop [_ Hin] Hs [_ Hp]]. split; [done| |done|].
  - eapply Forall_impl; [exact Hin|]. by intros ? (src & -> & Hsrc & _).
  - eapply Forall_impl; [exact Hp|]. by intros ? (_ & Hpar & _).
Qed.

Lemma document_ok_fits d : document_ok d -> document_fits d.
Proof.
  intros [Hs _ [_ Hn] [_ Ho]]. split; [done|..].
  - eapply Forall_impl; [exact Hn|]. apply node_ok_fits.
  - eapply Forall_impl; [exact Ho|]. by intros ? (_ & ? & _).
Qed.

Context {HE : ErrorCodesLaws kernel_codes}.

Lemma dc_status : decodes decode_status status_ok_wire.
Proof.
  eapply dc_bind; [apply dc_u8|]. intros raw Hraw. apply dc_check. intros Hint.
  eapply dc_bind; [apply dc_text|]. intros m (Hlen & Hutf & Hb). apply dc_check. intros Hc.
  apply dc_ret. unfold status_ok_wire, is_uint, text_ok in *.
  pose proof codes_bounded as Hbd. rewrite !Forall_cons in Hbd.
  destruct (Z.eqb_spec raw Ok) as [->|Hne]; cbn; [|split_and!; (done || lia)].
  split_and!; (done || lia).
Qed.

Lemma dc_parameter : decodes decode_parameter parameter_ok.
Proof.
  eapply dc_bind; [apply dc_u8|]. intros tag _. unfold parameter_ok.
  repeat case_match; try apply dc_throw.
  - eapply dc_bind; [apply dc_i64|]. intros v Hv. by apply dc_ret.
  - eapply dc_bind; [apply dc_u64|]. intros v Hv. by apply dc_ret.
  - eapply dc_bind; [apply dc_boolean|]. intros v Hv. by apply dc_ret.
  - eapply dc_bind; [apply dc_text|]. intros v Hv. by apply dc_ret.
Qed.

Lemma dc_input : decodes decode_input input_ok.
Proof.
  eapply dc_bind; [apply dc_u64|]. intros id Hid. eapply dc_bind; [apply dc_text|].
  intros port Hport. apply dc_ret. by eexists.
Qed.

Lemma dc_binding : decodes decode_binding (fun p => text_ok 1024 p.1 /\ parameter_ok p.2).
Proof.
  eapply dc_bind; [apply dc_text|]. intros key Hkey. eapply dc_bind; [apply dc_parameter|].
  intros v Hv. by apply dc_ret.
Qed.

Lemma dc_output : decodes decode_output output_ok.
Proof.
  eapply dc_bind; [apply dc_text|]. intros name Hname. eapply dc_bind; [apply dc_u64|].
  intros id Hid. eapply dc_bind; [apply dc_text|]. intros port Hport. by apply dc_ret.
Qed.

(** A vector of [count] entries, as the loops decode it. *)
Lemma dc_vector {A} (d : dec A) P count :
  0 <= count -> decodes d P ->
  decodes (collect (Z.to_nat count) d) (fun l => zlen l = count /\ Forall P l).
Proof.
  intros Hc Hd. eapply dc_weaken; [by apply dc_collect|]. intros l [Hl HP].
  split; [unfold zlen; lia|done].
Qed.

Lemma dc_node : decodes decode_node node_ok.
Proof.
  eapply dc_bind; [apply dc_u64|]. intros id Hid. eapply dc_bind; [apply dc_text|].
  intros op Hop.
  eapply (dc_counted _ _ _ _ _ _ _ (fun count l => zlen l = count /\ Forall input_ok l));
    [apply dc_u32|intros c [? _] _; by apply dc_vector, dc_input|].
  intros ni ins _ Hni [Hins1 Hins2].
  eapply (dc_counted _ _ _ _ _ _ _ (fun count l => zlen l = count /\ sorted_map l /\ Forall _ l));
    [apply dc_u32| |].
  { intros c [? _] _. eapply dc_weaken; [apply dc_emplace, dc_binding|].
    intros l (Hl & ? & ?). split_and!; [unfold zlen; lia|done..]. }
  intros np ps _ Hnp (Hps1 & Hps2 & Hps3). apply dc_ret. split; cbn; [done..| |done|];
    (split; [lia|done]).
Qed.

Lemma dc_document : decodes decode_document document_ok.
Proof.
  eapply dc_bind; [apply dc_u32|]. intros schema Hschema.
  eapply (dc_counted _ _ _ _ _ _ _ (fun count l => zlen l = count /\ Forall node_ok l));
    [apply dc_u32|intros c [? _] _; by apply dc_vector, dc_node|].
  intros nn ns _ Hnn [Hns1 Hns2].
  eapply (dc_counted _ _ _ _ _ _ _ (fun count l => zlen l = count /\ Forall output_ok l));
    [apply dc_u32|intros c [? _] _; by apply dc_vector, dc_output|].
  intros no os _ Hno [Hos1 Hos2]. apply dc_ret. split; cbn; [done..| |]; (split; [lia|done]).
Qed.
End Codec.
