(* ===== verification/CodecResult.v ===== *)
(** Runtime values, execution diagnostics and execution results on the wire
    ([src/lib/ipc/codec.cpp]): definitions, then their round trips and ranges.

    A [Value] is an opaque kernel object, rebuilt through [Value::create]; it
    comes back with the members IPC v3 carries ([value_equiv]), which is coarser
    than equality. *)
From S2P Require Import Prelude OrdMap Kernel Protocol Utf8 Wire RoundTrip Scalars.
From S2P Require Import CodecRequest.

Section Codec.
Context `{Kernel}.

(** ** Values *)

Definition encode_dimension (dimension : RegionDimension) : enc unit :=
  _ ← Enc.u64 (dim_offset dimension);
  Enc.u64 (dim_extent dimension).

Definition encode_facet (facet : ValueFacet) : enc unit :=
  _ ← Enc.text (facet_key facet) 256;
  _ ← Enc.u32 (facet_version facet);
  Enc.blob (facet_payload facet).

Definition encode_value (value : Value) : enc unit :=
  _ ← throw_if (negb (Value_valid value) || (8 <? zlen (shape (Value_descriptor value))))
        (CodecFailure InvalidArgument (lit "result contains an invalid Value"));
  _ ← throw_if ((element_type (Value_descriptor value) =? ElementType_Float32)
                || existsb (fun o => negb (o =? 0)) (origin (Value_layout value)))
        (CodecFailure InvalidArgument
           (lit "Value type or storage origin is not supported by IPC v3"));
  _ ← Enc.u32 (static_cast_u32 (element_type (Value_descriptor value)));
  _ ← Enc.u8 (static_cast_u8 (zlen (shape (Value_descriptor value))));
  _ ← for_each Enc.u64 (shape (Value_descriptor value));
  _ ← for_each encode_dimension (Value_region value);
  _ ← Enc.u64 (byte_offset (Value_layout value));
  _ ← for_each Enc.i64 (byte_strides (Value_layout value));
  _ ← throw_if (64 <? zlen (Value_facets value))
        (CodecFailure ResourceExhausted (lit "result Value has too many facets"));
  _ ← Enc.u8 (static_cast_u8 (zlen (Value_facets value)));
  _ ← for_each encode_facet (Value_facets value);
  Enc.blob (Value_bytes value).

Definition decode_dimension : dec RegionDimension :=
  offset ← Dec.u64;
  extent ← Dec.u64;
  mret (mk_RegionDimension offset extent).

Definition decode_facet : dec ValueFacet :=
  key ← Dec.text 256;
  version ← Dec.u32;
  payload ← Dec.blob (64 * 1024);
  mret (mk_ValueFacet key version payload).

(** [Value::create(...)] on the decoded members: the [Region] constructor may
    throw, the factory may fail. *)
Definition publish_value (descriptor : ValueDescriptor) (dimensions : list RegionDimension)
    (layout : StridedLayout) (data : bytes) (facets : list ValueFacet) : dec Value :=
  match Region_invalid dimensions with
  | Some what => throw (StdInvalidArgument what)
  | None =>
    match Value_create descriptor dimensions layout data facets with
    | ROk value => mret value
    | RErr s => throw (CodecFailure (code s) (message s))
    end
  end.

Definition decode_value : dec Value :=
  raw_type ← Dec.u32;
  _ ← throw_if ((raw_type <? static_cast_u32 ElementType_UInt8)
                || (static_cast_u32 ElementType_Float64 <? raw_type))
        (CodecFailure InvalidArgument (lit "wire Value element type is unknown"));
  rank ← Dec.u8;
  _ ← throw_if ((rank =? 0) || (8 <? rank))
        (CodecFailure InvalidArgument (lit "wire Value rank is outside 1..8"));
  _ ← Dec.require_count_fits rank kValueAxesContract;
  shape ← collect (Z.to_nat rank) Dec.u64;
  dimensions ← collect (Z.to_nat rank) decode_dimension;
  offset ← Dec.u64;
  strides ← collect (Z.to_nat rank) Dec.i64;
  facet_count ← Dec.u8;
  _ ← throw_if (64 <? facet_count)
        (CodecFailure InvalidArgument (lit "wire Value has too many facets"));
  _ ← Dec.require_count_fits facet_count kValueFacetsContract;
  facets ← collect (Z.to_nat facet_count) decode_facet;
  data ← Dec.blob kMaximumFramePayloadBytes;
  publish_value (mk_ValueDescriptor raw_type shape) dimensions
    (mk_StridedLayout offset strides []) data facets.

(** ** Diagnostics *)

Definition known_backend (raw : Z) : bool :=
  (raw =? static_cast_u8 Backend_Cpu) || (raw =? static_cast_u8 Backend_Gpu).

Definition encode_backend (backend : Z * Z) : enc unit :=
  _ ← throw_if ((backend.1 =? 0)
                || (negb (backend.2 =? Backend_Cpu) && negb (backend.2 =? Backend_Gpu)))
        (CodecFailure InvalidArgument (lit "execution backend diagnostic is invalid"));
  _ ← Enc.u64 backend.1;
  Enc.u8 (static_cast_u8 backend.2).

Definition encode_timing (timing : OperationTiming) : enc unit :=
  _ ← throw_if ((timing_node_id timing =? 0)
                || (negb (timing_backend timing =? Backend_Cpu)
                    && negb (timing_backend timing =? Backend_Gpu))
                || (Internal <? static_cast_u8 (timing_outcome timing)))
        (CodecFailure InvalidArgument (lit "execution timing diagnostic is invalid"));
  _ ← Enc.u64 (timing_node_id timing);
  _ ← Enc.u8 (static_cast_u8 (timing_backend timing));
  _ ← Enc.u64 (duration_us timing);
  Enc.u8 (static_cast_u8 (timing_outcome timing)).

Definition encode_diagnostics (d : ExecutionDiagnostics) : enc unit :=
  _ ← throw_if ((65536 <? zlen (selected_backends d)) || (131072 <? zlen (operation_timings d))
                || (65536 <? zlen (fallback_reasons d)))
        (CodecFailure ResourceExhausted (lit "execution diagnostics exceed wire bounds"));
  _ ← Enc.u64 (execute_us d);
  _ ← Enc.u32 (static_cast_u32 (zlen (selected_backends d)));
  _ ← for_each encode_backend (selected_backends d);
  _ ← Enc.u64 (transfer_count d);
  _ ← Enc.u64 (transfer_bytes d);
  _ ← Enc.u64 (peak_live_bytes d);
  _ ← Enc.u32 (static_cast_u32 (zlen (fallback_reasons d)));
  _ ← for_each (fun reason => Enc.text reason 4096) (fallback_reasons d);
  _ ← Enc.u32 (static_cast_u32 (zlen (operation_timings d)));
  _ ← for_each encode_timing (operation_timings d);
  _ ← Enc.text (plan_digest d) 128;
  Enc.text (result_digest d) 128.

(** The entry of the backend map; [emplace] is the last operand of its test. *)
Definition malformed_backend : CodecExn :=
  CodecFailure InvalidArgument (lit "wire diagnostics backend map is malformed").

Definition decode_backend : dec (Z * Z) :=
  node_id ← Dec.u64;
  raw_backend ← Dec.u8;
  _ ← throw_if ((node_id =? 0) || negb (known_backend raw_backend)) malformed_backend;
  mret (node_id, raw_backend).

Definition decode_timing : dec OperationTiming :=
  node_id ← Dec.u64;
  raw_backend ← Dec.u8;
  _ ← throw_if ((node_id =? 0) || negb (known_backend raw_backend))
        (CodecFailure InvalidArgument (lit "wire timing backend is unknown"));
  duration ← Dec.u64;
  raw_outcome ← Dec.u8;
  _ ← throw_if (Internal <? raw_outcome)
        (CodecFailure InvalidArgument (lit "wire timing outcome is unknown"));
  mret (mk_OperationTiming node_id raw_backend duration raw_outcome).

Definition decode_diagnostics : dec ExecutionDiagnostics :=
  execute_us ← Dec.u64;
  backend_count ← Dec.u32;
  _ ← throw_if (65536 <? backend_count)
        (CodecFailure InvalidArgument (lit "wire diagnostics have too many backends"));
  _ ← Dec.require_count_fits backend_count kDiagnosticBackendsContract;
  selected_backends ← iterate (Z.to_nat backend_count)
    (fun acc => kv ← decode_backend; emplace_or_throw malformed_backend acc kv) [];
  transfer_count ← Dec.u64;
  transfer_bytes ← Dec.u64;
  peak_live_bytes ← Dec.u64;
  reason_count ← Dec.u32;
  _ ← throw_if (65536 <? reason_count)
        (CodecFailure InvalidArgument (lit "wire diagnostics have too many fallback reasons"));
  _ ← Dec.require_count_fits reason_count kDiagnosticReasonsContract;
  fallback_reasons ← collect (Z.to_nat reason_count) (Dec.text 4096);
  timing_count ← Dec.u32;
  _ ← throw_if (131072 <? timing_count)
        (CodecFailure InvalidArgument (lit "wire diagnostics have too many operation timings"));
  _ ← Dec.require_count_fits timing_count kDiagnosticTimingsContract;
  operation_timings ← collect (Z.to_nat timing_count) decode_timing;
  plan_digest ← Dec.text 128;
  result_digest ← Dec.text 128;
  mret (mk_ExecutionDiagnostics execute_us selected_backends transfer_count transfer_bytes
    peak_live_bytes fallback_reasons operation_timings plan_digest result_digest).

(** ** Execution results *)

Definition encode_named_value (value : bytes * Value) : enc unit :=
  _ ← Enc.text value.1 1024;
  encode_value value.2.

Definition encode_execution_result (result : ExecutionResult) : enc unit :=
  _ ← throw_if (4096 <? zlen (values result))
        (CodecFailure ResourceExhausted (lit "execution result has too many named Values"));
  _ ← Enc.u32 (static_cast_u32 (zlen (values result)));
  _ ← for_each encode_named_value (values result);
  encode_diagnostics (diagnostics result).

Definition decode_named_value : dec (bytes * Value) :=
  name ← Dec.text 1024;
  value ← decode_value;
  mret (name, value).

Definition decode_execution_result : dec ExecutionResult :=
  value_count ← Dec.u32;
  _ ← throw_if (4096 <? value_count)
        (CodecFailure InvalidArgument (lit "wire result has too many named Values"));
  _ ← Dec.require_count_fits value_count kResultValuesContract;
  values ← iterate (Z.to_nat value_count)
    (fun acc =>
       kv ← decode_named_value;
       emplace_or_throw
         (CodecFailure InvalidArgument (lit "wire result duplicates a Value name")) acc kv)
    [];
  diagnostics ← decode_diagnostics;
  mret (mk_ExecutionResult values diagnostics).

(** ** Members within their declared types *)

(** The daemon and the client see the same [Value]: the members IPC carries. *)
Definition value_equiv (v v' : Value) : Prop :=
  wire_view v' = wire_view v /\ Value_valid v' = true /\ wire_supported v'.

(** The decoder bounds a facet's payload, the encoder does not. *)
Definition facets_bounded (v : Value) : Prop :=
  Forall (fun f => zlen (facet_payload f) <= 64 * 1024) (Value_facets v).

Definition timing_fits (t : OperationTiming) : Prop :=
  is_uint 64 (timing_node_id t) /\ is_uint 8 (timing_backend t) /\
  is_uint 64 (duration_us t) /\ is_uint 8 (timing_outcome t).

Definition backend_fits (b : Z * Z) : Prop := is_uint 64 b.1 /\ is_uint 8 b.2.

Record diagnostics_fit (d : ExecutionDiagnostics) : Prop := {
  gf_execute : is_uint 64 (execute_us d);
  gf_sorted : sorted_map (selected_backends d);
  gf_backends : Forall backend_fits (selected_backends d);
  gf_count : is_uint 64 (transfer_count d);
  gf_bytes : is_uint 64 (transfer_bytes d);
  gf_peak : is_uint 64 (peak_live_bytes d);
  gf_timings : Forall timing_fits (operation_timings d);
}.

Record result_fits (r : ExecutionResult) : Prop := {
  rf_sorted : sorted_map (values r);
  rf_values : Forall (fun p => facets_bounded p.2) (values r);
  rf_diagnostics : diagnostics_fit (diagnostics r);
}.

Definition result_equiv (r r' : ExecutionResult) : Prop :=
  Forall2 (fun p q => p.1 = q.1 /\ value_equiv p.2 q.2) (values r) (values r') /\
  diagnostics r' = diagnostics r.

Context {HK : KernelLaws H}.

(** ** Round trips *)

Lemma rt_dimension d :
  is_uint 64 (dim_offset d) /\ is_uint 64 (dim_extent d) ->
  roundtrip eq d (encode_dimension d) decode_dimension 16 0.
Proof.
  intros [Ho He]. destruct d as [o e]. unfold encode_dimension, decode_dimension. eapply rt_min.
  - eapply rt_field; [eauto with photo|]. eapply rt_final; [eauto with photo|].
    by apply rt_ret.
  - lia.
Qed.

Lemma rt_facet f :
  is_uint 32 (facet_version f) /\ zlen (facet_payload f) <= 64 * 1024 ->
  roundtrip eq f (encode_facet f) decode_facet 12 0.
Proof.
  intros [Hv Hp]. destruct f as [k v p]. unfold encode_facet, decode_facet. eapply rt_min.
  - eapply rt_field; [eauto with photo|]. eapply rt_field; [eauto with photo|].
    eapply rt_final; [by apply rt_blob|]. by apply rt_ret.
  - lia.
Qed.

(** A vector whose length is known to both sides. *)
Lemma rt_array {A X B} (R : X -> B -> Prop) x (f : A -> enc unit) (d : dec A) (P : A -> Prop)
    l count e2 (k : list A -> dec B) mi m2 n :
  0 <= mi -> zlen l = count -> Forall P l ->
  (forall y, P y -> roundtrip eq y (f y) d mi 0) ->
  roundtrip R x e2 (k l) m2 n ->
  roundtrip R x (_ ← for_each f l; e2) (y ← collect (Z.to_nat count) d; k y)
    (mi * count + m2) n.
Proof.
  intros Hm <- HP Hrt Hk. apply (rt_field _ l); [|done]. by apply (rt_vector _ _ P).
Qed.

Lemma rt_size_u8 {A} (l : list A) bound :
  (bound <? zlen l) = false -> bound < 2 ^ 8 ->
  roundtrip eq (zlen l) (Enc.u8 (static_cast_u8 (zlen l))) Dec.u8 1 0.
Proof.
  intros Hl Hb. pose proof (zlen_nonneg l).
  rewrite static_cast_u8_id by (unfold is_uint; lia). apply rt_u8. unfold is_uint. lia.
Qed.

Lemma rt_publish v :
  Value_valid v = true -> wire_supported v ->
  roundtrip value_equiv v (mret tt)
    (publish_value (mk_ValueDescriptor (element_type (Value_descriptor v)) (shape (Value_descriptor v)))
       (Value_region v) (mk_StridedLayout (byte_offset (Value_layout v)) (byte_strides (Value_layout v)) [])
       (Value_bytes v) (Value_facets v)) 0 0.
Proof.
  intros Hv Hs. destruct (create_republishes v Hv Hs) as (Hr & v' & Hc & Hv' & Hs' & Hw).
  replace (mk_ValueDescriptor _ _) with (Value_descriptor v) by by destruct (Value_descriptor v).
  unfold publish_value. rewrite Hr, Hc. by apply rt_ret.
Qed.

Lemma existsb_origin l :
  existsb (fun o => negb (o =? 0)) l = false <-> Forall (fun o => o = 0) l.
Proof.
  induction l as [|o l IH]; cbn; [done|].
  rewrite orb_false_iff, Forall_cons, IH, negb_false_iff, Z.eqb_eq. done.
Qed.

Lemma rt_value v : facets_bounded v -> roundtrip value_equiv v (encode_value v) decode_value 50 52.
Proof.
  intros Hfacets. unfold encode_value, decode_value.
  apply rt_enc_check. intros [Hvalid Hrank]%orb_false_iff. apply negb_false_iff in Hvalid.
  apply rt_enc_check. intros [Htype Horigin]%orb_false_iff.
  apply Z.eqb_neq in Htype. apply existsb_origin in Horigin.
  assert (wire_supported v) as Hsup by done.
  pose proof (valid_fits v Hvalid Htype)
    as [Ht Hrank1 Hshape Hdims Hregion Hoffset Hnstrides Hstrides Hfv].
  destruct element_types_u32 as [Hu8 Hf64].
  assert (static_cast_u32 ElementType_UInt8 = ElementType_UInt8) as E1 by (apply Z.mod_small; lia).
  assert (static_cast_u32 ElementType_Float64 = ElementType_Float64) as E2
    by (apply Z.mod_small; lia).
  assert (static_cast_u32 (element_type (Value_descriptor v)) = element_type (Value_descriptor v))
    as -> by (apply Z.mod_small; lia).
  rewrite E1, E2. set (rank := zlen (shape (Value_descriptor v))) in *.
  assert (zlen (Value_region v) = rank) as Hdims' by (unfold zlen, rank; by rewrite Hdims).
  assert (zlen (byte_strides (Value_layout v)) = rank) as Hns' by (unfold zlen, rank; by rewrite Hnstrides).
  eapply rt_min.
  - apply (rt_field _ (element_type (Value_descriptor v))); [apply rt_u32; split; lia|].
    apply rt_dec_check; [lia|].
    apply (rt_field _ rank); [by apply (rt_size_u8 _ 8)|]. apply rt_dec_check; [lia|].
    apply rt_fence with (m := 8 * rank + (16 * rank + (8 + (8 * rank + (1 + (12 * zlen (Value_facets v) + 4))))));
      [lia|cbn; lia..|pose proof (zlen_nonneg (Value_facets v)); cbn; lia|].
    apply (rt_array _ _ _ _ (is_uint 64) (shape (Value_descriptor v))); [lia|done|done|auto with photo|].
    apply (rt_array _ _ _ _ (fun d => is_uint 64 (dim_offset d) /\ is_uint 64 (dim_extent d))
      (Value_region v)); [lia|done|done|apply rt_dimension|].
    apply (rt_field _ (byte_offset (Value_layout v))); [auto with photo|].
    apply (rt_array _ _ _ _ is_int64 (byte_strides (Value_layout v))); [lia|done|done|auto with photo|].
    apply rt_enc_check. intros Hnf.
    eapply (rt_counted eq value_equiv) with (l := Value_facets v) (ni := 0);
      cbn [minimum_entry_bytes required_suffix_bytes kValueFacetsContract];
      [by apply (rt_size_u8 _ 64)|done| |lia..|eauto|].
    + apply (rt_vector _ _ (fun f => is_uint 32 (facet_version f) /\ zlen (facet_payload f) <= 64 * 1024));
        [lia..|by apply Forall_and|apply rt_facet].
    + intros ? <-. apply (rt_final _ (Value_bytes v)); [apply rt_blob_frame|].
      by apply rt_any, rt_publish.
  - pose proof (zlen_nonneg (Value_facets v)). lia.
Qed.

Lemma known_backend_raw raw :
  is_uint 8 raw -> negb (raw =? Backend_Cpu) && negb (raw =? Backend_Gpu) = false ->
  known_backend (static_cast_u8 raw) = true.
Proof.
  intros Hr Hk. destruct backends_u8 as [Hc Hg]. unfold known_backend.
  rewrite (static_cast_u8_id _ Hr), (static_cast_u8_id _ Hc), (static_cast_u8_id _ Hg). lia.
Qed.

Lemma rt_backend b : backend_fits b -> roundtrip eq b (encode_backend b) decode_backend 9 0.
Proof.
  intros [Hid Hb]. destruct b as [id raw]. unfold encode_backend, decode_backend.
  cbn [fst snd] in *.
  apply rt_enc_check. intros [Hz Hk]%orb_false_iff. apply (known_backend_raw _ Hb) in Hk.
  rewrite (static_cast_u8_id _ Hb) in *. eapply rt_min.
  - eapply rt_field; [eauto with photo|]. eapply rt_final; [eauto with photo|].
    apply rt_dec_check; [by rewrite Hz, Hk|by apply rt_ret].
  - lia.
Qed.

Lemma rt_timing t : timing_fits t -> roundtrip eq t (encode_timing t) decode_timing 18 0.
Proof.
  intros (Hid & Hb & Hd & Ho). destruct t as [id raw dur out].
  unfold encode_timing, decode_timing.
  cbn [timing_node_id timing_backend duration_us timing_outcome] in *.
  apply rt_enc_check. intros [[Hz Hk]%orb_false_iff Hout]%orb_false_iff.
  apply (known_backend_raw _ Hb) in Hk.
  rewrite (static_cast_u8_id _ Hb), (static_cast_u8_id _ Ho) in *. eapply rt_min.
  - eapply rt_field; [eauto with photo|]. eapply rt_field; [eauto with photo|].
    apply rt_dec_check; [by rewrite Hz, Hk|].
    eapply rt_field; [eauto with photo|]. eapply rt_final; [eauto with photo|].
    apply rt_dec_check; [done|]. by apply rt_ret.
  - lia.
Qed.

Lemma rt_diagnostics d :
  diagnostics_fit d -> roundtrip eq d (encode_diagnostics d) decode_diagnostics 52 0.
Proof.
  intros [He Hsort Hb Hc Hby Hp Ht]. unfold encode_diagnostics, decode_diagnostics.
  apply rt_enc_check. intros [[Hnb Hnt]%orb_false_iff Hnr]%orb_false_iff.
  pose proof (zlen_nonneg (selected_backends d)). pose proof (zlen_nonneg (fallback_reasons d)).
  pose proof (zlen_nonneg (operation_timings d)).
  eapply rt_min.
  - eapply rt_field; [eauto with photo|].
    eapply (rt_counted eq eq) with (l := selected_backends d) (mi := 9) (ni := 0)
      (m2 := 8 + (8 + (8 + (4 + (4 * zlen (fallback_reasons d)
             + (4 + (18 * zlen (operation_timings d) + (4 + 4))))))));
      cbn [minimum_entry_bytes required_suffix_bytes kDiagnosticBackendsContract];
      [by apply (rt_size _ 65536)|done|by apply (rt_map _ _ backend_fits); [lia|lia|..|apply rt_backend]
      |lia..|eauto|].
    intros ? <-.
    eapply rt_field; [eauto with photo|]. eapply rt_field; [eauto with photo|].
    eapply rt_field; [eauto with photo|].
    eapply (rt_counted eq eq) with (l := fallback_reasons d) (mi := 4) (ni := 0)
      (m2 := 4 + (18 * zlen (operation_timings d) + (4 + 4)));
      cbn [minimum_entry_bytes required_suffix_bytes kDiagnosticReasonsContract];
      [by apply (rt_size _ 65536)|done
      |apply (rt_vector _ _ (fun _ => True)); [lia|lia|by apply Forall_true|auto with photo]
      |lia..|eauto|].
    intros ? <-.
    eapply (rt_counted eq eq) with (l := operation_timings d) (mi := 18) (ni := 0) (m2 := 4 + 4);
      cbn [minimum_entry_bytes required_suffix_bytes kDiagnosticTimingsContract];
      [by apply (rt_size _ 131072)|done
      |by apply (rt_vector _ _ timing_fits); [lia|lia|..|apply rt_timing]
      |lia..|eauto|].
    intros ? <-. eapply rt_field; [eauto with photo|]. eapply rt_final; [eauto with photo|].
    apply rt_ret. by destruct d.
  - lia.
Qed.

Lemma value_equiv_refl v : Value_valid v = true -> wire_supported v -> value_equiv v v.
Proof. done. Qed.

Lemma rt_named_value p :
  facets_bounded p.2 ->
  roundtrip (fun p q => p.1 = q.1 /\ value_equiv p.2 q.2) p (encode_named_value p)
    decode_named_value 54 52.
Proof.
  intros Hf. destruct p as [name v]. unfold encode_named_value, decode_named_value.
  eapply rt_min.
  - eapply rt_field; [eauto with photo|].
    eapply (rt_last value_equiv); [by apply rt_value|]. intros v' Hv'. done.
  - lia.
Qed.

(** An encodable value is equivalent to itself, whatever the encoder wrote. *)
Definition value_encodable (v : Value) : Prop := Value_valid v = true /\ wire_supported v.

Lemma encode_value_encodable v st st' :
  encode_value v st = Return (tt, st') -> value_encodable v.
Proof.
  unfold encode_value, value_encodable, wire_supported. rewrite <- existsb_origin.
  destruct (Value_valid v), (8 <? _); try done. cbn [negb orb throw_if].
  destruct (Z.eqb_spec (element_type (Value_descriptor v)) ElementType_Float32); [done|].
  by destruct (existsb _ _).
Qed.

Lemma for_each_returns {A} (f : A -> enc unit) (l : list A) (P : A -> Prop) st st' :
  (forall x s s', f x s = Return (tt, s') -> P x) ->
  for_each f l st = Return (tt, st') -> Forall P l.
Proof.
  intros Hf. revert st. induction l as [|x l IH]; intros st; [constructor|].
  cbn [for_each]. cbv [mbind exec_bind]. destruct (f x st) as [[[] s]|] eqn:E; [|done].
  intros Hl. constructor; [by eapply Hf|by eapply IH].
Qed.

Lemma encode_values_encodable l st st' :
  for_each encode_named_value l st = Return (tt, st') ->
  Forall (fun p => value_encodable p.2) l.
Proof.
  apply for_each_returns. intros p s s'. unfold encode_named_value. cbv [mbind exec_bind].
  destruct (Enc.text p.1 1024 s) as [[[] s1]|]; [|done]. apply encode_value_encodable.
Qed.

(** A fact that the encoder's success gives can be assumed of the round trip. *)
Lemma rt_assume {A B} (R : A -> B -> Prop) x e d m n (P : Prop) :
  (forall st st', e st = Return (tt, st') -> P) ->
  (P -> roundtrip R x e d m n) -> roundtrip R x e d m n.
Proof. intros HP Hrt st st' Hst He. by apply (Hrt (HP _ _ He)). Qed.

Lemma rt_execution_result r :
  result_fits r ->
  roundtrip result_equiv r (encode_execution_result r) decode_execution_result 56 0.
Proof.
  intros [Hsort Hv Hd].
  apply (rt_assume _ _ _ _ _ _ (Forall (fun p => value_encodable p.2) (values r))).
  { intros st st'. unfold encode_execution_result. cbv [mbind exec_bind throw_if].
    destruct (4096 <? _); [done|]. cbv [mret exec_ret].
    destruct (Enc.u32 _ _) as [[[] s1]|]; [|done].
    destruct (for_each _ _ s1) as [[[] s2]|] eqn:E; [|done]. intros _.
    by eapply encode_values_encodable. }
  intros Henc. rewrite Forall_forall in Hv, Henc.
  unfold encode_execution_result, decode_execution_result.
  apply rt_enc_check. intros Hn. pose proof (zlen_nonneg (values r)). eapply rt_min.
  - apply (rt_counted (Forall2 (fun p q => p.1 = q.1 /\ value_equiv p.2 q.2)) result_equiv)
      with (mc := 4) (mi := 54) (m2 := 52) (ni := 52);
      cbn [minimum_entry_bytes required_suffix_bytes kResultValuesContract];
      [by apply (rt_size _ 4096)|done| |lia..| |].
    + rewrite zlen_to_nat. apply rt_emplace; [lia..|done| |].
      * intros p Hp. by apply rt_named_value, Hv.
      * intros p Hp. exists p.2. by destruct (Henc p Hp).
    + exists (values r). apply Forall2_same_length_lookup_2; [done|].
      intros i p q Hp Hq. simplify_eq. split; [done|].
      destruct (Henc p); [by eapply list_elem_of_lookup_2|]. done.
    + intros vs Hvs. eapply (rt_last eq); [by apply rt_diagnostics|]. by intros ? <-.
  - lia.
Qed.
End Codec.
