(* ===== verification/Codec.v ===== *)
(** The codec's entry points ([src/lib/ipc/codec.cpp]): complete requests,
    responses and protocol errors, and the closed method inventory.

    An encoder catches [CodecFailure] only and a decoder also catches
    [std::invalid_argument], so the former return an [outcome] of a [Result]. *)
From S2P Require Import Prelude OrdMap Kernel Protocol Utf8 Wire RoundTrip Scalars.
From S2P Require Import CodecRequest CodecResult.

(** [method_name]: the canonical names, as text. *)
Definition method_name (method : Method.t) : bytes :=
  match method with
  | Method.SessionCreate => lit "session.create"
  | Method.SessionClose => lit "session.close"
  | Method.JobSubmit => lit "job.submit"
  | Method.JobStatus => lit "job.status"
  | Method.JobCancel => lit "job.cancel"
  | Method.JobResult => lit "job.result"
  | Method.JobRelease => lit "job.release"
  | Method.DaemonInfo => lit "daemon.info"
  | Method.DaemonShutdown => lit "daemon.shutdown"
  | Method.Unknown _ => lit "unknown"
  end.

(** [std::string]'s order, as a relation. *)
Definition bytes_le (s t : bytes) : Prop := bytes_lt t s = false.
#[export] Instance bytes_le_dec : RelDecision bytes_le.
Proof. intros s t. unfold bytes_le. apply _. Defined.

(** [method_inventory]; [std::sort] is a sort by that order. *)
Definition method_inventory : list bytes :=
  merge_sort bytes_le
    (map method_name
       [Method.DaemonInfo; Method.DaemonShutdown; Method.JobCancel; Method.JobRelease;
        Method.JobResult; Method.JobStatus; Method.JobSubmit; Method.SessionClose;
        Method.SessionCreate]).

(** [valid_method]. *)
Definition valid_method (method : Method.t) : bool :=
  let raw := Method.raw method in
  (Method.raw Method.SessionCreate <=? raw) && (raw <=? Method.raw Method.DaemonShutdown).

Section Codec.
Context `{Kernel}.

(** ** Validators; they throw in encoders and in decoders *)

Definition require_session_id {S} (id : SessionId) : exec CodecExn S unit :=
  throw_if ((session_instance id =? 0) || (session_value id =? 0))
    (CodecFailure InvalidArgument (lit "wire SessionId contains zero")).

Definition require_job_id {S} (id : JobId) : exec CodecExn S unit :=
  throw_if ((job_instance id =? 0) || (job_value id =? 0))
    (CodecFailure InvalidArgument (lit "wire JobId contains zero")).

Definition validate_job_status {S} (status : JobStatus) : exec CodecExn S unit :=
  _ ← require_job_id (js_job_id status);
  _ ← require_session_id (js_session_id status);
  _ ← throw_if (negb (job_instance (js_job_id status) =? session_instance (js_session_id status)))
        (CodecFailure InvalidArgument (lit "wire JobStatus identity domains differ"));
  match js_state status with
  | JobState.Queued | JobState.Running | JobState.Succeeded =>
    throw_if (negb (status_ok (js_outcome status)))
      (CodecFailure InvalidArgument (lit "wire non-failed Job state carries failure"))
  | JobState.Failed =>
    throw_if (status_ok (js_outcome status) || (code (js_outcome status) =? Cancelled))
      (CodecFailure InvalidArgument (lit "wire failed Job carries invalid outcome"))
  | JobState.Cancelled =>
    throw_if (negb (code (js_outcome status) =? Cancelled))
      (CodecFailure InvalidArgument (lit "wire cancelled Job lacks cancellation outcome"))
  | JobState.Unknown _ =>
    throw (CodecFailure InvalidArgument (lit "wire Job state is unknown"))
  end.

Definition validate_daemon_info {S} (info : DaemonInfo) : exec CodecExn S unit :=
  throw_if (negb (protocol_version info =? kProtocolVersion) || (instance_id info =? 0)
            || is_empty (service_version info)
            || bool_decide (transport info <> lit "unix-domain")
            || (maximum_concurrency info =? 0) || (maximum_sessions info =? 0)
            || bool_decide (methods info <> method_inventory))
    (CodecFailure InvalidArgument (lit "wire daemon.info payload is inconsistent")).

Definition decode_method (raw : Z) : dec Method.t :=
  _ ← throw_if ((raw <? Method.raw Method.SessionCreate)
                || (Method.raw Method.DaemonShutdown <? raw))
        (CodecFailure InvalidArgument (lit "wire method code is unknown"));
  mret (Method.of_raw raw).

Definition decode_job_state (raw : Z) : dec JobState.t :=
  _ ← throw_if ((raw <? JobState.raw JobState.Queued)
                || (JobState.raw JobState.Cancelled <? raw))
        (CodecFailure InvalidArgument (lit "wire job state is unknown"));
  mret (JobState.of_raw raw).

(** ** The try blocks *)

(** [catch (const CodecFailure&)]; any other exception leaves the function. *)
Definition catch_codec {T} (o : outcome CodecExn T) : outcome CodecExn (Result T) :=
  match o with
  | Return value => Return (ROk value)
  | Throw (CodecFailure c what) => Return (RErr (failure c what))
  | Throw exn => Throw exn
  end.

(** The same followed by [catch (const std::invalid_argument&)]. *)
Definition catch_all {T} (o : outcome CodecExn T) : Result T :=
  match o with
  | Return value => ROk value
  | Throw (CodecFailure c what) => RErr (failure c what)
  | Throw (StdInvalidArgument what) => RErr (failure InvalidArgument what)
  end.

(** Fills a fresh [Encoder] and takes [finish()]. *)
Definition run_encoder (body : enc unit) : outcome CodecExn bytes :=
  match body (mk_Encoder []) with
  | Return (_, encoder) => Return (payload_ encoder)
  | Throw exn => Throw exn
  end.

(** Runs the body on [Decoder decoder(payload)]. *)
Definition run_decoder {T} (body : dec T) (p : bytes) : outcome CodecExn T :=
  match Dec.open_payload p with
  | Return decoder =>
    match body decoder with
    | Return (value, _) => Return value
    | Throw exn => Throw exn
    end
  | Throw exn => Throw exn
  end.

(** ** Requests *)

Definition encode_session_id (id : SessionId) : enc unit :=
  _ ← Enc.u64 (session_instance id);
  Enc.u64 (session_value id).

Definition encode_job_id (id : JobId) : enc unit :=
  _ ← Enc.u64 (job_instance id);
  Enc.u64 (job_value id).

Definition decode_session_id : dec SessionId :=
  instance ← Dec.u64;
  value ← Dec.u64;
  mret (mk_SessionId instance value).

Definition decode_job_id : dec JobId :=
  instance ← Dec.u64;
  value ← Dec.u64;
  mret (mk_JobId instance value).

(** The version, the correlation id and the method code. *)
Definition encode_header (request_id : Z) (method : Method.t) : enc unit :=
  _ ← Enc.u16 kProtocolVersion;
  _ ← Enc.u64 request_id;
  Enc.u8 (Method.raw method).

(** The [switch] of [encode_request]. *)
Definition encode_request_body (request : Request) : enc unit :=
  match req_method request with
  | Method.SessionCreate => encode_document (req_document request)
  | Method.SessionClose =>
    _ ← require_session_id (req_session_id request);
    encode_session_id (req_session_id request)
  | Method.JobSubmit =>
    _ ← require_session_id (req_session_id request);
    _ ← encode_session_id (req_session_id request);
    _ ← Enc.boolean (allow_gpu (req_submit_options request));
    Enc.u32 (maximum_parallelism (req_submit_options request))
  | Method.JobStatus | Method.JobCancel | Method.JobResult | Method.JobRelease =>
    _ ← require_job_id (req_job_id request);
    encode_job_id (req_job_id request)
  | Method.DaemonInfo | Method.DaemonShutdown | Method.Unknown _ => mret tt
  end.

Definition encode_request (request : Request) : outcome CodecExn (Result bytes) :=
  catch_codec (run_encoder (
    _ ← throw_if ((req_request_id request =? 0) || negb (valid_method (req_method request)))
          (CodecFailure InvalidArgument (lit "wire request id or method is invalid"));
    _ ← encode_header (req_request_id request) (req_method request);
    encode_request_body request)).

(** The [switch] of [decode_request], filling the default request. *)
Definition decode_request_body (request_id : Z) (method : Method.t) : dec Request :=
  match method with
  | Method.SessionCreate =>
    document ← decode_document;
    mret (mk_Request request_id method document default_SessionId default_JobId
            default_submit_options)
  | Method.SessionClose =>
    id ← decode_session_id;
    _ ← require_session_id id;
    mret (mk_Request request_id method default_document id default_JobId
            default_submit_options)
  | Method.JobSubmit =>
    id ← decode_session_id;
    gpu ← Dec.boolean;
    parallelism ← Dec.u32;
    _ ← require_session_id id;
    mret (mk_Request request_id method default_document id default_JobId
            (mk_JobSubmitOptions gpu parallelism))
  | Method.JobStatus | Method.JobCancel | Method.JobResult | Method.JobRelease =>
    id ← decode_job_id;
    _ ← require_job_id id;
    mret (mk_Request request_id method default_document default_SessionId id
            default_submit_options)
  | Method.DaemonInfo | Method.DaemonShutdown | Method.Unknown _ =>
    mret (mk_Request request_id method default_document default_SessionId default_JobId
            default_submit_options)
  end.

Definition decode_request (p : bytes) : Result Request :=
  catch_all (run_decoder (
    version ← Dec.u16;
    _ ← throw_if (negb (version =? kProtocolVersion))
          (CodecFailure InvalidArgument (lit "wire protocol version is not three"));
    request_id ← Dec.u64;
    _ ← throw_if (request_id =? 0)
          (CodecFailure InvalidArgument (lit "wire request id must be nonzero"));
    raw ← Dec.u8;
    method ← decode_method raw;
    request ← decode_request_body request_id method;
    _ ← Dec.require_end;
    mret request) p).

(** ** Responses *)

Definition encode_job_status (status : JobStatus) : enc unit :=
  _ ← validate_job_status status;
  _ ← encode_job_id (js_job_id status);
  _ ← encode_session_id (js_session_id status);
  _ ← Enc.u8 (JobState.raw (js_state status));
  encode_status (js_outcome status).

Definition encode_daemon_info (info : DaemonInfo) : enc unit :=
  _ ← validate_daemon_info info;
  _ ← Enc.u16 (protocol_version info);
  _ ← Enc.u64 (instance_id info);
  _ ← Enc.text (service_version info) 128;
  _ ← Enc.text (transport info) 64;
  _ ← throw_if (16 <? zlen (methods info))
        (CodecFailure InvalidArgument (lit "daemon method inventory is too large"));
  _ ← Enc.u8 (static_cast_u8 (zlen (methods info)));
  _ ← for_each (fun method => Enc.text method 64) (methods info);
  _ ← Enc.u64 (active_sessions info);
  _ ← Enc.u64 (active_jobs info);
  _ ← Enc.u32 (maximum_concurrency info);
  Enc.u32 (maximum_sessions info).

(** The [switch] of [encode_response]. *)
Definition encode_response_body (response : Response) : enc unit :=
  match resp_method response with
  | Method.SessionCreate =>
    _ ← require_session_id (resp_session_id response);
    encode_session_id (resp_session_id response)
  | Method.JobSubmit =>
    _ ← require_job_id (resp_job_id response);
    encode_job_id (resp_job_id response)
  | Method.JobStatus => encode_job_status (resp_job_status response)
  | Method.JobResult => encode_execution_result (resp_execution_result response)
  | Method.DaemonInfo => encode_daemon_info (resp_daemon_info response)
  | Method.SessionClose | Method.JobCancel | Method.JobRelease | Method.DaemonShutdown
  | Method.Unknown _ => mret tt
  end.

Definition encode_response (response : Response) : outcome CodecExn (Result bytes) :=
  catch_codec (run_encoder (
    _ ← throw_if ((resp_request_id response =? 0) || negb (valid_method (resp_method response)))
          (CodecFailure InvalidArgument (lit "wire response id or method is invalid"));
    _ ← encode_header (resp_request_id response) (resp_method response);
    _ ← encode_status (resp_status response);
    if status_ok (resp_status response) then encode_response_body response else mret tt)).

Definition decode_job_status : dec JobStatus :=
  job ← decode_job_id;
  session ← decode_session_id;
  raw ← Dec.u8;
  state ← decode_job_state raw;
  outcome ← decode_status;
  let status := mk_JobStatus job session state outcome in
  _ ← validate_job_status status;
  mret status.

Definition decode_daemon_info : dec DaemonInfo :=
  version ← Dec.u16;
  instance ← Dec.u64;
  service ← Dec.text 128;
  transport ← Dec.text 64;
  method_count ← Dec.u8;
  _ ← throw_if (16 <? method_count)
        (CodecFailure InvalidArgument (lit "response has too many methods"));
  _ ← Dec.require_count_fits method_count kDaemonMethodsContract;
  methods ← collect (Z.to_nat method_count) (Dec.text 64);
  sessions ← Dec.u64;
  jobs ← Dec.u64;
  concurrency ← Dec.u32;
  maximum ← Dec.u32;
  let info := mk_DaemonInfo version instance service transport methods sessions jobs
                concurrency maximum in
  _ ← validate_daemon_info info;
  mret info.

(** The [switch] of [decode_response], filling [response]. *)
Definition decode_response_body (response : Response) : dec Response :=
  let 'mk_Response id method status session job js result info shutdown := response in
  match method with
  | Method.SessionCreate =>
    session ← decode_session_id;
    _ ← require_session_id session;
    mret (mk_Response id method status session job js result info shutdown)
  | Method.JobSubmit =>
    job ← decode_job_id;
    _ ← require_job_id job;
    mret (mk_Response id method status session job js result info shutdown)
  | Method.JobStatus =>
    js ← decode_job_status;
    mret (mk_Response id method status session job js result info shutdown)
  | Method.JobResult =>
    result ← decode_execution_result;
    mret (mk_Response id method status session job js result info shutdown)
  | Method.DaemonInfo =>
    info ← decode_daemon_info;
    mret (mk_Response id method status session job js result info shutdown)
  | Method.SessionClose | Method.JobCancel | Method.JobRelease | Method.DaemonShutdown
  | Method.Unknown _ => mret response
  end.

Definition decode_response (p : bytes) (expected_method : Method.t) (expected_request_id : Z) :
    Result Response :=
  if (expected_request_id =? 0) || negb (valid_method expected_method)
  then RErr (failure InvalidArgument (lit "expected response correlation is invalid"))
  else catch_all (run_decoder (
    version ← Dec.u16;
    _ ← throw_if (negb (version =? kProtocolVersion))
          (CodecFailure InvalidArgument (lit "response protocol version is not three"));
    request_id ← Dec.u64;
    raw ← Dec.u8;
    method ← decode_method raw;
    _ ← throw_if (negb (request_id =? expected_request_id)
                  || bool_decide (method <> expected_method))
          (CodecFailure InvalidArgument (lit "response correlation does not match request"));
    status ← decode_status;
    response ← (if status_ok status
                then decode_response_body (response_header request_id method status)
                else mret (response_header request_id method status));
    _ ← Dec.require_end;
    mret response) p).

(** ** Protocol errors *)

(** [( *payload)[index]], under the size test. *)
Definition byte_at (p : bytes) (index : nat) : Z := default 0 (p !! index).

(** The first loop of [recover_correlation]. *)
Definition header_request_id (p : bytes) : Z :=
  fold_left
    (fun request_id index =>
       Z.lor request_id (Z.shiftl (byte_at p (index + 2)) (Z.of_nat index * 8)))
    (seq 0 8) 0.

(** The fixed header of malformed bytes, or the sentinel. *)
Definition recover_correlation (payload : option bytes) : Z * Method.t :=
  let sentinel := (0, Method.DaemonInfo) in
  match payload with
  | None => sentinel
  | Some p =>
    if (zlen p <? 11)
       || negb (Z.lor (byte_at p 0) (Z.shiftl (byte_at p 1) 8) =? kProtocolVersion)
    then sentinel
    else
      let request_id := header_request_id p in
      let method := Method.of_raw (byte_at p 10) in
      if (request_id =? 0) || negb (valid_method method) then sentinel
      else (request_id, method)
  end.

Definition encode_protocol_error (status : Status) (request_payload : option bytes) :
    outcome CodecExn (Result bytes) :=
  catch_codec (run_encoder (
    _ ← throw_if (status_ok status)
          (CodecFailure InvalidArgument (lit "protocol error response cannot carry success"));
    let correlation := recover_correlation request_payload in
    _ ← encode_header correlation.1 correlation.2;
    encode_status status)).

Definition decode_protocol_error (p : bytes) : outcome CodecExn (Result Response) :=
  catch_codec (run_decoder (
    version ← Dec.u16;
    _ ← throw_if (negb (version =? kProtocolVersion))
          (CodecFailure InvalidArgument (lit "protocol error response version is not three"));
    request_id ← Dec.u64;
    raw ← Dec.u8;
    method ← decode_method raw;
    status ← decode_status;
    _ ← Dec.require_end;
    _ ← throw_if (status_ok status
                  || ((request_id =? 0) && bool_decide (method <> Method.DaemonInfo)))
          (CodecFailure InvalidArgument
             (lit "protocol error response status or sentinel is invalid"));
    mret (response_header request_id method status)) p).
End Codec.
