(* ===== verification/CodecSpec.v ===== *)
(** What the codec's entry points promise: messages round trip, decoded messages
    are well formed, the encoders raise no exception. *)
From S2P Require Import Prelude OrdMap Kernel Protocol Utf8 Wire RoundTrip Scalars.
From S2P Require Import CodecRequest CodecResult Codec.

(** A lifecycle snapshot [validate_job_status] accepts. *)
Definition job_status_valid `{Kernel} (s : JobStatus) : bool :=
  negb (job_instance (js_job_id s) =? 0) && negb (job_value (js_job_id s) =? 0)
  && negb (session_instance (js_session_id s) =? 0) && negb (session_value (js_session_id s) =? 0)
  && (job_instance (js_job_id s) =? session_instance (js_session_id s))
  && match js_state s with
     | JobState.Queued | JobState.Running | JobState.Succeeded => status_ok (js_outcome s)
     | JobState.Failed => negb (status_ok (js_outcome s)) && negb (code (js_outcome s) =? Cancelled)
     | JobState.Cancelled => code (js_outcome s) =? Cancelled
     | JobState.Unknown _ => false
     end.

Section CodecSpec.
Context `{HK : KernelLaws}.

(** ** Complete messages *)

(** [roundtrip] for a decoder that ends at the end of the payload. *)
Definition complete {A B} (R : A -> B -> Prop) (x : A) (e : enc unit) (d : dec B) : Prop :=
  forall st st', enc_inv st -> e st = Return (tt, st') ->
  enc_inv st' /\
  exists bs, payload_ st' = payload_ st ++ bs /\
  forall ds, dec_inv ds -> unread ds = bs -> exists y ds', d ds = Return (y, ds') /\ R x y.

Lemma complete_bind {A A1 B1 B} (R1 : A1 -> B1 -> Prop) (R : A -> B -> Prop)
    x1 x e1 e2 d1 (k : B1 -> dec B) m :
  (exists y1, R1 x1 y1) ->
  roundtrip R1 x1 e1 d1 m 0 -> (forall y1, R1 x1 y1 -> complete R x e2 (k y1)) ->
  complete R x (_ ← e1; e2) (y1 ← d1; k y1).
Proof.
  intros [y0 Hy0] H1 H2 st st' Hst He. cbv [mbind exec_bind] in He.
  destruct (e1 st) as [[[] st1]|] eqn:He1; [|done].
  destruct (H1 st st1 Hst He1) as (Hst1 & bs1 & Hbs1 & _ & Hd1).
  destruct (H2 y0 Hy0 st1 st' Hst1 He) as (Hst' & bs2 & Hbs2 & _).
  split; [done|]. exists (bs1 ++ bs2). rewrite app_assoc, <- Hbs1, <- Hbs2. split; [done|].
  intros ds Hds Hun. destruct (Hd1 ds bs2 Hds Hun (zlen_nonneg _)) as (y1 & ds1 & Hy1 & HR1 & Hds1 & Hun1).
  destruct (H2 y1 HR1 st1 st' Hst1 He) as (_ & bs2' & Hbs2' & Hd2).
  assert (bs2' = bs2) as -> by (rewrite Hbs2 in Hbs2'; by apply app_inv_head in Hbs2').
  cbv [mbind exec_bind]. rewrite Hy1. by apply Hd2.
Qed.

Lemma complete_field {A A1 B} (R : A -> B -> Prop) x1 x e1 e2 d1 (k : A1 -> dec B) m :
  roundtrip eq x1 e1 d1 m 0 -> complete R x e2 (k x1) ->
  complete R x (_ ← e1; e2) (y1 ← d1; k y1).
Proof. intros H1 H2. apply (complete_bind eq R x1 x e1 e2 d1 k m); [eauto|done|by intros ? <-]. Qed.

(** The encoder's last part, after which the decoder checks. *)
Lemma complete_last {A A1 B1 B} (R1 : A1 -> B1 -> Prop) (R : A -> B -> Prop) x1 x e d
    (k : B1 -> dec B) m :
  roundtrip R1 x1 e d m 0 -> (forall y1, R1 x1 y1 -> complete R x (mret tt) (k y1)) ->
  complete R x e (y1 ← d; k y1).
Proof.
  intros Hrt Hk st st' Hst He. destruct (Hrt st st' Hst He) as (Hst' & bs & Hbs & _ & Hd).
  split; [done|]. exists bs. split; [done|]. intros ds Hds Hun.
  destruct (Hd ds [] Hds) as (y & ds1 & Hy & HR & Hds1 & Hun1); [by rewrite app_nil_r|done|].
  destruct (Hk y HR st' st' Hst' eq_refl) as (_ & bs' & Hbs' & Hd').
  assert (bs' = []) as ->.
  { rewrite <- (app_nil_r (payload_ st')) in Hbs' at 1. by apply app_inv_head in Hbs'. }
  cbv [mbind exec_bind]. rewrite Hy. by apply Hd'.
Qed.

Lemma complete_check {A B} (R : A -> B -> Prop) x c exn e d :
  c = false -> complete R x e d -> complete R x e (_ ← throw_if c exn; d).
Proof. by intros ->. Qed.

Lemma complete_enc_check {A B} (R : A -> B -> Prop) x c exn e d :
  (c = false -> complete R x e d) -> complete R x (_ ← throw_if c exn; e) d.
Proof. intros Hc st st' Hst He. destruct c; [done|]. by apply Hc. Qed.

Lemma complete_end {A B} (R : A -> B -> Prop) x (k : dec B) :
  (forall ds, exists y ds', k ds = Return (y, ds') /\ R x y) ->
  complete R x (mret tt) (_ ← Dec.require_end; k).
Proof.
  intros Hk st st' Hst He. injection He as <-. split; [done|].
  exists []. rewrite app_nil_r. split; [done|]. intros ds Hds Hun.
  pose proof (unread_length ds Hds) as Hlen. rewrite Hun, zlen_nil in Hlen.
  cbv [mbind exec_bind Dec.require_end].
  destruct (Z.eqb_spec (offset_ ds) (zlen (payload ds))); [apply Hk|lia].
Qed.

(** A fresh encoder, and a decoder opened on what it built. *)
Lemma complete_run {A B} (R : A -> B -> Prop) x e (d : dec B) bs :
  complete R x e d -> run_encoder e = Return bs ->
  zlen bs <= kMaximumFramePayloadBytes /\ exists y, run_decoder d bs = Return y /\ R x y.
Proof.
  intros Hc Hrun. unfold run_encoder in Hrun.
  destruct (e (mk_Encoder [])) as [[[] st']|] eqn:He; [|done]. injection Hrun as <-.
  destruct (Hc (mk_Encoder []) st') as (Hst' & bs & Hbs & Hd); [done|done|]. cbn in Hbs.
  unfold enc_inv in Hst'. split; [done|]. unfold run_decoder, Dec.open_payload.
  destruct (kMaximumFramePayloadBytes <? zlen (payload_ st')) eqn:Hmax; [lia|].
  destruct (Hd (mk_Decoder (payload_ st') 0)) as (y & ds' & Hy & HR).
  - split; cbn; [done|]. pose proof (zlen_nonneg (payload_ st')). lia.
  - by rewrite Hbs.
  - rewrite Hy. eauto.
Qed.

Lemma catch_codec_ok {T} (o : outcome CodecExn T) v :
  catch_codec o = Return (ROk v) -> o = Return v.
Proof. unfold catch_codec. repeat case_match; intros; simplify_eq; done. Qed.

(** ** The parts of a message *)

Definition session_id_fits (id : SessionId) : Prop :=
  is_uint 64 (session_instance id) /\ is_uint 64 (session_value id).
Definition job_id_fits (id : JobId) : Prop :=
  is_uint 64 (job_instance id) /\ is_uint 64 (job_value id).

Lemma rt_session_id id :
  session_id_fits id -> roundtrip eq id (encode_session_id id) decode_session_id 16 0.
Proof.
  intros [Hi Hv]. destruct id. eapply rt_min.
  - eapply rt_field; [eauto with photo|]. eapply rt_final; [eauto with photo|]. by apply rt_ret.
  - lia.
Qed.

Lemma rt_job_id id : job_id_fits id -> roundtrip eq id (encode_job_id id) decode_job_id 16 0.
Proof.
  intros [Hi Hv]. destruct id. eapply rt_min.
  - eapply rt_field; [eauto with photo|]. eapply rt_final; [eauto with photo|]. by apply rt_ret.
  - lia.
Qed.

Lemma valid_method_range m : valid_method m = true -> 1 <= Method.raw m <= 9.
Proof. unfold valid_method. cbn. lia. Qed.

(** The header of a message with a valid correlation; [c] is the decoder's own test
    of the request id. *)
Lemma complete_header {A B} (R : A -> B -> Prop) x id m e (k : Z -> Method.t -> dec B)
    exn (c : Z -> bool) exn' :
  is_uint 64 id -> Method.wf m -> valid_method m = true -> c id = false ->
  complete R x e (k id m) ->
  complete R x (_ ← encode_header id m; e)
    (version ← Dec.u16;
     _ ← throw_if (negb (version =? kProtocolVersion)) exn;
     request_id ← Dec.u64;
     _ ← throw_if (c request_id) exn';
     raw ← Dec.u8;
     method ← decode_method raw;
     k request_id method).
Proof.
  intros Hid Hwf Hm Hc Hk. apply valid_method_range in Hm.
  intros st st' Hst He.
  assert ((_ ← Enc.u16 kProtocolVersion; _ ← Enc.u64 id; _ ← Enc.u8 (Method.raw m); e) st
          = Return (tt, st')) as He'.
  { revert He. unfold encode_header. cbv [mbind exec_bind].
    by destruct (Enc.u16 _ _) as [[[] s1]|]; [destruct (Enc.u64 _ _) as [[[] s2]|]|]. }
  clear He. revert st st' Hst He'.
  eapply complete_field; [apply rt_u16; unfold is_uint, kProtocolVersion; lia|].
  apply complete_check; [done|]. eapply complete_field; [by apply rt_u64|].
  apply complete_check; [done|]. eapply complete_field; [apply rt_u8; unfold is_uint; lia|].
  unfold decode_method. replace ((_ <? _) || (_ <? _)) with false by (cbn; lia).
  rewrite method_of_raw_raw by done. exact Hk.
Qed.

(** ** Requests *)

(** The members of a request its method sends; the others stay at their defaults. *)
Definition canonical_request (r : Request) : Request :=
  let m := req_method r in
  mk_Request (req_request_id r) m
    (match m with Method.SessionCreate => req_document r | _ => default_document end)
    (match m with
     | Method.SessionClose | Method.JobSubmit => req_session_id r
     | _ => default_SessionId
     end)
    (match m with
     | Method.JobStatus | Method.JobCancel | Method.JobResult | Method.JobRelease => req_job_id r
     | _ => default_JobId
     end)
    (match m with
     | Method.JobSubmit => req_submit_options r
     | _ => default_submit_options
     end).

(** Members within their declared types. *)
Record request_fits (r : Request) : Prop := {
  qf_id : is_uint 64 (req_request_id r);
  qf_method : Method.wf (req_method r);
  qf_document : document_fits (req_document r);
  qf_session : session_id_fits (req_session_id r);
  qf_job : job_id_fits (req_job_id r);
  qf_parallelism : is_uint 32 (maximum_parallelism (req_submit_options r));
}.

Lemma rt_request_body r :
  request_fits r ->
  roundtrip (fun r r' => r' = canonical_request r) r (encode_request_body r)
    (decode_request_body (req_request_id r) (req_method r)) 0 0.
Proof.
  intros [_ _ Hd Hs Hj Hp]. destruct r as [id m doc sid jid [gpu par]].
  unfold encode_request_body, decode_request_body, canonical_request. cbn in *.
  destruct m; try by apply rt_ret.
  all: first
    [ eapply rt_min; [eapply rt_last; [by apply rt_document|by intros ? <-]|lia]
    | apply rt_enc_check; intros Hz; eapply rt_min;
      [ eapply rt_final; [by first [apply rt_session_id | apply rt_job_id]|];
        apply rt_dec_check; [exact Hz|by apply rt_ret]
      | lia ]
    | idtac ].
  apply rt_enc_check. intros Hz. eapply rt_min.
  - eapply rt_field; [by apply rt_session_id|]. eapply rt_field; [apply rt_boolean|].
    eapply rt_final; [by apply rt_u32|]. apply rt_dec_check; [exact Hz|by apply rt_ret].
  - lia.
Qed.

Lemma encoded_request_decodes r bs :
  request_fits r -> encode_request r = Return (ROk bs) ->
  zlen bs <= kMaximumFramePayloadBytes /\ decode_request bs = ROk (canonical_request r).
Proof.
  intros Hr Henc%catch_codec_ok. unfold decode_request.
  eapply (complete_run (fun r r' => r' = canonical_request r) r) in Henc as (Hmax & y & Hy & ->).
  - split; [exact Hmax|]. by rewrite Hy.
  - apply complete_enc_check. intros [Hz Hm]%orb_false_iff. apply negb_false_iff in Hm.
    apply (complete_header _ _ _ _ _ _ _ (fun id => id =? 0)); [apply Hr|apply Hr|done|done|].
    eapply complete_last; [by apply rt_request_body|]. intros ? ->.
    apply complete_end. intros ds. by eexists _, ds.
Qed.

(** C4: A request that [encode_request] accepts is a frame payload of at most 4 MiB, and
    [decode_request] gives back the correlation, the method and exactly the
    members the method sends. *)
Theorem request_roundtrip r bs :
  request_fits r -> encode_request r = Return (ROk bs) ->
  zlen bs <= kMaximumFramePayloadBytes /\ decode_request bs = ROk (canonical_request r).
Proof. apply encoded_request_decodes. Qed.

(** ** Responses *)

Lemma validate_job_status_cases {S} s :
  if job_status_valid s then @validate_job_status _ S s = mret tt
  else exists exn, @validate_job_status _ S s = throw exn.
Proof.
  unfold job_status_valid, validate_job_status, require_job_id, require_session_id.
  destruct (job_instance (js_job_id s) =? 0); cbn [negb andb orb]; [by eexists|].
  destruct (job_value (js_job_id s) =? 0); cbn [negb andb orb]; [by eexists|].
  destruct (session_instance (js_session_id s) =? 0); cbn [negb andb orb]; [by eexists|].
  destruct (session_value (js_session_id s) =? 0); cbn [negb andb orb]; [by eexists|].
  destruct (_ =? _); cbn [negb andb orb]; [|by eexists].
  destruct (js_state s); [..|by eexists].
  all: destruct (status_ok (js_outcome s)); try destruct (_ =? Cancelled);
    first [reflexivity | by eexists].
Qed.

Definition job_status_fits (s : JobStatus) : Prop :=
  job_id_fits (js_job_id s) /\ session_id_fits (js_session_id s) /\ status_fits (js_outcome s).

(** A value the decoder has already computed. *)
Lemma rt_known {A B C} (R : A -> B -> Prop) x e (y : C) exn (k : C -> dec B) m n :
  roundtrip R x e (k y) m n ->
  roundtrip R x e (z ← (_ ← throw_if false exn; mret y); k z) m n.
Proof. done. Qed.

Lemma rt_job_status s :
  job_status_fits s -> roundtrip eq s (encode_job_status s) decode_job_status 38 0.
Proof.
  intros (Hj & Hs & Ho) st st' Hst He. unfold encode_job_status in He.
  pose proof (@validate_job_status_cases Encoder s) as Henc.
  destruct (job_status_valid s) eqn:Hv; [|by destruct Henc as [exn Henc]; rewrite Henc in He].
  rewrite Henc in He. revert st st' Hst He. clear Henc.
  pose proof (@validate_job_status_cases Decoder s) as Hdec. rewrite Hv in Hdec.
  assert (1 <= JobState.raw (js_state s) <= 5 /\
    JobState.of_raw (JobState.raw (js_state s)) = js_state s) as [Hr Hc].
  { unfold job_status_valid in Hv. rewrite !andb_true_iff in Hv. destruct Hv as [_ Hv].
    by destruct (js_state s). }
  destruct s as [jid sid state outcome]. cbn [js_job_id js_session_id js_state js_outcome] in *.
  change (roundtrip eq (mk_JobStatus jid sid state outcome)
    (_ ← encode_job_id jid; _ ← encode_session_id sid; _ ← Enc.u8 (JobState.raw state);
     encode_status outcome) decode_job_status 38 0).
  unfold decode_job_status. eapply rt_min.
  - eapply rt_field; [by apply rt_job_id|]. eapply rt_field; [by apply rt_session_id|].
    eapply rt_field; [apply rt_u8; unfold is_uint; lia|]. unfold decode_job_state.
    replace ((_ <? _) || (_ <? _)) with false by (cbn; lia). rewrite Hc.
    apply rt_known. eapply rt_final; [by apply rt_status|].
    change (roundtrip eq (mk_JobStatus jid sid state outcome) (mret tt)
      (_ ← validate_job_status (mk_JobStatus jid sid state outcome);
       mret (mk_JobStatus jid sid state outcome)) 0 0).
    rewrite Hdec. by apply rt_ret.
  - lia.
Qed.

Record daemon_info_fits (i : DaemonInfo) : Prop := {
  if_instance : is_uint 64 (instance_id i);
  if_sessions : is_uint 64 (active_sessions i);
  if_jobs : is_uint 64 (active_jobs i);
  if_concurrency : is_uint 32 (maximum_concurrency i);
  if_maximum : is_uint 32 (maximum_sessions i);
}.

Lemma rt_daemon_info i :
  daemon_info_fits i -> roundtrip eq i (encode_daemon_info i) decode_daemon_info 43 0.
Proof.
  intros [Hi Hs Hj Hc Hm]. unfold encode_daemon_info, validate_daemon_info at 1.
  apply rt_enc_check. intros Hv. unfold decode_daemon_info, validate_daemon_info.
  assert (protocol_version i = kProtocolVersion) as Hp.
  { rewrite !orb_false_iff, negb_false_iff in Hv. lia. }
  destruct i as [pv inst ver tr ms sess jobs conc mx]. cbn -[Enc.u8 Enc.u16 Enc.u32 Enc.u64
    Enc.text Dec.u8 Dec.u16 Dec.u32 Dec.u64 Dec.text kProtocolVersion] in *. subst pv.
  pose proof (zlen_nonneg ms). eapply rt_min.
  - eapply rt_field; [apply rt_u16; unfold is_uint, kProtocolVersion; lia|].
    eapply rt_field; [by apply rt_u64|]. eapply rt_field; [apply rt_text|].
    eapply rt_field; [apply rt_text|]. apply rt_enc_check. intros Hn.
    eapply (rt_counted eq eq) with (l := ms) (mi := 4) (ni := 0)
      (m2 := 8 + (8 + (4 + 4)));
      cbn [minimum_entry_bytes required_suffix_bytes kDaemonMethodsContract];
      [by apply (rt_size_u8 _ 16)|done
      |apply (rt_vector _ _ (fun _ => True)); [lia|lia|by apply Forall_true|auto with photo]
      |lia..|eauto|].
    intros ? <-. eapply rt_field; [by apply rt_u64|]. eapply rt_field; [by apply rt_u64|].
    eapply rt_field; [by apply rt_u32|]. eapply rt_final; [by apply rt_u32|].
    apply rt_dec_check; [exact Hv|by apply rt_ret].
  - lia.
Qed.

(** The response a peer sees: the correlation, the status, and for a success the
    payload of the method, whose execution result is [result]. *)
Definition canonical_response (r : Response) (result : ExecutionResult) : Response :=
  let h := response_header (resp_request_id r) (resp_method r) (resp_status r) in
  if status_ok (resp_status r) then
    match resp_method r with
    | Method.SessionCreate =>
      mk_Response (resp_request_id r) (resp_method r) (resp_status r) (resp_session_id r)
        default_JobId default_job_status default_execution_result default_daemon_info false
    | Method.JobSubmit =>
      mk_Response (resp_request_id r) (resp_method r) (resp_status r) default_SessionId
        (resp_job_id r) default_job_status default_execution_result default_daemon_info false
    | Method.JobStatus =>
      mk_Response (resp_request_id r) (resp_method r) (resp_status r) default_SessionId
        default_JobId (resp_job_status r) default_execution_result default_daemon_info false
    | Method.JobResult =>
      mk_Response (resp_request_id r) (resp_method r) (resp_status r) default_SessionId
        default_JobId default_job_status result default_daemon_info false
    | Method.DaemonInfo =>
      mk_Response (resp_request_id r) (resp_method r) (resp_status r) default_SessionId
        default_JobId default_job_status default_execution_result (resp_daemon_info r) false
    | _ => h
    end
  else h.

(** Results come back with the same names, diagnostics and wire-visible values. *)
Definition response_equiv (r r' : Response) : Prop :=
  exists result, (resp_method r = Method.JobResult -> status_ok (resp_status r) = true ->
                  result_equiv (resp_execution_result r) result) /\
                 r' = canonical_response r result.

Record response_fits (r : Response) : Prop := {
  pf_id : is_uint 64 (resp_request_id r);
  pf_method : Method.wf (resp_method r);
  pf_status : status_fits (resp_status r);
  pf_session : session_id_fits (resp_session_id r);
  pf_job : job_id_fits (resp_job_id r);
  pf_job_status : job_status_fits (resp_job_status r);
  pf_result : result_fits (resp_execution_result r);
  pf_info : daemon_info_fits (resp_daemon_info r);
}.

Lemma rt_response_body r :
  response_fits r -> status_ok (resp_status r) = true ->
  roundtrip response_equiv r (encode_response_body r)
    (decode_response_body (response_header (resp_request_id r) (resp_method r) (resp_status r)))
    0 0.
Proof.
  intros [_ _ _ Hs Hj Hjs Hr Hi] Hok. unfold encode_response_body, response_header.
  destruct r as [id m st sid jid js er di sd]. cbn -[status_ok] in *.
  assert (forall body result,
    (m = Method.JobResult -> result_equiv er result) ->
    body = canonical_response (mk_Response id m st sid jid js er di sd) result ->
    response_equiv (mk_Response id m st sid jid js er di sd) body) as Hmk.
  { intros body result Hm ->. exists result. auto. }
  unfold canonical_response in Hmk. cbn -[status_ok response_equiv] in Hmk. rewrite Hok in Hmk.
  destruct m; try (apply rt_ret; by apply (Hmk _ default_execution_result)).
  - apply rt_enc_check. intros Hz. eapply rt_min.
    + eapply rt_final; [by apply rt_session_id|].
      apply rt_dec_check; [exact Hz|]. apply rt_ret. by apply (Hmk _ default_execution_result).
    + lia.
  - apply rt_enc_check. intros Hz. eapply rt_min.
    + eapply rt_final; [by apply rt_job_id|].
      apply rt_dec_check; [exact Hz|]. apply rt_ret. by apply (Hmk _ default_execution_result).
    + lia.
  - eapply rt_min; [eapply rt_last; [by apply rt_job_status|]|lia]. intros ? <-. by apply (Hmk _ default_execution_result).
  - eapply rt_min; [eapply rt_last; [by apply rt_execution_result|]|lia].
    intros er' Her. by eapply (Hmk _ er').
  - eapply rt_min; [eapply rt_last; [by apply rt_daemon_info|]|lia]. intros ? <-. by apply (Hmk _ default_execution_result).
Qed.

Lemma encoded_response_decodes r bs :
  response_fits r -> encode_response r = Return (ROk bs) ->
  zlen bs <= kMaximumFramePayloadBytes /\
  exists r', decode_response bs (resp_method r) (resp_request_id r) = ROk r' /\ response_equiv r r'.
Proof.
  intros Hr Henc%catch_codec_ok. unfold decode_response.
  destruct ((resp_request_id r =? 0) || negb (valid_method (resp_method r))) eqn:Hc.
  { by unfold run_encoder in Henc. }
  eapply (complete_run response_equiv r) in Henc as (Hmax & y & Hy & HR).
  - split; [exact Hmax|]. exists y. split; [by rewrite Hy|done].
  - apply orb_false_iff in Hc as [_ Hm%negb_false_iff].
    apply (complete_header _ _ _ _ _ _ _ (fun _ => false)
      (CodecFailure InvalidArgument [])); [apply Hr|apply Hr|done|done|].
    apply complete_check; [by rewrite Z.eqb_refl, bool_decide_eq_false_2 by (intros []; done)|].
    eapply complete_field; [apply rt_status, Hr|].
    destruct (status_ok (resp_status r)) eqn:Hok.
    + eapply complete_last; [by apply rt_response_body|]. intros r' Hr'.
      apply complete_end. intros ds. by eexists _, ds.
    + apply (complete_end response_equiv r). intros ds. eexists _, ds. split; [done|].
      exists default_execution_result. unfold canonical_response. rewrite Hok. split; [by intros|done].
Qed.


(** ** Decoded requests are well formed *)

(** A request the service may route: everything [encode_request] asks for. *)
Record request_ok (r : Request) : Prop := {
  qo_id : is_uint 64 (req_request_id r) /\ req_request_id r <> 0;
  qo_method : valid_method (req_method r) = true /\ Method.wf (req_method r);
  qo_document : req_method r = Method.SessionCreate -> document_ok (req_document r);
  qo_session :
    req_method r = Method.SessionClose \/ req_method r = Method.JobSubmit ->
    session_id_fits (req_session_id r) /\
    session_instance (req_session_id r) <> 0 /\ session_value (req_session_id r) <> 0;
  qo_job :
    req_method r = Method.JobStatus \/ req_method r = Method.JobCancel \/
    req_method r = Method.JobResult \/ req_method r = Method.JobRelease ->
    job_id_fits (req_job_id r) /\
    job_instance (req_job_id r) <> 0 /\ job_value (req_job_id r) <> 0;
  qo_parallelism : is_uint 32 (maximum_parallelism (req_submit_options r));
  qo_canonical : r = canonical_request r;
}.

Lemma dc_run {B} (d : dec B) P bs y :
  decodes d P -> Forall (is_uint 8) bs -> run_decoder d bs = Return y -> P y.
Proof.
  intros Hd Hbs Hrun. unfold run_decoder, Dec.open_payload in Hrun.
  destruct (kMaximumFramePayloadBytes <? zlen bs) eqn:Hmax; [done|].
  destruct (d (mk_Decoder bs 0)) as [[y' ds']|] eqn:Hy; [|done]. injection Hrun as ->.
  destruct (Hd (mk_Decoder bs 0) y ds') as (HP & _); [|done|done|done].
  split; cbn; [lia|]. pose proof (zlen_nonneg bs). lia.
Qed.

Lemma catch_all_ok {T} (o : outcome CodecExn T) v : catch_all o = ROk v -> o = Return v.
Proof. unfold catch_all. repeat case_match; intros; simplify_eq; done. Qed.

Lemma dc_end {B} (d : dec B) P : decodes d P -> decodes (_ ← Dec.require_end; d) P.
Proof.
  intros Hd ds y ds' Hds Hb He. cbv [mbind exec_bind Dec.require_end] in He.
  destruct (_ =? _); [|done]. by apply Hd.
Qed.

Lemma dc_session_id : decodes decode_session_id session_id_fits.
Proof.
  eapply dc_bind; [apply dc_u64|]. intros i Hi. eapply dc_bind; [apply dc_u64|]. intros v Hv.
  by apply dc_ret.
Qed.

Lemma dc_job_id : decodes decode_job_id job_id_fits.
Proof.
  eapply dc_bind; [apply dc_u64|]. intros i Hi. eapply dc_bind; [apply dc_u64|]. intros v Hv.
  by apply dc_ret.
Qed.

Lemma dc_method raw :
  decodes (decode_method raw) (fun m => valid_method m = true /\ Method.wf m).
Proof.
  apply dc_check. intros Hr. apply dc_ret. unfold valid_method. rewrite method_raw_of_raw.
  cbn in *. split; [lia|]. unfold Method.of_raw. repeat case_match; cbn; lia.
Qed.

Lemma dc_request_body id m :
  is_uint 64 id -> id <> 0 -> valid_method m = true /\ Method.wf m ->
  decodes (decode_request_body id m) request_ok.
Proof.
  intros Hid Hz Hm. unfold decode_request_body.
  assert (is_uint 32 0) as H0 by (unfold is_uint; lia).
  destruct m; try (apply dc_ret; split; cbn; by intuition congruence).
  all: try (eapply dc_bind; [apply dc_job_id|]; intros jid Hjid; apply dc_check; intros Hc;
    apply dc_ret; split; cbn; try (by intuition congruence); intros _; split; [done|lia]).
  - eapply dc_bind; [apply dc_document|]. intros doc Hdoc.
    apply dc_ret; split; cbn; by intuition congruence.
  - eapply dc_bind; [apply dc_session_id|]. intros sid Hsid. apply dc_check. intros Hc.
    apply dc_ret; split; cbn; try by intuition congruence. intros _. split; [done|lia].
  - eapply dc_bind; [apply dc_session_id|]. intros sid Hsid.
    eapply dc_bind; [apply dc_boolean|]. intros gpu _.
    eapply dc_bind; [apply dc_u32|]. intros par Hpar. apply dc_check. intros Hc.
    apply dc_ret; split; cbn; try by intuition congruence. intros _. split; [done|lia].
  - destruct Hm as [Hv%valid_method_range Hw]. cbn in *. lia.
Qed.

Lemma decoded_request_ok bs r :
  Forall (is_uint 8) bs -> decode_request bs = ROk r -> request_ok r.
Proof.
  intros Hbs Hdec%catch_all_ok. revert Hdec. apply dc_run; [|done].
  eapply dc_bind; [apply dc_u16|]. intros v _. apply dc_check. intros _.
  eapply dc_bind; [apply dc_u64|]. intros id Hid. apply dc_check. intros Hz.
  eapply dc_bind; [apply dc_u8|]. intros raw _. eapply dc_bind; [apply dc_method|].
  intros m Hm. eapply dc_bind; [apply dc_request_body; [done|lia|done]|]. intros r' Hr'.
  by apply dc_end, dc_ret.
Qed.

(** C6: Whatever bytes arrive, a request that [decode_request] lets through satisfies
    every bound of the wire: a nonzero correlation, a known method, bounded
    well-formed text, nonzero identities, and defaults where the method sends
    nothing. *)
Theorem decode_request_sound bs r :
  Forall (is_uint 8) bs -> decode_request bs = ROk r -> request_ok r.
Proof. apply decoded_request_ok. Qed.
End CodecSpec.
