(* ===== verification/Layout.v ===== *)
(** The wire layout of protocol version 3 as a plain function from messages to
    bytes, and the proof that the encoders of [src/lib/ipc/codec.cpp] produce
    exactly it.

    [wire_*] are the specification: no bounds, no failure, no state.  [emits e bs]
    says that the encoder [e] appends [bs] when they fit in the frame and throws
    [ResourceExhausted] when they do not. *)
From S2P Require Import Prelude OrdMap Kernel Protocol Utf8 Wire RoundTrip Scalars.
From S2P Require Import CodecRequest CodecResult Codec CodecSpec.

(** [n] bytes, least significant first. *)
Fixpoint le_bytes (n : nat) (v : Z) : bytes :=
  match n with
  | O => []
  | S n' => v mod 256 :: le_bytes n' (v / 256)
  end.

Definition wire_list {A} (f : A -> bytes) (l : list A) : bytes := concat (map f l).
Definition wire_text (s : bytes) : bytes := le_bytes 4 (zlen s) ++ s.
Definition wire_status (s : Status) : bytes := [code s] ++ wire_text (message s).
Definition wire_bool (b : bool) : bytes := [if b then 1 else 0].
Definition wire_session_id (id : SessionId) : bytes :=
  le_bytes 8 (session_instance id) ++ le_bytes 8 (session_value id).
Definition wire_job_id (id : JobId) : bytes :=
  le_bytes 8 (job_instance id) ++ le_bytes 8 (job_value id).
Definition wire_header (id : Z) (m : Method.t) : bytes :=
  le_bytes 2 3 ++ le_bytes 8 id ++ [Method.raw m].

Definition wire_parameter (p : ParameterValue) : bytes :=
  match p with
  | PInt64 v => [1] ++ le_bytes 8 v
  | PDouble bits => [2] ++ le_bytes 8 bits
  | PBool b => [3] ++ wire_bool b
  | PString s => [4] ++ wire_text s
  end.

Section Layout.
Context `{HK : KernelLaws}.

Definition wire_input (i : WorkflowInput) : bytes :=
  match i with
  | NodeOutput s => le_bytes 8 (source_node s) ++ wire_text (source_port s)
  | OtherInput _ => []
  end.

Definition wire_node (n : WorkflowNode) : bytes :=
  le_bytes 8 (node_id n) ++ wire_text (operation n)
  ++ le_bytes 4 (zlen (node_inputs n)) ++ wire_list wire_input (node_inputs n)
  ++ le_bytes 4 (zlen (parameters n))
  ++ wire_list (fun p => wire_text p.1 ++ wire_parameter p.2) (parameters n).

Definition wire_output (o : WorkflowOutput) : bytes :=
  wire_text (output_name o) ++ le_bytes 8 (output_node_id o) ++ wire_text (output_port o).

Definition wire_document (d : WorkflowDocument) : bytes :=
  le_bytes 4 (schema_version d)
  ++ le_bytes 4 (zlen (nodes d)) ++ wire_list wire_node (nodes d)
  ++ le_bytes 4 (zlen (outputs d)) ++ wire_list wire_output (outputs d).

Definition wire_request (r : Request) : bytes :=
  wire_header (req_request_id r) (req_method r) ++
  match req_method r with
  | Method.SessionCreate => wire_document (req_document r)
  | Method.SessionClose => wire_session_id (req_session_id r)
  | Method.JobSubmit =>
    wire_session_id (req_session_id r) ++ wire_bool (allow_gpu (req_submit_options r))
    ++ le_bytes 4 (maximum_parallelism (req_submit_options r))
  | Method.JobStatus | Method.JobCancel | Method.JobResult | Method.JobRelease =>
    wire_job_id (req_job_id r)
  | _ => []
  end.

Definition wire_job_status (s : JobStatus) : bytes :=
  wire_job_id (js_job_id s) ++ wire_session_id (js_session_id s)
  ++ [JobState.raw (js_state s)] ++ wire_status (js_outcome s).

(** ** Encoders that cannot be refused *)

Definition frame_full : CodecExn :=
  CodecFailure ResourceExhausted (lit "wire payload exceeds maximum frame size").

Definition emits (e : enc unit) (bs : bytes) : Prop :=
  forall st, enc_inv st ->
  e st = if zlen (payload_ st) + zlen bs <=? kMaximumFramePayloadBytes
         then Return (tt, mk_Encoder (payload_ st ++ bs)) else Throw frame_full.

Lemma emits_append bs : emits (Enc.append bs) bs.
Proof.
  intros st Hst. unfold enc_inv, Enc.append, kMaximumFramePayloadBytes in *.
  pose proof (zlen_nonneg (payload_ st)). rewrite size_sub_small by lia.
  repeat case_match; (done || lia).
Qed.

Lemma emits_ret : emits (mret tt) [].
Proof.
  intros [p] Hst. unfold enc_inv in Hst. cbn [payload_] in *. rewrite zlen_nil, app_nil_r.
  case_match; [done|lia].
Qed.

Lemma emits_bind e1 e2 bs1 bs2 : emits e1 bs1 -> emits e2 bs2 -> emits (_ ← e1; e2) (bs1 ++ bs2).
Proof.
  intros H1 H2 st Hst. cbv [mbind exec_bind]. rewrite (H1 st Hst), zlen_app.
  pose proof (zlen_nonneg bs2). destruct (_ <=? _) eqn:Hfit.
  - rewrite H2; [|unfold enc_inv; cbn; rewrite zlen_app; lia].
    cbn [payload_]. rewrite zlen_app, app_assoc.
    repeat case_match; (done || lia).
  - case_match; [lia|done].
Qed.

Lemma emits_check c exn e bs : c = false -> emits e bs -> emits (_ ← throw_if c exn; e) bs.
Proof. by intros ->. Qed.

(** The last member. *)
Lemma emits_bind_nil e1 e2 bs : emits e1 bs -> emits e2 [] -> emits (_ ← e1; e2) bs.
Proof. intros H1 H2. rewrite <- (app_nil_r bs). by apply emits_bind. Qed.

Lemma emits_for_each {A} (f : A -> enc unit) (g : A -> bytes) (P : A -> Prop) l :
  (forall x, P x -> emits (f x) (g x)) -> Forall P l -> emits (for_each f l) (wire_list g l).
Proof.
  intros Hf. induction 1 as [|x l Hx _ IH]; [apply emits_ret|].
  cbn. by apply emits_bind; [apply Hf|].
Qed.

Lemma land_ff v : Z.land v 0xff = v mod 256.
Proof. change 0xff with (Z.ones 8). by rewrite Z.land_ones by lia. Qed.

Lemma emits_unsigned n v : emits (Enc.unsigned n v) (le_bytes n v).
Proof.
  unfold Enc.unsigned.
  enough (forall i, emits (for_each (fun index => Enc.u8 (Z.land (v ≫ (Z.of_nat index * 8)) 255))
    (seq i n)) (le_bytes n (v / 2 ^ (Z.of_nat i * 8)))) as Hgen.
  { specialize (Hgen 0%nat). cbn [Z.of_nat Z.mul] in Hgen.
    by rewrite Z.pow_0_r, Z.div_1_r in Hgen. }
  induction n as [|n IH]; intros i; [apply emits_ret|].
  cbn [seq for_each le_bytes].
  apply (emits_bind _ _ [_]).
  - rewrite land_ff, Z.shiftr_div_pow2 by lia. apply emits_append.
  - replace (v / 2 ^ (Z.of_nat i * 8) / 256) with (v / 2 ^ (Z.of_nat (S i) * 8)); [apply IH|].
    replace (Z.of_nat (S i) * 8) with (Z.of_nat i * 8 + 8) by lia.
    rewrite Z.pow_add_r, <- Z.div_div by lia. done.
Qed.

Lemma emits_i64 v : emits (Enc.i64 v) (le_bytes 8 v).
Proof.
  unfold Enc.i64, Enc.u64.
  replace (le_bytes 8 v) with (le_bytes 8 (v mod 2 ^ 64)); [apply emits_unsigned|].
  enough (forall n m, le_bytes n (m mod 2 ^ (Z.of_nat n * 8)) = le_bytes n m) as Hgen
    by apply (Hgen 8%nat).
  induction n as [|n IH]; intros m; [done|]. cbn [le_bytes].
  replace (Z.of_nat (S n) * 8) with (8 + Z.of_nat n * 8) by lia.
  rewrite Z.pow_add_r, Z.rem_mul_r by lia. change (2 ^ 8) with 256. f_equal.
  - rewrite Z.mul_comm, Z_mod_plus_full, Z.mod_mod by lia. done.
  - rewrite <- (IH (m / 256)). f_equal.
    rewrite Z.mul_comm, Z.div_add, (Z.div_small (m mod 256)) by (first [lia | apply Z.mod_pos_bound; lia]).
    done.
Qed.

Lemma emits_text s maximum :
  text_ok maximum s -> maximum <= uint32_max -> emits (Enc.text s maximum) (wire_text s).
Proof.
  intros (Hlen & Hutf & _) Hmax. apply emits_check.
  - rewrite Hutf, !orb_false_iff. split; [split; lia|done].
  - apply emits_bind; [apply emits_unsigned|apply emits_append].
Qed.

Lemma emits_boolean b : emits (Enc.boolean b) (wire_bool b).
Proof. destruct b; apply emits_append. Qed.

Lemma emits_u8 v : emits (Enc.u8 v) [v].
Proof. apply emits_append. Qed.

Lemma emits_size {A} (l : list A) bound :
  zlen l <= bound -> bound < 2 ^ 32 ->
  emits (Enc.u32 (static_cast_u32 (zlen l))) (le_bytes 4 (zlen l)).
Proof.
  intros Hl Hb. destruct (static_cast_u32_size l bound) as [-> _]; [lia|done|]. apply emits_unsigned.
Qed.
End Layout.

#[export] Hint Resolve emits_append emits_ret emits_unsigned emits_i64 emits_text emits_boolean
  emits_u8 emits_size : photo.
#[export] Hint Extern 1 (_ <= uint32_max) => (unfold uint32_max; lia) : photo.
#[export] Hint Extern 1 (_ < 2 ^ 32) => lia : photo.

(** Follows the text of an encoder, member by member. *)
Ltac emit :=
  repeat first
    [ apply emits_check; [first [done | lia]|]
    | apply emits_bind; [solve [eauto with photo]|]
    | solve [eauto with photo] ].

Section LayoutMembers.
Context `{HK : KernelLaws}.

Lemma emits_status s : status_ok_wire s -> emits (encode_status s) (wire_status s).
Proof.
  intros (Hc & Hm & Hok). pose proof internal_u8.
  assert (is_uint 8 (code s)) as Hu by (unfold is_uint; lia).
  unfold encode_status, wire_status. rewrite static_cast_u8_id by done. apply emits_check.
  - rewrite orb_false_iff, andb_false_iff, negb_false_iff. split; [lia|].
    destruct (status_ok s) eqn:E; [|by left]. right. rewrite Hok; [done|].
    unfold status_ok in E. lia.
  - emit.
Qed.

Lemma emits_parameter p : parameter_ok p -> emits (encode_parameter p) (wire_parameter p).
Proof. intros [Hf Hp]. destruct p; cbn [encode_parameter wire_parameter]; emit. Qed.

Lemma emits_input i : input_ok i -> emits (encode_input i) (wire_input i).
Proof. intros (s & -> & Hs & Hp). cbn [encode_input wire_input]. emit. Qed.

Lemma emits_binding p :
  text_ok 1024 p.1 /\ parameter_ok p.2 ->
  emits (encode_binding p) (wire_text p.1 ++ wire_parameter p.2).
Proof. intros [Hk Hp]. unfold encode_binding. emit. by apply emits_parameter. Qed.

Lemma emits_node n : node_ok n -> emits (encode_node n) (wire_node n).
Proof.
  intros [Hid Hop [Hni Hin] Hs [Hnp Hp]]. unfold encode_node, wire_node.
  apply emits_check; [rewrite orb_false_iff; split; lia|].
  emit. apply emits_bind; [by apply (emits_for_each _ _ input_ok), Hin; apply emits_input|].
  emit. eapply emits_for_each; [apply emits_binding|done].
Qed.

Lemma emits_output o : output_ok o -> emits (encode_output o) (wire_output o).
Proof. intros (Hn & Hid & Hp). unfold encode_output, wire_output. emit. Qed.

Lemma emits_document d : document_ok d -> emits (encode_document d) (wire_document d).
Proof.
  intros [Hs Hi [Hnn Hn] [Hno Ho]]. unfold encode_document, wire_document.
  apply emits_check; [rewrite orb_false_iff; split; lia|].
  apply emits_check; [by rewrite Hi|].
  emit. apply emits_bind; [by apply (emits_for_each _ _ node_ok), Hn; apply emits_node|].
  emit. eapply emits_for_each; [apply emits_output|done].
Qed.

Lemma emits_session_id id : emits (encode_session_id id) (wire_session_id id).
Proof. unfold encode_session_id, wire_session_id. emit. Qed.

Lemma emits_job_id id : emits (encode_job_id id) (wire_job_id id).
Proof. unfold encode_job_id, wire_job_id. emit. Qed.

Lemma emits_header id m : emits (encode_header id m) (wire_header id m).
Proof. unfold encode_header, wire_header, kProtocolVersion. emit. Qed.

Lemma emits_request_body r :
  request_ok r -> exists bs, wire_request r = wire_header (req_request_id r) (req_method r) ++ bs /\
  emits (encode_request_body r) bs.
Proof.
  intros [_ _ Hd Hs Hj _ _]. eexists. split; [reflexivity|].
  unfold encode_request_body. destruct (req_method r); try (by apply emits_ret).
  - by apply emits_document, Hd.
  - destruct Hs as (_ & ? & ?); [by left|].
    apply emits_check; [rewrite orb_false_iff; split; lia|]. apply emits_session_id.
  - destruct Hs as (_ & ? & ?); [by right|].
    apply emits_check; [rewrite orb_false_iff; split; lia|].
    apply emits_bind; [apply emits_session_id|]. emit.
  - destruct Hj as (_ & ? & ?); [tauto|].
    apply emits_check; [rewrite orb_false_iff; split; lia|]. apply emits_job_id.
  - destruct Hj as (_ & ? & ?); [tauto|].
    apply emits_check; [rewrite orb_false_iff; split; lia|]. apply emits_job_id.
  - destruct Hj as (_ & ? & ?); [tauto|].
    apply emits_check; [rewrite orb_false_iff; split; lia|]. apply emits_job_id.
  - destruct Hj as (_ & ? & ?); [tauto|].
    apply emits_check; [rewrite orb_false_iff; split; lia|]. apply emits_job_id.
Qed.

(** An encoder run from empty. *)
Lemma emits_run e bs :
  emits e bs ->
  catch_codec (run_encoder e) =
  Return (if zlen bs <=? kMaximumFramePayloadBytes then ROk bs
          else RErr (failure ResourceExhausted (lit "wire payload exceeds maximum frame size"))).
Proof.
  intros He. unfold run_encoder.
  assert (enc_inv (mk_Encoder [])) as Hinv by done.
  rewrite (He _ Hinv). cbn [payload_ app].
  rewrite zlen_nil, Z.add_0_l. by destruct (zlen bs <=? _).
Qed.

(** C8: [encode_request] refines the wire layout: for a well-formed request it returns
    exactly the specified bytes when they fit in a frame, and [ResourceExhausted]
    when they do not; it never throws. *)
Theorem encode_request_refines_layout r :
  request_ok r ->
  encode_request r =
  Return (if zlen (wire_request r) <=? kMaximumFramePayloadBytes then ROk (wire_request r)
          else RErr (failure ResourceExhausted (lit "wire payload exceeds maximum frame size"))).
Proof.
  intros Hr. unfold encode_request. apply emits_run. apply emits_check.
  - destruct Hr as [[_ Hz] [-> _] _ _ _ _ _]. rewrite orb_false_iff. split; [lia|done].
  - destruct (emits_request_body r Hr) as (bs & -> & Hb).
    apply emits_bind; [apply emits_header|done].
Qed.

Lemma le_bytes_length n v : zlen (le_bytes n v) = Z.of_nat n.
Proof. revert v. induction n as [|n IH]; intros v; [done|]. cbn [le_bytes]. rewrite zlen_cons, IH. lia. Qed.

Lemma wire_text_length s : zlen (wire_text s) = 4 + zlen s.
Proof. unfold wire_text. rewrite zlen_app, le_bytes_length. lia. Qed.

Lemma wire_header_length id m : zlen (wire_header id m) = 11.
Proof. unfold wire_header. by rewrite !zlen_app, !le_bytes_length, zlen_cons, zlen_nil. Qed.

Lemma wire_job_status_length s :
  status_ok_wire (js_outcome s) -> zlen (wire_job_status s) <= 4134.
Proof.
  intros (_ & (Hm & _) & _).
  unfold wire_job_status, wire_job_id, wire_session_id, wire_status.
  rewrite !zlen_app, !le_bytes_length, wire_text_length, !zlen_cons, !zlen_nil. lia.
Qed.

(** ** Responses *)

Definition wire_blob (s : bytes) : bytes := le_bytes 4 (zlen s) ++ s.

Definition wire_value (v : WireValue) : bytes :=
  le_bytes 4 (element_type (wire_descriptor v))
  ++ [zlen (shape (wire_descriptor v))]
  ++ wire_list (le_bytes 8) (shape (wire_descriptor v))
  ++ wire_list (fun d => le_bytes 8 (dim_offset d) ++ le_bytes 8 (dim_extent d)) (wire_region v)
  ++ le_bytes 8 (wire_offset v)
  ++ wire_list (le_bytes 8) (wire_strides v)
  ++ [zlen (wire_facets v)]
  ++ wire_list (fun f => wire_text (facet_key f) ++ le_bytes 4 (facet_version f)
                         ++ wire_blob (facet_payload f)) (wire_facets v)
  ++ wire_blob (wire_bytes v).

Definition wire_diagnostics (d : ExecutionDiagnostics) : bytes :=
  le_bytes 8 (execute_us d)
  ++ le_bytes 4 (zlen (selected_backends d))
  ++ wire_list (fun b => le_bytes 8 b.1 ++ [b.2]) (selected_backends d)
  ++ le_bytes 8 (transfer_count d) ++ le_bytes 8 (transfer_bytes d)
  ++ le_bytes 8 (peak_live_bytes d)
  ++ le_bytes 4 (zlen (fallback_reasons d)) ++ wire_list wire_text (fallback_reasons d)
  ++ le_bytes 4 (zlen (operation_timings d))
  ++ wire_list (fun t => le_bytes 8 (timing_node_id t) ++ [timing_backend t]
                         ++ le_bytes 8 (duration_us t) ++ [timing_outcome t])
       (operation_timings d)
  ++ wire_text (plan_digest d) ++ wire_text (result_digest d).

Definition wire_result (r : ExecutionResult) : bytes :=
  le_bytes 4 (zlen (values r))
  ++ wire_list (fun p => wire_text p.1 ++ wire_value (wire_view p.2)) (values r)
  ++ wire_diagnostics (diagnostics r).

Definition wire_daemon_info (i : DaemonInfo) : bytes :=
  le_bytes 2 (protocol_version i) ++ le_bytes 8 (instance_id i)
  ++ wire_text (service_version i) ++ wire_text (transport i)
  ++ [zlen (methods i)] ++ wire_list wire_text (methods i)
  ++ le_bytes 8 (active_sessions i) ++ le_bytes 8 (active_jobs i)
  ++ le_bytes 4 (maximum_concurrency i) ++ le_bytes 4 (maximum_sessions i).

Definition wire_response (r : Response) : bytes :=
  wire_header (resp_request_id r) (resp_method r) ++ wire_status (resp_status r) ++
  if status_ok (resp_status r) then
    match resp_method r with
    | Method.SessionCreate => wire_session_id (resp_session_id r)
    | Method.JobSubmit => wire_job_id (resp_job_id r)
    | Method.JobStatus => wire_job_status (resp_job_status r)
    | Method.JobResult => wire_result (resp_execution_result r)
    | Method.DaemonInfo => wire_daemon_info (resp_daemon_info r)
    | _ => []
    end
  else [].

(** Values, diagnostics and results within the encoder's bounds. *)
Record value_ok (v : Value) : Prop := {
  vo_valid : Value_valid v = true;
  vo_supported : wire_supported v;
  vo_rank : zlen (shape (Value_descriptor v)) <= 8;
  vo_facets : zlen (Value_facets v) <= 64;
  vo_keys : Forall (fun f => text_ok 256 (facet_key f) /\
                             zlen (facet_payload f) <= uint32_max) (Value_facets v);
  vo_bytes : zlen (Value_bytes v) <= uint32_max;
}.

Definition backend_known (raw : Z) : Prop := raw = Backend_Cpu \/ raw = Backend_Gpu.

Record diagnostics_ok (d : ExecutionDiagnostics) : Prop := {
  go_counts : zlen (selected_backends d) <= 65536 /\ zlen (operation_timings d) <= 131072 /\
    zlen (fallback_reasons d) <= 65536;
  go_backends : Forall (fun b => b.1 <> 0 /\ backend_known b.2) (selected_backends d);
  go_reasons : Forall (text_ok 4096) (fallback_reasons d);
  go_timings : Forall (fun t => timing_node_id t <> 0 /\ backend_known (timing_backend t) /\
    0 <= timing_outcome t <= Internal) (operation_timings d);
  go_digests : text_ok 128 (plan_digest d) /\ text_ok 128 (result_digest d);
}.

Record result_ok (r : ExecutionResult) : Prop := {
  ro_count : zlen (values r) <= 4096;
  ro_values : Forall (fun p => text_ok 1024 p.1 /\ value_ok p.2) (values r);
  ro_diagnostics : diagnostics_ok (diagnostics r);
}.

Lemma emits_blob s : zlen s <= uint32_max -> emits (Enc.blob s) (wire_blob s).
Proof. intros Hs. apply emits_check; [lia|]. emit. Qed.

#[local] Hint Resolve emits_blob : photo.

Lemma static_cast_u8_size {A} (l : list A) : zlen l <= 255 -> static_cast_u8 (zlen l) = zlen l.
Proof. intros. apply static_cast_u8_id. unfold is_uint. zlen_lia. Qed.

Lemma emits_value v : value_ok v -> emits (encode_value v) (wire_value (wire_view v)).
Proof.
  intros [Hv Hs Hr Hf Hk Hb]. pose proof Hs as [Ht Horg].
  pose proof (valid_fits v Hv Ht) as [Hty _ _ _ _ _ _ _ _].
  unfold encode_value, wire_value. cbn [wire_descriptor wire_region wire_offset wire_strides
    wire_facets wire_bytes wire_view].
  apply emits_check; [rewrite Hv; cbn; lia|].
  apply emits_check; [rewrite orb_false_iff; split; [lia|by apply existsb_origin]|].
  destruct element_types_u32.
  assert (static_cast_u32 (element_type (Value_descriptor v)) = element_type (Value_descriptor v))
    as -> by (apply Z.mod_small; lia).
  rewrite !static_cast_u8_size by lia.
  apply emits_bind; [apply emits_unsigned|]. apply emits_bind; [apply emits_u8|].
  apply emits_bind; [apply (emits_for_each _ _ (fun _ => True));
    [intros; apply emits_unsigned|by apply Forall_true]|].
  apply emits_bind; [apply (emits_for_each _ _ (fun _ => True)); [|by apply Forall_true];
    intros; unfold encode_dimension; emit|].
  apply emits_bind; [apply emits_unsigned|].
  apply emits_bind; [apply (emits_for_each _ _ (fun _ => True));
    [intros; apply emits_i64|by apply Forall_true]|].
  apply emits_check; [lia|]. apply emits_bind; [apply emits_u8|].
  apply emits_bind; [|by apply emits_blob].
  eapply emits_for_each; [|exact Hk]. cbn beta. intros f [Hkey Hp]. unfold encode_facet.
  emit.
Qed.

Lemma backend_known_u8 raw : backend_known raw -> static_cast_u8 raw = raw.
Proof. destruct backends_u8. intros [->| ->]; by apply static_cast_u8_id. Qed.

Lemma backend_known_test raw :
  backend_known raw -> negb (raw =? Backend_Cpu) && negb (raw =? Backend_Gpu) = false.
Proof. unfold backend_known. lia. Qed.

Lemma emits_diagnostics d : diagnostics_ok d -> emits (encode_diagnostics d) (wire_diagnostics d).
Proof.
  intros [(Hnb & Hnt & Hnr) Hb Hr Ht [Hp Hd]]. unfold encode_diagnostics, wire_diagnostics.
  pose proof internal_u8.
  apply emits_check; [rewrite !orb_false_iff; split_and!; lia|].
  emit. apply emits_bind.
  { eapply emits_for_each; [|exact Hb]. cbn beta. intros b [Hz Hk]. unfold encode_backend.
    rewrite (backend_known_u8 _ Hk), (backend_known_test _ Hk). emit. }
  emit. apply emits_bind; [eapply emits_for_each, Hr; intros; emit|].
  emit. apply emits_bind; [|emit].
  eapply emits_for_each; [|exact Ht]. cbn beta. intros t (Hz & Hk & Ho). unfold encode_timing.
  rewrite (backend_known_u8 _ Hk), (backend_known_test _ Hk), static_cast_u8_id
    by (unfold is_uint; lia). emit.
Qed.

Lemma emits_result r : result_ok r -> emits (encode_execution_result r) (wire_result r).
Proof.
  intros [Hn Hv Hd]. unfold encode_execution_result, wire_result. apply emits_check; [lia|].
  emit. apply emits_bind; [|by apply emits_diagnostics].
  eapply emits_for_each; [|exact Hv]. cbn beta. intros p [Hname Hval]. unfold encode_named_value.
  emit. by apply emits_value.
Qed.

Record daemon_info_ok (i : DaemonInfo) : Prop := {
  io_version : protocol_version i = kProtocolVersion;
  io_instance : instance_id i <> 0;
  io_service : service_version i <> [] /\ text_ok 128 (service_version i);
  io_transport : transport i = lit "unix-domain";
  io_methods : methods i = method_inventory;
  io_limits : maximum_concurrency i <> 0 /\ maximum_sessions i <> 0;
}.

Lemma method_inventory_text : Forall (text_ok 64) method_inventory.
Proof. apply Forall_forall. intros s Hs. vm_compute in Hs. unfold text_ok.
  repeat (apply elem_of_cons in Hs as [->|Hs];
    [split_and!; [by vm_compute|reflexivity|repeat constructor; unfold is_uint; lia]|]).
  by apply not_elem_of_nil in Hs.
Qed.

Lemma emits_daemon_info i :
  daemon_info_ok i -> emits (encode_daemon_info i) (wire_daemon_info i).
Proof.
  intros [Hv Hi [Hs0 Hs] Ht Hm [Hc Hx]]. unfold encode_daemon_info, wire_daemon_info.
  apply emits_check.
  { rewrite Hv, Ht, Hm, !bool_decide_eq_false_2, !orb_false_iff by (intros []; done).
    split_and!; try done; try lia. by destruct (service_version i). }
  rewrite Ht, Hm. emit.
  apply emits_bind; [apply emits_text; [|unfold uint32_max; lia]|].
  { split_and!; [by vm_compute|reflexivity|repeat constructor; unfold is_uint; lia]. }
  apply emits_check; [reflexivity|].
  apply emits_bind; [apply emits_u8|]. apply emits_bind; [|emit].
  eapply emits_for_each, method_inventory_text. intros. emit.
Qed.

(** A response the daemon may send. *)
Record response_ok (r : Response) : Prop := {
  po_id : resp_request_id r <> 0;
  po_method : valid_method (resp_method r) = true;
  po_status : status_ok_wire (resp_status r);
  po_session : status_ok (resp_status r) = true -> resp_method r = Method.SessionCreate ->
    session_instance (resp_session_id r) <> 0 /\ session_value (resp_session_id r) <> 0;
  po_job : status_ok (resp_status r) = true -> resp_method r = Method.JobSubmit ->
    job_instance (resp_job_id r) <> 0 /\ job_value (resp_job_id r) <> 0;
  po_job_status : status_ok (resp_status r) = true -> resp_method r = Method.JobStatus ->
    job_status_valid (resp_job_status r) = true /\
    status_ok_wire (js_outcome (resp_job_status r));
  po_result : status_ok (resp_status r) = true -> resp_method r = Method.JobResult ->
    result_ok (resp_execution_result r);
  po_info : status_ok (resp_status r) = true -> resp_method r = Method.DaemonInfo ->
    daemon_info_ok (resp_daemon_info r);
}.

Lemma emits_job_status s :
  job_status_valid s = true -> status_ok_wire (js_outcome s) ->
  emits (encode_job_status s) (wire_job_status s).
Proof.
  intros Hv Ho. unfold encode_job_status, wire_job_status.
  pose proof (@validate_job_status_cases _ Encoder s) as Hc. rewrite Hv in Hc. rewrite Hc.
  change (emits (_ ← encode_job_id (js_job_id s); _ ← encode_session_id (js_session_id s);
    _ ← Enc.u8 (JobState.raw (js_state s)); encode_status (js_outcome s))
    (wire_job_id (js_job_id s) ++ wire_session_id (js_session_id s)
     ++ [JobState.raw (js_state s)] ++ wire_status (js_outcome s))).
  apply emits_bind; [apply emits_job_id|]. apply emits_bind; [apply emits_session_id|].
  apply emits_bind; [apply emits_u8|]. by apply emits_status.
Qed.

Lemma emits_response_body r :
  response_ok r -> status_ok (resp_status r) = true ->
  emits (encode_response_body r)
    match resp_method r with
    | Method.SessionCreate => wire_session_id (resp_session_id r)
    | Method.JobSubmit => wire_job_id (resp_job_id r)
    | Method.JobStatus => wire_job_status (resp_job_status r)
    | Method.JobResult => wire_result (resp_execution_result r)
    | Method.DaemonInfo => wire_daemon_info (resp_daemon_info r)
    | _ => []
    end.
Proof.
  intros [_ _ _ Hs Hj Hjs Hr Hi] Hok. unfold encode_response_body.
  destruct (resp_method r); try apply emits_ret.
  - destruct Hs as [? ?]; [done..|]. apply emits_check; [lia|]. apply emits_session_id.
  - destruct Hj as [? ?]; [done..|]. apply emits_check; [lia|]. apply emits_job_id.
  - destruct Hjs as [? ?]; [done..|]. by apply emits_job_status.
  - by apply emits_result, Hr.
  - by apply emits_daemon_info, Hi.
Qed.

(** C9: [encode_response] refines the wire layout: a response the daemon may send is
    encoded as exactly the specified bytes when they fit in a frame, and refused
    with [ResourceExhausted] when they do not; it never throws. *)
Theorem encode_response_refines_layout r :
  response_ok r ->
  encode_response r =
  Return (if zlen (wire_response r) <=? kMaximumFramePayloadBytes then ROk (wire_response r)
          else RErr (failure ResourceExhausted (lit "wire payload exceeds maximum frame size"))).
Proof.
  intros Hr. unfold encode_response. apply emits_run. apply emits_check.
  - destruct Hr as [Hz -> _ _ _ _ _ _]. rewrite orb_false_iff. split; [lia|done].
  - apply emits_bind; [apply emits_header|]. apply emits_bind; [by apply emits_status, Hr|].
    destruct (status_ok (resp_status r)) eqn:Hok; [|apply emits_ret].
    by apply emits_response_body.
Qed.

Lemma wire_status_length s : status_ok_wire s -> zlen (wire_status s) <= 4101.
Proof.
  intros (_ & (Hm & _) & _). unfold wire_status.
  rewrite zlen_app, wire_text_length, zlen_cons, zlen_nil. lia.
Qed.

(** A typed failure, or a lifecycle snapshot, always fits in a frame. *)
Lemma wire_response_small r :
  response_ok r -> resp_method r <> Method.JobResult -> resp_method r <> Method.DaemonInfo ->
  zlen (wire_response r) <= kMaximumFramePayloadBytes.
Proof.
  intros Hr Hnr Hni. unfold wire_response, kMaximumFramePayloadBytes.
  rewrite !zlen_app, wire_header_length. pose proof (wire_status_length _ (po_status _ Hr)).
  destruct (status_ok (resp_status r)) eqn:Hok; [|rewrite zlen_nil; lia].
  destruct (resp_method r) eqn:Hm; try done; try (rewrite zlen_nil; lia).
  - unfold wire_session_id. rewrite zlen_app, !le_bytes_length. lia.
  - unfold wire_job_id. rewrite zlen_app, !le_bytes_length. lia.
  - destruct (po_job_status _ Hr Hok Hm) as [_ Ho]. pose proof (wire_job_status_length _ Ho). lia.
Qed.
End LayoutMembers.
