(* ===== verification/ProtocolErrors.v ===== *)
(** Correlation recovery and the connection-level error response of
    [src/lib/ipc/codec.cpp]: what a peer that sent malformed bytes is answered. *)
From S2P Require Import Prelude OrdMap Kernel Protocol Utf8 Wire RoundTrip Scalars.
From S2P Require Import CodecRequest CodecResult Codec CodecSpec Layout.

Section ProtocolErrors.
Context `{HK : KernelLaws}.

(** ** Reading the header byte by byte *)

(** The integer loop of the decoder, as the fold of [recover_correlation]. *)
Lemma dec_unsigned_loop (g : nat -> Z) ds bs rest i acc :
  dec_inv ds -> unread ds = bs ++ rest ->
  (forall j, (j < length bs)%nat -> bs !! j = Some (g (i + j)%nat)) ->
  Dec.unsigned_loop (seq i (length bs)) acc ds =
  Return (fold_left (fun acc index => Z.lor acc (Z.shiftl (g index) (Z.of_nat index * 8)))
            (seq i (length bs)) acc,
          mk_Decoder (payload ds) (offset_ ds + zlen bs)).
Proof.
  revert ds i acc. induction bs as [|b bs IH]; intros ds i acc Hds Hun Hg.
  { cbn. rewrite zlen_nil, Z.add_0_r. by destruct ds. }
  cbn [length seq Dec.unsigned_loop fold_left]. cbv [mbind exec_bind].
  rewrite (dec_u8 _ _ _ Hds Hun).
  pose proof (Hg 0%nat ltac:(cbn; lia)) as Hb. rewrite Nat.add_0_r in Hb. injection Hb as ->.
  destruct (advance ds [g i] (bs ++ rest) Hds Hun) as [Hds1 Hun1].
  rewrite (IH _ _ _ Hds1 Hun1).
  - cbn [payload offset_]. rewrite !zlen_cons, zlen_nil.
    by replace (offset_ ds + (1 + 0) + zlen bs) with (offset_ ds + (1 + zlen bs)) by lia.
  - intros j Hj. replace (S i + j)%nat with (i + S j)%nat by lia. apply (Hg (S j)). cbn. lia.
Qed.

(** The first eleven bytes, as the decoder reads them. *)
Lemma decode_header_bytes p :
  zlen p <= kMaximumFramePayloadBytes -> 11 <= zlen p ->
  exists ds2 ds10 ds11,
    Dec.u16 (mk_Decoder p 0) = Return (Z.lor (byte_at p 0) (Z.shiftl (byte_at p 1) 8), ds2) /\
    Dec.u64 ds2 = Return (header_request_id p, ds10) /\
    Dec.u8 ds10 = Return (byte_at p 10, ds11).
Proof.
  intros Hmax Hlen.
  destruct p as [|b0 [|b1 [|b2 [|b3 [|b4 [|b5 [|b6 [|b7 [|b8 [|b9 [|b10 p]]]]]]]]]]];
    try (unfold zlen in Hlen; cbn in Hlen; lia).
  set (p' := b0 :: _) in *.
  assert (dec_inv (mk_Decoder p' 0)) as H0 by (split; cbn; [done|zlen_lia]).
  destruct (advance (mk_Decoder p' 0) [b0; b1] (drop 2 p') H0 eq_refl) as [H2 Hun2].
  destruct (advance _ [b2; b3; b4; b5; b6; b7; b8; b9] (b10 :: p) H2 Hun2) as [H10 Hun10].
  eexists _, _, _. split_and!.
  - unfold Dec.u16, Dec.unsigned.
    etrans; [apply (dec_unsigned_loop (byte_at p') _ [b0; b1] (drop 2 p') 0 0 H0 eq_refl)|reflexivity].
    intros [|[|j]] Hj; [done|done|cbn in Hj; lia].
  - unfold Dec.u64, Dec.unsigned.
    etrans; [apply (dec_unsigned_loop (fun i => byte_at p' (i + 2)%nat) _
      [b2; b3; b4; b5; b6; b7; b8; b9] (b10 :: p) 0 0 H2 Hun2)|reflexivity].
    intros j Hj. do 8 (destruct j as [|j]; [done|]). cbn in Hj. lia.
  - rewrite (dec_u8 _ _ _ H10 Hun10). done.
Qed.

(** An integer that is read was there. *)
Lemma dec_unsigned_consumes n ds v ds' :
  dec_inv ds -> Dec.unsigned n ds = Return (v, ds') ->
  dec_inv ds' /\ payload ds' = payload ds /\ offset_ ds' = offset_ ds + Z.of_nat n.
Proof.
  unfold Dec.unsigned. generalize 0 at 1. generalize 0%nat.
  revert ds. induction n as [|n IH]; intros ds i acc Hds He.
  { injection He as _ <-. split_and!; [done..|lia]. }
  cbn [seq Dec.unsigned_loop] in He. cbv [mbind exec_bind] in He.
  destruct (Dec.u8 ds) as [[b ds1]|] eqn:Hb; [|done].
  assert (ds1 = mk_Decoder (payload ds) (offset_ ds + 1) /\ dec_inv ds1) as [-> H1].
  { unfold Dec.u8, Dec.require in Hb. cbv [mbind exec_bind] in Hb.
    destruct (Dec.remaining ds <? 1) eqn:Hr; [done|]. injection Hb as _ <-. split; [done|].
    rewrite remaining_unread, unread_length in Hr by done. destruct Hds. split; cbn; [done|lia]. }
  destruct (IH _ _ _ H1 He) as (? & ? & Ho). split_and!; [done..|]. cbn in Ho. lia.
Qed.

Lemma dec_header_length p v id m ds2 ds10 ds11 :
  zlen p <= kMaximumFramePayloadBytes ->
  Dec.u16 (mk_Decoder p 0) = Return (v, ds2) -> Dec.u64 ds2 = Return (id, ds10) ->
  Dec.u8 ds10 = Return (m, ds11) -> 11 <= zlen p.
Proof.
  intros Hmax H2 H10 H11.
  apply dec_unsigned_consumes in H2 as (I2 & P2 & O2);
    [|split; cbn; [done|pose proof (zlen_nonneg p); lia]].
  apply dec_unsigned_consumes in H10 as (I10 & P10 & O10); [|done].
  unfold Dec.u8, Dec.require in H11. cbv [mbind exec_bind] in H11.
  destruct (Dec.remaining ds10 <? 1) eqn:Hr; [done|].
  rewrite remaining_unread, unread_length, P10, P2 in Hr by done. cbn in *. lia.
Qed.

(** A decoder that goes through the header: it is the recovered one. *)
Lemma decode_through_header {B} (k : Z -> Method.t -> dec B) exn (c : Z -> bool) exn' bs y :
  (forall id, c id = false -> id <> 0) ->
  run_decoder
    (version ← Dec.u16;
     _ ← throw_if (negb (version =? kProtocolVersion)) exn;
     request_id ← Dec.u64;
     _ ← throw_if (c request_id) exn';
     raw ← Dec.u8;
     method ← decode_method raw;
     k request_id method) bs = Return y ->
  exists ds ds', let '(id, m) := recover_correlation (Some bs) in
    id <> 0 /\ valid_method m = true /\ k id m ds = Return (y, ds').
Proof.
  intros Hc. unfold run_decoder, Dec.open_payload.
  destruct (kMaximumFramePayloadBytes <? zlen bs) eqn:Hmax; [done|]. cbv [mbind exec_bind].
  destruct (Dec.u16 _) as [[v ds2]|] eqn:H2; [|done]. cbv [throw_if].
  destruct (v =? kProtocolVersion) eqn:Hv; [|done]. cbn [negb]. cbv [mret exec_ret].
  destruct (Dec.u64 ds2) as [[id ds10]|] eqn:H10; [|done].
  destruct (c id) eqn:Hcid; [done|]. destruct (Dec.u8 ds10) as [[m ds11]|] eqn:H11; [|done].
  pose proof (dec_header_length bs v id m ds2 ds10 ds11 ltac:(lia) H2 H10 H11) as Hlen.
  destruct (decode_header_bytes bs ltac:(lia) Hlen) as (ds2' & ds10' & ds11' & E2 & E10 & E11).
  rewrite E2 in H2. injection H2 as <- <-. rewrite E10 in H10. injection H10 as <- <-.
  rewrite E11 in H11. injection H11 as <- <-.
  unfold decode_method. cbv [mbind exec_bind throw_if].
  destruct (_ || _) eqn:Hm; [done|]. cbv [mret exec_ret].
  destruct (k _ _ ds11') as [[y' ds']|] eqn:Hk; [|done]. intros [= ->].
  exists ds11', ds'. unfold recover_correlation. rewrite Hv.
  destruct (zlen bs <? 11) eqn:Hl; [lia|]. cbn [negb orb].
  apply Hc in Hcid. apply Z.eqb_neq in Hcid as Hz. rewrite Hz.
  assert (valid_method (Method.of_raw (byte_at bs 10)) = true) as Hvm.
  { unfold valid_method. rewrite method_raw_of_raw. cbn in *. lia. }
  rewrite Hvm. cbn [negb orb]. done.
Qed.

(** What is read last decides the value. *)
Definition yields {S B} (d : exec CodecExn S B) (P : B -> Prop) : Prop :=
  forall s y s', d s = Return (y, s') -> P y.

Lemma yields_bind {S A B} (d : exec CodecExn S A) (k : A -> exec CodecExn S B) P :
  (forall y, yields (k y) P) -> yields (y ← d; k y) P.
Proof.
  intros Hk s z s' He. cbv [mbind exec_bind] in He.
  destruct (d s) as [[y s1]|]; [|done]. by eapply Hk.
Qed.

Lemma yields_ret {S B} (y : B) (P : B -> Prop) : P y -> yields (S := S) (mret y) P.
Proof. intros HP s y' s' [= <- <-]. done. Qed.

Lemma request_body_correlation id m :
  yields (decode_request_body id m) (fun r => req_request_id r = id /\ req_method r = m).
Proof.
  unfold decode_request_body.
  destruct m; repeat (apply yields_bind; intros ?); by apply yields_ret.
Qed.

(** Recovery agrees with the decoder: on every payload [decode_request] accepts, it
    finds the request's own correlation. *)
Theorem recover_correlation_agrees bs r :
  decode_request bs = ROk r ->
  recover_correlation (Some bs) = (req_request_id r, req_method r).
Proof.
  intros Hdec%catch_all_ok.
  apply (decode_through_header (fun id m =>
    request ← decode_request_body id m; _ ← Dec.require_end; mret request)) in Hdec
    as (ds & ds' & Hk); [|intros; lia].
  destruct (recover_correlation (Some bs)) as [id m]. destruct Hk as (_ & _ & Hk).
  cbv [mbind exec_bind] in Hk.
  destruct (decode_request_body id m ds) as [[r' ds1]|] eqn:Hr; [|done].
  destruct (Dec.require_end ds1) as [[[] ds2]|]; [|done]. injection Hk as -> _.
  apply request_body_correlation in Hr as [<- <-]. done.
Qed.

(** The recovered correlation is the sentinel or one a request can have. *)
Lemma recover_correlation_valid p :
  recover_correlation p = (0, Method.DaemonInfo) \/
  ((recover_correlation p).1 <> 0 /\ valid_method (recover_correlation p).2 = true).
Proof.
  destruct p as [p|]; [|by left]. cbn [recover_correlation].
  destruct (_ || _); [by left|]. destruct (_ || _) eqn:Hc; [by left|].
  apply orb_false_iff in Hc as [Hz Hm]. right. cbn [fst snd]. split; [lia|].
  by apply negb_false_iff.
Qed.

Lemma of_raw_wf b : Method.wf (Method.of_raw b).
Proof. unfold Method.of_raw. repeat case_match; cbn; lia. Qed.

Lemma header_request_id_fits p : Forall (is_uint 8) p -> is_uint 64 (header_request_id p).
Proof.
  intros Hp. unfold header_request_id.
  assert (forall i, is_uint 8 (byte_at p i)) as Hb.
  { intros i. unfold byte_at. destruct (p !! i) as [b|] eqn:E; cbn; [|unfold is_uint; lia].
    rewrite Forall_lookup in Hp. by eapply Hp. }
  enough (forall n i acc, is_uint (Z.of_nat i * 8) acc ->
    is_uint (Z.of_nat (i + n) * 8)
      (fold_left (fun acc index => Z.lor acc (byte_at p (index + 2) ≪ (Z.of_nat index * 8)))
         (seq i n) acc)) as Hgen.
  { apply (Hgen 8%nat 0%nat 0). unfold is_uint. cbn. lia. }
  induction n as [|n IH]; intros i acc Hacc; cbn [seq fold_left]; [by rewrite Nat.add_0_r|].
  replace (i + S n)%nat with (S i + n)%nat by lia. apply IH.
  specialize (Hb (i + 2)%nat). unfold is_uint in *.
  rewrite lor_shiftl_add by lia.
  replace (Z.of_nat (S i) * 8) with (Z.of_nat i * 8 + 8) by lia.
  rewrite Z.pow_add_r by lia. change (2 ^ 8) with 256 in *. nia.
Qed.

Lemma recover_correlation_fits p :
  (forall bs, p = Some bs -> Forall (is_uint 8) bs) ->
  is_uint 64 (recover_correlation p).1 /\ Method.wf (recover_correlation p).2.
Proof.
  intros Hp. assert (is_uint 64 0) by (unfold is_uint; lia).
  destruct p as [p|]; [|done]. cbn [recover_correlation].
  destruct (_ || _); [done|]. destruct (_ || _); [done|]. cbn [fst snd].
  split; [by apply header_request_id_fits, Hp|apply of_raw_wf].
Qed.

(** C37: Every typed failure can be reported: whatever request bytes were received (or
    none), [encode_protocol_error] succeeds within one frame, and both
    [decode_protocol_error] and, when a correlation was recovered, the
    [decode_response] of a client that sent it read back that failure. *)
Theorem protocol_error_roundtrip status request :
  status_ok_wire status -> status_ok status = false ->
  (forall bs, request = Some bs -> Forall (is_uint 8) bs) ->
  let '(id, method) := recover_correlation request in
  exists bs, encode_protocol_error status request = Return (ROk bs) /\
    zlen bs <= kMaximumFramePayloadBytes /\
    decode_protocol_error bs = Return (ROk (response_header id method status)) /\
    (id <> 0 -> decode_response bs method id = ROk (response_header id method status)).
Proof.
  intros Hs Hfail Hreq.
  pose proof (recover_correlation_valid request) as Hval.
  destruct (recover_correlation_fits request Hreq) as [Hid Hwf].
  destruct (recover_correlation request) as [id m] eqn:Hrec. cbn [fst snd] in *.
  assert (valid_method m = true) as Hm by by destruct Hval as [[= -> ->]|[_ ?]].
  set (e := _ ← encode_header id m; encode_status status).
  assert (emits e (wire_header id m ++ wire_status status)) as He
    by (apply emits_bind; [apply emits_header|by apply emits_status]).
  assert (zlen (wire_header id m ++ wire_status status) <= kMaximumFramePayloadBytes) as Hfit.
  { rewrite zlen_app, wire_header_length. pose proof (wire_status_length _ Hs).
    unfold kMaximumFramePayloadBytes. lia. }
  assert (run_encoder e = Return (wire_header id m ++ wire_status status)) as Hrun.
  { apply catch_codec_ok. rewrite (emits_run _ _ He).
    by rewrite (proj2 (Z.leb_le _ _) Hfit). }
  assert (status_fits status) as Hfits.
  { pose proof internal_u8. destruct Hs as [? _]. unfold status_fits, is_uint. lia. }
  exists (wire_header id m ++ wire_status status). split_and!; [|done|..].
  - unfold encode_protocol_error. rewrite Hfail, Hrec. cbn [fst snd].
    fold e. change (catch_codec (run_encoder e) = Return (ROk (wire_header id m ++ wire_status status))).
    by rewrite Hrun.
  - unfold decode_protocol_error.
    eapply (complete_run (fun _ y => y = response_header id m status) tt) in Hrun
      as (_ & y & Hy & ->); [by rewrite Hy|].
    apply (complete_header _ _ _ _ _ _ _ (fun _ => false) (CodecFailure InvalidArgument []));
      [done..|].
    eapply (complete_last eq); [by apply rt_status|]. intros ? <-.
    apply complete_end. intros ds. eexists _, ds. split; [|done].
    rewrite Hfail. destruct Hval as [[= -> ->]|[Hz _]]; [done|].
    by replace (id =? 0) with false by lia.
  - intros Hz. unfold decode_response. rewrite Hm. replace (id =? 0) with false by lia.
    eapply (complete_run (fun _ y => y = response_header id m status) tt) in Hrun
      as (_ & y & Hy & ->); [cbn [orb negb]; by rewrite Hy|].
    apply (complete_header _ _ _ _ _ _ _ (fun _ => false) (CodecFailure InvalidArgument []));
      [done..|].
    apply complete_check; [by rewrite Z.eqb_refl, bool_decide_eq_false_2 by (intros []; done)|].
    eapply (complete_last eq); [by apply rt_status|]. intros ? <-. rewrite Hfail.
    apply (complete_end (fun _ y => y = response_header id m status) tt).
    intros ds. by eexists _, ds.
Qed.
End ProtocolErrors.
