(* ===== verification/Framing.v ===== *)
(** Two facts about every decoder and encoder of [src/lib/ipc/codec.cpp]:
    exceptions do not leave the entry points, and the wire format is prefix-free
    (what a decoder read does not depend on the bytes that follow). *)
From S2P Require Import Prelude OrdMap Kernel Protocol Utf8 Wire RoundTrip Scalars.
From S2P Require Import CodecRequest CodecResult Codec CodecSpec.

Section Exceptions.
Context `{Kernel}.

(** Throws nothing but [CodecFailure]. *)
Definition codec_only {S A} (m : exec CodecExn S A) : Prop :=
  forall s exn, m s = Throw exn -> exists c what, exn = CodecFailure c what.

Lemma co_ret {S A} (a : A) : codec_only (S := S) (mret a).
Proof. by intros s exn. Qed.

Lemma co_throw {S A} c what : codec_only (throw (S := S) (A := A) (CodecFailure c what)).
Proof. intros s exn [= <-]. eauto. Qed.

Lemma co_bind {S A B} (m : exec CodecExn S A) (k : A -> exec CodecExn S B) :
  codec_only m -> (forall a, codec_only (k a)) -> codec_only (a ← m; k a).
Proof.
  intros Hm Hk s exn. cbv [mbind exec_bind]. destruct (m s) as [[a s']|e] eqn:E; intros He.
  - by eapply Hk.
  - injection He as <-. by eapply Hm.
Qed.

Lemma co_check {S} c code what : codec_only (throw_if (S := S) c (CodecFailure code what)).
Proof. destruct c; [apply co_throw|apply co_ret]. Qed.

Lemma co_for_each {S A} (f : A -> exec CodecExn S unit) l :
  (forall x, codec_only (f x)) -> codec_only (for_each f l).
Proof. intros Hf. induction l; [apply co_ret|]. by apply co_bind. Qed.

Lemma co_append bs : codec_only (Enc.append bs).
Proof. intros st exn. unfold Enc.append. case_match; intros [= <-]. eauto. Qed.

Lemma co_unsigned n v : codec_only (Enc.unsigned n v).
Proof. apply co_for_each. intros. apply co_append. Qed.

Lemma co_u8 v : codec_only (Enc.u8 v).
Proof. apply co_append. Qed.
Lemma co_u16 v : codec_only (Enc.u16 v).
Proof. apply co_unsigned. Qed.
Lemma co_u32 v : codec_only (Enc.u32 v).
Proof. apply co_unsigned. Qed.
Lemma co_u64 v : codec_only (Enc.u64 v).
Proof. apply co_unsigned. Qed.
Lemma co_i64 v : codec_only (Enc.i64 v).
Proof. apply co_unsigned. Qed.
Lemma co_f64 v : codec_only (Enc.f64 v).
Proof. apply co_unsigned. Qed.
Lemma co_boolean v : codec_only (Enc.boolean v).
Proof. apply co_append. Qed.

Lemma co_require size : codec_only (Dec.require size).
Proof. intros st exn. unfold Dec.require. case_match; intros [= <-]. eauto. Qed.

Lemma co_next : codec_only Dec.next.
Proof. by intros st exn. Qed.

Lemma co_slice size : codec_only (Dec.slice size).
Proof. by intros st exn. Qed.

Lemma co_end : codec_only Dec.require_end.
Proof. intros st exn. unfold Dec.require_end. case_match; intros [= <-]. eauto. Qed.

Lemma co_unsigned_loop l acc : codec_only (Dec.unsigned_loop l acc).
Proof.
  revert acc. induction l as [|i l IH]; intros acc; cbn [Dec.unsigned_loop]; [apply co_ret|].
  apply co_bind; [|done]. apply co_bind; [apply co_require|intros; apply co_next].
Qed.

Lemma co_validate_job_status {S} s : codec_only (validate_job_status (S := S) s).
Proof.
  repeat (apply co_bind; [apply co_check|intros _]).
  destruct (js_state s); first [apply co_check | apply co_throw].
Qed.
End Exceptions.

#[export] Hint Resolve co_ret co_throw co_check co_append co_unsigned co_u8 co_u16 co_u32 co_u64
  co_i64 co_f64 co_boolean co_require co_next co_slice co_end co_unsigned_loop
  co_validate_job_status : photo.

(** Follows the text of a computation. *)
Ltac codec_only_step :=
  first [ solve [auto with photo]
        | apply co_bind; [|intros ?]
        | apply co_for_each; intros ?
        | case_match ].
Ltac codec_only := repeat codec_only_step.

Section EntryPoints.
Context `{Kernel}.

Lemma co_text s maximum : codec_only (Enc.text s maximum).
Proof. unfold Enc.text. codec_only. Qed.

Lemma co_blob s : codec_only (Enc.blob s).
Proof. unfold Enc.blob. codec_only. Qed.

#[local] Hint Resolve co_text co_blob : photo.

Lemma co_status s : codec_only (encode_status s).
Proof. unfold encode_status. codec_only. Qed.

Lemma co_parameter p : codec_only (encode_parameter p).
Proof. destruct p; cbn [encode_parameter]; codec_only. Qed.

Lemma co_input i : codec_only (encode_input i).
Proof. destruct i; cbn [encode_input]; codec_only. Qed.

#[local] Hint Resolve co_status co_parameter co_input : photo.

Lemma co_document d : codec_only (encode_document d).
Proof. unfold encode_document, encode_node, encode_output, encode_binding. codec_only. Qed.

Lemma co_value v : codec_only (encode_value v).
Proof. unfold encode_value, encode_dimension, encode_facet. codec_only. Qed.

#[local] Hint Resolve co_document co_value : photo.

Lemma co_result r : codec_only (encode_execution_result r).
Proof.
  unfold encode_execution_result, encode_named_value, encode_diagnostics, encode_backend,
    encode_timing.
  codec_only.
Qed.

#[local] Hint Resolve co_result : photo.

(** A try block that meets no other exception returns. *)
Lemma catch_codec_returns {T} (o : outcome CodecExn T) :
  (forall exn, o = Throw exn -> exists c what, exn = CodecFailure c what) ->
  exists r, catch_codec o = Return r.
Proof.
  intros Ho. destruct o as [v|exn]; [by eexists|].
  destruct (Ho exn eq_refl) as (c & what & ->). by eexists.
Qed.

Lemma run_encoder_codec_only e :
  codec_only e -> exists r, catch_codec (run_encoder e) = Return r.
Proof.
  intros He. apply catch_codec_returns. intros exn. unfold run_encoder.
  destruct (e _) as [[? ?]|exn'] eqn:E; [done|]. intros [= <-]. by eapply He.
Qed.

Lemma encode_request_returns request : exists r, encode_request request = Return r.
Proof.
  apply run_encoder_codec_only.
  unfold encode_header, encode_request_body, require_session_id, require_job_id,
    encode_session_id, encode_job_id. codec_only.
Qed.

Lemma encode_response_returns response : exists r, encode_response response = Return r.
Proof.
  apply run_encoder_codec_only.
  unfold encode_header, encode_response_body, require_session_id, require_job_id,
    encode_session_id, encode_job_id, encode_job_status, encode_daemon_info,
    validate_daemon_info. codec_only.
Qed.

Lemma encode_protocol_error_returns status payload :
  exists r, encode_protocol_error status payload = Return r.
Proof. apply run_encoder_codec_only. unfold encode_header. codec_only. Qed.

Lemma decode_protocol_error_returns bs : exists r, decode_protocol_error bs = Return r.
Proof.
  apply catch_codec_returns. intros exn. unfold run_decoder, Dec.open_payload.
  destruct (_ <? _); [intros [= <-]; eauto|].
  match goal with |- context [match ?m with _ => _ end] => destruct m as [[? ?]|exn'] eqn:E end;
    [done|].
  intros [= <-]. revert E. generalize exn'. generalize (mk_Decoder bs 0).
  match goal with |- forall d e, ?m d = _ -> _ => change (codec_only m) end.
  unfold decode_method, decode_status, Dec.text, Dec.u16, Dec.u64, Dec.u8, Dec.u32, Dec.unsigned.
  codec_only.
Qed.

(** No exception leaves an encoder: on every request, response, status and
    correlation, in range or not, each entry point returns a value or a typed
    failure. *)
Theorem encoders_return request response status payload :
  (exists r, encode_request request = Return r) /\
  (exists r, encode_response response = Return r) /\
  (exists r, encode_protocol_error status payload = Return r) /\
  (forall bs, exists r, decode_protocol_error bs = Return r).
Proof.
  split_and!; [apply encode_request_returns|apply encode_response_returns
    |apply encode_protocol_error_returns|intros bs; apply decode_protocol_error_returns].
Qed.
End EntryPoints.

(** ** The wire format is prefix-free *)

(** The same decoder object with more bytes after its payload. *)
Definition grow (d : Decoder) (extra : bytes) : Decoder :=
  mk_Decoder (payload d ++ extra) (offset_ d).

Section PrefixFree.
Context `{Kernel}.

Lemma grow_inv ds ds' extra :
  dec_inv (grow ds extra) -> dec_inv ds' -> payload ds' = payload ds -> dec_inv (grow ds' extra).
Proof.
  intros [Hb Ho] [Hb' Ho'] Hp. split; cbn in *; rewrite Hp in *; [done|].
  rewrite zlen_app in *. pose proof (zlen_nonneg extra). lia.
Qed.

(** What the decoder returns, it returns with more bytes behind. *)
Definition local {B} (d : dec B) : Prop :=
  forall ds y ds' extra, dec_inv ds -> Forall (is_uint 8) (payload ds) ->
  dec_inv (grow ds extra) -> d ds = Return (y, ds') ->
  d (grow ds extra) = Return (y, grow ds' extra) /\ dec_inv ds' /\ payload ds' = payload ds.

Lemma local_ret {B} (y : B) : local (mret y).
Proof. by intros ds y' ds' extra Hds _ _ [= <- <-]. Qed.

Lemma local_throw {B} exn : local (throw (A := B) exn).
Proof. by intros ds y ds' extra. Qed.

Lemma local_check c exn : local (throw_if c exn).
Proof. destruct c; [apply local_throw|apply local_ret]. Qed.

(** Sequencing, with what is known of the first part's value. *)
Lemma local_bind_dc {A B} (d : dec A) (k : A -> dec B) (P : A -> Prop) :
  decodes d P -> local d -> (forall y, P y -> local (k y)) -> local (y ← d; k y).
Proof.
  intros Hdc Hd Hk ds z ds' extra Hds Hby Hg He. cbv [mbind exec_bind] in *.
  destruct (d ds) as [[y ds1]|] eqn:Hy; [|done].
  destruct (Hd ds y ds1 extra Hds Hby Hg Hy) as (-> & Hds1 & Hp1).
  destruct (Hdc ds y ds1 Hds Hby Hy) as (HP & _).
  destruct (Hk y HP ds1 z ds' extra) as (-> & ? & Hp2);
    [done|by rewrite Hp1|by eapply grow_inv|done|].
  split_and!; [done..|congruence].
Qed.

Lemma local_bind {A B} (d : dec A) (k : A -> dec B) :
  local d -> (forall y, local (k y)) -> local (y ← d; k y).
Proof.
  intros Hd Hk ds z ds' extra Hds Hby Hg He. cbv [mbind exec_bind] in *.
  destruct (d ds) as [[y ds1]|] eqn:Hy; [|done].
  destruct (Hd ds y ds1 extra Hds Hby Hg Hy) as (-> & Hds1 & Hp1).
  destruct (Hk y ds1 z ds' extra) as (-> & ? & Hp2);
    [done|by rewrite Hp1|by eapply grow_inv|done|].
  split_and!; [done..|congruence].
Qed.

Lemma remaining_grow ds extra :
  dec_inv ds -> dec_inv (grow ds extra) ->
  Dec.remaining (grow ds extra) = Dec.remaining ds + zlen extra.
Proof.
  intros Hds Hg. rewrite !remaining_unread, !unread_length by done. cbn. rewrite zlen_app. lia.
Qed.

Lemma local_u8 : local Dec.u8.
Proof.
  intros ds y ds' extra Hds _ Hg He. unfold Dec.u8, Dec.require in *. cbv [mbind exec_bind] in *.
  rewrite (remaining_grow ds extra) by done. pose proof (zlen_nonneg extra).
  destruct (Dec.remaining ds <? 1) eqn:Hr; [done|]. replace (_ + _ <? 1) with false by lia.
  unfold Dec.next in *. injection He as <- <-.
  rewrite remaining_unread, unread_length in Hr by done. destruct Hds as [Hb Ho]. cbn.
  split_and!; [|split; cbn; [done|lia]|done].
  rewrite lookup_app_l by (unfold zlen in *; lia). done.
Qed.

Lemma local_unsigned_loop l acc : local (Dec.unsigned_loop l acc).
Proof.
  revert acc. induction l as [|i l IH]; intros acc; [apply local_ret|].
  by apply local_bind; [apply local_u8|].
Qed.

(** A length check and the bytes it covers. *)
Lemma local_slice {B} size (k : bytes -> dec B) :
  0 <= size -> (forall s, local (k s)) ->
  local (_ ← Dec.require size; s ← Dec.slice size; k s).
Proof.
  intros Hsize Hk ds y ds' extra Hds Hby Hg He. unfold Dec.require in *.
  cbv [mbind exec_bind] in *. rewrite (remaining_grow ds extra) by done.
  pose proof (zlen_nonneg extra).
  destruct (Dec.remaining ds <? size) eqn:Hr; [done|]. replace (_ + _ <? size) with false by lia.
  rewrite remaining_unread, unread_length in Hr by done. unfold Dec.slice in *. cbn.
  destruct Hds as [Hb Ho]. destruct Hg as [Hb' Ho']. cbn in *. rewrite zlen_app in *.
  set (ds1 := mk_Decoder (payload ds) (offset_ ds + size)) in *.
  rewrite drop_app_le, take_app_le by (rewrite ?length_drop; unfold zlen in *; lia).
  destruct (Hk (take (Z.to_nat size) (drop (Z.to_nat (offset_ ds)) (payload ds)))
    ds1 y ds' extra) as (? & ? & ?);
    [split; cbn; [done|lia]|done|split; cbn; rewrite ?zlen_app; lia|done|done].
Qed.

Lemma local_fence count c :
  0 < minimum_entry_bytes c -> 0 <= required_suffix_bytes c ->
  local (Dec.require_count_fits count c).
Proof.
  intros Hm Hs ds y ds' extra Hds Hby Hg He. unfold Dec.require_count_fits in *.
  rewrite (remaining_grow ds extra) by done. pose proof (zlen_nonneg extra).
  assert (Dec.remaining ds + zlen extra < 2 ^ 64) as Hr.
  { rewrite <- remaining_grow, remaining_unread, unread_length by done.
    destruct Hg as [Hb Ho]. unfold kMaximumFramePayloadBytes in *. lia. }
  assert (0 <= Dec.remaining ds) by (rewrite remaining_unread by done; apply zlen_nonneg).
  destruct (count_fits count (Dec.remaining ds) c) eqn:Hf; [|done]. revert Hf. unfold count_fits.
  rewrite !andb_true_iff, !Z.leb_le. intros (Hz & Hle & Hq).
  rewrite size_sub_small in Hq by lia.
  rewrite Hz, (proj2 (Z.leb_le (required_suffix_bytes c) _)), (proj2 (Z.leb_le count _)).
  - by injection He as <- <-.
  - rewrite size_sub_small by lia. etrans; [exact Hq|]. apply Z.div_le_mono; lia.
  - lia.
Qed.

Lemma local_unsigned n : local (Dec.unsigned n).
Proof. apply local_unsigned_loop. Qed.

Lemma local_text maximum : local (Dec.text maximum).
Proof.
  eapply local_bind_dc; [apply dc_u32|apply local_unsigned|]. intros size Hsize.
  apply local_bind; [apply local_check|intros _].
  apply local_slice; [unfold is_uint in Hsize; lia|]. intros s.
  apply local_bind; [apply local_check|intros _]. apply local_ret.
Qed.

Lemma local_blob maximum : local (Dec.blob maximum).
Proof.
  eapply local_bind_dc; [apply dc_u32|apply local_unsigned|]. intros size Hsize.
  apply local_bind; [apply local_check|intros _].
  apply local_slice; [unfold is_uint in Hsize; lia|]. intros s. apply local_ret.
Qed.

Lemma local_iterate {A} n (body : A -> dec A) acc :
  (forall a, local (body a)) -> local (iterate n body acc).
Proof.
  intros Hb. revert acc. induction n as [|n IH]; intros acc; cbn [iterate]; [apply local_ret|].
  by apply local_bind.
Qed.

Lemma local_collect {A} n (d : dec A) : local d -> local (collect n d).
Proof.
  intros Hd. apply local_iterate. intros acc. apply local_bind; [done|]. intros. apply local_ret.
Qed.

Lemma local_emplace {K V} `{KeyOrder K} exn (m : list (K * V)) kv :
  local (emplace_or_throw exn m kv).
Proof. unfold emplace_or_throw. case_match; [apply local_ret|apply local_throw]. Qed.

Lemma local_u16 : local Dec.u16.
Proof. apply local_unsigned. Qed.
Lemma local_u32 : local Dec.u32.
Proof. apply local_unsigned. Qed.
Lemma local_u64 : local Dec.u64.
Proof. apply local_unsigned. Qed.
End PrefixFree.

#[export] Hint Resolve local_ret local_throw local_check local_u8 local_u16 local_u32 local_u64
  local_text local_blob local_emplace : photo.

(** Follows the text of a decoder. *)
Ltac local_step :=
  first [ solve [auto with photo]
        | apply local_fence; [done|done]
        | apply local_bind; [|intros ?]
        | apply local_collect
        | apply local_iterate; intros ?
        | case_match ].
Ltac local_steps := repeat local_step.

Section Decoders.
Context `{Kernel}.

Lemma local_status : local decode_status.
Proof. unfold decode_status. local_steps. Qed.

Lemma local_i64 : local Dec.i64.
Proof. unfold Dec.i64. local_steps. Qed.

Lemma local_f64 : local Dec.f64.
Proof. apply local_u64. Qed.

Lemma local_boolean : local Dec.boolean.
Proof. unfold Dec.boolean. local_steps. Qed.

#[local] Hint Resolve local_status local_i64 local_f64 local_boolean : photo.

Lemma local_parameter : local decode_parameter.
Proof. unfold decode_parameter. local_steps. Qed.

#[local] Hint Resolve local_parameter : photo.

Lemma local_document : local decode_document.
Proof.
  unfold decode_document, decode_node, decode_output, decode_input, decode_binding. local_steps.
Qed.

Lemma local_value : local decode_value.
Proof. unfold decode_value, decode_dimension, decode_facet, publish_value. local_steps. Qed.

#[local] Hint Resolve local_document local_value : photo.

Lemma local_result : local decode_execution_result.
Proof.
  unfold decode_execution_result, decode_named_value, decode_diagnostics, decode_backend,
    decode_timing. local_steps.
Qed.

#[local] Hint Resolve local_result : photo.

Lemma local_validate_job_status s : local (validate_job_status s).
Proof. unfold validate_job_status, require_job_id, require_session_id. local_steps. Qed.

#[local] Hint Resolve local_validate_job_status : photo.

Lemma local_request_body id m : local (decode_request_body id m).
Proof.
  unfold decode_request_body, decode_session_id, decode_job_id, require_session_id,
    require_job_id. local_steps.
Qed.

Lemma local_response_body r : local (decode_response_body r).
Proof.
  unfold decode_response_body, decode_session_id, decode_job_id, require_session_id,
    require_job_id, decode_job_status, decode_daemon_info, decode_session_id, decode_job_id,
    decode_job_state, validate_daemon_info. local_steps.
Qed.

(** What is accepted up to the end of the payload is refused with more bytes. *)
Definition ends {B} (d : dec B) : Prop :=
  forall ds y ds' extra, dec_inv ds -> Forall (is_uint 8) (payload ds) ->
  dec_inv (grow ds extra) -> extra <> [] -> d ds = Return (y, ds') ->
  exists exn, d (grow ds extra) = Throw exn.

Lemma ends_bind {A B} (d : dec A) (k : A -> dec B) :
  local d -> (forall y, ends (k y)) -> ends (y ← d; k y).
Proof.
  intros Hd Hk ds z ds' extra Hds Hby Hg Hne He. cbv [mbind exec_bind] in *.
  destruct (d ds) as [[y ds1]|] eqn:Hy; [|done].
  destruct (Hd ds y ds1 extra Hds Hby Hg Hy) as (-> & Hds1 & Hp1).
  apply (Hk y ds1 z ds' extra); [done|by rewrite Hp1|by eapply grow_inv|done..].
Qed.

Lemma ends_end {B} (k : dec B) : ends (_ ← Dec.require_end; k).
Proof.
  intros ds y ds' extra Hds Hby Hg Hne He. cbv [mbind exec_bind Dec.require_end] in *.
  destruct (offset_ ds =? zlen (payload ds)) eqn:Ho; [|done]. cbn. rewrite zlen_app.
  assert (0 < zlen extra) by (destruct extra; [done|rewrite zlen_cons; zlen_lia]).
  replace (offset_ ds =? _) with false by lia. by eexists.
Qed.

Lemma ends_run {B} (d : dec B) bs y extra :
  ends d -> Forall (is_uint 8) bs -> extra <> [] -> run_decoder d bs = Return y ->
  exists exn, run_decoder d (bs ++ extra) = Throw exn.
Proof.
  intros Hd Hby Hne. unfold run_decoder, Dec.open_payload.
  destruct (kMaximumFramePayloadBytes <? zlen bs) eqn:Hmax; [done|].
  destruct (d (mk_Decoder bs 0)) as [[y' ds']|] eqn:Hrun; [|done]. intros _.
  destruct (kMaximumFramePayloadBytes <? zlen (bs ++ extra)) eqn:Hmax'; [by eexists|].
  destruct (Hd (mk_Decoder bs 0) y' ds' extra) as [exn Hexn]; [..|done|done|].
  - split; cbn; [lia|]. pose proof (zlen_nonneg bs). lia.
  - done.
  - split; cbn; [lia|]. pose proof (zlen_nonneg (bs ++ extra)). lia.
  - unfold grow in Hexn. cbn in Hexn. rewrite Hexn. by eexists.
Qed.

Lemma catch_all_throw {T} exn :
  exists s, catch_all (T := T) (Throw exn) = RErr s.
Proof. destruct exn; by eexists. Qed.

Ltac ends_steps :=
  repeat first [ apply ends_end | apply ends_bind; [local_steps|intros ?] ].

(** The format is prefix-free: a payload that extends an accepted request or
    response with any further bytes is refused, so neither trailing bytes nor a
    truncated frame can pass for a shorter message. *)
Theorem decode_prefix_free bs extra m id :
  Forall (is_uint 8) bs -> extra <> [] ->
  (forall r, decode_request bs = ROk r ->
     exists s, decode_request (bs ++ extra) = RErr s) /\
  (forall r, decode_response bs m id = ROk r ->
     exists s, decode_response (bs ++ extra) m id = RErr s).
Proof.
  intros Hby Hne. split.
  - intros r Hr%catch_all_ok. eapply ends_run in Hr as [exn Hexn]; [|..|done|exact Hne].
    + unfold decode_request. rewrite Hexn. apply catch_all_throw.
    + unfold decode_method. repeat first [ apply ends_end
        | apply ends_bind; [first [apply local_request_body | local_steps]|intros ?] ].
  - intros r. unfold decode_response. destruct (_ || _); [by eexists|].
    intros Hr%catch_all_ok. eapply ends_run in Hr as [exn Hexn]; [|..|done|exact Hne].
    + rewrite Hexn. apply catch_all_throw.
    + unfold decode_method. repeat first [ apply ends_end
        | apply ends_bind; [local_steps; apply local_response_body|intros ?] ].
Qed.
End Decoders.
