(* ===== verification/ResponseSpec.v ===== *)
(** What [decode_response] and the method inventory of [src/lib/ipc/codec.cpp]
    promise to a client. *)
From S2P Require Import Prelude OrdMap Kernel Protocol Utf8 Wire RoundTrip Scalars.
From S2P Require Import CodecRequest CodecResult Codec CodecSpec Layout.

(** The nine methods of the closed inventory. *)
Definition all_methods : list Method.t :=
  [Method.SessionCreate; Method.SessionClose; Method.JobSubmit; Method.JobStatus;
   Method.JobCancel; Method.JobResult; Method.JobRelease; Method.DaemonInfo;
   Method.DaemonShutdown].

(** The advertised inventory is sorted, without duplicates, and names exactly the
    methods the codec accepts. *)
Theorem method_inventory_exact :
  Sorted bytes_le method_inventory /\ NoDup method_inventory /\
  method_inventory ≡ₚ map method_name all_methods /\
  (forall m, Method.wf m -> valid_method m = true <-> m ∈ all_methods).
Proof.
  split_and!.
  - vm_compute. repeat constructor.
  - apply (bool_decide_unpack _). by vm_compute.
  - unfold method_inventory. rewrite merge_sort_Permutation. cbn [map all_methods].
    apply (bool_decide_unpack _). by vm_compute.
  - intros m Hwf. unfold valid_method. split.
    + destruct m; try (intros _; unfold all_methods; set_solver). cbn in *. lia.
    + unfold all_methods. rewrite !elem_of_cons, elem_of_nil.
      intros Hm. destruct_or! Hm; by subst.
Qed.

Section ResponseSpec.
Context `{HK : KernelLaws}.

(** Diagnostics as [decode_diagnostics] lets them through. *)
Record diagnostics_decoded (d : ExecutionDiagnostics) : Prop := {
  gd_fit : diagnostics_fit d;
  gd_ok : diagnostics_ok d;
}.

Lemma known_backend_known raw : known_backend raw = true -> backend_known raw /\ is_uint 8 raw.
Proof.
  unfold known_backend, backend_known. destruct backends_u8 as [Hc Hg].
  rewrite !static_cast_u8_id by done. intros Hr.
  assert (raw = Backend_Cpu \/ raw = Backend_Gpu) as [->| ->] by lia; auto.
Qed.

Lemma dc_diagnostics : decodes decode_diagnostics diagnostics_decoded.
Proof.
  eapply dc_bind; [apply dc_u64|]. intros us Hus.
  eapply (dc_counted _ _ _ _ _ _ _ (fun count l => zlen l = count /\ sorted_map l /\
    Forall (fun b => is_uint 64 b.1 /\ b.1 <> 0 /\ backend_known b.2 /\ is_uint 8 b.2) l));
    [apply dc_u32| |].
  { intros c [? _] _. eapply dc_weaken; [apply dc_emplace|].
    - eapply dc_bind; [apply dc_u64|]. intros n Hn. eapply dc_bind; [apply dc_u8|].
      intros raw _. apply dc_check. intros [Hz Hk%negb_false_iff]%orb_false_iff.
      apply known_backend_known in Hk as [??]. apply dc_ret. cbn.
      instantiate (1 := fun b => is_uint 64 b.1 /\ b.1 <> 0 /\ backend_known b.2 /\ is_uint 8 b.2).
      cbn. split_and!; (done || lia).
    - intros l (Hl & ? & ?). split_and!; [unfold zlen; lia|done..]. }
  intros nb bs _ Hnb (Hb1 & Hb2 & Hb3).
  eapply dc_bind; [apply dc_u64|]. intros tc Htc. eapply dc_bind; [apply dc_u64|]. intros tb Htb.
  eapply dc_bind; [apply dc_u64|]. intros pk Hpk.
  eapply (dc_counted _ _ _ _ _ _ _ (fun count l => zlen l = count /\ Forall (text_ok 4096) l));
    [apply dc_u32|intros c [? _] _; apply dc_vector; [done|apply dc_text]|].
  intros nr rs _ Hnr [Hr1 Hr2].
  eapply (dc_counted _ _ _ _ _ _ _ (fun count l => zlen l = count /\ Forall (fun t =>
    timing_fits t /\ timing_node_id t <> 0 /\ backend_known (timing_backend t) /\
    0 <= timing_outcome t <= Internal) l)); [apply dc_u32| |].
  { intros c [? _] _. apply dc_vector; [done|].
    eapply dc_bind; [apply dc_u64|]. intros n Hn. eapply dc_bind; [apply dc_u8|].
    intros raw _. apply dc_check. intros [Hz Hk%negb_false_iff]%orb_false_iff.
    apply known_backend_known in Hk as [??]. eapply dc_bind; [apply dc_u64|]. intros du Hdu.
    eapply dc_bind; [apply dc_u8|]. intros ou Hou. apply dc_check. intros Ho.
    apply dc_ret. unfold timing_fits, is_uint in *. cbn. split_and!; (done || lia). }
  intros nt ts _ Hnt [Ht1 Ht2].
  eapply dc_bind; [apply dc_text|]. intros pd Hpd. eapply dc_bind; [apply dc_text|].
  intros rd Hrd. apply dc_ret. rewrite Forall_forall in Hb3. rewrite Forall_forall in Ht2. split; split; cbn; try done.
  - apply Forall_forall. intros b Hb. by destruct (Hb3 b Hb) as (? & _ & _ & ?).
  - apply Forall_forall. intros t Ht. by destruct (Ht2 t Ht).
  - lia.
  - apply Forall_forall. intros b Hb. by destruct (Hb3 b Hb) as (_ & ? & ? & _).
  - apply Forall_forall. intros t Ht. by destruct (Ht2 t Ht) as (_ & ?).
Qed.

(** Any value: the kernel's factory decides. *)
Lemma dc_any_value : decodes decode_value (fun _ => True).
Proof.
  eapply dc_bind; [apply dc_u32|]. intros ty _. apply dc_check. intros _.
  eapply dc_bind; [apply dc_u8|]. intros rank [Hr _]. apply dc_check. intros _. apply dc_fence.
  eapply dc_bind; [by apply dc_vector, dc_u64|]. intros sh _.
  eapply dc_bind; [apply (dc_vector _ (fun _ => True)); [done|]|].
  { eapply dc_bind; [apply dc_u64|]. intros o _. eapply dc_bind; [apply dc_u64|]. intros e _.
    by apply dc_ret. }
  intros dims _. eapply dc_bind; [apply dc_u64|]. intros off _.
  eapply dc_bind; [by apply dc_vector, dc_i64|]. intros st _.
  eapply (dc_counted _ _ _ _ _ _ _ (fun _ _ => True)); [apply dc_u8| |].
  { intros c [? _] _. eapply dc_weaken; [apply (dc_vector _ (fun _ => True)); [done|]|done].
    eapply dc_bind; [apply dc_text|]. intros k _. eapply dc_bind; [apply dc_u32|]. intros v _.
    eapply dc_bind; [apply dc_blob|]. intros b _. by apply dc_ret. }
  intros nf fs _ _ _. eapply dc_bind; [apply dc_blob|]. intros data _.
  unfold publish_value. repeat case_match; first [apply dc_throw | by apply dc_ret].
Qed.

Record result_decoded (r : ExecutionResult) : Prop := {
  rd_sorted : sorted_map (values r);
  rd_count : zlen (values r) <= 4096;
  rd_names : Forall (fun p => text_ok 1024 p.1) (values r);
  rd_diagnostics : diagnostics_decoded (diagnostics r);
}.

Lemma dc_result : decodes decode_execution_result result_decoded.
Proof.
  eapply (dc_counted _ _ _ _ _ _ _ (fun count l => zlen l = count /\ sorted_map l /\
    Forall (fun p => text_ok 1024 p.1) l)); [apply dc_u32| |].
  { intros c [? _] _. eapply dc_weaken;
      [apply (dc_emplace _ _ (fun p => text_ok 1024 p.1))|].
    - eapply dc_bind; [apply dc_text|]. intros name Hname.
      eapply dc_bind; [apply dc_any_value|]. intros v _. by apply dc_ret.
    - intros l (Hl & ? & ?). split_and!; [unfold zlen; lia|done..]. }
  intros nv vs _ Hnv (H1 & H2 & H3). eapply dc_bind; [apply dc_diagnostics|]. intros d Hd.
  apply dc_ret. split; cbn; [done|lia|done..].
Qed.

Lemma dc_job_status :
  decodes decode_job_status (fun s => job_status_fits s /\ job_status_valid s = true /\
    status_ok_wire (js_outcome s)).
Proof.
  eapply dc_bind; [apply dc_job_id|]. intros j Hj. eapply dc_bind; [apply dc_session_id|].
  intros s Hs. eapply dc_bind; [apply dc_u8|]. intros raw _.
  eapply (dc_bind _ _ (fun _ => True)); [apply dc_check; intros _; by apply dc_ret|]. intros st _.
  eapply dc_bind; [apply dc_status|]. intros o Ho. cbv zeta.
  apply (dc_bind _ _ (fun _ => job_status_valid (mk_JobStatus j s st o) = true)).
  { pose proof (@validate_job_status_cases _ Decoder (mk_JobStatus j s st o)) as Hc.
    destruct (job_status_valid _); [rewrite Hc; by apply dc_ret|].
    destruct Hc as [exn ->]. apply dc_throw. }
  intros _ Hv. apply dc_ret. split_and!; [..|done|done].
  pose proof internal_u8. destruct Ho as [? _]. unfold job_status_fits, status_fits, is_uint. cbn.
  split_and!; (done || lia).
Qed.

Lemma dc_daemon_info : decodes decode_daemon_info daemon_info_ok.
Proof.
  eapply dc_bind; [apply dc_u16|]. intros v _. eapply dc_bind; [apply dc_u64|]. intros i _.
  eapply dc_bind; [apply dc_text|]. intros sv Hsv. eapply dc_bind; [apply dc_text|]. intros tr _.
  eapply (dc_counted _ _ _ _ _ _ _ (fun _ _ => True)); [apply dc_u8| |].
  { intros c [? _] _. eapply dc_weaken; [by apply dc_vector, dc_text|done]. }
  intros nm ms _ _ _. eapply dc_bind; [apply dc_u64|]. intros se _.
  eapply dc_bind; [apply dc_u64|]. intros jo _. eapply dc_bind; [apply dc_u32|]. intros co _.
  eapply dc_bind; [apply dc_u32|]. intros mx _. cbv zeta. apply dc_check. cbn. intros Hc.
  rewrite !orb_false_iff, !bool_decide_eq_false, negb_false_iff in Hc.
  destruct Hc as [[[[[[Hv Hi] He] Ht] Hco] Hmx] Hm]. apply dc_ret.
  split; cbn; [lia|lia|by destruct sv|by apply dec_stable..|lia].
Qed.

(** A success carries the payload of its method, as the wire allows it. *)
Definition payload_decoded (r : Response) : Prop :=
  match resp_method r with
  | Method.SessionCreate => session_id_fits (resp_session_id r) /\
      session_instance (resp_session_id r) <> 0 /\ session_value (resp_session_id r) <> 0
  | Method.JobSubmit => job_id_fits (resp_job_id r) /\
      job_instance (resp_job_id r) <> 0 /\ job_value (resp_job_id r) <> 0
  | Method.JobStatus => job_status_fits (resp_job_status r) /\
      job_status_valid (resp_job_status r) = true /\
      status_ok_wire (js_outcome (resp_job_status r))
  | Method.JobResult => result_decoded (resp_execution_result r)
  | Method.DaemonInfo => daemon_info_ok (resp_daemon_info r)
  | _ => True
  end.

Record response_decoded (m : Method.t) (id : Z) (r : Response) : Prop := {
  rs_correlation : resp_request_id r = id /\ resp_method r = m;
  rs_status : status_ok_wire (resp_status r);
  rs_payload : status_ok (resp_status r) = true -> payload_decoded r;
  rs_canonical : r = canonical_response r (resp_execution_result r);
}.

Lemma dc_response_body id m s :
  status_ok_wire s -> status_ok s = true ->
  decodes (decode_response_body (response_header id m s)) (response_decoded m id).
Proof.
  intros Hs Hok.
  assert (forall r, resp_request_id r = id -> resp_method r = m -> resp_status r = s ->
    payload_decoded r -> r = canonical_response r (resp_execution_result r) ->
    response_decoded m id r) as Hmk.
  { intros r Hi Hm Hst Hp Hc. split; [done|by rewrite Hst|done|done]. }
  unfold decode_response_body, response_header.
  assert (forall {A} (a b : A), (if status_ok s then a else b) = a) as Hif by by rewrite Hok.
  destruct m; try (apply dc_ret, Hmk; try done; unfold canonical_response; cbn -[status_ok];
    by rewrite Hif).
  - eapply dc_bind; [apply dc_session_id|]. intros i Hi. apply dc_check. intros Hz.
    apply dc_ret, Hmk; try done; [cbn; split; [done|lia]|].
    unfold canonical_response. cbn -[status_ok]. by rewrite Hif.
  - eapply dc_bind; [apply dc_job_id|]. intros i Hi. apply dc_check. intros Hz.
    apply dc_ret, Hmk; try done; [cbn; split; [done|lia]|].
    unfold canonical_response. cbn -[status_ok]. by rewrite Hif.
  - eapply dc_bind; [apply dc_job_status|]. intros i Hi.
    apply dc_ret, Hmk; try done. unfold canonical_response. cbn -[status_ok]. by rewrite Hif.
  - eapply dc_bind; [apply dc_result|]. intros i Hi.
    apply dc_ret, Hmk; try done. unfold canonical_response. cbn -[status_ok]. by rewrite Hif.
  - eapply dc_bind; [apply dc_daemon_info|]. intros i Hi.
    apply dc_ret, Hmk; try done. unfold canonical_response. cbn -[status_ok]. by rewrite Hif.
Qed.

Lemma decoded_response_ok bs m id r :
  Forall (is_uint 8) bs -> decode_response bs m id = ROk r -> response_decoded m id r.
Proof.
  intros Hbs. unfold decode_response. destruct (_ || _); [done|]. intros Hdec%catch_all_ok.
  revert Hdec. apply dc_run; [|done].
  eapply dc_bind; [apply dc_u16|]. intros v _. apply dc_check. intros _.
  eapply dc_bind; [apply dc_u64|]. intros i Hi. eapply dc_bind; [apply dc_u8|]. intros raw _.
  eapply dc_bind; [apply dc_method|]. intros m' _. apply dc_check.
  intros [->%negb_false_iff%Z.eqb_eq Hm%bool_decide_eq_false%dec_stable]%orb_false_iff. subst m'.
  eapply dc_bind; [apply dc_status|]. intros s Hs.
  apply (dc_bind _ _ (response_decoded m id)).
  - destruct (status_ok s) eqn:Hok; [by apply dc_response_body|].
    apply dc_ret. split; cbn; [done|done|by rewrite Hok|].
    unfold canonical_response. cbn -[status_ok]. by rewrite Hok.
  - intros r' Hr'. by apply dc_end, dc_ret.
Qed.

(** C7: Whatever bytes a peer sends, a response that [decode_response] lets through has
    the expected correlation, a canonical status, and for a success a payload that
    satisfies every invariant of its method: nonzero identities, an outcome that
    agrees with the Job state, a bounded sorted result, the closed inventory. *)
Theorem decode_response_sound bs m id r :
  Forall (is_uint 8) bs -> decode_response bs m id = ROk r -> response_decoded m id r.
Proof. apply decoded_response_ok. Qed.
End ResponseSpec.
