(* ===== verification/Frame.v ===== *)
(** Length-prefixed frames on a local stream socket ([src/lib/ipc/frame.cpp]).

    A connected descriptor is the script of what the kernel answers to the
    successive [recv] and [send] calls.  [recv] hands out at most what was asked
    for and keeps the rest; both block when the script is exhausted.  The loops
    take fuel; [read_weight] and [write_weight] bound the answers a script can
    give, and the entry points use them, so that no run ends for lack of fuel. *)
From S2P Require Import Prelude OrdMap Kernel Protocol.

(** What the peer and the kernel do next on the receiving side. *)
Inductive arrival :=
| Arrive (data : bytes)
| PeerClosed
| RecvInterrupted
| RecvFailed (strerror : bytes).

(** The answer of one [recv]: the bytes copied (none at end of file), or [-1]. *)
Inductive received :=
| Received (data : bytes)
| RecvEintr
| RecvErrno (strerror : bytes).

(** [::recv(descriptor, ..., size, 0)]; [None] blocks forever. *)
Definition recv (size : Z) (s : list arrival) : option (received * list arrival) :=
  match s with
  | [] => None
  | Arrive data :: s' =>
    if zlen data <=? size then Some (Received data, s')
    else Some (Received (take (Z.to_nat size) data), Arrive (drop (Z.to_nat size) data) :: s')
  | PeerClosed :: _ => Some (Received [], s)
  | RecvInterrupted :: s' => Some (RecvEintr, s')
  | RecvFailed e :: s' => Some (RecvErrno e, s')
  end.

(** What the kernel does with the next [send]. *)
Inductive capacity :=
| Accept (count : Z)
| SendInterrupted
| SendFailed (strerror : bytes).

(** The sending side: what the kernel will do, and the bytes it has accepted. *)
Record outgoing := mk_outgoing { capacities : list capacity; sent : bytes }.

Inductive sent_result :=
| Sent (count : Z)
| SendEintr
| SendErrno (strerror : bytes).

(** [::send]: accepts a prefix of the data. *)
Definition send (data : bytes) (s : outgoing) : option (sent_result * outgoing) :=
  match capacities s with
  | [] => None
  | Accept n :: cs =>
    let count := Z.min n (zlen data) in
    Some (Sent count, mk_outgoing cs (sent s ++ take (Z.to_nat count) data))
  | SendInterrupted :: cs => Some (SendEintr, mk_outgoing cs (sent s))
  | SendFailed e :: cs => Some (SendErrno e, mk_outgoing cs (sent s))
  end.

(** A blocking call returns, or waits for a peer that does nothing more. *)
Inductive blocking (A : Type) : Type :=
| Done (a : A)
| Blocked
| OutOfFuel.
Arguments Done {A} a.
Arguments Blocked {A}.
Arguments OutOfFuel {A}.

Definition arrival_weight (a : arrival) : nat :=
  match a with Arrive data => S (length data) | _ => 1 end.
Definition read_weight (s : list arrival) : nat := sum_list (arrival_weight <$> s).
Definition write_weight (s : outgoing) : nat := length (capacities s).

Definition kRequestCorrelationPrefixBytes : Z := 11.
Definition kReadChunkBytes : Z := 16 * 1024.

(** The array and its number of initialized bytes. *)
Record FrameReadProgress := mk_progress { payload_prefix : bytes; payload_prefix_size : Z }.
Definition default_progress : FrameReadProgress := mk_progress (replicate 11 0) 0.

Section Frame.
Context `{ErrorCodes}.

(** ** Reading *)

(** The loop of [read_exact]: [dest] is the filled part of the destination, whose
    size is [offset].  Returns the status and [*clean_eof]. *)
Fixpoint read_exact (fuel : nat) (size : Z) (dest : bytes) (s : list arrival) :
    blocking (Status * bytes * bool * list arrival) :=
  if zlen dest <? size then
    match fuel with
    | O => OutOfFuel
    | S fuel' =>
      match recv (size - zlen dest) s with
      | None => Blocked
      | Some (Received [], s') =>
        if zlen dest =? 0
        then Done (failure NotFound (lit "local peer closed the connection"), dest, true, s')
        else Done (failure InvalidArgument (lit "local peer closed during a frame"), dest, false, s')
      | Some (Received data, s') => read_exact fuel' size (dest ++ data) s'
      | Some (RecvEintr, s') => read_exact fuel' size dest s'
      | Some (RecvErrno e, s') =>
        Done (failure Internal (lit "local frame read failed: " ++ e), dest, false, s')
      end
    end
  else Done (success, dest, false, s).

(** The [if (progress && ...)] block of [read_payload]. *)
Definition capture (progress : option FrameReadProgress) (chunk : bytes) :
    option FrameReadProgress :=
  match progress with
  | None => None
  | Some p =>
    if payload_prefix_size p <? kRequestCorrelationPrefixBytes then
      let captured := Z.min (zlen chunk) (kRequestCorrelationPrefixBytes - payload_prefix_size p) in
      Some (mk_progress
              (take (Z.to_nat (payload_prefix_size p)) (payload_prefix p)
               ++ take (Z.to_nat captured) chunk
               ++ drop (Z.to_nat (payload_prefix_size p + captured)) (payload_prefix p))
              (payload_prefix_size p + captured))
    else Some p
  end.

(** The loop of [read_payload]. *)
Fixpoint read_payload (fuel : nat) (size : Z) (payload : bytes)
    (progress : option FrameReadProgress) (s : list arrival) :
    blocking (Status * bytes * option FrameReadProgress * list arrival) :=
  if zlen payload <? size then
    match fuel with
    | O => OutOfFuel
    | S fuel' =>
      match recv (Z.min (size - zlen payload) kReadChunkBytes) s with
      | None => Blocked
      | Some (Received [], s') =>
        Done (failure InvalidArgument (lit "local peer closed during a frame"), payload, progress, s')
      | Some (Received data, s') =>
        read_payload fuel' size (payload ++ data) (capture progress data) s'
      | Some (RecvEintr, s') => read_payload fuel' size payload progress s'
      | Some (RecvErrno e, s') =>
        Done (failure Internal (lit "local frame read failed: " ++ e), payload, progress, s')
      end
    end
  else Done (success, payload, progress, s).

(** The four length bytes, most significant first. *)
Definition frame_size (header : bytes) : Z :=
  let at_ i := default 0 (header !! i) in
  Z.lor (Z.lor (Z.lor (Z.shiftl (at_ 0%nat) 24) (Z.shiftl (at_ 1%nat) 16))
           (Z.shiftl (at_ 2%nat) 8)) (at_ 3%nat).

Definition read_frame (descriptor : Z) (progress : option FrameReadProgress) (s : list arrival) :
    blocking (Result bytes * option FrameReadProgress * list arrival) :=
  let progress := (fun _ => default_progress) <$> progress in
  if descriptor <? 0
  then Done (RErr (failure InvalidArgument (lit "frame descriptor is invalid")), progress, s)
  else
    match read_exact (S (read_weight s)) 4 [] s with
    | Blocked => Blocked
    | OutOfFuel => OutOfFuel
    | Done (status, header, clean_eof, s1) =>
      if negb (status_ok status) then Done (RErr status, progress, s1)
      else
        let size := frame_size header in
        if (size =? 0) || (kMaximumFramePayloadBytes <? size)
        then Done (RErr (failure InvalidArgument (lit "frame payload length is outside bounds")),
                   progress, s1)
        else
          match read_payload (S (read_weight s1)) size [] progress s1 with
          | Blocked => Blocked
          | OutOfFuel => OutOfFuel
          | Done (status, payload, progress, s2) =>
            if negb (status_ok status) then Done (RErr status, progress, s2)
            else Done (ROk payload, progress, s2)
          end
    end.

(** ** Writing *)

Fixpoint write_exact (fuel : nat) (source : bytes) (offset : Z) (s : outgoing) :
    blocking (Status * outgoing) :=
  if offset <? zlen source then
    match fuel with
    | O => OutOfFuel
    | S fuel' =>
      match send (drop (Z.to_nat offset) source) s with
      | None => Blocked
      | Some (SendEintr, s') => write_exact fuel' source offset s'
      | Some (SendErrno e, s') =>
        Done (failure Internal (lit "local frame write failed: " ++ e), s')
      | Some (Sent count, s') =>
        if count =? 0 then Done (failure Internal (lit "local frame write made no progress"), s')
        else write_exact fuel' source (offset + count) s'
      end
    end
  else Done (success, s).

Definition frame_header (size : Z) : bytes :=
  [Z.land (Z.shiftr size 24) 0xff; Z.land (Z.shiftr size 16) 0xff;
   Z.land (Z.shiftr size 8) 0xff; Z.land size 0xff].

Definition write_frame (descriptor : Z) (payload : bytes) (s : outgoing) :
    blocking (Status * outgoing) :=
  if (descriptor <? 0) || bool_decide (payload = [])
     || (kMaximumFramePayloadBytes <? zlen payload) || (2 ^ 32 - 1 <? zlen payload)
  then Done (failure InvalidArgument (lit "frame descriptor or payload is invalid"), s)
  else
    let size := zlen payload mod 2 ^ 32 in
    match write_exact (S (write_weight s)) (frame_header size) 0 s with
    | Blocked => Blocked
    | OutOfFuel => OutOfFuel
    | Done (status, s1) =>
      if status_ok status then write_exact (S (write_weight s1)) payload 0 s1
      else Done (status, s1)
    end.
End Frame.
