(* ===== verification/FrameSpec.v ===== *)
(** What the frame transport of [src/lib/ipc/frame.cpp] promises, however the
    kernel splits, interrupts or ends the stream. *)
From S2P Require Import Prelude OrdMap Kernel Protocol Frame.

(** How a stream of arrivals goes on after its bytes. *)
Inductive stream_end :=
| Waiting
| Closed
| Broken (strerror : bytes).

(** The bytes that will arrive, and what follows them. *)
Fixpoint stream (s : list arrival) : bytes * stream_end :=
  match s with
  | [] => ([], Waiting)
  | Arrive data :: s' => (data ++ (stream s').1, (stream s').2)
  | PeerClosed :: _ => ([], Closed)
  | RecvInterrupted :: s' => stream s'
  | RecvFailed e :: _ => ([], Broken e)
  end.

(** [recv] never reports zero bytes on an open stream. *)
Definition arrivals_wf (s : list arrival) : Prop :=
  Forall (fun a => match a with
                   | Arrive data => data <> [] /\ Forall (is_uint 8) data
                   | _ => True
                   end) s.

(** The reference parser: what one frame is, on the bytes alone. *)
Inductive frame_outcome :=
| FrameOk (payload rest : bytes)
| FrameFailed (status : Status)
| FrameBlocked.

Section FrameSpec.
Context `{HE : ErrorCodesLaws}.

Definition stream_failure (at_start : bool) (e : stream_end) : frame_outcome :=
  match e with
  | Waiting => FrameBlocked
  | Closed => FrameFailed (if at_start
      then failure NotFound (lit "local peer closed the connection")
      else failure InvalidArgument (lit "local peer closed during a frame"))
  | Broken err => FrameFailed (failure Internal (lit "local frame read failed: " ++ err))
  end.

Definition parse_frame (avail : bytes) (e : stream_end) : frame_outcome :=
  if zlen avail <? 4 then stream_failure (bool_decide (avail = [])) e
  else
    let size := frame_size (take 4 avail) in
    if (size =? 0) || (kMaximumFramePayloadBytes <? size)
    then FrameFailed (failure InvalidArgument (lit "frame payload length is outside bounds"))
    else if zlen avail - 4 <? size then stream_failure false e
    else FrameOk (take (Z.to_nat size) (drop 4 avail)) (drop (Z.to_nat size) (drop 4 avail)).

Lemma stream_failure_not_ok b e st : stream_failure b e = FrameFailed st -> status_ok st = false.
Proof.
  unfold stream_failure. destruct e; [done| |]; try destruct b; intros [= <-]; apply Z.eqb_neq; cbn;
    codes.
Qed.

Lemma stream_bytes s : arrivals_wf s -> Forall (is_uint 8) (stream s).1.
Proof.
  induction 1 as [|[data| | |e] s Ha _ IH]; cbn; [constructor|..|constructor]; try done.
  apply Forall_app. by destruct Ha.
Qed.

(** *** [recv] consumes the stream *)

Lemma recv_spec size s :
  0 < size -> arrivals_wf s ->
  match recv size s with
  | None => stream s = ([], Waiting)
  | Some (Received [], _) => stream s = ([], Closed)
  | Some (Received data, s') =>
    zlen data <= size /\ stream s = (data ++ (stream s').1, (stream s').2) /\
    arrivals_wf s' /\ (read_weight s' < read_weight s)%nat
  | Some (RecvEintr, s') =>
    stream s = stream s' /\ arrivals_wf s' /\ (read_weight s' < read_weight s)%nat
  | Some (RecvErrno e, _) => stream s = ([], Broken e)
  end.
Proof.
  intros Hsize Hwf. destruct Hwf as [|[data| | |e] s Ha Hwf]; cbn [recv]; [done|..|done]; [|done|].
  - destruct Ha as [Hne Hby]. destruct (zlen data <=? size) eqn:Hle.
    + destruct data as [|b data]; [done|]. split_and!; [lia|done|done|].
      unfold read_weight. cbn. lia.
    + assert (Z.to_nat size < length data)%nat as Hlt by (unfold zlen in *; lia).
      destruct (take (Z.to_nat size) data) as [|b chunk] eqn:Ht.
      { apply (f_equal length) in Ht. rewrite length_take in Ht. cbn in Ht. lia. }
      rewrite <- Ht. split_and!.
      * unfold zlen. rewrite length_take. lia.
      * cbn [stream fst snd]. by rewrite app_assoc, take_drop.
      * constructor; [|done]. split; [|by apply Forall_drop]. intros Hd. apply (f_equal length) in Hd.
        rewrite length_drop in Hd. cbn in Hd. lia.
      * unfold read_weight. cbn. rewrite length_drop. lia.
  - split_and!; [done..|]. unfold read_weight. cbn. lia.
Qed.

(** *** [read_exact] *)

(** What [read_exact] must answer. *)
Definition exact_spec (size : Z) (dest : bytes) (s : list arrival)
    (r : blocking (Status * bytes * bool * list arrival)) : Prop :=
  let '(avail, e) := stream s in
  if size - zlen dest <=? zlen avail then
    exists s', r = Done (success, dest ++ take (Z.to_nat (size - zlen dest)) avail, false, s') /\
      stream s' = (drop (Z.to_nat (size - zlen dest)) avail, e) /\ arrivals_wf s'
  else
    match stream_failure (bool_decide (dest ++ avail = [])) e with
    | FrameBlocked => r = Blocked
    | FrameFailed st => exists clean_eof s', r = Done (st, dest ++ avail, clean_eof, s') /\
        (clean_eof = true <-> dest ++ avail = [] /\ e = Closed)
    | FrameOk _ _ => False
    end.

Lemma zlen_pos {A} (x : A) l : 0 < zlen (x :: l).
Proof. rewrite zlen_cons. pose proof (zlen_nonneg l). lia. Qed.

Lemma zlen_zero {A} (l : list A) : zlen l = 0 -> l = [].
Proof. destruct l as [|x l]; [done|]. pose proof (zlen_pos x l). lia. Qed.

(** Splitting what is asked for at the end of the first answer. *)
Lemma take_answer (n k : Z) (d rest : bytes) :
  zlen d = k -> k <= n ->
  take (Z.to_nat n) (d ++ rest) = d ++ take (Z.to_nat (n - k)) rest /\
  drop (Z.to_nat n) (d ++ rest) = drop (Z.to_nat (n - k)) rest.
Proof.
  intros Hd Hk. rewrite take_app_ge, drop_app_ge by (unfold zlen in *; lia).
  replace (Z.to_nat n - length d)%nat with (Z.to_nat (n - k)) by (unfold zlen in *; lia). done.
Qed.

Lemma read_exact_spec fuel size dest s :
  arrivals_wf s -> zlen dest <= size -> (read_weight s < fuel)%nat ->
  exact_spec size dest s (read_exact fuel size dest s).
Proof.
  revert dest s. induction fuel as [|fuel IH]; intros dest s Hwf Hd Hf; [lia|].
  cbn [read_exact]. destruct (zlen dest <? size) eqn:Hlt.
  2: { unfold exact_spec. destruct (stream s) as [avail e] eqn:Hs.
       pose proof (zlen_nonneg avail). replace (size - zlen dest) with 0 by lia.
       replace (0 <=? zlen avail) with true by lia. exists s. cbn. rewrite app_nil_r. done. }
  pose proof (recv_spec (size - zlen dest) s ltac:(lia) Hwf) as Hr. unfold exact_spec.
  destruct (recv _ s) as [[[[|b data]| |err] s']|].
  - rewrite Hr, zlen_nil. replace (_ <=? 0) with false by lia. rewrite app_nil_r. cbn.
    destruct (zlen dest =? 0) eqn:Hz.
    + apply Z.eqb_eq, zlen_zero in Hz as ->. cbn. eexists true, s'. done.
    + rewrite bool_decide_eq_false_2 by (intros ->; done). eexists false, s'.
      split; [done|]. split; [done|]. intros [-> _]. done.
  - destruct Hr as (Hlen & Hstream & Hwf' & Hw). set (d := b :: data) in *.
    specialize (IH (dest ++ d) s' Hwf'). rewrite zlen_app in IH.
    specialize (IH ltac:(lia) ltac:(lia)). unfold exact_spec in IH. rewrite Hstream.
    destruct (stream s') as [avail e] eqn:Hs'. cbn [fst snd]. rewrite zlen_app in *.
    destruct (take_answer (size - zlen dest) (zlen d) d avail eq_refl Hlen) as [-> ->].
    replace (size - (zlen dest + zlen d)) with (size - zlen dest - zlen d) in IH by lia.
    rewrite !(app_assoc dest d).
    destruct (Z.leb_spec (size - zlen dest - zlen d) (zlen avail)).
    + replace (_ <=? _) with true by lia. exact IH.
    + replace (_ <=? _) with false by lia. exact IH.
  - destruct Hr as (Hstream & Hwf' & Hw). specialize (IH dest s' Hwf' Hd ltac:(lia)).
    unfold exact_spec in IH. by rewrite Hstream.
  - rewrite Hr, zlen_nil. replace (_ <=? 0) with false by lia. rewrite app_nil_r. cbn.
    eexists false, s'. split; [done|]. split; [done|]. by intros [_ ?].
  - rewrite Hr, zlen_nil. replace (_ <=? 0) with false by lia. done.
Qed.

(** *** [read_payload] *)

(** The progress after [received] payload bytes. *)
Definition progress_at (received : bytes) : FrameReadProgress :=
  mk_progress (take 11 received ++ replicate (11 - length received) 0)
    (Z.min 11 (zlen received)).

Lemma capture_progress received chunk :
  capture (Some (progress_at received)) chunk = Some (progress_at (received ++ chunk)).
Proof.
  unfold capture, progress_at, kRequestCorrelationPrefixBytes. cbn [payload_prefix_size payload_prefix].
  pose proof (zlen_nonneg received). pose proof (zlen_nonneg chunk). rewrite zlen_app.
  destruct (Z.ltb_spec (Z.min 11 (zlen received)) 11).
  - assert (length received < 11)%nat as Hlt by (unfold zlen in *; lia).
    replace (Z.min 11 (zlen received)) with (zlen received) by lia. rewrite zlen_to_nat.
    rewrite (take_ge received 11), take_app_length by lia.
    rewrite take_app, (take_ge received 11), length_app by lia. f_equal. f_equal; [|lia].
    rewrite <- app_assoc. f_equal. f_equal.
    + destruct (Z.le_ge_cases (zlen chunk) (11 - zlen received)).
      * rewrite Z.min_l by lia. rewrite zlen_to_nat, !take_ge by (unfold zlen in *; lia). done.
      * rewrite Z.min_r by lia. f_equal. unfold zlen. lia.
    + rewrite drop_app_ge, drop_replicate by (unfold zlen; lia). f_equal. unfold zlen. lia.
  - assert (11 <= length received)%nat by (unfold zlen in *; lia). rewrite length_app.
    rewrite take_app_le by lia. f_equal. f_equal; [|lia]. f_equal. f_equal. lia.
Qed.

Definition progress_or_none (progress : option FrameReadProgress) (received : bytes) :=
  (fun _ => progress_at received) <$> progress.

Lemma capture_or_none progress received chunk :
  capture (progress_or_none progress received) chunk = progress_or_none progress (received ++ chunk).
Proof. destruct progress; cbn; [apply capture_progress|done]. Qed.

Definition payload_spec (size : Z) (dest : bytes) (progress : option FrameReadProgress)
    (s : list arrival) (r : blocking (Status * bytes * option FrameReadProgress * list arrival)) :
    Prop :=
  let '(avail, e) := stream s in
  if size - zlen dest <=? zlen avail then
    let p := dest ++ take (Z.to_nat (size - zlen dest)) avail in
    exists s', r = Done (success, p, progress_or_none progress p, s') /\
      stream s' = (drop (Z.to_nat (size - zlen dest)) avail, e) /\ arrivals_wf s'
  else
    match stream_failure false e with
    | FrameBlocked => r = Blocked
    | FrameFailed st => exists s',
        r = Done (st, dest ++ avail, progress_or_none progress (dest ++ avail), s')
    | FrameOk _ _ => False
    end.

Lemma read_payload_spec fuel size dest progress s :
  arrivals_wf s -> zlen dest <= size -> (read_weight s < fuel)%nat ->
  payload_spec size dest progress s
    (read_payload fuel size dest (progress_or_none progress dest) s).
Proof.
  revert dest s. induction fuel as [|fuel IH]; intros dest s Hwf Hd Hf; [lia|].
  cbn [read_payload]. destruct (zlen dest <? size) eqn:Hlt.
  2: { unfold payload_spec. destruct (stream s) as [avail e] eqn:Hs.
       pose proof (zlen_nonneg avail). replace (size - zlen dest) with 0 by lia.
       replace (0 <=? zlen avail) with true by lia. exists s. cbn. rewrite app_nil_r. done. }
  pose proof (recv_spec (Z.min (size - zlen dest) kReadChunkBytes) s
    ltac:(unfold kReadChunkBytes; lia) Hwf) as Hr. unfold payload_spec.
  destruct (recv _ s) as [[[[|b data]| |err] s']|].
  - rewrite Hr, zlen_nil. replace (_ <=? 0) with false by lia. rewrite app_nil_r. cbn. eauto.
  - destruct Hr as (Hlen & Hstream & Hwf' & Hw). set (d := b :: data) in *.
    specialize (IH (dest ++ d) s' Hwf'). rewrite zlen_app in IH.
    specialize (IH ltac:(lia) ltac:(lia)). unfold payload_spec in IH. rewrite Hstream.
    rewrite capture_or_none. destruct (stream s') as [avail e] eqn:Hs'. cbn [fst snd].
    rewrite zlen_app in *.
    destruct (take_answer (size - zlen dest) (zlen d) d avail eq_refl ltac:(lia)) as [-> ->].
    replace (size - (zlen dest + zlen d)) with (size - zlen dest - zlen d) in IH by lia.
    rewrite !(app_assoc dest d).
    destruct (Z.leb_spec (size - zlen dest - zlen d) (zlen avail)).
    + replace (_ <=? _) with true by lia. exact IH.
    + replace (_ <=? _) with false by lia. exact IH.
  - destruct Hr as (Hstream & Hwf' & Hw). specialize (IH dest s' Hwf' Hd ltac:(lia)).
    unfold payload_spec in IH. by rewrite Hstream.
  - rewrite Hr, zlen_nil. replace (_ <=? 0) with false by lia. rewrite app_nil_r. cbn. eauto.
  - rewrite Hr, zlen_nil. replace (_ <=? 0) with false by lia. done.
Qed.

(** *** [read_frame] *)

(** The answer [read_frame] owes to the bytes of its stream. *)
Definition frame_answered (descriptor : Z) (progress : option FrameReadProgress)
    (s : list arrival) : Prop :=
  let '(avail, e) := stream s in
  match parse_frame avail e with
  | FrameOk p rest => exists s',
      read_frame descriptor progress s = Done (ROk p, progress_or_none progress p, s') /\
      stream s' = (rest, e) /\ arrivals_wf s'
  | FrameFailed st => exists got s',
      read_frame descriptor progress s = Done (RErr st, progress_or_none progress got, s') /\
      got `prefix_of` drop 4 avail
  | FrameBlocked => read_frame descriptor progress s = Blocked
  end.

Lemma read_frame_spec descriptor progress s :
  arrivals_wf s -> 0 <= descriptor -> frame_answered descriptor progress s.
Proof.
  intros Hwf Hd. unfold frame_answered. pose proof (read_exact_spec (S (read_weight s)) 4 [] s Hwf) as Hx.
  rewrite zlen_nil in Hx. specialize (Hx ltac:(lia) ltac:(lia)). unfold exact_spec in Hx.
  destruct (stream s) as [avail e] eqn:Hs. unfold parse_frame, read_frame.
  replace (descriptor <? 0) with false by lia. rewrite zlen_nil in Hx. cbn [app] in Hx.
  assert ((fun _ : FrameReadProgress => default_progress) <$> progress
    = progress_or_none progress []) as -> by (by destruct progress).
  change (4 - 0) with 4 in Hx. change (Z.to_nat 4) with 4%nat in Hx.
  destruct (Z.leb_spec 4 (zlen avail)) as [Hlen|Hlen].
  2: { replace (zlen avail <? 4) with true by lia.
       destruct (stream_failure _ e) as [p r|st|] eqn:Hfail; [done| |by rewrite Hx].
       destruct Hx as (c & s' & -> & _). exists [], s'. cbn [status_ok negb].
       assert (status_ok st = false) as ->; [|split; [done|apply prefix_nil]].
       by eapply stream_failure_not_ok. }
  replace (zlen avail <? 4) with false by lia. destruct Hx as (s1 & -> & Hs1 & Hwf1).
  assert (status_ok success = true) as -> by (unfold status_ok, success; cbn; lia). cbn [negb].
  set (size := frame_size (take 4 avail)).
  destruct ((size =? 0) || (kMaximumFramePayloadBytes <? size)) eqn:Hsize.
  { exists [], s1. split; [done|apply prefix_nil]. }
  assert (0 < size) as Hpos.
  { pose proof (stream_bytes s Hwf) as Hby. rewrite Hs in Hby. cbn in Hby.
    enough (0 <= size) by lia. unfold size, frame_size.
    assert (forall i, 0 <= default 0 (take 4 avail !! i)) as H0.
    { intros i. destruct (take 4 avail !! i) as [b|] eqn:Eb; cbn; [|lia].
      apply (Forall_take _ 4%nat) in Hby. rewrite Forall_lookup in Hby. by destruct (Hby _ _ Eb). }
    rewrite !Z.lor_nonneg, !Z.shiftl_nonneg. auto. }
  pose proof (read_payload_spec (S (read_weight s1)) size [] progress s1 Hwf1) as Hx.
  rewrite zlen_nil in Hx. specialize (Hx ltac:(lia) ltac:(lia)). unfold payload_spec in Hx.
  rewrite Hs1, zlen_nil, Z.sub_0_r in Hx. cbn [app] in Hx.
  assert (zlen (drop 4 avail) = zlen avail - 4) as Hdrop
    by (unfold zlen in *; rewrite length_drop; lia).
  rewrite Hdrop in Hx.
  destruct (Z.leb_spec size (zlen avail - 4)).
  - replace (zlen avail - 4 <? size) with false by lia. destruct Hx as (s2 & -> & Hs2 & Hwf2).
    rewrite (proj2 (Z.eqb_eq _ _) eq_refl : status_ok success = true). cbn [negb]. eauto.
  - replace (zlen avail - 4 <? size) with true by lia.
    destruct (stream_failure false e) as [p r|st|] eqn:Hfail; [done| |by rewrite Hx].
    destruct Hx as (s2 & ->). rewrite (stream_failure_not_ok _ _ _ Hfail). cbn [negb].
    by exists (drop 4 avail), s2.
Qed.

(** C36: [read_frame] is the reference parser, however the stream is cut into arrivals
    and interrupted: the same payload and rest, the same typed failure, the same
    blocking; and the retained prefix is the first eleven bytes received.  It
    never runs out of fuel. *)
Theorem read_frame_parses descriptor progress s :
  arrivals_wf s -> 0 <= descriptor -> frame_answered descriptor progress s.
Proof. apply read_frame_spec. Qed.

(** *** Writing *)

(** The kernel accepts at least one byte per answered [send], or interrupts. *)
Definition accepts (c : capacity) : Prop :=
  match c with Accept n => 0 < n | SendInterrupted => True | SendFailed _ => False end.

(** Whatever the kernel answers, what was sent is a prefix of the source, and all
    of it on success. *)
Lemma write_exact_prefix fuel source offset s r s' :
  0 <= offset <= zlen source ->
  Forall (fun c => match c with Accept n => 0 <= n | _ => True end) (capacities s) ->
  write_exact fuel source offset s = Done (r, s') ->
  exists k, sent s' = sent s ++ k /\ k `prefix_of` drop (Z.to_nat offset) source /\
    (status_ok r = true -> k = drop (Z.to_nat offset) source) /\
    Forall (fun c => match c with Accept n => 0 <= n | _ => True end) (capacities s').
Proof.
  revert offset s. induction fuel as [|fuel IH]; intros offset s Ho Hc; cbn [write_exact].
  - destruct (offset <? zlen source) eqn:Hlt; [done|]. intros [= <- <-].
    exists []. rewrite app_nil_r, drop_ge by (unfold zlen in *; lia).
    split_and!; [done|done|done|done].
  - destruct (offset <? zlen source) eqn:Hlt.
    2: { intros [= <- <-]. exists []. rewrite app_nil_r, drop_ge by (unfold zlen in *; lia).
         split_and!; [done|done|done|done]. }
    unfold send. destruct s as [[|c cs] out]; [done|]. cbn [capacities sent] in *.
    inversion_clear Hc as [|? ? Hc1 Hc2]. destruct c as [n| |e].
    + set (count := Z.min n (zlen (drop (Z.to_nat offset) source))).
      assert (zlen (drop (Z.to_nat offset) source) = zlen source - offset) as Hrest
        by (unfold zlen in *; rewrite length_drop; lia).
      destruct (count =? 0) eqn:Hz.
      * intros [= <- <-]. exists []. apply Z.eqb_eq in Hz. rewrite Hz. cbn.
        split_and!; [done|apply prefix_nil| |done]. intros Hok. unfold status_ok in Hok. cbn in Hok.
        exfalso. apply Z.eqb_eq in Hok. revert Hok. codes.
      * intros Hw. apply IH in Hw as (k & Hk & Hpre & Hall & Hc'); [|lia|done].
        exists (take (Z.to_nat count) (drop (Z.to_nat offset) source) ++ k).
        cbn [sent] in Hk. rewrite Hk, app_assoc.
        assert (drop (Z.to_nat offset) source =
          take (Z.to_nat count) (drop (Z.to_nat offset) source)
          ++ drop (Z.to_nat (offset + count)) source) as Hsplit.
        { etrans; [symmetry; apply (take_drop (Z.to_nat count))|].
          rewrite drop_drop. do 2 f_equal. lia. }
        split_and!; [done| | |done].
        -- destruct Hpre as [k' Hk']. exists k'. etrans; [apply Hsplit|].
           by rewrite Hk', app_assoc.
        -- intros Hok. etrans; [|symmetry; apply Hsplit]. by rewrite (Hall Hok).
    + intros Hw. by apply IH in Hw.
    + intros [= <- <-]. exists []. split_and!; [by rewrite app_nil_r|apply prefix_nil| |done].
      intros Hok. unfold status_ok in Hok. cbn in Hok. exfalso. apply Z.eqb_eq in Hok.
      revert Hok. codes.
Qed.

(** The kernel's answers to [send] never report a negative count. *)
Definition capacities_wf (s : outgoing) : Prop :=
  Forall (fun c => match c with Accept n => 0 <= n | _ => True end) (capacities s).

(** One frame on the wire. *)
Definition frame_bytes (payload : bytes) : bytes := frame_header (zlen payload) ++ payload.

Definition frame_payload_ok (payload : bytes) : Prop :=
  payload <> [] /\ zlen payload <= kMaximumFramePayloadBytes.

(** A payload that is refused sends nothing. *)
Lemma write_frame_prefix d payload s r s' :
  capacities_wf s -> write_frame d payload s = Done (r, s') ->
  exists k, sent s' = sent s ++ k /\ k `prefix_of` frame_bytes payload /\
    (status_ok r = true -> k = frame_bytes payload) /\ capacities_wf s'.
Proof.
  intros Hc. unfold write_frame, frame_bytes, kMaximumFramePayloadBytes in *.
  destruct (_ || _) eqn:Hbad.
  { intros [= <- <-]. exists []. rewrite app_nil_r. split_and!; [done|apply prefix_nil| |done].
    intros Hok%Z.eqb_eq. exfalso. revert Hok. cbn. codes. }
  rewrite !orb_false_iff in Hbad. destruct Hbad as (((_ & _) & _) & Hmax%Z.ltb_ge).
  pose proof (zlen_nonneg payload). rewrite Z.mod_small by lia.
  set (h := frame_header (zlen payload)).
  destruct (write_exact _ h 0 s) as [[st s1]| |] eqn:Hh; [|done..].
  apply write_exact_prefix in Hh as (k1 & Hk1 & Hp1 & Hok1 & Hc1); [|by cbn|done].
  cbn [Z.to_nat drop] in *.
  destruct (status_ok st) eqn:Hst.
  - intros Hp. apply write_exact_prefix in Hp as (k2 & Hk2 & Hp2 & Hok2 & Hc2); [|lia|done].
    cbn [Z.to_nat drop] in *. exists (k1 ++ k2). rewrite (Hok1 eq_refl) in *.
    split_and!; [by rewrite Hk2, Hk1, app_assoc|by apply prefix_app| |done].
    intros Hok. by rewrite (Hok2 Hok).
  - intros [= <- <-]. exists k1. split_and!; [done| |by rewrite Hst|done].
    etrans; [exact Hp1|]. by apply prefix_app_r.
Qed.

Lemma byte_digits n :
  0 <= n < 2 ^ 32 ->
  Z.lor (Z.lor (Z.lor (Z.shiftl (Z.land (Z.shiftr n 24) 0xff) 24)
                      (Z.shiftl (Z.land (Z.shiftr n 16) 0xff) 16))
               (Z.shiftl (Z.land (Z.shiftr n 8) 0xff) 8)) (Z.land n 0xff) = n.
Proof.
  intros Hn. transitivity (n mod 2 ^ 32); [|by apply Z.mod_small].
  pose proof (low_bits_snoc n 0 ltac:(lia)) as H0. change (0 + 8) with 8 in H0.
  pose proof (low_bits_snoc n 8 ltac:(lia)) as H8. change (8 + 8) with 16 in H8.
  pose proof (low_bits_snoc n 16 ltac:(lia)) as H16. change (16 + 8) with 24 in H16.
  pose proof (low_bits_snoc n 24 ltac:(lia)) as H24. change (24 + 8) with 32 in H24.
  rewrite <- H24, <- H16, <- H8, <- H0.
  rewrite Z.pow_0_r, Z.mod_1_r, Z.shiftr_0_r, Z.shiftl_0_r, Z.lor_0_l.
  generalize (Z.land n 255) (Z.land (n ≫ 8) 255 ≪ 8) (Z.land (n ≫ 16) 255 ≪ 16)
    (Z.land (n ≫ 24) 255 ≪ 24). intros a b c d. apply Z.bits_inj'. intros i _.
  rewrite !Z.lor_spec.
  by destruct (Z.testbit a i), (Z.testbit b i), (Z.testbit c i), (Z.testbit d i).
Qed.

Lemma frame_size_header n rest : 0 <= n < 2 ^ 32 -> frame_size (take 4 (frame_header n ++ rest)) = n.
Proof. intros Hn. unfold frame_size, frame_header. cbn. by apply byte_digits. Qed.

Lemma parse_frame_bytes payload rest e :
  frame_payload_ok payload -> parse_frame (frame_bytes payload ++ rest) e = FrameOk payload rest.
Proof.
  intros [Hne Hmax]. unfold kMaximumFramePayloadBytes in Hmax. unfold parse_frame, frame_bytes.
  assert (0 < zlen payload) as Hlen by (destruct payload; [done|apply zlen_pos]).
  rewrite <- app_assoc.
  replace (zlen (frame_header (zlen payload) ++ payload ++ rest)) with
    (4 + zlen payload + zlen rest)
    by (rewrite !zlen_app; change (zlen (frame_header (zlen payload))) with 4; lia).
  rewrite frame_size_header by lia. pose proof (zlen_nonneg rest).
  replace (_ <? 4) with false by lia.
  replace (_ || _) with false by (unfold kMaximumFramePayloadBytes; lia).
  replace (_ <? zlen payload) with false by lia.
  change (drop 4 (frame_header (zlen payload) ++ payload ++ rest)) with (payload ++ rest).
  by rewrite zlen_to_nat, take_app_length, drop_app_length.
Qed.

(** A whole frame on the stream is read back. *)
Lemma frame_read_back d payload progress s rest e :
  frame_payload_ok payload -> 0 <= d -> arrivals_wf s ->
  stream s = (frame_bytes payload ++ rest, e) ->
  exists s', read_frame d progress s = Done (ROk payload, progress_or_none progress payload, s') /\
    stream s' = (rest, e) /\ arrivals_wf s'.
Proof.
  intros Hp Hd Hwf Hs. pose proof (read_frame_spec d progress s Hwf Hd) as Hr.
  unfold frame_answered in Hr. by rewrite Hs, parse_frame_bytes in Hr.
Qed.

(** *** A kernel that accepts everything *)

Definition is_accept (c : capacity) : bool := match c with Accept _ => true | _ => false end.

(** It interrupts or accepts, and accepts [n] times at least. *)
Definition roomy (n : Z) (s : outgoing) : Prop :=
  Forall accepts (capacities s) /\
  n <= zlen (filter (fun c => is_accept c = true) (capacities s)).

Lemma write_exact_total fuel source offset s n :
  (write_weight s < fuel)%nat -> 0 <= offset <= zlen source -> 0 <= n ->
  roomy (zlen source - offset + n) s ->
  exists s', write_exact fuel source offset s = Done (success, s') /\ roomy n s'.
Proof.
  revert offset s. induction fuel as [|fuel IH]; intros offset [cs out] Hf Ho Hn [Ha Hr]; [lia|].
  cbn [write_exact]. unfold write_weight in *. cbn [capacities] in *.
  destruct (Z.ltb_spec offset (zlen source)).
  2: { eexists. split; [done|]. split; [done|]. cbn. lia. }
  unfold send. cbn [capacities sent]. destruct cs as [|c cs]; [cbn in Hr; change (zlen []) with 0 in Hr; lia|].
  apply Forall_cons in Ha as [Hc Ha]. cbn [length] in Hf. destruct c as [k| |err]; [| |done].
  - cbn in Hc. rewrite filter_cons_True in Hr by done. rewrite zlen_cons in Hr.
    assert (zlen (drop (Z.to_nat offset) source) = zlen source - offset) as Hd
      by (unfold zlen in *; rewrite length_drop; lia).
    rewrite Hd. replace (_ =? 0) with false by lia. apply IH; cbn [capacities]; try lia.
    split; [done|]. cbn [capacities]. lia.
  - rewrite filter_cons_False in Hr by auto. apply IH; cbn [capacities]; try lia. by split.
Qed.

Lemma write_frame_total d payload s n :
  frame_payload_ok payload -> 0 <= d -> 0 <= n -> roomy (4 + zlen payload + n) s ->
  exists s', write_frame d payload s = Done (success, s') /\ roomy n s'.
Proof.
  intros [Hne Hmax] Hd Hn Hr. unfold write_frame, kMaximumFramePayloadBytes in *.
  pose proof (zlen_nonneg payload).
  replace (_ || _) with false.
  2: { symmetry. rewrite !orb_false_iff, bool_decide_eq_false. split_and!; (done || lia). }
  rewrite Z.mod_small by lia.
  destruct (write_exact_total (S (write_weight s)) (frame_header (zlen payload)) 0 s
    (zlen payload + n)) as (s1 & -> & H1); [lia|by cbn|lia| |].
  { change (zlen (frame_header (zlen payload))) with 4.
    by replace (4 - 0 + (zlen payload + n)) with (4 + zlen payload + n) by lia. }
  rewrite (proj2 (Z.eqb_eq _ _) eq_refl : status_ok success = true).
  apply write_exact_total; [lia|lia|lia|]. by rewrite Z.sub_0_r.
Qed.

Lemma write_exact_fuel fuel source offset s :
  (write_weight s < fuel)%nat -> write_exact fuel source offset s <> OutOfFuel.
Proof.
  revert offset s. induction fuel as [|fuel IH]; intros offset [cs out] Hf; [lia|].
  cbn [write_exact]. unfold write_weight in *. cbn [capacities] in *. destruct (_ <? _); [|done].
  unfold send. cbn [capacities sent]. destruct cs as [|[k| |err] cs]; cbn [length] in Hf; try done.
  - destruct (_ =? 0); [done|]. apply IH. cbn. lia.
  - apply IH. cbn. lia.
Qed.

Lemma write_frame_fuel d payload s : write_frame d payload s <> OutOfFuel.
Proof.
  unfold write_frame. destruct (_ || _); [done|].
  pose proof (write_exact_fuel (S (write_weight s)) (frame_header (zlen payload mod 2 ^ 32)) 0 s
    ltac:(lia)). destruct (write_exact _ _ _ _) as [[st s1]| |]; [|done|done].
  destruct (status_ok st); [|done]. apply write_exact_fuel. lia.
Qed.

Lemma read_frame_fuel d progress s :
  arrivals_wf s -> 0 <= d -> read_frame d progress s <> OutOfFuel.
Proof.
  intros Hwf Hd. pose proof (read_frame_spec d progress s Hwf Hd) as Hr. unfold frame_answered in Hr.
  destruct (stream s) as [avail e]. destruct (parse_frame avail e) as [p rest|st|].
  - destruct Hr as (s' & -> & _). done.
  - destruct Hr as (got & s' & -> & _). done.
  - by rewrite Hr.
Qed.

(** A frame written with success is read back whole, under every chunking of the
    two directions, and leaves the following bytes on the stream; a failed write
    leaves only a prefix of that frame, which [read_frame] reports as a failure or
    waits to complete, never as a payload. *)
Theorem frame_roundtrip d d' payload out st out' progress s rest e :
  capacities_wf out -> frame_payload_ok payload -> 0 <= d -> 0 <= d' ->
  sent out = [] -> write_frame d payload out = Done (st, out') ->
  arrivals_wf s ->
  (status_ok st = true -> stream s = (sent out' ++ rest, e) ->
   exists s', read_frame d' progress s = Done (ROk payload, progress_or_none progress payload, s') /\
     stream s' = (rest, e)) /\
  (sent out' <> frame_bytes payload -> stream s = (sent out', e) ->
   forall p progress' s', read_frame d' progress s <> Done (ROk p, progress', s')).
Proof.
  intros Hc Hp Hd Hd' H0 Hw Hwf. pose proof Hp as [Hne Hmax].
  apply write_frame_prefix in Hw as (k & Hk & Hpre & Hok & _); [|done]. rewrite H0 in Hk.
  cbn [app] in Hk. pose proof (read_frame_spec d' progress s Hwf Hd') as Hr. unfold frame_answered in Hr.
  unfold kMaximumFramePayloadBytes in *.
  assert (0 < zlen payload) as Hlen by (destruct payload; [done|apply zlen_pos]).
  split.
  - intros Hst Hs. rewrite Hk, (Hok Hst) in Hs.
    destruct (frame_read_back d' payload progress s rest e Hp Hd' Hwf Hs) as (s' & ? & ? & _). eauto.
  - intros Hshort Hs p progress' s' Hread. rewrite Hs, Hk in Hr. destruct Hpre as [more Hmore].
    assert (0 < zlen more) as Hm.
    { destruct more; [|apply zlen_pos]. rewrite app_nil_r in Hmore. congruence. }
    assert (zlen k + zlen more = 4 + zlen payload) as Hsum.
    { rewrite <- zlen_app, <- Hmore. unfold frame_bytes. by rewrite zlen_app. }
    unfold parse_frame in Hr. destruct (Z.ltb_spec (zlen k) 4).
    { destruct (stream_failure _ e) eqn:Hf.
      - by destruct e.
      - destruct Hr as (? & ? & Hr & _). congruence.
      - congruence. }
    assert (take 4 k = take 4 (frame_header (zlen payload) ++ payload)) as Ht.
    { fold (frame_bytes payload). rewrite Hmore, take_app_le; [done|unfold zlen in *; lia]. }
    rewrite Ht, frame_size_header in Hr by lia.
    destruct (_ || _); [destruct Hr as (? & ? & Hr & _); congruence|].
    replace (_ <? zlen payload) with true in Hr by lia.
    destruct (stream_failure false e) eqn:Hf; [by destruct e| |congruence].
    destruct Hr as (? & ? & Hr & _). congruence.
Qed.
End FrameSpec.
