(* ===== verification/Jobs.v ===== *)
(** The bounded Job registry ([class JobRegistry] of
    [src/lib/orchestration/service.cpp]): its records, its critical sections and
    the program of its workers.

    A [JobRecord] lives in the registry's [heap] at a reference that [jobs], [queue],
    workers and callers share, as they share a [std::shared_ptr].  A function
    below is one critical section (or one unlocked step) of the source; [fails]
    says that its allocation of a diagnostic or of a container throws
    [std::bad_alloc], and then the effects that precede the allocation stay.
    Compilation and execution answer anything ([kernel_answer]). *)
From S2P Require Import Prelude OrdMap Kernel Protocol.

(** [ServiceConfig]. *)
Record ServiceConfig := mk_ServiceConfig {
  cfg_maximum_concurrency : Z;
  cfg_maximum_jobs : Z;
  cfg_maximum_sessions : Z;
  cfg_gpu_enabled : bool;
}.

(** [terminal]. *)
Definition terminal (state : JobState.t) : bool :=
  match state with
  | JobState.Succeeded | JobState.Failed | JobState.Cancelled => true
  | _ => false
  end.

(** A call that returns a value or leaves with an exception. *)
Definition call_result (A : Type) : Type := A + exn.

(** Where [submit] runs out of memory: creating the record, publishing it in the
    map, or publishing it in the queue (the map insertion is then rolled back). *)
Inductive submit_failure := AtRecord | AtMap | AtQueue.
#[export] Instance submit_failure_eq_dec : EqDecision submit_failure.
Proof. solve_decision. Defined.

Section Jobs.
Context `{RT : Runtime}.

(** A shared pointer. *)
Abbreviation ref := nat (only parsing).

Record JobRecord := mk_JobRecord {
  jr_id : JobId;
  jr_session_id : SessionId;
  jr_graph : GraphContext;
  jr_options : JobSubmitOptions;
  jr_state : JobState.t;
  jr_outcome : Status;
  jr_cancellation : CancellationSource;
  jr_result : option ExecutionResult;
}.

Record JobRegistry := mk_JobRegistry {
  heap : list JobRecord;
  jobs : list (Z * ref);
  queue : list ref;
  next_id : Z;
  stopping : bool;
}.

Definition empty_registry : JobRegistry := mk_JobRegistry [] [] [] 1 false.

(** *** Writing the members of a record *)

Definition set_state (s : JobState.t) (r : JobRecord) : JobRecord :=
  mk_JobRecord (jr_id r) (jr_session_id r) (jr_graph r) (jr_options r) s (jr_outcome r)
    (jr_cancellation r) (jr_result r).
Definition set_outcome (o : Status) (r : JobRecord) : JobRecord :=
  mk_JobRecord (jr_id r) (jr_session_id r) (jr_graph r) (jr_options r) (jr_state r) o
    (jr_cancellation r) (jr_result r).
Definition set_result (x : option ExecutionResult) (r : JobRecord) : JobRecord :=
  mk_JobRecord (jr_id r) (jr_session_id r) (jr_graph r) (jr_options r) (jr_state r)
    (jr_outcome r) (jr_cancellation r) x.
Definition cancel_record (r : JobRecord) : JobRecord :=
  mk_JobRecord (jr_id r) (jr_session_id r) (jr_graph r) (jr_options r) (jr_state r)
    (jr_outcome r) (cancel_source (jr_cancellation r)) (jr_result r).

Definition is_cancelled (r : JobRecord) : bool := token_cancelled (jr_cancellation r).

(** Updates the record a reference points to. *)
Definition update (r : ref) (f : JobRecord -> JobRecord) (reg : JobRegistry) : JobRegistry :=
  mk_JobRegistry (alter f r (heap reg)) (jobs reg) (queue reg) (next_id reg) (stopping reg).

Definition set_jobs (j : list (Z * ref)) (reg : JobRegistry) : JobRegistry :=
  mk_JobRegistry (heap reg) j (queue reg) (next_id reg) (stopping reg).
Definition set_queue (q : list ref) (reg : JobRegistry) : JobRegistry :=
  mk_JobRegistry (heap reg) (jobs reg) q (next_id reg) (stopping reg).

(** ** Operations *)

Section Operations.
Context (maximum_jobs instance_id : Z).

(** [JobRegistry::submit]. *)
Definition submit (session_id : SessionId) (graph : GraphContext) (options : JobSubmitOptions)
    (fails : option submit_failure) (reg : JobRegistry) :
    JobRegistry * call_result (Result JobId) :=
  if stopping reg then
    (reg, inl (RErr (failure Cancelled (lit "daemon orchestration is stopping"))))
  else if maximum_jobs <=? zlen (jobs reg) then
    (reg, inl (RErr (failure ResourceExhausted
                       (lit "global retained execution bound is exhausted"))))
  else if next_id reg =? 0 then
    (reg, inl (RErr (failure ResourceExhausted (lit "ephemeral execution id exhausted"))))
  else if bool_decide (fails = Some AtRecord) then (reg, inr BadAlloc)
  else
    let id := mk_JobId instance_id (next_id reg) in
    let record := mk_JobRecord id session_id graph options JobState.Queued success
                    fresh_source None in
    let r := length (heap reg) in
    (* the id is consumed; the record dies with its last owner if it is not published *)
    let reg1 := mk_JobRegistry (heap reg) (jobs reg) (queue reg)
                  ((next_id reg + 1) mod 2 ^ 64) (stopping reg) in
    if bool_decide (fails = Some AtMap) then (reg1, inr BadAlloc)
    else
      match emplace (job_value id) r (jobs reg) with
      | None =>
        (reg1, inl (RErr (failure Internal (lit "ephemeral execution id was duplicated"))))
      | Some jobs' =>
        if bool_decide (fails = Some AtQueue)
        then (set_jobs (map_erase (job_value id) jobs') reg1, inr BadAlloc)
        else (mk_JobRegistry (heap reg ++ [record]) jobs' (queue reg ++ [r])
                ((next_id reg + 1) mod 2 ^ 64) (stopping reg), inl (ROk id))
      end.

(** [JobRegistry::find]. *)
Definition find (id : JobId) (reg : JobRegistry) : option ref :=
  if negb (job_instance id =? instance_id) || (job_value id =? 0) then None
  else map_find (job_value id) (jobs reg).

Definition job_not_found : Status :=
  failure NotFound (lit "ephemeral execution does not exist").

(** The locked part of [status]. *)
Definition status_snapshot (record : JobRecord) : JobStatus :=
  mk_JobStatus (jr_id record) (jr_session_id record) (jr_state record) (jr_outcome record).

(** The locked part of [cancel]. *)
Definition cancel_section (r : ref) (reg : JobRegistry) : JobRegistry :=
  update r (fun record => if terminal (jr_state record) then record else cancel_record record) reg.

(** The locked part of [result]. *)
Definition result_snapshot (record : JobRecord) : Result ExecutionResult :=
  match jr_state record, jr_result record with
  | JobState.Succeeded, Some value => ROk value
  | JobState.Failed, _ | JobState.Cancelled, _ =>
    RErr (if status_ok (jr_outcome record)
          then failure Internal (lit "terminal execution lacks failure")
          else jr_outcome record)
  | _, _ => RErr (failure InvalidArgument (lit "execution result is not ready"))
  end.

(** [JobRegistry::release]: both locks are held from the lookup to the erase. *)
Definition release (id : JobId) (reg : JobRegistry) : JobRegistry * Status :=
  match map_find (job_value id) (jobs reg) with
  | Some r =>
    if negb (job_instance id =? instance_id) || (job_value id =? 0) then (reg, job_not_found)
    else
      match heap reg !! r with
      | Some record =>
        if terminal (jr_state record)
        then (set_jobs (map_erase (job_value id) (jobs reg)) reg, success)
        else (reg, failure InvalidArgument (lit "running execution cannot be released"))
      | None => (reg, job_not_found)
      end
  | None => (reg, job_not_found)
  end.

(** Whether a record belongs to the namespace. *)
Definition in_session (session_id : SessionId) (reg : JobRegistry) (r : ref) : bool :=
  match heap reg !! r with
  | Some record => bool_decide (jr_session_id record = session_id)
  | None => false
  end.

(** The first loop over the map of [close_session]. *)
Definition erase_queued (g : JobRegistry) (queued : list nat) (js : list (Z * nat)) :
    list (Z * nat) :=
  fold_left
    (fun js r =>
       match heap g !! r with
       | Some record =>
         let key := job_value (jr_id record) in
         if bool_decide (map_find key js = Some r) then map_erase key js else js
       | None => js
       end) queued js.

(** The registry section of [close_session]: the records it takes from the queue, and
    those it takes from the map because a worker has popped them.  The snapshot
    vectors are reserved first. *)
Definition close_detach (session_id : SessionId) (fails : bool) (reg : JobRegistry) :
    JobRegistry * call_result (list ref * list ref) :=
  if fails then (reg, inr BadAlloc)
  else
    let queued := filter (fun r => in_session session_id reg r = true) (queue reg) in
    let queue' := filter (fun r => in_session session_id reg r = false) (queue reg) in
    let jobs1 := erase_queued reg queued (jobs reg) in
    let running := (filter (fun p => in_session session_id reg p.2 = true) jobs1).*2 in
    let jobs2 := filter (fun p => in_session session_id reg p.2 = false) jobs1 in
    (set_queue queue' (set_jobs jobs2 reg), inl (queued, running)).

(** [settle_close_records]: the three loops' bodies. *)
Definition settle_queued (r : ref) (reg : JobRegistry) : JobRegistry :=
  update r (fun record =>
    set_state JobState.Cancelled
      (set_outcome (mk_Status Cancelled [])
        (set_state JobState.Running (set_result None (cancel_record record))))) reg.

Definition settle_running (r : ref) (reg : JobRegistry) : JobRegistry :=
  update r (fun record => if terminal (jr_state record) then record else cancel_record record) reg.

Definition settled (r : ref) (reg : JobRegistry) : bool :=
  match heap reg !! r with Some record => terminal (jr_state record) | None => true end.

(** The first section of [stop]. *)
Definition stop_section (reg : JobRegistry) : JobRegistry :=
  if stopping reg then reg
  else
    let heap' := fold_left (fun h r => alter cancel_record r h) (jobs reg).*2 (heap reg) in
    mk_JobRegistry heap' (jobs reg) (queue reg) (next_id reg) true.

(** The last section of [stop], after the workers are joined. *)
Definition stop_clear (reg : JobRegistry) : JobRegistry := set_queue [] (set_jobs [] reg).

(** [size]. *)
Definition size (reg : JobRegistry) : Z := zlen (jobs reg).
End Operations.

(** ** The worker's program *)

(** [worker_loop] and [execute], one constructor per point between two atomic
    steps.  The finishing points carry the arguments of the pending call. *)
Inductive worker_pc :=
| WIdle                                                     (* waiting on [ready_] *)
| WPopped (r : ref)                                         (* [execute(record)] *)
| WStarted (r : ref)                                        (* Running published *)
| WCompile (r : ref) (graph : GraphContext) (mode : ExecutionMode)
| WCompiled (r : ref) (plan : ExecutionPlan)
| WExecute (r : ref) (plan : ExecutionPlan) (parallelism : Z)
| WExecuted (r : ref) (answer : Result ExecutionResult)
| WPublish (r : ref) (result : ExecutionResult)
| WFinishFailure (r : ref) (status : Status)                (* [finish_failure] *)
| WFinishCancelled (r : ref) (reason : bytes)               (* [finish_cancelled] *)
| WFinishSafely (r : ref) (c : Z) (reason : option bytes)   (* [finish_failure_safely] *)
| WFinishBare (r : ref) (c : Z)                             (* its inner fence *)
| WExited.

(** What the environment decides at a step: nothing, the failure of the step's first
    or of a later allocation, or the answer of the kernel call in progress. *)
Inductive worker_input :=
| Go
| AllocFails
| AllocFailsLate
| Compiles (answer : kernel_answer ExecutionPlan)
| Executes (answer : kernel_answer ExecutionResult).

(** The three catch clauses of [execute]. *)
Definition caught (r : ref) (e : exn) : worker_pc :=
  match e with
  | BadAlloc =>
    WFinishSafely r ResourceExhausted (Some (lit "execution orchestration allocation failed"))
  | StdException what => WFinishSafely r Internal what
  | NonStandard =>
    WFinishSafely r Internal (Some (lit "execution orchestration raised an exception"))
  end.

(** The section of [finish_failure]; [None] when the diagnostic cannot be allocated,
    after the state was written. *)
Definition finish_failure (status : Status) (fails : bool) (record : JobRecord) :
    JobRecord * bool :=
  if is_cancelled record then
    if fails then (set_state JobState.Cancelled record, false)
    else (set_result None
            (set_outcome (failure Cancelled (lit "execution cancellation was requested"))
               (set_state JobState.Cancelled record)), true)
  else (set_result None (set_outcome status (set_state JobState.Failed record)), true).

(** The section of [finish_cancelled]. *)
Definition finish_cancelled (reason : bytes) (fails : bool) (record : JobRecord) :
    JobRecord * bool :=
  if fails then (set_state JobState.Cancelled record, false)
  else (set_result None
          (set_outcome
             (failure Cancelled (match reason with [] => lit "execution was cancelled" | _ => reason end))
             (set_state JobState.Cancelled record)), true).

(** The last section of [execute]. *)
Definition publish (result : ExecutionResult) (fails : bool) (record : JobRecord) :
    JobRecord * bool :=
  if is_cancelled record then
    if fails then (set_state JobState.Cancelled record, false)
    else (set_result None
            (set_outcome
               (failure Cancelled (lit "cancelled execution result publication was rejected"))
               (set_state JobState.Cancelled record)), true)
  else (set_state JobState.Succeeded (set_outcome success (set_result (Some result) record)), true).

(** The inner fence of [finish_failure_safely]; it allocates nothing. *)
Definition finish_bare (c : Z) (record : JobRecord) : JobRecord :=
  let dead := is_cancelled record in
  set_result None
    (set_outcome (mk_Status (if dead then Cancelled else c) [])
       (set_state (if dead then JobState.Cancelled else JobState.Failed) record)).

(** The first section of [execute]. *)
Definition start (fails : bool) (record : JobRecord) : JobRecord * option bool :=
  if bool_decide (jr_state record <> JobState.Queued) then
    if fails then (set_state JobState.Failed record, None)
    else (set_outcome (failure Internal (lit "execution left queued state unexpectedly"))
            (set_state JobState.Failed record), Some false)
  else (set_state JobState.Running record, Some true).

Definition input_fails (i : worker_input) : bool :=
  match i with AllocFails => true | _ => false end.

Definition input_fails_late (i : worker_input) : bool :=
  match i with AllocFailsLate => true | _ => false end.

(** Replaces the record a section computed and goes on. *)
Definition after_section (reg : JobRegistry) (r : ref) (res : JobRecord * bool)
    (next failed : worker_pc) : option (JobRegistry * worker_pc) :=
  Some (update r (fun _ => res.1) reg, if res.2 then next else failed).

(** One step of a worker; [None] when it waits or when the input is not for it. *)
Definition worker_step (gpu_enabled : bool) (i : worker_input) (reg : JobRegistry)
    (pc : worker_pc) : option (JobRegistry * worker_pc) :=
  let oom r := caught r BadAlloc in
  match pc with
  | WIdle =>
    if stopping reg then Some (reg, WExited)
    else match queue reg with
         | [] => None
         | r :: q => Some (set_queue q reg, WPopped r)
         end
  | WPopped r =>
    record ← heap reg !! r;
    let '(record', run) := start (input_fails i) record in
    Some (update r (fun _ => record') reg,
          match run with
          | Some true => WStarted r
          | Some false => WIdle
          | None => oom r
          end)
  | WStarted r =>
    record ← heap reg !! r;
    if is_cancelled record then
      Some (reg, if input_fails i then oom r
                 else WFinishCancelled r (lit "execution cancelled before compilation"))
    else
      let allow_gpu := gpu_enabled && allow_gpu (jr_options record) in
      Some (reg, WCompile r (jr_graph record) (if allow_gpu then MetalFp32 else CpuExact))
  | WCompile r _ _ =>
    match i with
    | Compiles (Answered (ROk plan)) => Some (reg, WCompiled r plan)
    | Compiles (Answered (RErr status)) => Some (reg, WFinishFailure r status)
    | Compiles (Raised e) => Some (reg, caught r e)
    | _ => None
    end
  | WCompiled r plan =>
    record ← heap reg !! r;
    if is_cancelled record then
      Some (reg, if input_fails i then oom r
                 else WFinishCancelled r (lit "execution cancelled during compilation"))
    else Some (reg, WExecute r plan (maximum_parallelism (jr_options record)))
  | WExecute r _ _ =>
    match i with
    | Executes (Answered answer) => Some (reg, WExecuted r answer)
    | Executes (Raised e) => Some (reg, caught r e)
    | _ => None
    end
  | WExecuted r (ROk value) => Some (reg, WPublish r value)
  | WExecuted r (RErr status) =>
    record ← heap reg !! r;
    Some (reg, if (code status =? Cancelled) || is_cancelled record
               then WFinishCancelled r (message status)
               else WFinishFailure r status)
  | WPublish r value =>
    record ← heap reg !! r;
    after_section reg r (publish value (input_fails i) record) WIdle (oom r)
  | WFinishFailure r status =>
    record ← heap reg !! r;
    if input_fails i then Some (reg, oom r)
    else after_section reg r (finish_failure status (input_fails_late i) record) WIdle (oom r)
  | WFinishCancelled r reason =>
    record ← heap reg !! r;
    after_section reg r (finish_cancelled reason (input_fails i) record) WIdle (oom r)
  | WFinishSafely r c reason =>
    record ← heap reg !! r;
    if input_fails i then Some (reg, WFinishBare r c)
    else after_section reg r
           (finish_failure (failure c (default [] reason)) (input_fails_late i) record) WIdle
           (WFinishBare r c)
  | WFinishBare r c =>
    record ← heap reg !! r;
    after_section reg r (finish_bare c record, true) WIdle WIdle
  | WExited => None
  end.
End Jobs.

Arguments call_result A : clear implicits.
