(* ===== verification/JobSystem.v ===== *)
(** The Job registry under concurrency: the registry of [Jobs], its workers and its
    callers interleave their critical sections in any order. *)
From S2P Require Import Prelude OrdMap Kernel Protocol Jobs.

Section JobSystem.
Context `{RT : Runtime}.
Context (maximum_jobs instance_id : Z) (gpu_enabled : bool).

(** The registry, the program point of every worker, and the records that a closing
    namespace has taken from the queue and not yet settled. *)
Record JobSystem := mk_JobSystem {
  reg : JobRegistry;
  workers : list worker_pc;
  detached : list nat;
}.

(** One atomic step of a worker or of a caller. *)
Inductive event :=
| EWorker (w : nat) (i : worker_input)
| ESubmit (session_id : SessionId) (graph : GraphContext) (options : JobSubmitOptions)
    (fails : option submit_failure)
| ECancel (r : nat)            (* [cancel] or [settle_close_records] on a popped record *)
| ERelease (id : JobId)
| EDetach (session_id : SessionId) (fails : bool)
| ESettle (r : nat)            (* [settle_close_records] on a queued record *)
| EStop.

Definition with_reg (g : JobRegistry) (s : JobSystem) : JobSystem :=
  mk_JobSystem g (workers s) (detached s).

(** The step function; [None] when the step cannot be taken. *)
Definition job_step (e : event) (s : JobSystem) : option JobSystem :=
  match e with
  | EWorker w i =>
    pc ← workers s !! w;
    '(g, pc') ← worker_step gpu_enabled i (reg s) pc;
    Some (mk_JobSystem g (<[w:=pc']> (workers s)) (detached s))
  | ESubmit sid graph options fails =>
    Some (with_reg (submit maximum_jobs instance_id sid graph options fails (reg s)).1 s)
  | ECancel r => Some (with_reg (cancel_section r (reg s)) s)
  | ERelease id => Some (with_reg (release instance_id id (reg s)).1 s)
  | EDetach sid fails =>
    match close_detach sid fails (reg s) with
    | (g, inl (queued, _)) => Some (mk_JobSystem g (workers s) (detached s ++ queued))
    | (g, inr _) => Some (with_reg g s)
    end
  | ESettle r =>
    if bool_decide (r ∈ detached s)
    then Some (mk_JobSystem (settle_queued r (reg s)) (workers s)
                 (filter (fun r' => r' <> r) (detached s)))
    else None
  | EStop => Some (with_reg (stop_section (reg s)) s)
  end.

(** The service starts with an empty registry and idle workers. *)
Definition initial (concurrency : nat) : JobSystem :=
  mk_JobSystem empty_registry (replicate concurrency WIdle) [].

(** Reachability by any sequence of events. *)
Inductive reachable (concurrency : nat) : JobSystem -> Prop :=
| reach_initial : reachable concurrency (initial concurrency)
| reach_step s e s' :
    reachable concurrency s -> job_step e s = Some s' -> reachable concurrency s'.

(** Runs a schedule. *)
Fixpoint run (es : list event) (s : JobSystem) : option JobSystem :=
  match es with
  | [] => Some s
  | e :: es' => s' ← job_step e s; run es' s'
  end.

(** ** The invariant *)

(** The record a worker works on. *)
Definition holds (pc : worker_pc) : option nat :=
  match pc with
  | WIdle | WExited => None
  | WPopped r | WStarted r | WCompile r _ _ | WCompiled r _ | WExecute r _ _ | WExecuted r _
  | WPublish r _ | WFinishFailure r _ | WFinishCancelled r _ | WFinishSafely r _ _
  | WFinishBare r _ => Some r
  end.

(** A record as [submit] made it, apart from a cancellation request; and the same
    record while a worker runs it. *)
Definition pending_in (state : JobState.t) (record : JobRecord) : Prop :=
  jr_state record = state /\ jr_outcome record = success /\ jr_result record = None.

(** What a worker at [pc] knows of its record.  After a failed allocation the record
    may already be marked Cancelled. *)
Definition held_ok (pc : worker_pc) (record : JobRecord) : Prop :=
  match pc with
  | WPopped _ => pending_in JobState.Queued record
  | WFinishSafely _ _ _ | WFinishBare _ _ =>
    pending_in JobState.Running record \/ pending_in JobState.Cancelled record
  | _ => pending_in JobState.Running record
  end.

(** A worker holds the record. *)
Definition held (s : JobSystem) (r : nat) : Prop :=
  exists w pc, workers s !! w = Some pc /\ holds pc = Some r.

Record job_inv (s : JobSystem) : Prop := {
  ji_sorted : sorted_map (jobs (reg s));
  ji_jobs k r : (k, r) ∈ jobs (reg s) ->
    exists record, heap (reg s) !! r = Some record /\ jr_id record = mk_JobId instance_id k;
  ji_ids r record : heap (reg s) !! r = Some record ->
    exists v, jr_id record = mk_JobId instance_id v /\ 0 < v < 2 ^ 64 /\
      (next_id (reg s) = 0 \/ v < next_id (reg s));
  ji_order r1 r2 record1 record2 :
    heap (reg s) !! r1 = Some record1 -> heap (reg s) !! r2 = Some record2 -> (r1 < r2)%nat ->
    job_value (jr_id record1) < job_value (jr_id record2);
  ji_next : 0 <= next_id (reg s) < 2 ^ 64;
  ji_bound : zlen (jobs (reg s)) <= Z.max 0 maximum_jobs;
  ji_fifo : StronglySorted lt (queue (reg s));
  ji_queue r : r ∈ queue (reg s) ->
    exists record, heap (reg s) !! r = Some record /\ pending_in JobState.Queued record /\
      (job_value (jr_id record), r) ∈ jobs (reg s);
  ji_detached r : r ∈ detached s ->
    exists record, heap (reg s) !! r = Some record /\ pending_in JobState.Queued record;
  ji_held w pc r : workers s !! w = Some pc -> holds pc = Some r ->
    exists record, heap (reg s) !! r = Some record /\ held_ok pc record;
  ji_one_worker w1 w2 pc1 pc2 r :
    workers s !! w1 = Some pc1 -> workers s !! w2 = Some pc2 ->
    holds pc1 = Some r -> holds pc2 = Some r -> w1 = w2;
  ji_queue_apart r : r ∈ queue (reg s) -> (r ∉ detached s) /\ ~ held s r;
  ji_detached_apart r : r ∈ detached s -> ~ held s r;
  ji_complete r record : heap (reg s) !! r = Some record ->
    terminal (jr_state record) = true \/ r ∈ queue (reg s) \/ r ∈ detached s \/ held s r;
}.
End JobSystem.

(** ** Generic facts about the registry *)

Section RegistryFacts.
Context `{RT : Runtime}.

(** Two records that differ in their cancellation flag only. *)
Definition same_core (x y : JobRecord) : Prop :=
  jr_id x = jr_id y /\ jr_session_id x = jr_session_id y /\ jr_graph x = jr_graph y /\
  jr_options x = jr_options y /\ jr_state x = jr_state y /\ jr_outcome x = jr_outcome y /\
  jr_result x = jr_result y.

(** The members no operation writes. *)
Definition same_identity (x y : JobRecord) : Prop :=
  jr_id x = jr_id y /\ jr_session_id x = jr_session_id y /\ jr_graph x = jr_graph y /\
  jr_options x = jr_options y.

#[export] Instance same_core_equivalence : Equivalence same_core.
Proof. split; red; unfold same_core; intuition congruence. Qed.

Lemma same_core_cancel x : same_core x (cancel_record x).
Proof. done. Qed.

Lemma forall2_alter (R : JobRecord -> JobRecord -> Prop) f r h :
  (forall x, R x x) -> (forall x, h !! r = Some x -> R x (f x)) -> Forall2 R h (alter f r h).
Proof.
  intros Hr Hf. revert r Hf. induction h as [|x h IH]; intros [|r] Hf; cbn; [constructor..| |].
  - constructor; [by apply Hf|]. apply Forall2_same_length_lookup_2; [done|].
    intros i a b Ha Hb. by simplify_eq.
  - constructor; [done|]. by apply IH.
Qed.

Lemma update_heap r f g : heap (update r f g) = alter f r (heap g).
Proof. done. Qed.

Lemma alter_const_same (h : list JobRecord) r x : h !! r = Some x -> alter (fun _ => x) r h = h.
Proof.
  intros Hx. apply list_eq. intros i. destruct (decide (i = r)) as [->|Hne].
  - by rewrite list_lookup_alter_eq, Hx.
  - by rewrite list_lookup_alter_ne.
Qed.

Lemma update_same r x g : heap g !! r = Some x -> update r (fun _ => x) g = g.
Proof. intros Hx. unfold update. rewrite alter_const_same by done. by destruct g. Qed.

Lemma stop_heap_core h rs : Forall2 same_core h (fold_left (fun h r => alter cancel_record r h) rs h).
Proof.
  revert h. induction rs as [|r rs IH]; intros h; cbn.
  - apply Forall2_same_length_lookup_2; [done|]. intros i a b Ha Hb. by simplify_eq.
  - etrans; [|apply IH]. by apply forall2_alter.
Qed.
End RegistryFacts.

Section Preservation.
Context `{RT : Runtime}.
Context (maximum_jobs instance_id : Z) (gpu_enabled : bool).

Abbreviation inv := (job_inv maximum_jobs instance_id).

Lemma held_ok_core pc x y : same_core x y -> held_ok pc x -> held_ok pc y.
Proof. intros (_ & _ & _ & _ & Hs & Ho & Hr). unfold held_ok, pending_in. rewrite Hs, Ho, Hr. done. Qed.

Lemma pending_core st x y : same_core x y -> pending_in st x -> pending_in st y.
Proof. intros (_ & _ & _ & _ & Hs & Ho & Hr). unfold pending_in. rewrite Hs, Ho, Hr. done. Qed.

(** Cancellation requests, and the stop flag, are invisible to the invariant. *)
Lemma inv_core s h stop :
  inv s -> Forall2 same_core (heap (reg s)) h ->
  inv (with_reg (mk_JobRegistry h (jobs (reg s)) (queue (reg s)) (next_id (reg s)) stop) s).
Proof.
  intros [Hsort Hjobs Hids Hord Hnext Hbound Hfifo Hqueue Hdet Hheld Hone Hqa Hda Hcomp] Hcore.
  assert (forall r x, h !! r = Some x -> exists y, heap (reg s) !! r = Some y /\ same_core y x)
    as Hback by (intros; by eapply Forall2_lookup_r).
  assert (forall r x, heap (reg s) !! r = Some x -> exists y, h !! r = Some y /\ same_core x y)
    as Hforth by (intros; by eapply Forall2_lookup_l).
  split; cbn; try done.
  - intros k r Hk. destruct (Hjobs k r Hk) as (x & Hx & Hid).
    destruct (Hforth r x Hx) as (y & Hy & [Hi _]). exists y. by rewrite <- Hi.
  - intros r x Hx. destruct (Hback r x Hx) as (y & Hy & [Hi _]). rewrite <- Hi. eauto.
  - intros r1 r2 x1 x2 H1 H2 Hlt. destruct (Hback _ _ H1) as (y1 & Hy1 & [<- _]).
    destruct (Hback _ _ H2) as (y2 & Hy2 & [<- _]). eauto.
  - intros r Hr. destruct (Hqueue r Hr) as (x & Hx & Hp & Hj).
    destruct (Hforth r x Hx) as (y & Hy & Hc). exists y. split_and!; [done|by eapply pending_core|].
    destruct Hc as [<- _]. done.
  - intros r Hr. destruct (Hdet r Hr) as (x & Hx & Hp).
    destruct (Hforth r x Hx) as (y & Hy & Hc). exists y. split; [done|by eapply pending_core].
  - intros w pc r Hw Hh. destruct (Hheld w pc r Hw Hh) as (x & Hx & Hp).
    destruct (Hforth r x Hx) as (y & Hy & Hc). exists y. split; [done|by eapply held_ok_core].
  - intros r x Hx. destruct (Hback r x Hx) as (y & Hy & Hc). destruct (Hcomp r y Hy) as [Ht|Ho].
    + left. destruct Hc as (_ & _ & _ & _ & <- & _). done.
    + right. exact Ho.
Qed.

Lemma inv_initial n : inv (initial n).
Proof.
  assert (forall w pc, replicate n WIdle !! w = Some pc -> pc = WIdle) as Hidle.
  { intros w pc Hw. by apply lookup_replicate in Hw as [-> _]. }
  split; cbn.
  - done.
  - intros k r Hk. by apply not_elem_of_nil in Hk.
  - intros r x Hx. done.
  - intros r1 r2 x1 x2 Hx1 Hx2. done.
  - lia.
  - rewrite zlen_nil. lia.
  - constructor.
  - intros r Hr. by apply not_elem_of_nil in Hr.
  - intros r Hr. by apply not_elem_of_nil in Hr.
  - intros w pc r Hw Hh. by rewrite (Hidle w pc Hw) in Hh.
  - intros w1 w2 pc1 pc2 r Hw1 Hw2 Hh1 Hh2. by rewrite (Hidle w1 pc1 Hw1) in Hh1.
  - intros r Hr. by apply not_elem_of_nil in Hr.
  - intros r Hr. by apply not_elem_of_nil in Hr.
  - intros r x Hx. done.
Qed.

(** A worker that goes on with its record, or leaves it terminal. *)
Lemma inv_worker_update s w pc r x x' pc' :
  inv s -> workers s !! w = Some pc -> holds pc = Some r -> heap (reg s) !! r = Some x ->
  jr_id x' = jr_id x ->
  (holds pc' = Some r /\ held_ok pc' x') \/ (holds pc' = None /\ terminal (jr_state x') = true) ->
  inv (mk_JobSystem (update r (fun _ => x') (reg s)) (<[w:=pc']> (workers s)) (detached s)).
Proof.
  intros [Hsort Hjobs Hids Hord Hnext Hbound Hfifo Hqueue Hdet Hheld Hone Hqa Hda Hcomp]
    Hw Hh Hx Hid Hpc'.
  assert (held s r) as Hheld_r by (by exists w, pc).
  set (h := alter (fun _ => x') r (heap (reg s))).
  assert (h !! r = Some x') as Hr by (unfold h; by rewrite list_lookup_alter_eq, Hx).
  assert (forall r', r' <> r -> h !! r' = heap (reg s) !! r') as Hne
    by (intros; by apply list_lookup_alter_ne).
  assert (forall r' y, h !! r' = Some y ->
    exists z, heap (reg s) !! r' = Some z /\ jr_id y = jr_id z) as Hback.
  { intros r' y Hy. destruct (decide (r' = r)) as [->|Hn]; [|rewrite Hne in Hy by done; eauto].
    rewrite Hr in Hy. injection Hy as <-. eauto. }
  assert (w < length (workers s))%nat as Hwl by (by eapply lookup_lt_Some).
  assert (forall w' pc1, <[w:=pc']> (workers s) !! w' = Some pc1 ->
    (w' = w /\ pc1 = pc') \/ (w' <> w /\ workers s !! w' = Some pc1)) as Hins.
  { intros w' pc1 Hw'. destruct (decide (w' = w)) as [->|Hn].
    - rewrite list_lookup_insert_eq in Hw' by done. by injection Hw' as <-; left.
    - rewrite list_lookup_insert_ne in Hw' by done. by right. }
  assert (forall r', held (mk_JobSystem (update r (fun _ => x') (reg s)) (<[w:=pc']> (workers s))
    (detached s)) r' -> held s r') as Hheld'.
  { intros r' (w' & pc1 & Hw' & Hh'). destruct (Hins _ _ Hw') as [[-> ->]|[Hn Hw'']].
    - destruct Hpc' as [[Hp _]|[Hp _]]; [|congruence]. rewrite Hp in Hh'. by injection Hh' as <-.
    - by exists w', pc1. }
  split; cbn; fold h; try done.
  - intros k r' Hk. destruct (Hjobs k r' Hk) as (y & Hy & Hk').
    destruct (decide (r' = r)) as [->|Hn]; [|rewrite Hne by done; eauto].
    exists x'. split; [done|]. congruence.
  - intros r' y Hy. destruct (Hback r' y Hy) as (z & Hz & ->). eauto.
  - intros r1 r2 y1 y2 H1 H2 Hlt. destruct (Hback _ _ H1) as (z1 & Hz1 & ->).
    destruct (Hback _ _ H2) as (z2 & Hz2 & ->). eauto.
  - intros r' Hq. destruct (Hqa r' Hq) as [_ Hnh].
    assert (r' <> r) as Hn by (by intros ->). rewrite Hne by done. auto.
  - intros r' Hd. pose proof (Hda r' Hd) as Hnh.
    assert (r' <> r) as Hn by (by intros ->). rewrite Hne by done. auto.
  - intros w' pc1 r' Hw' Hh'. destruct (Hins _ _ Hw') as [[-> ->]|[Hn Hw'']].
    + destruct Hpc' as [[Hp Hok]|[Hp _]]; [|congruence]. rewrite Hp in Hh'. injection Hh' as <-. eauto.
    + assert (r' <> r) as Hnr by (intros ->; by apply Hn, (Hone w' w pc1 pc r)).
      rewrite Hne by done. eauto.
  - intros w1 w2 pc1 pc2 r' H1 H2 Hh1 Hh2.
    destruct (Hins _ _ H1) as [[-> ->]|[Hn1 H1']], (Hins _ _ H2) as [[-> ->]|[Hn2 H2']];
      [done|..|by eapply Hone].
    + destruct Hpc' as [[Hp _]|[Hp _]]; [|congruence]. rewrite Hp in Hh1. injection Hh1 as <-.
      exfalso. by apply Hn2, (Hone w2 w pc2 pc r).
    + destruct Hpc' as [[Hp _]|[Hp _]]; [|congruence]. rewrite Hp in Hh2. injection Hh2 as <-.
      exfalso. by apply Hn1, (Hone w1 w pc1 pc r).
  - intros r' Hq. destruct (Hqa r' Hq) as [? Hnh]. split; [done|]. intros Hc. by apply Hnh, Hheld'.
  - intros r' Hd Hc. by apply (Hda r' Hd), Hheld'.
  - intros r' y Hy. destruct (decide (r' = r)) as [->|Hn].
    + rewrite Hr in Hy. injection Hy as <-. destruct Hpc' as [[Hp _]|[_ Ht]]; [|by left].
      do 3 right. exists w, pc'. cbn. by rewrite list_lookup_insert_eq.
    + rewrite Hne in Hy by done. destruct (Hcomp r' y Hy) as [?|[?|[?|Hc]]]; [tauto..|].
      do 3 right. destruct Hc as (w' & pc1 & Hw' & Hh'). exists w', pc1. cbn.
      rewrite list_lookup_insert_ne; [done|]. intros <-. rewrite Hw in Hw'. injection Hw' as <-.
      rewrite Hh in Hh'. by injection Hh' as ->.
Qed.

(** Workers change their program point. *)
Lemma held_insert g w pc pc' ws d r :
  ws !! w = Some pc -> holds pc = None ->
  held (mk_JobSystem g (<[w:=pc']> ws) d) r <->
  holds pc' = Some r \/ held (mk_JobSystem g ws d) r.
Proof.
  intros Hw Hn. assert (w < length ws)%nat as Hl by (by eapply lookup_lt_Some). split.
  - intros (w' & pc1 & Hw' & Hh). cbn in Hw'. destruct (decide (w' = w)) as [->|Hne].
    + rewrite list_lookup_insert_eq in Hw' by done. injection Hw' as <-. by left.
    + rewrite list_lookup_insert_ne in Hw' by done. right. by exists w', pc1.
  - intros [Hh|(w' & pc1 & Hw' & Hh)].
    + exists w, pc'. cbn. by rewrite list_lookup_insert_eq.
    + exists w', pc1. cbn in *. rewrite list_lookup_insert_ne; [done|]. intros <-. congruence.
Qed.

Lemma inv_worker_exit s w :
  inv s -> workers s !! w = Some WIdle ->
  inv (mk_JobSystem (reg s) (<[w:=WExited]> (workers s)) (detached s)).
Proof.
  intros [Hsort Hjobs Hids Hord Hnext Hbound Hfifo Hqueue Hdet Hheld Hone Hqa Hda Hcomp] Hw.
  assert (forall r, held (mk_JobSystem (reg s) (<[w:=WExited]> (workers s)) (detached s)) r <->
    held s r) as Hiff.
  { intros r. rewrite (held_insert _ _ _ _ _ _ _ Hw eq_refl). destruct s.
    split; [by intros [|]|by right]. }
  assert (forall w' pc1 r, <[w:=WExited]> (workers s) !! w' = Some pc1 -> holds pc1 = Some r ->
    workers s !! w' = Some pc1) as Hold.
  { intros w' pc1 r Hw' Hh. destruct (decide (w' = w)) as [->|Hn].
    - rewrite list_lookup_insert_eq in Hw' by (by eapply lookup_lt_Some). by injection Hw' as <-.
    - by rewrite list_lookup_insert_ne in Hw'. }
  split; cbn; try done.
  - intros w' pc1 r H1 Hh. eauto.
  - intros w1 w2 pc1 pc2 r H1 H2 Hh1 Hh2. eauto.
  - intros r. rewrite Hiff. auto.
  - intros r. rewrite Hiff. auto.
  - intros r x. rewrite Hiff. eauto.
Qed.

Lemma inv_worker_pop s w r q :
  inv s -> workers s !! w = Some WIdle -> queue (reg s) = r :: q ->
  inv (mk_JobSystem (set_queue q (reg s)) (<[w:=WPopped r]> (workers s)) (detached s)).
Proof.
  intros [Hsort Hjobs Hids Hord Hnext Hbound Hfifo Hqueue Hdet Hheld Hone Hqa Hda Hcomp] Hw Hq.
  rewrite Hq in *. assert (w < length (workers s))%nat as Hwl by (by eapply lookup_lt_Some).
  assert (r ∉ q) as Hrq.
  { inversion_clear Hfifo as [|? ? _ Hall]. rewrite Forall_forall in Hall. intros Hr.
    specialize (Hall r Hr). lia. }
  assert (forall r', held (mk_JobSystem (set_queue q (reg s)) (<[w:=WPopped r]> (workers s))
    (detached s)) r' <-> r' = r \/ held s r') as Hiff.
  { intros r'. rewrite (held_insert _ _ _ _ _ _ _ Hw eq_refl). cbn. destruct s. split.
    - intros [[= ->]|?]; [by left|by right].
    - intros [->|?]; [by left|by right]. }
  assert (forall w' pc1, <[w:=WPopped r]> (workers s) !! w' = Some pc1 ->
    (w' = w /\ pc1 = WPopped r) \/ workers s !! w' = Some pc1) as Hold.
  { intros w' pc1 Hw'. destruct (decide (w' = w)) as [->|Hn].
    - rewrite list_lookup_insert_eq in Hw' by done. injection Hw' as <-. by left.
    - rewrite list_lookup_insert_ne in Hw' by done. by right. }
  assert (~ held s r) as Hfree by (apply Hqa; by left).
  split; cbn; try done.
  - by inversion Hfifo.
  - intros r' Hr'. apply Hqueue. by right.
  - intros w' pc1 r' H1 Hh. destruct (Hold _ _ H1) as [[-> ->]|H1']; [|eauto].
    injection Hh as <-. destruct (Hqueue r) as (x & Hx & Hp & _); [by left|]. eauto.
  - intros w1 w2 pc1 pc2 r' H1 H2 Hh1 Hh2.
    destruct (Hold _ _ H1) as [[-> ->]|H1'], (Hold _ _ H2) as [[-> ->]|H2']; [done|..|eauto].
    + injection Hh1 as <-. destruct Hfree. by exists w2, pc2.
    + injection Hh2 as <-. destruct Hfree. by exists w1, pc1.
  - intros r' Hr'. rewrite Hiff. destruct (Hqa r') as [? ?]; [by right|]. split; [done|].
    intros [->|?]; done.
  - intros r' Hr'. rewrite Hiff. intros [->|?]; [|by eapply Hda].
    destruct (Hqa r) as [? _]; [by left|]. done.
  - intros r' x Hx. rewrite Hiff. destruct (Hcomp r' x Hx) as [?|[Hr'|[?|?]]]; [tauto| |tauto|tauto].
    apply elem_of_cons in Hr' as [->|?]; tauto.
Qed.

(** *** What a worker step does *)

Lemma finish_cases f r reg' pc' g (x : JobRecord) (next failed : worker_pc) :
  after_section g r f next failed = Some (reg', pc') ->
  reg' = update r (fun _ => f.1) g /\ pc' = if f.2 then next else failed.
Proof. by intros [= <- <-]. Qed.

Definition worker_effect (g : JobRegistry) (pc : worker_pc) (g' : JobRegistry) (pc' : worker_pc) :
    Prop :=
  (pc = WIdle /\ stopping g = true /\ g' = g /\ pc' = WExited) \/
  (exists r q, pc = WIdle /\ stopping g = false /\ queue g = r :: q /\ g' = set_queue q g /\
     pc' = WPopped r) \/
  (exists r x x', holds pc = Some r /\ heap g !! r = Some x /\ g' = update r (fun _ => x') g /\
     same_identity x x' /\ jr_cancellation x' = jr_cancellation x /\
     (x' = x \/ (jr_state x = JobState.Queued /\ jr_state x' = JobState.Running) \/
      terminal (jr_state x') = true) /\
     (jr_state x' = JobState.Succeeded -> x' = x \/ is_cancelled x = false) /\
     ((holds pc' = Some r /\ held_ok pc' x') \/ (pc' = WIdle /\ terminal (jr_state x') = true))).

Lemma caught_holds r e : holds (caught r e) = Some r.
Proof. by destruct e. Qed.

Lemma held_ok_caught r e x :
  held_ok (caught r e) x <-> pending_in JobState.Running x \/ pending_in JobState.Cancelled x.
Proof. by destruct e. Qed.

Ltac effect_facts :=
  split_and!;
    [done..|first [by left | by right; left | by right; right]
    |intros ?; first [done | by left | by right]|].

Lemma worker_step_effect i g pc g' pc' :
  (forall r, holds pc = Some r -> exists x, heap g !! r = Some x /\ held_ok pc x) ->
  worker_step gpu_enabled i g pc = Some (g', pc') -> worker_effect g pc g' pc'.
Proof.
  intros Hok Hstep. unfold worker_effect.
  destruct pc as [ |r|r|r gr mo|r pl|r pl pa|r an|r re|r st|r rs|r c rs|r c| ].
  { cbn in Hstep. destruct (stopping g) eqn:Hst; [injection Hstep as <- <-; by left|].
    destruct (queue g) as [|r q]; [done|]. injection Hstep as <- <-. right; left. by exists r, q. }
  all: try done.
  all: destruct (Hok r eq_refl) as (x & Hx & Hh); do 2 right; cbn in Hh; cbn in Hstep;
    rewrite ?Hx in Hstep; cbn in Hstep.
  - unfold start in Hstep. destruct Hh as (Hst & Ho & Hres). rewrite Hst in Hstep.
    rewrite bool_decide_eq_false_2 in Hstep by (intros []; done). injection Hstep as <- <-.
    exists r, x, (set_state JobState.Running x). effect_facts. by left.
  - exists r, x, x. rewrite update_same by done.
    destruct (is_cancelled x) eqn:Hcx; injection Hstep as <- <-;
      effect_facts; left; destruct (input_fails i); cbn; auto.
  - exists r, x, x. rewrite update_same by done.
    destruct i as [| | |[[pl|st]|e]|]; try done; injection Hstep as <- <-;
      effect_facts; left; rewrite ?caught_holds, ?held_ok_caught; auto.
  - exists r, x, x. rewrite update_same by done.
    destruct (is_cancelled x) eqn:Hcx; injection Hstep as <- <-;
      effect_facts; left; destruct (input_fails i); cbn; auto.
  - exists r, x, x. rewrite update_same by done.
    destruct i as [| | | |[a|e]]; try done; injection Hstep as <- <-;
      effect_facts; left; rewrite ?caught_holds, ?held_ok_caught; auto.
  - exists r, x, x. rewrite update_same by done. destruct an as [v|st]; cbn in Hstep;
      rewrite ?Hx in Hstep; cbn in Hstep; injection Hstep as <- <-;
      effect_facts; left; [done|]. by destruct (_ || _).
  - unfold publish in Hstep. destruct Hh as (Hst & Ho & Hres).
    destruct (is_cancelled x) eqn:Hcx; [destruct (input_fails i)|]; injection Hstep as <- <-;
      eexists r, x, _; effect_facts; [left|right..]; [|done..].
    split; [done|]. right. done.
  - unfold finish_failure in Hstep.
    destruct (input_fails i); [injection Hstep as <- <-; exists r, x, x;
      rewrite update_same by done; effect_facts; left; cbn; auto|].
    destruct Hh as (Hst & Ho & Hres).
    destruct (is_cancelled x) eqn:Hcx; [destruct (input_fails_late i)|]; injection Hstep as <- <-;
      eexists r, x, _; effect_facts; [left|right..]; [|done..].
    split; [done|]. right. done.
  - unfold finish_cancelled in Hstep. destruct Hh as (Hst & Ho & Hres).
    destruct (input_fails i); injection Hstep as <- <-;
      eexists r, x, _; effect_facts; [left|right]; [|done].
    split; [done|]. right. done.
  - unfold finish_failure in Hstep.
    destruct (input_fails i); [injection Hstep as <- <-; exists r, x, x;
      rewrite update_same by done; effect_facts; left; cbn; auto|].
    destruct (is_cancelled x) eqn:Hcx; [destruct (input_fails_late i)|]; injection Hstep as <- <-;
      eexists r, x, _; effect_facts; [left|right..]; [|done..].
    split; [done|]. right. by destruct Hh as [(?&?&?)|(?&?&?)].
  - unfold finish_bare in Hstep. destruct (is_cancelled x) eqn:Hcx; injection Hstep as <- <-;
      eexists r, x, _; effect_facts; by right.
Qed.

Lemma inv_worker s w i s' :
  inv s -> job_step maximum_jobs instance_id gpu_enabled (EWorker w i) s = Some s' -> inv s'.
Proof.
  intros Hinv Hstep. cbn in Hstep. destruct (workers s !! w) as [pc|] eqn:Hw; [|done]. cbn in Hstep.
  destruct (worker_step gpu_enabled i (reg s) pc) as [[g pc']|] eqn:Hws; [|done].
  injection Hstep as <-.
  apply worker_step_effect in Hws as [(-> & _ & -> & ->)|[(r & q & -> & _ & Hq & -> & ->)|
    (r & x & x' & Hh & Hx & -> & [Hid _] & _ & _ & _ & Hpc')]].
  - by apply inv_worker_exit.
  - by apply inv_worker_pop.
  - eapply inv_worker_update; [done..|]. destruct Hpc' as [?|[-> ?]]; auto.
  - intros r Hr. by eapply ji_held.
Qed.

Lemma zlen_length {A} (l : list A) : zlen l = Z.of_nat (length l).
Proof. done. Qed.

(** Publication of a new record in the map and in the queue. *)
Lemma inv_publish s sid graph options jobs' stop :
  inv s -> next_id (reg s) <> 0 -> zlen (jobs (reg s)) < maximum_jobs ->
  emplace (next_id (reg s)) (length (heap (reg s))) (jobs (reg s)) = Some jobs' ->
  inv (with_reg (mk_JobRegistry
    (heap (reg s) ++ [mk_JobRecord (mk_JobId instance_id (next_id (reg s))) sid graph options
                        JobState.Queued success fresh_source None])
    jobs' (queue (reg s) ++ [length (heap (reg s))])
    ((next_id (reg s) + 1) mod 2 ^ 64) stop) s).
Proof.
  intros [Hsort Hjobs Hids Hord Hnext Hbound Hfifo Hqueue Hdet Hheld Hone Hqa Hda Hcomp]
    Hnz Hroom Hemp.
  set (n := next_id (reg s)) in *. set (h := heap (reg s)) in *. set (r := length h) in *.
  set (x := mk_JobRecord _ _ _ _ _ _ _ _).
  assert (forall r' y, h !! r' = Some y -> (h ++ [x]) !! r' = Some y) as Hold
    by (intros; by apply lookup_app_l_Some).
  assert ((h ++ [x]) !! r = Some x) as Hnew by (by apply list_lookup_middle).
  assert (forall r' y, (h ++ [x]) !! r' = Some y ->
    h !! r' = Some y \/ (r' = r /\ y = x)) as Hcase.
  { intros r' y Hy. apply lookup_app_Some in Hy as [?|[Hge Hy]]; [by left|].
    apply list_lookup_singleton_Some in Hy as [Hz <-]. right. split; [|done]. unfold r. lia. }
  assert (forall r' y, h !! r' = Some y -> (r' < r)%nat) as Hlt
    by (intros; by eapply lookup_lt_Some).
  assert (forall r' y, h !! r' = Some y -> job_value (jr_id y) < n) as Hless.
  { intros r' y Hy. destruct (Hids r' y Hy) as (v & -> & Hv & [Hz|Hl]); cbn; [done|lia]. }
  assert ((n + 1) mod 2 ^ 64 = 0 \/ (n + 1) mod 2 ^ 64 = n + 1) as Hwrap.
  { destruct (Z.eq_dec (n + 1) (2 ^ 64)) as [->|]; [left; by rewrite Z_mod_same_full|].
    right. apply Z.mod_small. lia. }
  split; cbn; fold h r n x; try done.
  - by eapply emplace_sorted.
  - intros k r' Hk. rewrite (emplace_elem _ _ _ _ (k, r') Hemp) in Hk.
    destruct Hk as [[= -> ->]|Hk]; [eauto|]. destruct (Hjobs k r' Hk) as (y & Hy & ?). eauto.
  - intros r' y Hy. destruct (Hcase r' y Hy) as [Hy'|[-> ->]].
    + destruct (Hids r' y Hy') as (v & Hid & Hv & Hvn). exists v. split_and!; [done|lia|lia|].
      destruct Hwrap as [->| ->]; [by left|]. destruct Hvn; [done|]. right. lia.
    + exists n. split_and!; [done|lia|lia|]. destruct Hwrap as [->| ->]; [by left|right; lia].
  - intros r1 r2 x1 x2 H1 H2 Hr. destruct (Hcase _ _ H1) as [H1'|[-> ->]],
      (Hcase _ _ H2) as [H2'|[-> ->]]; [eauto|..].
    + cbn. eauto.
    + apply Hlt in H2'. lia.
    + lia.
  - apply Z.mod_pos_bound. lia.
  - apply emplace_length in Hemp. rewrite zlen_length, Hemp in *. unfold zlen in *. lia.
  - apply StronglySorted_app_2; [|done|by repeat constructor].
    intros r' r2 Hr' ->%list_elem_of_singleton.
    destruct (Hqueue r' Hr') as (y & Hy & _). by eapply Hlt.
  - intros r' Hr'. apply elem_of_app in Hr' as [Hr'|Hr'].
    + destruct (Hqueue r' Hr') as (y & Hy & Hp & Hj). exists y. split_and!; [auto|done|].
      rewrite (emplace_elem _ _ _ _ _ Hemp). by right.
    + apply list_elem_of_singleton in Hr' as ->. exists x. split_and!; [done|done|].
      rewrite (emplace_elem _ _ _ _ _ Hemp). by left.
  - intros r' Hr'. destruct (Hdet r' Hr') as (y & Hy & Hp). eauto.
  - intros w pc r' Hw Hh. destruct (Hheld w pc r' Hw Hh) as (y & Hy & Hp). eauto.
  - intros r' Hr'. apply elem_of_app in Hr' as [Hr'|Hr']; [auto|].
    apply list_elem_of_singleton in Hr' as ->. split.
    + intros Hd. destruct (Hdet r Hd) as (y & Hy & _). apply Hlt in Hy. lia.
    + intros (w & pc & Hw & Hh). destruct (Hheld w pc r Hw Hh) as (y & Hy & _).
      apply Hlt in Hy. lia.
  - intros r' y Hy. destruct (Hcase r' y Hy) as [Hy'|[-> ->]].
    + destruct (Hcomp r' y Hy') as [?|[?|[?|?]]]; [tauto| |tauto|tauto].
      right. left. apply elem_of_app. by left.
    + right. left. apply elem_of_app. right. by left.
Qed.

(** A consumed identifier, without a record. *)
Lemma inv_consume s stop :
  inv s -> next_id (reg s) <> 0 ->
  inv (with_reg (mk_JobRegistry (heap (reg s)) (jobs (reg s)) (queue (reg s))
    ((next_id (reg s) + 1) mod 2 ^ 64) stop) s).
Proof.
  intros [Hsort Hjobs Hids Hord Hnext Hbound Hfifo Hqueue Hdet Hheld Hone Hqa Hda Hcomp] Hnz.
  split; cbn; try done.
  - intros r x Hx. destruct (Hids r x Hx) as (v & Hid & Hv & Hvn). exists v.
    split_and!; [done|lia|lia|]. destruct Hvn as [|Hvn]; [done|].
    destruct (Z.eq_dec (next_id (reg s) + 1) (2 ^ 64)) as [->|]; [left; by rewrite Z_mod_same_full|].
    right. rewrite Z.mod_small; lia.
  - apply Z.mod_pos_bound. lia.
Qed.

Lemma inv_submit s sid graph options fails :
  inv s -> inv (with_reg (submit maximum_jobs instance_id sid graph options fails (reg s)).1 s).
Proof.
  intros Hinv. assert (inv (with_reg (reg s) s)) as Hsame by (by destruct s).
  unfold submit. destruct (stopping (reg s)); [done|].
  destruct (Z.leb_spec maximum_jobs (zlen (jobs (reg s)))); [done|].
  destruct (Z.eqb_spec (next_id (reg s)) 0); [done|].
  case_bool_decide; [done|]. case_bool_decide; [by apply inv_consume|]. cbn [job_value].
  destruct (emplace _ _ _) as [jobs'|] eqn:Hemp; [|by apply inv_consume].
  case_bool_decide; [|by apply inv_publish].
  assert (map_erase (next_id (reg s)) jobs' = jobs (reg s)) as ->; [|by apply inv_consume].
  eapply map_erase_emplace; [exact (ji_sorted _ _ _ Hinv)|exact Hemp].
Qed.

Lemma cancel_section_core r g :
  exists h, cancel_section r g = mk_JobRegistry h (jobs g) (queue g) (next_id g) (stopping g) /\
    Forall2 same_core (heap g) h.
Proof.
  eexists. split; [reflexivity|]. apply forall2_alter; [done|]. intros x _.
  by destruct (terminal (jr_state x)).
Qed.

Lemma inv_cancel s r : inv s -> inv (with_reg (cancel_section r (reg s)) s).
Proof.
  intros Hinv. destruct (cancel_section_core r (reg s)) as (h & -> & Hh). by apply inv_core.
Qed.

Lemma inv_stop s : inv s -> inv (with_reg (stop_section (reg s)) s).
Proof.
  intros Hinv. unfold stop_section. destruct (stopping (reg s)) eqn:Hst; [by destruct s|].
  apply inv_core; [done|]. apply stop_heap_core.
Qed.

(** Records leave the map. *)
Lemma inv_set_jobs s js :
  inv s -> sublist js (jobs (reg s)) ->
  (forall r x, r ∈ queue (reg s) -> heap (reg s) !! r = Some x ->
     (job_value (jr_id x), r) ∈ js) ->
  inv (with_reg (set_jobs js (reg s)) s).
Proof.
  intros [Hsort Hjobs Hids Hord Hnext Hbound Hfifo Hqueue Hdet Hheld Hone Hqa Hda Hcomp] Hsub Hkeep.
  assert (forall p, p ∈ js -> p ∈ jobs (reg s)) as Hin.
  { intros p Hp. by eapply elem_of_submseteq, sublist_submseteq. }
  split; cbn; try done.
  - by eapply sorted_map_sublist.
  - auto.
  - apply sublist_length in Hsub. unfold zlen in *. lia.
  - intros r Hr. destruct (Hqueue r Hr) as (x & Hx & Hp & _). eauto.
Qed.

Lemma release_cases id g :
  let '(g', st) := release instance_id id g in
  (g' = g /\ st <> success \/
   exists r x, map_find (job_value id) (jobs g) = Some r /\ heap g !! r = Some x /\
     terminal (jr_state x) = true /\ job_instance id = instance_id /\ job_value id <> 0 /\
     g' = set_jobs (map_erase (job_value id) (jobs g)) g /\ st = success) \/
  (g' = g /\ (st = job_not_found \/
     st = failure InvalidArgument (lit "running execution cannot be released"))).
Proof.
  unfold release. destruct (map_find _ _) as [r|] eqn:Hf; [|by right; auto].
  destruct (negb _ || _) eqn:Hc; [by right; auto|].
  destruct (heap g !! r) as [x|] eqn:Hx; [|by right; auto].
  destruct (terminal (jr_state x)) eqn:Ht; [|by right; auto].
  left. right. exists r, x. split_and!; (done || lia).
Qed.

Lemma inv_release s id : inv s -> inv (with_reg (release instance_id id (reg s)).1 s).
Proof.
  intros Hinv. pose proof (release_cases id (reg s)) as Hr.
  destruct (release instance_id id (reg s)) as [g st]. cbn.
  destruct Hr as [[[-> _]|(r & x & Hf & Hx & Ht & _ & _ & -> & _)]|[-> _]]; try by destruct s.
  pose proof (ji_sorted _ _ _ Hinv) as Hsort.
  apply inv_set_jobs; [done|apply map_erase_sublist|].
  intros r' x' Hr' Hx'. destruct (ji_queue _ _ _ Hinv r' Hr') as (y & Hy & Hp & Hj).
  rewrite Hx' in Hy. injection Hy as <-. apply map_erase_elem; [done|]. split; [done|]. cbn.
  intros Hk. rewrite Hk in Hj. apply (map_find_elem _ _ _ Hsort) in Hj. rewrite Hf in Hj.
  injection Hj as <-. rewrite Hx in Hx'. injection Hx' as <-.
  destruct Hp as (Hp & _). by rewrite Hp in Ht.
Qed.

Lemma erase_queued_sublist g queued js : sublist (erase_queued g queued js) js.
Proof.
  revert js. induction queued as [|r queued IH]; intros js; cbn; [done|].
  etrans; [apply IH|]. destruct (heap g !! r); [|done]. case_bool_decide; [|done].
  apply map_erase_sublist.
Qed.

Lemma erase_queued_keep g queued js p :
  sorted_map js -> p.2 ∉ queued -> p ∈ js -> p ∈ erase_queued g queued js.
Proof.
  revert js. induction queued as [|r queued IH]; intros js Hs Hn Hp; cbn; [done|].
  rewrite not_elem_of_cons in Hn. destruct Hn as [Hne Hn].
  destruct (heap g !! r) as [x|]; [|by apply IH].
  case_bool_decide as Hf; [|by apply IH]. apply IH; [|done|].
  - eapply sorted_map_sublist; [apply map_erase_sublist|done].
  - apply map_erase_elem; [done|]. split; [done|]. intros Hk.
    apply (map_find_elem _ _ _ Hs) in Hf. apply Hne. destruct p as [k r']. cbn in *. subst k.
    exact (sorted_map_unique js _ r' r Hs Hp Hf).
Qed.

Lemma erase_queued_drop g queued js r x :
  sorted_map js -> r ∈ queued -> heap g !! r = Some x ->
  (job_value (jr_id x), r) ∉ erase_queued g queued js.
Proof.
  revert js. induction queued as [|r' queued IH]; intros js Hs Hr Hx; cbn;
    [by apply not_elem_of_nil in Hr|].
  assert (forall js', sublist js' js -> sorted_map js') as Hsub
    by (intros; by eapply sorted_map_sublist).
  apply elem_of_cons in Hr as [<-|Hr].
  - rewrite Hx. intros Hin.
    assert (forall js', (job_value (jr_id x), r) ∈ erase_queued g queued js' ->
      (job_value (jr_id x), r) ∈ js') as Hmono.
    { intros js' Hj. by eapply elem_of_submseteq, sublist_submseteq, erase_queued_sublist. }
    apply Hmono in Hin. case_bool_decide as Hf.
    + apply map_erase_elem in Hin as [_ Hne]; [|done]. done.
    + apply Hf. by apply map_find_elem.
  - destruct (heap g !! r') as [x'|]; [|by apply IH]. case_bool_decide; [|by apply IH].
    apply IH; [|done|done]. apply Hsub, map_erase_sublist.
Qed.

Lemma in_session_spec sid g r x :
  heap g !! r = Some x -> in_session sid g r = bool_decide (jr_session_id x = sid).
Proof. unfold in_session. by intros ->. Qed.

Lemma stronglysorted_filter {A} (R : A -> A -> Prop) (P : A -> Prop) `{forall x, Decision (P x)} l :
  StronglySorted R l -> StronglySorted R (filter P l).
Proof.
  induction 1 as [|x l Hl IH Hall]; [constructor|]. rewrite filter_cons. case_decide; [|done].
  constructor; [done|]. rewrite Forall_forall in *. intros y Hy. apply list_elem_of_filter in Hy as [_ Hy].
  auto.
Qed.

Lemma inv_detach s sid g queued running :
  inv s -> close_detach sid false (reg s) = (g, inl (queued, running)) ->
  inv (mk_JobSystem g (workers s) (detached s ++ queued)).
Proof.
  intros Hinv Hc. unfold close_detach in Hc.
  set (js := erase_queued _ _ _) in Hc. injection Hc as <- <- _.
  pose proof Hinv as
    [Hsort Hjobs Hids Hord Hnext Hbound Hfifo Hqueue Hdet Hheld Hone Hqa Hda Hcomp].
  assert (sublist (filter (fun p : Z * nat => in_session sid (reg s) p.2 = false) js)
    (jobs (reg s))) as Hsub.
  { etrans; [apply sublist_filter|]. apply erase_queued_sublist. }
  assert (forall p, p ∈ filter (fun p : Z * nat => in_session sid (reg s) p.2 = false) js ->
    p ∈ jobs (reg s)) as Hin.
  { intros p Hp. by eapply elem_of_submseteq, sublist_submseteq. }
  split; cbn; try done.
  - by eapply sorted_map_sublist.
  - auto.
  - apply sublist_length in Hsub. unfold zlen in *. lia.
  - by apply stronglysorted_filter.
  - intros r [Hns Hr]%list_elem_of_filter. destruct (Hqueue r Hr) as (x & Hx & Hp & Hj).
    exists x. split_and!; [done|done|]. apply list_elem_of_filter. split; [done|].
    apply erase_queued_keep; [done| |done]. cbn. rewrite list_elem_of_filter. intros [? _]. congruence.
  - intros r [Hr|[_ Hr]%list_elem_of_filter]%elem_of_app; [auto|].
    destruct (Hqueue r Hr) as (x & Hx & Hp & _). eauto.
  - intros r [Hns Hr]%list_elem_of_filter. destruct (Hqa r Hr) as [Hnd Hnh]. split; [|done].
    rewrite elem_of_app, list_elem_of_filter. intros [?|[? _]]; [done|congruence].
  - intros r [Hr|[_ Hr]%list_elem_of_filter]%elem_of_app; [by apply Hda|]. by apply Hqa.
  - intros r x Hx. destruct (Hcomp r x Hx) as [?|[Hr|[?|?]]]; [tauto| | |tauto].
    + right. destruct (in_session sid (reg s) r) eqn:Hs.
      * right. left. apply elem_of_app. right. by apply list_elem_of_filter.
      * left. by apply list_elem_of_filter.
    + right. right. left. apply elem_of_app. by left.
Qed.

Lemma inv_settle s r :
  inv s -> r ∈ detached s ->
  inv (mk_JobSystem (settle_queued r (reg s)) (workers s) (filter (fun r' => r' <> r) (detached s))).
Proof.
  intros [Hsort Hjobs Hids Hord Hnext Hbound Hfifo Hqueue Hdet Hheld Hone Hqa Hda Hcomp] Hr.
  destruct (Hdet r Hr) as (x & Hx & Hp).
  unfold settle_queued. set (f := fun record => set_state JobState.Cancelled _).
  set (h := alter f r (heap (reg s))).
  assert (h !! r = Some (f x)) as Hhr by (unfold h; by rewrite list_lookup_alter_eq, Hx).
  assert (forall r', r' <> r -> h !! r' = heap (reg s) !! r') as Hne
    by (intros; by apply list_lookup_alter_ne).
  assert (forall r' y, h !! r' = Some y -> exists z, heap (reg s) !! r' = Some z /\ jr_id y = jr_id z)
    as Hback.
  { intros r' y Hy. destruct (decide (r' = r)) as [->|Hn]; [|rewrite Hne in Hy by done; eauto].
    rewrite Hhr in Hy. injection Hy as <-. eauto. }
  split; cbn; fold h; try done.
  - intros k r' Hk. destruct (Hjobs k r' Hk) as (y & Hy & Hid).
    destruct (decide (r' = r)) as [->|Hn]; [|rewrite Hne by done; eauto].
    exists (f x). split; [done|]. rewrite Hx in Hy. by injection Hy as <-.
  - intros r' y Hy. destruct (Hback r' y Hy) as (z & Hz & ->). eauto.
  - intros r1 r2 y1 y2 H1 H2 Hlt. destruct (Hback _ _ H1) as (z1 & Hz1 & ->).
    destruct (Hback _ _ H2) as (z2 & Hz2 & ->). eauto.
  - intros r' Hq. assert (r' <> r) as Hn by (intros ->; by destruct (Hqa r Hq)).
    rewrite Hne by done. auto.
  - intros r' [Hn Hd]%list_elem_of_filter. rewrite Hne by done. auto.
  - intros w pc r' Hw Hh. assert (r' <> r) as Hn.
    { intros ->. apply (Hda r Hr). by exists w, pc. }
    rewrite Hne by done. eauto.
  - intros r' Hq. rewrite list_elem_of_filter. destruct (Hqa r' Hq). split; [tauto|done].
  - intros r' [_ Hd]%list_elem_of_filter. by apply Hda.
  - intros r' y Hy. destruct (decide (r' = r)) as [->|Hn].
    + rewrite Hhr in Hy. injection Hy as <-. by left.
    + rewrite Hne in Hy by done. destruct (Hcomp r' y Hy) as [?|[?|[?|?]]]; [tauto|tauto| |tauto].
      right. right. left. by apply list_elem_of_filter.
Qed.

Lemma job_step_inv e s s' :
  inv s -> job_step maximum_jobs instance_id gpu_enabled e s = Some s' -> inv s'.
Proof.
  intros Hinv Hstep. destruct e.
  - by eapply inv_worker.
  - injection Hstep as <-. by apply inv_submit.
  - injection Hstep as <-. by apply inv_cancel.
  - injection Hstep as <-. by apply inv_release.
  - cbn in Hstep. destruct (close_detach session_id fails (reg s)) as [g [[queued running]|exn]] eqn:Hc;
      injection Hstep as <-.
    + destruct fails; [done|]. by eapply inv_detach.
    + unfold close_detach in Hc. destruct fails; [|done]. injection Hc as <- _. by destruct s.
  - cbn in Hstep. case_bool_decide; [|done]. injection Hstep as <-. by apply inv_settle.
  - injection Hstep as <-. by apply inv_stop.
Qed.

Lemma reachable_inv n s : reachable maximum_jobs instance_id gpu_enabled n s -> inv s.
Proof. induction 1; [apply inv_initial|by eapply job_step_inv]. Qed.
End Preservation.
