(* ===== verification/JobSpec.v ===== *)
(** What the Job registry promises: forward-only lifecycles, immutable terminal
    records, first-in first-out workers, bounded concurrency, cancellation before
    success, executions that end. *)
From S2P Require Import Prelude OrdMap Kernel Protocol Codec CodecSpec Jobs JobSystem.

Section JobSpec.
Context `{RT : Runtime}.
Context (maximum_jobs instance_id : Z) (gpu_enabled : bool).

Abbreviation inv := (job_inv maximum_jobs instance_id).
Abbreviation step := (job_step maximum_jobs instance_id gpu_enabled).
Abbreviation reach := (reachable maximum_jobs instance_id gpu_enabled).
Abbreviation run_events := (run maximum_jobs instance_id gpu_enabled).

(** ** The effect of one step on one record *)

(** The worker [w] works on the record at [r], or ends with it. *)
Definition worked (w : nat) (s s' : JobSystem) (r : nat) (x x' : JobRecord) : Prop :=
  exists pc pc', workers s !! w = Some pc /\ holds pc = Some r /\ held_ok pc x /\
    workers s' !! w = Some pc' /\ same_identity x x' /\
    jr_cancellation x' = jr_cancellation x /\
    (x' = x \/ (jr_state x = JobState.Queued /\ jr_state x' = JobState.Running) \/
     terminal (jr_state x') = true) /\
    (jr_state x' = JobState.Succeeded -> x' = x \/ is_cancelled x = false) /\
    ((holds pc' = Some r /\ held_ok pc' x') \/ (pc' = WIdle /\ terminal (jr_state x') = true)).

Definition settled_record (x : JobRecord) : JobRecord :=
  set_state JobState.Cancelled
    (set_outcome (mk_Status Cancelled [])
      (set_state JobState.Running (set_result None (cancel_record x)))).

(** Every step leaves a record alone (but for its cancellation flag), or is a step of
    the worker that holds it, or settles it while it is detached. *)
Lemma step_record e s s' r x :
  inv s -> step e s = Some s' -> heap (reg s) !! r = Some x ->
  exists x', heap (reg s') !! r = Some x' /\
    (same_core x x' \/ (exists w i, e = EWorker w i /\ worked w s s' r x x') \/
     (e = ESettle r /\ r ∈ detached s /\ x' = settled_record x)).
Proof.
  intros Hinv Hstep Hx. destruct e; cbn in Hstep.
  - destruct (workers s !! w) as [pc|] eqn:Hw; [|done]. cbn in Hstep.
    destruct (worker_step gpu_enabled i (reg s) pc) as [[g pc']|] eqn:Hws; [|done].
    injection Hstep as <-. cbn.
    apply worker_step_effect in Hws as [(-> & _ & -> & ->)|[(r1 & q & -> & _ & Hq & -> & ->)|
      (r1 & y & y' & Hh & Hy & -> & Hid & Hc & Hchg & Hsucc & Hpc')]]; [by exists x; split; [|left]..| |].
    + cbn. destruct (decide (r = r1)) as [->|Hn].
      * rewrite list_lookup_alter_eq, Hx. rewrite Hx in Hy. injection Hy as <-.
        exists y'. split; [done|]. right. left. exists w, i. split; [done|].
        destruct (ji_held _ _ _ Hinv w pc r1 Hw Hh) as (z & Hz & Hok).
        rewrite Hx in Hz. injection Hz as <-. exists pc, pc'. cbn.
        rewrite list_lookup_insert_eq by (by eapply lookup_lt_Some). done.
      * rewrite list_lookup_alter_ne by done. by exists x; split; [|left].
    + intros r' Hr'. by eapply ji_held.
  - injection Hstep as <-. cbn. exists x. split; [|by left]. unfold submit.
    repeat case_match; cbn; try done. by apply lookup_app_l_Some.
  - injection Hstep as <-. cbn [with_reg reg].
    destruct (cancel_section_core r0 (reg s)) as (h & -> & Hh).
    destruct (Forall2_lookup_l _ _ _ _ _ Hh Hx) as (x' & Hx' & Hc). eauto.
  - injection Hstep as <-. exists x. split; [|by left]. cbn [with_reg reg]. unfold release.
    by repeat case_match.
  - unfold close_detach in Hstep. exists x. split; [|by left]. destruct fails; by injection Hstep as <-.
  - case_bool_decide as Hr; [|done]. injection Hstep as <-. cbn.
    destruct (decide (r = r0)) as [->|Hn].
    + rewrite list_lookup_alter_eq, Hx. eexists. split; [done|]. right. by right.
    + rewrite list_lookup_alter_ne by done. by exists x; split; [|left].
  - injection Hstep as <-. cbn [with_reg reg]. unfold stop_section.
    destruct (stopping (reg s)); [by exists x; split; [|left]|]. cbn.
    destruct (Forall2_lookup_l _ _ _ _ _ (stop_heap_core (heap (reg s)) (jobs (reg s)).*2) Hx)
      as (x' & Hx' & Hc). eauto.
Qed.

(** A worker's new record comes from the queue. *)
Lemma held_step e s s' r :
  inv s -> step e s = Some s' -> held s' r -> held s r \/ r ∈ queue (reg s).
Proof.
  intros Hinv Hstep Hheld. destruct e; cbn in Hstep.
  - destruct (workers s !! w) as [pc|] eqn:Hw; [|done]. cbn in Hstep.
    destruct (worker_step gpu_enabled i (reg s) pc) as [[g pc']|] eqn:Hws; [|done].
    injection Hstep as <-. destruct Hheld as (w' & pc1 & Hw' & Hh'). cbn in Hw'.
    destruct (decide (w' = w)) as [->|Hn].
    + rewrite list_lookup_insert_eq in Hw' by (by eapply lookup_lt_Some). injection Hw' as <-.
      apply worker_step_effect in Hws as [(_ & _ & _ & ->)|[(r1 & q & _ & _ & Hq & _ & ->)|
        (r1 & y & y' & Hh & _ & _ & _ & _ & _ & _ & [[Hh1 _]|[-> _]])]]; [done|..|done|].
      * injection Hh' as ->. right. rewrite Hq. by left.
      * left. exists w, pc. split; [done|]. congruence.
      * intros r' Hr'. by eapply ji_held.
    + rewrite list_lookup_insert_ne in Hw' by done. left. by exists w', pc1.
  - injection Hstep as <-. by left.
  - injection Hstep as <-. by left.
  - injection Hstep as <-. by left.
  - destruct (close_detach _ _ _) as [g [[q rn]|exn]]; injection Hstep as <-; by left.
  - case_bool_decide; [|done]. injection Hstep as <-. by left.
  - injection Hstep as <-. by left.
Qed.

Lemma queue_not_terminal s r x :
  inv s -> r ∈ queue (reg s) -> heap (reg s) !! r = Some x -> terminal (jr_state x) = false.
Proof.
  intros Hinv Hr Hx. destruct (ji_queue _ _ _ Hinv r Hr) as (y & Hy & (Hst & _) & _).
  rewrite Hx in Hy. injection Hy as <-. by rewrite Hst.
Qed.

(** *** Lifecycle *)

(** How far a state is. *)
Definition stage (state : JobState.t) : Z :=
  match state with
  | JobState.Queued => 0
  | JobState.Running => 1
  | JobState.Succeeded | JobState.Failed | JobState.Cancelled => 2
  | JobState.Unknown _ => 3
  end.

Lemma held_stage pc x : held_ok pc x -> stage (jr_state x) <= 2.
Proof.
  destruct pc; cbn; unfold pending_in; intros Hok;
    first [destruct Hok as (-> & _) | destruct Hok as [(-> & _)|(-> & _)]]; cbn; lia.
Qed.

(** C22: Whatever the interleaving, a step of the registry never moves a record
    backwards in Queued, Running, terminal, never changes its identity, and leaves
    the state, outcome and result of a terminal record that no worker still holds
    exactly as they are. *)
Theorem lifecycle_forward n s e s' r x :
  reach n s -> step e s = Some s' -> heap (reg s) !! r = Some x ->
  exists x', heap (reg s') !! r = Some x' /\ same_identity x x' /\
    stage (jr_state x) <= stage (jr_state x') /\
    (terminal (jr_state x) = true -> ~ held s r ->
     same_core x x' /\ ~ held s' r).
Proof.
  intros Hreach Hstep Hx. pose proof (reachable_inv _ _ _ _ _ Hreach) as Hinv.
  destruct (step_record _ _ _ _ _ Hinv Hstep Hx) as (x' & Hx' & Heff). exists x'.
  split; [done|].
  assert (terminal (jr_state x) = true -> ~ held s r -> ~ held s' r) as Hfree.
  { intros Ht Hn Hh. destruct (held_step _ _ _ _ Hinv Hstep Hh) as [|Hq]; [done|].
    by rewrite (queue_not_terminal _ _ _ Hinv Hq Hx) in Ht. }
  destruct Heff as [Hc|[(w & i & -> & pc & pc' & Hw & Hh & Hok & _ & Hid & _ & Hchg & _)|
    (-> & Hr & ->)]].
  - pose proof Hc as (? & ? & ? & ? & Hst & _). split_and!; [done|rewrite Hst; lia|auto].
  - split_and!; [done| |intros _ []; by exists w, pc].
    destruct Hchg as [->|[[-> ->]|Ht]]; [lia|cbn; lia|].
    pose proof (held_stage _ _ Hok). by destruct (jr_state x').
  - destruct (ji_detached _ _ _ Hinv r Hr) as (y & Hy & (Hst & _)). rewrite Hx in Hy.
    injection Hy as <-. rewrite Hst. split_and!; [done|cbn; lia|done].
Qed.

(** *** Runs *)

Lemma reach_run n es s s' : reach n s -> run_events es s = Some s' -> reach n s'.
Proof.
  revert s. induction es as [|e es IH]; intros s Hr Hrun; cbn in Hrun; [by injection Hrun as <-|].
  destruct (step e s) as [s1|] eqn:Hs; [|done]. eapply IH; [|exact Hrun]. by eapply reach_step.
Qed.

(** A property of one record that every step keeps. *)
Lemma run_record (P : JobSystem -> JobRecord -> Prop) n r :
  (forall s e s' x, reach n s -> step e s = Some s' -> heap (reg s) !! r = Some x -> P s x ->
     exists x', heap (reg s') !! r = Some x' /\ P s' x') ->
  forall es s s' x, reach n s -> run_events es s = Some s' -> heap (reg s) !! r = Some x -> P s x ->
  exists x', heap (reg s') !! r = Some x' /\ P s' x'.
Proof.
  intros Hstep es. induction es as [|e es IH]; intros s s' x Hr Hrun Hx HP; cbn in Hrun.
  { injection Hrun as <-. eauto. }
  destruct (step e s) as [s1|] eqn:Hs; [|done].
  destruct (Hstep s e s1 x Hr Hs Hx HP) as (x1 & Hx1 & HP1).
  eapply IH; [|done..]. by eapply reach_step.
Qed.

Lemma terminal_step n s e s' r x y :
  reach n s -> step e s = Some s' -> heap (reg s) !! r = Some x ->
  terminal (jr_state x) = true /\ ~ held s r /\ same_core y x ->
  exists x', heap (reg s') !! r = Some x' /\
    terminal (jr_state x') = true /\ ~ held s' r /\ same_core y x'.
Proof.
  intros Hreach Hstep Hx (Ht & Hn & Hy). pose proof (reachable_inv _ _ _ _ _ Hreach) as Hinv.
  destruct (step_record _ _ _ _ _ Hinv Hstep Hx) as (x' & Hx' & Heff). exists x'.
  assert (~ held s' r) as Hfree.
  { intros Hh. destruct (held_step _ _ _ _ Hinv Hstep Hh) as [|Hq]; [done|].
    by rewrite (queue_not_terminal _ _ _ Hinv Hq Hx) in Ht. }
  destruct Heff as [Hc|[(w & i & -> & pc & pc' & Hw & Hh & _)|(-> & Hr & ->)]].
  - split_and!; [done| |done|by etrans]. destruct Hc as (_ & _ & _ & _ & <- & _). done.
  - destruct Hn. by exists w, pc.
  - destruct (ji_detached _ _ _ Hinv r Hr) as (z & Hz & (Hst & _)). rewrite Hx in Hz.
    injection Hz as <-. by rewrite Hst in Ht.
Qed.

(** A result survives its registry entry: once a record is terminal and its worker
    has let go of it, whatever happens next (release, session close, stop,
    cancellation requests, other workers, allocation failures), a reader that holds
    the record reads the same result and the same status for ever. *)
Theorem terminal_snapshot_stable n es s s' r x :
  reach n s -> heap (reg s) !! r = Some x ->
  terminal (jr_state x) = true -> ~ held s r -> run_events es s = Some s' ->
  exists x', heap (reg s') !! r = Some x' /\
    result_snapshot x' = result_snapshot x /\ status_snapshot x' = status_snapshot x.
Proof.
  intros Hreach Hx Ht Hn Hrun.
  destruct (run_record (fun s y => terminal (jr_state y) = true /\ ~ held s r /\ same_core x y) n r
    (fun s e s' y => terminal_step n s e s' r y x) es s s' x Hreach Hrun Hx) as (x' & Hx' & _ & _ & Hc).
  { split_and!; done. }
  exists x'. split; [done|]. destruct Hc as (H1 & H2 & _ & _ & H3 & H4 & H5).
  unfold result_snapshot, status_snapshot. by rewrite H1, H2, H3, H4, H5.
Qed.

(** *** Cancellation *)

Context {HRL : RuntimeLaws RT}.

Lemma cancel_fold_keeps rs (h : list JobRecord) r x :
  h !! r = Some x -> is_cancelled x = true ->
  exists x', fold_left (fun h r => alter cancel_record r h) rs h !! r = Some x' /\
    is_cancelled x' = true.
Proof.
  revert h x. induction rs as [|r1 rs IH]; intros h x Hx Hc; cbn; [eauto|].
  destruct (decide (r = r1)) as [->|Hn].
  - apply (IH _ (cancel_record x)); [by rewrite list_lookup_alter_eq, Hx|apply cancel_cancels].
  - apply (IH _ x); [by rewrite list_lookup_alter_ne|done].
Qed.

(** A requested cancellation is never withdrawn. *)
Lemma cancelled_step s e s' r x :
  inv s -> step e s = Some s' -> heap (reg s) !! r = Some x -> is_cancelled x = true ->
  exists x', heap (reg s') !! r = Some x' /\ is_cancelled x' = true.
Proof.
  intros Hinv Hstep Hx Hc.
  destruct (step_record _ _ _ _ _ Hinv Hstep Hx) as (x' & Hx' & Heff).
  destruct Heff as [_|[(w & i & -> & pc & pc' & _ & _ & _ & _ & _ & Hcan & _)|(-> & Hr & ->)]];
    [|exists x'; split; [done|]; unfold is_cancelled in *; by rewrite Hcan
     |exists (settled_record x); split; [done|]; apply cancel_cancels].
  destruct e; cbn in Hstep.
  - destruct (workers s !! w) as [pc|] eqn:Hw; [|done]. cbn in Hstep.
    destruct (worker_step gpu_enabled i (reg s) pc) as [[g pc']|] eqn:Hws; [|done].
    injection Hstep as <-. cbn in *.
    apply worker_step_effect in Hws as [(-> & _ & -> & ->)|[(r1 & q & -> & _ & Hq & -> & ->)|
      (r1 & y & y' & Hh & Hy & -> & Hid & Hcan & _)]]; [eauto|eauto| |].
    + cbn. destruct (decide (r = r1)) as [->|Hn].
      * rewrite list_lookup_alter_eq, Hx. rewrite Hx in Hy. injection Hy as <-.
        exists y'. split; [done|]. unfold is_cancelled in *. by rewrite Hcan.
      * rewrite list_lookup_alter_ne by done. eauto.
    + intros r' Hr'. by eapply ji_held.
  - injection Hstep as <-. exists x. split; [|done]. unfold submit.
    repeat case_match; cbn; try done. by apply lookup_app_l_Some.
  - injection Hstep as <-. cbn. unfold cancel_section, update. cbn.
    destruct (decide (r = r0)) as [->|Hn]; [|rewrite list_lookup_alter_ne by done; eauto].
    rewrite list_lookup_alter_eq, Hx. eexists. split; [done|].
    destruct (terminal (jr_state x)); [done|apply cancel_cancels].
  - injection Hstep as <-. exists x. split; [|done]. cbn [with_reg reg]. unfold release.
    by repeat case_match.
  - unfold close_detach in Hstep. exists x. split; [|done]. destruct fails; by injection Hstep as <-.
  - case_bool_decide; [|done]. injection Hstep as <-. cbn.
    destruct (decide (r = r0)) as [->|Hn]; [|rewrite list_lookup_alter_ne by done; eauto].
    rewrite list_lookup_alter_eq, Hx. eexists. split; [done|]. apply cancel_cancels.
  - injection Hstep as <-. cbn. unfold stop_section.
    destruct (stopping (reg s)); [eauto|]. cbn. by eapply cancel_fold_keeps.
Qed.


(** *** Workers *)

Lemma workers_length_step s e s' : step e s = Some s' -> length (workers s') = length (workers s).
Proof.
  destruct e; cbn; intros Hstep; try by injection Hstep as <-.
  - destruct (workers s !! w); [|done]. cbn in Hstep.
    destruct (worker_step _ _ _ _) as [[g pc']|]; [|done]. injection Hstep as <-. cbn.
    by rewrite length_insert.
  - destruct (close_detach _ _ _) as [g [[q rn]|exn]]; by injection Hstep as <-.
  - case_bool_decide; [|done]. by injection Hstep as <-.
Qed.

Lemma workers_length n s : reach n s -> length (workers s) = n.
Proof.
  induction 1 as [|s e s' _ IH Hstep]; [apply length_replicate|].
  by rewrite (workers_length_step _ _ _ Hstep).
Qed.

(** A list of distinct elements, each hosted by its own index. *)
Lemma hosts_bound {A} (l : list A) (host : A -> nat -> Prop) n :
  NoDup l -> (forall x, x ∈ l -> exists w, (w < n)%nat /\ host x w) ->
  (forall x y w, x ∈ l -> y ∈ l -> host x w -> host y w -> x = y) -> (length l <= n)%nat.
Proof.
  intros Hnd Hex Hinj.
  assert (exists ws, Forall2 (fun x w => (w < n)%nat /\ host x w) l ws) as [ws Hws].
  { clear Hnd Hinj. induction l as [|x l IH]; [by exists []|].
    destruct (Hex x) as [w Hw]; [by left|]. destruct IH as [ws Hws]; [intros; apply Hex; by right|].
    exists (w :: ws). by constructor. }
  rewrite (Forall2_length _ _ _ Hws), <- (length_seq n 0).
  apply submseteq_length, NoDup_submseteq.
  - clear Hex. induction Hws as [|x w l ws [Hw Hx] Hws IH]; [constructor|].
    inversion_clear Hnd as [|? ? Hxl Hndl].
    constructor; [|apply IH; [done|intros; eapply Hinj; by first [right|done]]].
    intros Hin. apply list_elem_of_lookup in Hin as [i Hi].
    destruct (Forall2_lookup_r _ _ _ _ _ Hws Hi) as (y & Hy & [_ Hhost]).
    apply list_elem_of_lookup_2 in Hy.
    assert (x = y) as -> by (eapply Hinj; [by left|by right|done|done]). done.
  - intros w Hin. apply list_elem_of_lookup in Hin as [i Hi].
    destruct (Forall2_lookup_r _ _ _ _ _ Hws Hi) as (y & _ & [Hlt _]). apply elem_of_seq. lia.
Qed.

(** At most [maximum_concurrency] executions run at a time: distinct records in the
    Running state are held by distinct workers. *)
Theorem running_bounded n s rs :
  reachable maximum_jobs instance_id gpu_enabled n s -> NoDup rs ->
  (forall r, r ∈ rs -> exists x, heap (reg s) !! r = Some x /\ jr_state x = JobState.Running) ->
  (length rs <= n)%nat.
Proof.
  intros Hreach Hnd Hrun. pose proof (reachable_inv _ _ _ _ _ Hreach) as Hinv.
  apply (hosts_bound rs (fun r w => exists pc, workers s !! w = Some pc /\ holds pc = Some r)).
  - done.
  - intros r Hr. destruct (Hrun r Hr) as (x & Hx & Hst).
    destruct (ji_complete _ _ _ Hinv r x Hx) as [Ht|[Hq|[Hd|(w & pc & Hw & Hh)]]].
    + by rewrite Hst in Ht.
    + destruct (ji_queue _ _ _ Hinv r Hq) as (y & Hy & (Hs & _) & _). simplify_eq. congruence.
    + destruct (ji_detached _ _ _ Hinv r Hd) as (y & Hy & (Hs & _)). simplify_eq. congruence.
    + exists w. rewrite <- (workers_length _ _ Hreach). split; [by eapply lookup_lt_Some|eauto].
  - intros r1 r2 w _ _ (pc1 & Hw1 & Hh1) (pc2 & Hw2 & Hh2). simplify_eq. congruence.
Qed.

(** Workers serve the queue in submission order: a worker that pops a record takes
    the oldest identifier of the queue, and no record it leaves there is older. *)
Theorem workers_pop_fifo n s w i s' r :
  reachable maximum_jobs instance_id gpu_enabled n s -> workers s !! w = Some WIdle -> step (EWorker w i) s = Some s' ->
  workers s' !! w = Some (WPopped r) ->
  exists x, heap (reg s) !! r = Some x /\ queue (reg s) = r :: queue (reg s') /\
    jr_state x = JobState.Queued /\
    forall r' x', r' ∈ queue (reg s') -> heap (reg s) !! r' = Some x' ->
      job_value (jr_id x) < job_value (jr_id x').
Proof.
  intros Hreach Hw Hstep Hw'. pose proof (reachable_inv _ _ _ _ _ Hreach) as Hinv.
  cbn in Hstep. rewrite Hw in Hstep. cbn in Hstep.
  assert (w < length (workers s))%nat as Hlt by (by eapply lookup_lt_Some).
  destruct (stopping (reg s)).
  { injection Hstep as <-. cbn in Hw'. by rewrite list_lookup_insert_eq in Hw'. }
  destruct (queue (reg s)) as [|r1 q] eqn:Hq; [done|]. injection Hstep as <-.
  cbn in Hw'. rewrite list_lookup_insert_eq in Hw' by done. injection Hw' as ->. cbn.
  destruct (ji_queue _ _ _ Hinv r) as (x & Hx & (Hst & _) & _); [rewrite Hq; by left|].
  exists x. split_and!; [done..|]. intros r' x' Hr' Hx'.
  pose proof (ji_fifo _ _ _ Hinv) as Hfifo. rewrite Hq in Hfifo.
  inversion_clear Hfifo as [|? ? _ Hall]. rewrite Forall_forall in Hall.
  eapply ji_order; [done|done|done|by apply Hall].
Qed.

(** *** Executions end *)

(** The answers a program point waits for. *)
Definition matched (pc : worker_pc) (i : worker_input) : Prop :=
  match pc with
  | WCompile _ _ _ => exists a, i = Compiles a
  | WExecute _ _ _ => exists a, i = Executes a
  | _ => True
  end.

(** Steps left at most. *)
Definition steps_left (pc : worker_pc) : nat :=
  match pc with
  | WIdle | WExited => 0
  | WFinishBare _ _ => 1
  | WFinishSafely _ _ _ => 2
  | WPublish _ _ | WFinishFailure _ _ | WFinishCancelled _ _ => 3
  | WExecuted _ _ => 4
  | WExecute _ _ _ => 5
  | WCompiled _ _ => 6
  | WCompile _ _ _ => 7
  | WStarted _ => 8
  | WPopped _ => 9
  end.

Lemma caught_left r e : steps_left (caught r e) = 2%nat.
Proof. by destruct e. Qed.

Lemma worker_step_enabled i g pc r x :
  holds pc = Some r -> heap g !! r = Some x -> matched pc i ->
  exists g' pc', worker_step gpu_enabled i g pc = Some (g', pc') /\
    (steps_left pc' < steps_left pc)%nat.
Proof.
  intros Hh Hx Hm. unfold worker_step.
  destruct pc; try discriminate Hh; injection Hh as ->; rewrite ?Hx; cbn [mbind option_bind].
  - destruct (start (input_fails i) x) as [x' [[|]|]]; do 2 eexists; (split; [done|cbn; lia]).
  - destruct (is_cancelled x); [destruct (input_fails i)|]; do 2 eexists; (split; [done|cbn; lia]).
  - destruct Hm as [[[plan|st]|e] ->]; do 2 eexists; (split; [done|rewrite ?caught_left; cbn; lia]).
  - destruct (is_cancelled x); [destruct (input_fails i)|]; do 2 eexists; (split; [done|cbn; lia]).
  - destruct Hm as [[a|e] ->]; do 2 eexists; (split; [done|rewrite ?caught_left; cbn; lia]).
  - destruct answer; do 2 eexists; (split; [done|]); [cbn; lia|].
    destruct (_ || _); cbn; lia.
  - do 2 eexists. split; [done|]. destruct (publish _ _ _) as [x' [|]]; cbn; lia.
  - destruct (input_fails i); do 2 eexists; (split; [done|]); [cbn; lia|].
    destruct (finish_failure _ _ _) as [x' [|]]; cbn; lia.
  - do 2 eexists. split; [done|]. destruct (finish_cancelled _ _ _) as [x' [|]]; cbn; lia.
  - destruct (input_fails i); do 2 eexists; (split; [done|]); [cbn; lia|].
    destruct (finish_failure _ _ _) as [x' [|]]; cbn; lia.
  - do 2 eexists. split; [done|]. cbn. lia.
Qed.

(** Runs one worker until it is idle, asking [choose] for the environment. *)
Fixpoint drive (fuel : nat) (choose : worker_pc -> worker_input) (w : nat) (s : JobSystem) :
    option JobSystem :=
  pc ← workers s !! w;
  match holds pc with
  | None => Some s
  | Some _ =>
    match fuel with
    | O => None
    | S fuel' => s1 ← step (EWorker w (choose pc)) s; drive fuel' choose w s1
    end
  end.

Lemma drive_ends fuel choose w s pc r :
  inv s -> workers s !! w = Some pc -> holds pc = Some r ->
  (forall pc, matched pc (choose pc)) -> (steps_left pc <= fuel)%nat ->
  exists s' x, drive fuel choose w s = Some s' /\ workers s' !! w = Some WIdle /\
    heap (reg s') !! r = Some x /\ terminal (jr_state x) = true.
Proof.
  intros Hinv Hw Hh Hm. revert s pc Hinv Hw Hh.
  induction fuel as [|fuel IH]; intros s pc Hinv Hw Hh Hf.
  { destruct pc; cbn in *; (done || lia). }
  destruct (ji_held _ _ _ Hinv w pc r Hw Hh) as (x & Hx & Hok).
  destruct (worker_step_enabled (choose pc) (reg s) pc r x Hh Hx (Hm pc)) as (g & pc' & Hs & Hlt).
  assert (step (EWorker w (choose pc)) s =
    Some (mk_JobSystem g (<[w:=pc']> (workers s)) (detached s))) as Hstep
    by (cbn; rewrite Hw; cbn; by rewrite Hs).
  cbn [drive]. rewrite Hw. cbn [mbind option_bind]. rewrite Hh, Hstep. cbn [mbind option_bind].
  pose proof (job_step_inv _ _ _ _ _ _ Hinv Hstep) as Hinv'.
  assert (<[w:=pc']> (workers s) !! w = Some pc') as Hw'
    by (rewrite list_lookup_insert_eq; [done|by eapply lookup_lt_Some]).
  destruct (step_record _ _ _ _ _ Hinv Hstep Hx) as (x' & Hx' & Heff).
  destruct (worker_step_effect _ _ _ _ _ _ (fun r' Hr' => ji_held _ _ _ Hinv w pc r' Hw Hr') Hs)
    as [(-> & _)|[(r1 & q & -> & _)|(r1 & y & y' & Hh1 & Hy & -> & _ & _ & _ & _ & Hpc')]];
    [done|done|].
  rewrite Hh in Hh1. injection Hh1 as <-. destruct Hpc' as [[Hh' _]|[-> Ht]].
  - eapply IH; [done|exact Hw'|done|lia].
  - exists (mk_JobSystem (update r (fun _ => y') (reg s)) (<[w:=WIdle]> (workers s)) (detached s)), y'.
    cbn in Hx'. rewrite list_lookup_alter_eq, Hx in Hx'. injection Hx' as <-.
    split_and!; [|done|cbn; by rewrite list_lookup_alter_eq, Hx|done].
    destruct fuel; cbn [drive workers]; by rewrite Hw'.
Qed.

(** C24: Every execution ends: whatever the kernel answers and whichever allocations
    fail, a worker that holds a record gets rid of it in at most nine of its own
    steps, and leaves it in a terminal state, so a namespace close that waits for it
    is woken up. *)
Theorem execution_terminates n s w pc r choose :
  reach n s -> workers s !! w = Some pc -> holds pc = Some r ->
  (forall pc, matched pc (choose pc)) ->
  exists s' x, drive 9 choose w s = Some s' /\ workers s' !! w = Some WIdle /\
    heap (reg s') !! r = Some x /\ terminal (jr_state x) = true.
Proof.
  intros Hreach Hw Hh Hm. eapply drive_ends; [by eapply reachable_inv|done|done|done|].
  destruct pc; cbn; lia.
Qed.
End JobSpec.
