(* ===== verification/JobOutcome.v ===== *)
(** Outcomes of executions under an honest kernel: every snapshot that [job.status]
    takes agrees with its state and can be sent.

    An honest kernel reports failures as failures, with bounded UTF-8 diagnostics,
    and compilation never reports a cancellation; diagnostics can be allocated.
    Both conditions are needed: without them [job.status] can take a snapshot that
    [validate_job_status] refuses. *)
From S2P Require Import Prelude OrdMap Kernel Protocol Utf8 CodecRequest Codec CodecSpec.
From S2P Require Import Layout Jobs JobSystem JobSpec.

Section JobOutcome.
Context `{HK : KernelLaws} {RT : Runtime} {HRL : RuntimeLaws RT}.
Context (maximum_jobs instance_id : Z) (gpu_enabled : bool).

Abbreviation inv := (job_inv maximum_jobs instance_id).
Abbreviation step := (job_step maximum_jobs instance_id gpu_enabled).

(** A failure the wire can carry. *)
Definition failure_ok (st : Status) : Prop := status_ok_wire st /\ code st <> Ok.

Definition honest_exn (e : exn) : Prop :=
  match e with StdException (Some what) => text_ok 4096 what | _ => True end.

Definition honest_input (i : worker_input) : Prop :=
  match i with
  | Go => True
  | AllocFails | AllocFailsLate => False
  | Compiles (Answered (RErr st)) => failure_ok st /\ code st <> Cancelled
  | Executes (Answered (RErr st)) => failure_ok st
  | Compiles (Raised e) | Executes (Raised e) => honest_exn e
  | _ => True
  end.

(** Submissions name a session of this service. *)
Definition honest_event (e : event) : Prop :=
  match e with
  | EWorker _ i => honest_input i
  | ESubmit sid _ _ _ =>
    session_instance sid = instance_id /\ session_value sid <> 0
  | _ => True
  end.

(** The outcome agrees with the state. *)
Definition outcome_ok (x : JobRecord) : Prop :=
  session_instance (jr_session_id x) = instance_id /\ session_value (jr_session_id x) <> 0 /\
  status_ok_wire (jr_outcome x) /\
  match jr_state x with
  | JobState.Queued | JobState.Running => jr_outcome x = success
  | JobState.Succeeded => jr_outcome x = success /\ is_Some (jr_result x)
  | JobState.Failed => code (jr_outcome x) <> Ok /\ code (jr_outcome x) <> Cancelled
  | JobState.Cancelled => code (jr_outcome x) = Cancelled
  | JobState.Unknown _ => False
  end.

(** What a worker is about to publish. *)
Definition pc_honest (pc : worker_pc) : Prop :=
  match pc with
  | WExecuted _ (RErr st) => failure_ok st
  | WFinishFailure _ st => failure_ok st /\ code st <> Cancelled
  | WFinishCancelled _ reason => text_ok 4096 reason
  | WFinishSafely _ c reason =>
    (c = ResourceExhausted \/ c = Internal) /\ text_ok 4096 (default [] reason)
  | WFinishBare _ c => c = ResourceExhausted \/ c = Internal
  | _ => True
  end.

Definition honest_inv (s : JobSystem) : Prop :=
  inv s /\ (forall r x, heap (reg s) !! r = Some x -> outcome_ok x) /\
  (forall w pc, workers s !! w = Some pc -> pc_honest pc).

(** Literals are bounded ASCII. *)
Definition text_okb (maximum : Z) (s : bytes) : bool :=
  (zlen s <=? maximum) && valid_utf8 s && forallb (fun b => (0 <=? b) && (b <? 256)) s.

Lemma text_okb_ok maximum s : text_okb maximum s = true -> text_ok maximum s.
Proof.
  unfold text_okb, text_ok. rewrite !andb_true_iff, Z.leb_le, forallb_forall.
  intros [[Hl Hu] Hb]. split_and!; [done|done|]. apply Forall_forall. intros b Hin.
  apply list_elem_of_In, Hb in Hin. unfold is_uint. lia.
Qed.

Lemma code_in_range c :
  c ∈ [Ok; InvalidArgument; NotFound; ResourceExhausted; Cancelled; Internal] ->
  0 <= c <= Internal.
Proof. intros Hc. pose proof codes_bounded as Hb. rewrite Forall_forall in Hb. auto. Qed.

(** A failure made of a known code and bounded text. *)
Lemma failure_wire c m :
  c ∈ [InvalidArgument; NotFound; ResourceExhausted; Cancelled; Internal] ->
  text_ok 4096 m -> status_ok_wire (failure c m) /\ code (failure c m) <> Ok.
Proof.
  intros Hc Hm. assert (c <> Ok) as Hne.
  { pose proof codes_distinct as Hnd. apply NoDup_cons in Hnd as [Hnd _]. by intros ->. }
  split; [|done]. split; [apply code_in_range; by right|]. by split.
Qed.

Lemma success_wire : status_ok_wire success.
Proof.
  split; [apply code_in_range; by left|]. split; [|done]. by apply text_okb_ok.
Qed.

Lemma empty_wire c :
  c ∈ [InvalidArgument; NotFound; ResourceExhausted; Cancelled; Internal] ->
  status_ok_wire (mk_Status c []) /\ code (mk_Status c []) <> Ok.
Proof. intros Hc. apply (failure_wire c []); [done|]. by apply text_okb_ok. Qed.

Lemma caught_honest r e : honest_exn e -> pc_honest (caught r e).
Proof.
  destruct e as [|[what|]|]; cbn; intros He; (split; [auto|]); try done; by apply text_okb_ok.
Qed.

Lemma worker_step_honest i g pc g' pc' r x :
  honest_input i -> pc_honest pc -> holds pc = Some r -> heap g !! r = Some x ->
  held_ok pc x -> outcome_ok x ->
  worker_step gpu_enabled i g pc = Some (g', pc') ->
  pc_honest pc' /\ exists x', heap g' !! r = Some x' /\ outcome_ok x'.
Proof.
  intros Hi Hpc Hh Hx Hok Hout Hstep.
  assert (input_fails i = false /\ input_fails_late i = false) as [Hf Hl] by (by destruct i).
  assert (forall f, heap (update r (fun _ => f) g) !! r = Some f) as Hupd
    by (intros f; cbn; by rewrite list_lookup_alter_eq, Hx).
  pose proof Hout as (Hsi & Hsv & Hw & Hst).
  unfold worker_step in Hstep.
  destruct pc; try discriminate Hh; injection Hh as ->; rewrite ?Hx in Hstep;
    cbn [mbind option_bind] in Hstep; rewrite ?Hf, ?Hl in Hstep.
  - destruct Hok as (Hs & Ho & Hr). unfold start in Hstep. rewrite Hs in Hstep.
    rewrite bool_decide_eq_false_2 in Hstep by (intros []; done). injection Hstep as <- <-.
    split; [done|]. eexists. split; [apply Hupd|]. split_and!; try done. 
  - destruct (is_cancelled x); injection Hstep as <- <-; (split; [|eauto]); [|done].
    by apply text_okb_ok.
  - destruct i as [| | |[[pl|st]|e]|]; try done; injection Hstep as <- <-; (split; [|eauto]);
      [done|done|by apply caught_honest].
  - destruct (is_cancelled x); injection Hstep as <- <-; (split; [|eauto]); [|done].
    by apply text_okb_ok.
  - destruct i as [| | | |[[v|st]|e]]; try done; injection Hstep as <- <-; (split; [|eauto]);
      [done|done|by apply caught_honest].
  - destruct answer as [v|st]; cbn [mbind option_bind] in Hstep; rewrite ?Hx in Hstep;
      cbn [mbind option_bind] in Hstep; injection Hstep as <- <-; (split; [|eauto]); [done|].
    destruct (Z.eqb_spec (code st) Cancelled); cbn [orb]; [by destruct Hpc as [(_ & ? & _) _]|].
    destruct (is_cancelled x); [by destruct Hpc as [(_ & ? & _) _]|done].
  - destruct Hok as (Hs & Ho & Hr). unfold publish in Hstep.
    destruct (is_cancelled x); injection Hstep as <- <-; (split; [done|]);
      (eexists; split; [apply Hupd|]); split_and!; try done.
    + apply failure_wire; [known_code|by apply text_okb_ok].
    + apply success_wire.
  - destruct Hpc as [[Hwire Hnok] Hnc]. unfold finish_failure in Hstep.
    destruct (is_cancelled x); injection Hstep as <- <-; (split; [done|]);
      (eexists; split; [apply Hupd|]); split_and!; try done.
    apply failure_wire; [known_code|by apply text_okb_ok].
  - unfold finish_cancelled in Hstep. injection Hstep as <- <-. split; [done|].
    eexists; split; [apply Hupd|]. split_and!; try done.
    apply failure_wire; [known_code|]. destruct reason; [by apply text_okb_ok|done].
  - destruct Hpc as [Hc Htext]. unfold finish_failure in Hstep.
    assert (c ∈ [InvalidArgument; NotFound; ResourceExhausted; Cancelled; Internal]) as Hin
      by (destruct Hc as [->| ->]; known_code).
    assert (c <> Cancelled) as Hnc by (destruct Hc as [->| ->]; codes).
    destruct (failure_wire c _ Hin Htext) as [Hwire Hnok].
    destruct (is_cancelled x); injection Hstep as <- <-; (split; [done|]);
      (eexists; split; [apply Hupd|]); split_and!; try done.
    apply failure_wire; [known_code|by apply text_okb_ok].
  - assert (c ∈ [InvalidArgument; NotFound; ResourceExhausted; Cancelled; Internal]) as Hin
      by (destruct Hpc as [->| ->]; known_code).
    assert (c <> Cancelled) as Hnc by (destruct Hpc as [->| ->]; codes).
    unfold finish_bare in Hstep. injection Hstep as <- <-. split; [done|].
    eexists; split; [apply Hupd|]. split_and!; try done; cbn.
    + destruct (is_cancelled x); apply empty_wire; [known_code|done].
    + destruct (is_cancelled x); cbn; [done|]. split; [|done]. by apply empty_wire.
Qed.

Lemma outcome_ok_core x y : same_core x y -> outcome_ok x -> outcome_ok y.
Proof.
  intros (_ & Hs & _ & _ & Hst & Ho & Hr). unfold outcome_ok. by rewrite Hs, Hst, Ho, Hr.
Qed.

Lemma step_workers_unchanged e s s' w :
  step e s = Some s' -> (forall i, e <> EWorker w i) -> workers s' !! w = workers s !! w.
Proof.
  destruct e; cbn; intros Hstep Hne; try by injection Hstep as <-.
  - destruct (workers s !! w0); [|done]. cbn in Hstep.
    destruct (worker_step _ _ _ _) as [[g pc']|]; [|done]. injection Hstep as <-. cbn.
    apply list_lookup_insert_ne. intros <-. by eapply Hne.
  - destruct (close_detach _ _ _) as [g [[q rn]|exn]]; by injection Hstep as <-.
  - case_bool_decide; [|done]. by injection Hstep as <-.
Qed.

(** Records come from [submit]. *)
Lemma step_new_record e s s' r x :
  inv s -> step e s = Some s' -> heap (reg s') !! r = Some x -> heap (reg s) !! r = None ->
  exists sid graph options fails, e = ESubmit sid graph options fails /\
    x = mk_JobRecord (jr_id x) sid graph options JobState.Queued success fresh_source None.
Proof.
  intros Hinv Hstep Hx Hnone.
  assert (length (heap (reg s')) = length (heap (reg s)) -> False) as Hlen.
  { intros Hl. apply lookup_ge_None in Hnone. apply lookup_lt_Some in Hx. lia. }
  destruct e; cbn in Hstep.
  - exfalso. apply Hlen. destruct (workers s !! w) as [pc|] eqn:Hw; [|done]. cbn in Hstep.
    destruct (worker_step gpu_enabled i (reg s) pc) as [[g pc']|] eqn:Hws; [|done].
    injection Hstep as <-. cbn.
    apply worker_step_effect in Hws as [(_ & _ & -> & _)|[(r1 & q & _ & _ & _ & -> & _)|
      (r1 & y & y' & _ & _ & -> & _)]]; [done|done|cbn; apply length_alter|].
    intros r' Hr'. by eapply ji_held.
  - injection Hstep as <-. exists session_id, graph, options, fails. split; [done|].
    cbn in Hx. unfold submit in Hx. repeat case_match; cbn in Hx; try congruence.
    apply lookup_app_Some in Hx as [Hx|[_ Hx]]; [congruence|].
    apply list_lookup_singleton_Some in Hx as [_ <-]. done.
  - injection Hstep as <-. destruct Hlen. cbn. apply length_alter.
  - injection Hstep as <-. destruct Hlen. cbn. unfold release. by repeat case_match.
  - destruct Hlen. unfold close_detach in Hstep. destruct fails; by injection Hstep as <-.
  - case_bool_decide; [|done]. injection Hstep as <-. destruct Hlen. cbn. apply length_alter.
  - injection Hstep as <-. destruct Hlen. cbn. unfold stop_section.
    destruct (stopping (reg s)); [done|]. cbn. symmetry. eapply Forall2_length, stop_heap_core.
Qed.

Lemma honest_step e s s' :
  honest_event e -> honest_inv s -> step e s = Some s' -> honest_inv s'.
Proof.
  intros He (Hinv & Hrec & Hpcs) Hstep. split; [by eapply job_step_inv|].
  assert (forall w i pc r x, e = EWorker w i -> workers s !! w = Some pc -> holds pc = Some r ->
    heap (reg s) !! r = Some x -> forall pc', workers s' !! w = Some pc' ->
    pc_honest pc' /\ exists x', heap (reg s') !! r = Some x' /\ outcome_ok x') as Hworker.
  { intros w i pc r x -> Hw Hh Hx pc' Hw'. cbn in Hstep. rewrite Hw in Hstep. cbn in Hstep.
    destruct (worker_step gpu_enabled i (reg s) pc) as [[g pc1]|] eqn:Hws; [|done].
    injection Hstep as <-. cbn in Hw'.
    rewrite list_lookup_insert_eq in Hw' by (by eapply lookup_lt_Some). injection Hw' as ->.
    destruct (ji_held _ _ _ Hinv w pc r Hw Hh) as (y & Hy & Hok). rewrite Hx in Hy. injection Hy as <-.
    eapply worker_step_honest; eauto. }
  split.
  - intros r x' Hx'. destruct (heap (reg s) !! r) as [x|] eqn:Hx.
    + destruct (step_record _ _ _ _ _ _ _ _ Hinv Hstep Hx) as (x2 & Hx2 & Heff). simplify_eq.
      destruct Heff as [Hc|[(w & i & -> & pc & pc' & Hw & Hh & _ & Hw' & _)|(-> & Hr & ->)]].
      * eapply outcome_ok_core; eauto.
      * destruct (Hworker w i pc r x eq_refl Hw Hh Hx pc' Hw') as (_ & y & Hy & ?). by simplify_eq.
      * destruct (Hrec r x Hx) as (? & ? & _). split_and!; try done. cbn.
        apply (empty_wire Cancelled). known_code.
    + destruct (step_new_record _ _ _ _ _ Hinv Hstep Hx' Hx) as (sid & g & o & f & -> & ->).
      destruct He as [? ?]. split_and!; try done. apply success_wire.
  - intros w pc' Hw'. assert ((exists i, e = EWorker w i) \/ forall i, e <> EWorker w i) as [[i ->]|Hne].
    { destruct e as [w' i| | | | | |]; try (right; discriminate).
      destruct (decide (w' = w)) as [->|Hn]; [left; by eexists|]. right. by intros j [= ->]. }
    + destruct (workers s !! w) as [pc|] eqn:Hw.
      * destruct (holds pc) as [r|] eqn:Hh.
        -- destruct (ji_held _ _ _ Hinv w pc r Hw Hh) as (x & Hx & _).
           by apply (Hworker w i pc r x eq_refl Hw Hh Hx).
        -- cbn in Hstep. rewrite Hw in Hstep. cbn in Hstep.
           destruct (worker_step gpu_enabled i (reg s) pc) as [[g pc1]|] eqn:Hws; [|done].
           injection Hstep as <-. cbn in Hw'.
           rewrite list_lookup_insert_eq in Hw' by (by eapply lookup_lt_Some). injection Hw' as ->.
           apply worker_step_effect in Hws as [(_ & _ & _ & ->)|[(r1 & q & _ & _ & _ & _ & ->)|
             (r1 & y & y' & Hh1 & _)]]; [done|done|congruence|]. intros r Hr. congruence.
      * cbn in Hstep. by rewrite Hw in Hstep.
    + rewrite (step_workers_unchanged _ _ _ _ Hstep) in Hw'; [eauto|done].
Qed.

Lemma honest_initial n : honest_inv (initial n).
Proof.
  split; [apply inv_initial|]. split; [done|]. intros w pc Hw. cbn in Hw.
  by apply lookup_replicate in Hw as [-> _].
Qed.

Lemma honest_run n es s :
  Forall honest_event es -> run maximum_jobs instance_id gpu_enabled es (initial n) = Some s ->
  honest_inv s.
Proof.
  intros Hes. assert (honest_inv (initial n)) as Hinit by apply honest_initial.
  revert Hinit. generalize (initial n).
  induction Hes as [|e es He _ IH]; intros s0 H0 Hrun; cbn in Hrun; [by injection Hrun as <-|].
  destruct (step e s0) as [s1|] eqn:Hs; [|done]. eapply IH; [|exact Hrun]. by eapply honest_step.
Qed.

Lemma snapshot_valid s r x :
  honest_inv s -> 0 < instance_id -> heap (reg s) !! r = Some x ->
  job_status_valid (status_snapshot x) = true /\ status_ok_wire (jr_outcome x).
Proof.
  intros (Hinv & Hrec & _) Hinst Hx. destruct (Hrec r x Hx) as (Hsi & Hsv & Hw & Hst).
  split; [|done]. destruct (ji_ids _ _ _ Hinv r x Hx) as (v & Hid & Hv & _).
  unfold job_status_valid, status_snapshot. cbn [js_job_id js_session_id js_state js_outcome].
  rewrite Hid, Hsi. cbn [job_instance job_value].
  replace (instance_id =? 0) with false by lia. replace (v =? 0) with false by lia.
  replace (session_value (jr_session_id x) =? 0) with false by lia. rewrite Z.eqb_refl.
  cbn [negb andb]. unfold status_ok.
  destruct (jr_state x); [rewrite Hst; apply Z.eqb_refl..|destruct Hst as [-> _]; apply Z.eqb_refl| | |done].
  - destruct Hst as [H1 H2]. apply Z.eqb_neq in H1, H2. by rewrite H1, H2.
  - by apply Z.eqb_eq.
Qed.

End JobOutcome.
