(* ===== verification/JobOps.v ===== *)
(** The functional behaviour of the registry's operations on every branch, in any
    reachable state. *)
From S2P Require Import Prelude OrdMap Kernel Protocol Jobs JobSystem.

Section JobOps.
Context `{HK : KernelLaws} {RT : Runtime}.
Context (maximum_jobs instance_id : Z) (gpu_enabled : bool).

Abbreviation inv := (job_inv maximum_jobs instance_id).
Abbreviation reach := (reachable maximum_jobs instance_id gpu_enabled).

(** What [submit] owes its caller. *)
Definition submit_post (sid : SessionId) (graph : GraphContext) (options : JobSubmitOptions)
    (fails : option submit_failure) (g g' : JobRegistry) (res : call_result (Result JobId)) :
    Prop :=
  match res with
  | inl (ROk id) =>
    stopping g = false /\ zlen (jobs g) < maximum_jobs /\ fails = None /\
    id = mk_JobId instance_id (next_id g) /\ 0 < next_id g /\
    (forall r x, heap g !! r = Some x -> job_value (jr_id x) < job_value id) /\
    find instance_id id g' = Some (length (heap g)) /\
    heap g' = heap g ++ [mk_JobRecord id sid graph options JobState.Queued success fresh_source None] /\
    queue g' = queue g ++ [length (heap g)] /\ zlen (jobs g') = zlen (jobs g) + 1
  | inl (RErr st) =>
    g' = g /\
    ((stopping g = true /\ code st = Cancelled) \/
     (stopping g = false /\ code st = ResourceExhausted /\
      (maximum_jobs <= zlen (jobs g) \/ next_id g = 0)))
  | inr e =>
    e = BadAlloc /\ is_Some fails /\
    heap g' = heap g /\ jobs g' = jobs g /\ queue g' = queue g /\ stopping g' = stopping g
  end.

(** [submit] admits exactly when the registry is not stopping, is below its bound
    and has an identifier left; it then returns an identifier above every one ever
    issued, findable at once and last in the queue.  Otherwise it reports the precise
    category and changes nothing; running out of memory rolls the publication back;
    the duplicate-identifier branch is unreachable. *)
Theorem submit_spec n s sid graph options fails :
  reach n s ->
  let '(g', res) := submit maximum_jobs instance_id sid graph options fails (reg s) in
  submit_post sid graph options fails (reg s) g' res.
Proof.
  intros Hreach. pose proof (reachable_inv _ _ _ _ _ Hreach) as Hinv.
  pose proof (ji_sorted _ _ _ Hinv) as Hsort. pose proof (ji_next _ _ _ Hinv) as Hnext.
  assert (forall r x, heap (reg s) !! r = Some x -> next_id (reg s) <> 0 ->
    job_value (jr_id x) < next_id (reg s)) as Hless.
  { intros r x Hx Hz. destruct (ji_ids _ _ _ Hinv r x Hx) as (v & -> & _ & [|]); [done|done]. }
  unfold submit. destruct (stopping (reg s)) eqn:Hst; [by split; [|left]|].
  destruct (Z.leb_spec maximum_jobs (zlen (jobs (reg s)))).
  { split; [done|]. right. split_and!; [done|done|by left]. }
  destruct (Z.eqb_spec (next_id (reg s)) 0).
  { split; [done|]. right. split_and!; [done|done|by right]. }
  case_bool_decide as Hf1; [by rewrite Hf1|]. case_bool_decide as Hf2; [by rewrite Hf2|].
  cbn [job_value]. destruct (emplace _ _ _) as [jobs'|] eqn:Hemp.
  - case_bool_decide as Hf3.
    + rewrite Hf3. unfold submit_post. cbn. split_and!; try done. by eapply map_erase_emplace.
    + pose proof (emplace_length _ _ _ _ Hemp) as Hlen. unfold submit_post.
      assert (fails = None) as ->.
      { destruct fails as [[]|]; [by destruct Hf1|by destruct Hf2|by destruct Hf3|done]. }
      split_and!; try done; [lia|cbn; eauto| |cbn; unfold zlen; lia].
      unfold find. cbn [job_instance job_value jobs]. rewrite Z.eqb_refl.
      replace (next_id (reg s) =? 0) with false by lia. cbn [negb orb].
      apply map_find_elem; [by eapply emplace_sorted|].
      rewrite (emplace_elem _ _ _ _ _ Hemp). by left.
  - apply (emplace_none _ _ _ Hsort) in Hemp as [r Hr].
    apply (map_find_elem _ _ _ Hsort) in Hr. destruct (ji_jobs _ _ _ Hinv _ _ Hr) as (x & Hx & Hid).
    specialize (Hless r x Hx ltac:(done)). rewrite Hid in Hless. cbn in Hless. lia.
Qed.

(** [release] succeeds exactly on a retained terminal record of this instance; it
    removes that binding alone, so the identifier is not found again and no other
    record is touched. A stale, foreign or zero identifier is [NotFound], a
    nonterminal one [InvalidArgument], and both leave the registry unchanged. *)
Theorem release_spec n s id :
  reach n s ->
  let '(g', st) := release instance_id id (reg s) in
  match find instance_id id (reg s) with
  | None => g' = reg s /\ code st = NotFound
  | Some r => exists x, heap (reg s) !! r = Some x /\
      if terminal (jr_state x)
      then st = success /\ find instance_id id g' = None /\ heap g' = heap (reg s) /\
           queue g' = queue (reg s) /\
           (forall id', id' <> id -> find instance_id id' g' = find instance_id id' (reg s))
      else g' = reg s /\ code st = InvalidArgument
  end.
Proof.
  intros Hreach. pose proof (reachable_inv _ _ _ _ _ Hreach) as Hinv.
  pose proof (ji_sorted _ _ _ Hinv) as Hsort. unfold release, find.
  destruct (map_find (job_value id) (jobs (reg s))) as [r|] eqn:Hf;
    destruct (negb (job_instance id =? instance_id) || (job_value id =? 0)) eqn:Hc; [done| |done..].
  apply (map_find_elem _ _ _ Hsort) in Hf.
  destruct (ji_jobs _ _ _ Hinv _ _ Hf) as (x & Hx & Hid). rewrite Hx.
  destruct (terminal (jr_state x)) eqn:Ht; exists x; (split; [done|]); rewrite Ht; [|done].
  assert (forall k v, map_find k (map_erase (job_value id) (jobs (reg s))) = Some v <->
    map_find k (jobs (reg s)) = Some v /\ k <> job_value id) as Hfind.
  { intros k v. rewrite !map_find_elem, map_erase_elem; try done.
    eapply sorted_map_sublist; [apply map_erase_sublist|done]. }
  split_and!; try done.
  - cbn [jobs set_jobs]. destruct (map_find _ (map_erase _ _)) as [v|] eqn:Hv; [|done].
    apply Hfind in Hv as [_ Hne]. done.
  - intros id' Hne. cbn [jobs set_jobs].
    destruct (negb (job_instance id' =? instance_id) || (job_value id' =? 0)) eqn:Hc'; [done|].
    assert (job_value id' <> job_value id) as Hv.
    { intros Hv. apply Hne. destruct id, id'. cbn in *. f_equal; lia. }
    destruct (map_find (job_value id') (jobs (reg s))) as [v|] eqn:Hf'.
    + by apply Hfind.
    + destruct (map_find _ (map_erase _ _)) as [v|] eqn:Hv'; [|done].
      apply Hfind in Hv' as [Hv' _]. congruence.
Qed.

(** The registry section of [close_session] takes everything of the namespace and
    nothing else: afterwards neither the map nor the queue holds a record of it, the
    detached queued records are still Queued, the others are terminal or held by a
    worker, and the records of other namespaces stay where they were. *)
Theorem close_detach_spec n s sid g queued running :
  reach n s -> close_detach sid false (reg s) = (g, inl (queued, running)) ->
  (forall k r, (k, r) ∈ jobs g <-> (k, r) ∈ jobs (reg s) /\ in_session sid (reg s) r = false) /\
  (forall r, r ∈ queue g <-> r ∈ queue (reg s) /\ in_session sid (reg s) r = false) /\
  (forall k r, (k, r) ∈ jobs (reg s) -> in_session sid (reg s) r = true ->
     r ∈ queued \/ r ∈ running) /\
  (forall r, r ∈ queued -> exists x, heap g !! r = Some x /\ jr_session_id x = sid /\
     jr_state x = JobState.Queued) /\
  (forall r, r ∈ running -> exists x, heap g !! r = Some x /\ jr_session_id x = sid /\
     (terminal (jr_state x) = true \/ held s r \/ r ∈ detached s)) /\
  heap g = heap (reg s).
Proof.
  intros Hreach Hc. pose proof (reachable_inv _ _ _ _ _ Hreach) as Hinv.
  unfold close_detach in Hc.
  set (q := filter (fun r => in_session sid (reg s) r = true) (queue (reg s))) in Hc.
  set (js := erase_queued _ _ _) in Hc. injection Hc as <- <- <-.
  pose proof (ji_sorted _ _ _ Hinv) as Hsort.
  assert (forall p, p ∈ js -> p ∈ jobs (reg s)) as Hsub.
  { intros p Hp. by eapply elem_of_submseteq, sublist_submseteq, erase_queued_sublist. }
  assert (forall k r, (k, r) ∈ jobs (reg s) -> r ∉ q -> (k, r) ∈ js) as Hkeep.
  { intros k r Hk Hr. apply erase_queued_keep; [exact Hsort|exact Hr|exact Hk]. }
  assert (forall r x, heap (reg s) !! r = Some x -> in_session sid (reg s) r = true ->
    jr_session_id x = sid) as Hsess.
  { intros r x Hx. rewrite (in_session_spec _ _ _ _ Hx). by case_bool_decide. }
  split_and!; cbn [jobs queue heap set_queue set_jobs].
  - intros k r. rewrite list_elem_of_filter. cbn. split.
    + intros [Hs Hk]. split; [by apply Hsub|done].
    + intros [Hk Hs]. split; [done|]. apply Hkeep; [done|]. unfold q.
      rewrite list_elem_of_filter. intros [? _]. congruence.
  - intros r. rewrite list_elem_of_filter. tauto.
  - intros k r Hk Hs. destruct (decide (r ∈ q)) as [|Hn]; [by left|]. right.
    apply list_elem_of_fmap. exists (k, r). split; [done|]. apply list_elem_of_filter. split; [done|].
    by apply Hkeep.
  - intros r [Hs Hr]%list_elem_of_filter.
    destruct (ji_queue _ _ _ Hinv r Hr) as (x & Hx & (Hst & _) & _). eauto.
  - intros r ([k r1] & -> & [Hs Hk]%list_elem_of_filter)%list_elem_of_fmap. cbn in *.
    destruct (ji_jobs _ _ _ Hinv k r1 (Hsub _ Hk)) as (x & Hx & Hid). exists x.
    split_and!; [done|by eapply Hsess|].
    destruct (ji_complete _ _ _ Hinv r1 x Hx) as [Ht|[Hq|[Hd|Hh]]]; [by left| |by do 2 right|by right; left].
    destruct (erase_queued_drop (reg s) q (jobs (reg s)) r1 x Hsort); [by apply list_elem_of_filter|done|].
    rewrite Hid. done.
  - done.
Qed.
End JobOps.
