(* ===== verification/Service.v ===== *)
(** The orchestration service ([struct Service::Impl] and [Service::dispatch] of
    [src/lib/orchestration/service.cpp]): sessions, their capacity and their closing,
    admission, and the exception fences of [dispatch].

    Calls of [dispatch] run concurrently.  A call is a program point; a step is what it
    does while it holds its locks, or between them.  [submit] alone keeps
    [lifecycle_mutex] across two steps, and then [lifecycle_held] blocks every step that
    takes that mutex; the other critical sections are one step each. *)
From S2P Require Import Prelude OrdMap Kernel Protocol Codec Jobs JobSystem.

Section Service.
Context `{RT : Runtime}.

(** ** The exception fences *)

Definition set_resp_status (s : Status) (r : Response) : Response :=
  mk_Response (resp_request_id r) (resp_method r) s (resp_session_id r) (resp_job_id r)
    (resp_job_status r) (resp_execution_result r) (resp_daemon_info r)
    (resp_shutdown_after_write r).

(** [fail_response_without_allocation]. *)
Definition fail_response_without_allocation (c : Z) (r : Response) : Response :=
  mk_Response (resp_request_id r) (resp_method r)
    (mk_Status (if c =? Ok then Internal else c) [])
    (mk_SessionId 0 0) (mk_JobId 0 0)
    (mk_JobStatus (mk_JobId 0 0) (mk_SessionId 0 0) JobState.Queued (mk_Status Ok []))
    (mk_ExecutionResult [] (mk_ExecutionDiagnostics 0 [] 0 0 0 [] [] [] []))
    (mk_DaemonInfo 0 0 [] [] [] 0 0 0 0) false.

(** What each catch clause of [dispatch] reports. *)
Definition fence_code (e : exn) : Z :=
  match e with BadAlloc => ResourceExhausted | _ => Internal end.
Definition fence_message (e : exn) : bytes :=
  match e with
  | BadAlloc => lit "daemon orchestration allocation failed"
  | StdException what => default [] what
  | NonStandard => lit "daemon orchestration raised a nonstandard exception"
  end.

(** A catch clause; [again] when the diagnostic cannot be allocated either. *)
Definition fence (e : exn) (again : bool) (r : Response) : Response :=
  let cleared := fail_response_without_allocation (fence_code e) r in
  if again then fail_response_without_allocation (fence_code e) cleared
  else set_resp_status (failure (fence_code e) (fence_message e)) cleared.

(** ** State *)

Record SessionRecord := mk_SessionRecord {
  sr_id : SessionId;
  sr_graph : GraphContext;
  sr_closing : bool;
}.

(** What the method's code gives to [dispatch]. *)
Inductive answer :=
| AnswerSession (r : Result SessionId)
| AnswerStatus (s : Status)
| AnswerJob (r : Result JobId)
| AnswerJobStatus (r : Result JobStatus)
| AnswerResult (r : Result ExecutionResult)
| AnswerInfo (active_sessions active_jobs : Z)
| AnswerShutdown.

(** The program points of a call. *)
Inductive call_pc :=
| CFence                                            (* the shutdown fence of [dispatch] *)
| CCreateReserve                                    (* [create_session] *)
| CCreateBuild
| CCreateCompile (graph : GraphContext)
| CCreatePublish (graph : GraphContext)
| CCreateRollback (outcome : call_result answer)    (* the reservation's destructor *)
| CCloseMark                                        (* [close_session] *)
| CCloseDetach (session : nat)
| CSettleQueued (session : nat) (queued running : list nat)
| CSettleRunning (session : nat) (todo running : list nat)
| CSettleWait (session : nat) (running : list nat)
| CCloseFinalize (session : nat)
| CCloseReopen (session : nat) (e : exn)
| CSubmitLookup                                     (* [submit] *)
| CSubmitAdmit (session : nat)
| CStatusFind | CStatusRead (record : nat)
| CCancelFind | CCancelMark (record : nat)
| CResultFind | CResultRead (record : nat)
| CRelease
| CInfoSessions | CInfoJobs (active_sessions : Z)
| CAnswered (a : answer)                            (* [dispatch] fills the response *)
| CCaught (partial : Response) (e : exn)            (* a catch clause of [dispatch] *)
| CDone (response : Response)
| CTerminated.                                      (* [std::terminate] *)

Record ServiceState := mk_ServiceState {
  sys : JobSystem;
  session_heap : list SessionRecord;
  sessions : list (Z * nat);
  pending_session_creates : Z;
  next_session_id : Z;
  shutting_down : bool;
  lifecycle_held : bool;
  calls : list (Request * call_pc);
}.

Definition set_sys (j : JobSystem) (s : ServiceState) : ServiceState :=
  mk_ServiceState j (session_heap s) (sessions s) (pending_session_creates s)
    (next_session_id s) (shutting_down s) (lifecycle_held s) (calls s).
Definition set_pending (n : Z) (s : ServiceState) : ServiceState :=
  mk_ServiceState (sys s) (session_heap s) (sessions s) n (next_session_id s)
    (shutting_down s) (lifecycle_held s) (calls s).
Definition set_sessions (m : list (Z * nat)) (s : ServiceState) : ServiceState :=
  mk_ServiceState (sys s) (session_heap s) m (pending_session_creates s)
    (next_session_id s) (shutting_down s) (lifecycle_held s) (calls s).
Definition set_closing (r : nat) (b : bool) (s : ServiceState) : ServiceState :=
  mk_ServiceState (sys s)
    (alter (fun x => mk_SessionRecord (sr_id x) (sr_graph x) b) r (session_heap s))
    (sessions s) (pending_session_creates s) (next_session_id s) (shutting_down s)
    (lifecycle_held s) (calls s).
Definition set_lifecycle (b : bool) (s : ServiceState) : ServiceState :=
  mk_ServiceState (sys s) (session_heap s) (sessions s) (pending_session_creates s)
    (next_session_id s) (shutting_down s) b (calls s).
Definition set_shutting_down (s : ServiceState) : ServiceState :=
  mk_ServiceState (sys s) (session_heap s) (sessions s) (pending_session_creates s)
    (next_session_id s) true (lifecycle_held s) (calls s).
Definition set_calls (cs : list (Request * call_pc)) (s : ServiceState) : ServiceState :=
  mk_ServiceState (sys s) (session_heap s) (sessions s) (pending_session_creates s)
    (next_session_id s) (shutting_down s) (lifecycle_held s) cs.

Definition registry (s : ServiceState) : JobRegistry := reg (sys s).
Definition set_registry (g : JobRegistry) (s : ServiceState) : ServiceState :=
  set_sys (with_reg g (sys s)) s.

(** ** Operations *)

Section Operations.
Context (config : ServiceConfig) (instance_id : Z) (daemon_version : bytes).

Definition session_not_found : Status :=
  failure NotFound (lit "ephemeral namespace does not exist").
Definition session_id_exhausted : Status :=
  failure ResourceExhausted (lit "ephemeral namespace id exhausted").

(** [PendingSessionCreateReservation] bound to the service: [active] is [active_], and
    [None] is [std::terminate]. *)
Definition reserve_while_locked (active : bool) (s : ServiceState) :
    option (bool * ServiceState) :=
  if active then None else Some (true, set_pending (pending_session_creates s + 1) s).
Definition commit_while_locked (active : bool) (s : ServiceState) :
    option (bool * ServiceState) :=
  if negb active || (pending_session_creates s =? 0) then None
  else Some (false, set_pending (pending_session_creates s - 1) s).

(** Its destructor. *)
Definition release_reservation (active : bool) (s : ServiceState) : option ServiceState :=
  if negb active then Some s
  else if pending_session_creates s =? 0 then None
  else Some (set_pending (pending_session_creates s - 1) s).

(** The first section of [create_session], with a fresh reservation: why it is refused, if
    it is; [None] is [std::terminate]. *)
Definition reserve_session (s : ServiceState) : ServiceState * option (option Status) :=
  if (cfg_maximum_sessions config <=? zlen (sessions s))
     || (cfg_maximum_sessions config - zlen (sessions s) <=? pending_session_creates s)
  then (s, Some (Some (mk_Status ResourceExhausted [])))
  else if next_session_id s =? 0 then (s, Some (Some session_id_exhausted))
  else match reserve_while_locked false s with
       | Some (_, s') => (s', Some None)
       | None => (s, None)
       end.

(** The last section of [create_session], after the candidate was validated; [fails]
    when the record or its map entry cannot be allocated.  The reservation is still to
    be released unless a Session was published; [None] is [std::terminate]. *)
Definition publish_session (graph : GraphContext) (fails : bool) (s : ServiceState) :
    ServiceState * option (call_result (Result SessionId)) :=
  if fails then (s, Some (inr BadAlloc))
  else if next_session_id s =? 0 then (s, Some (inl (RErr session_id_exhausted)))
  else
    let id := mk_SessionId instance_id (next_session_id s) in
    match emplace (session_value id) (length (session_heap s)) (sessions s) with
    | None =>
      (s, Some (inl (RErr (failure Internal (lit "ephemeral namespace id was duplicated")))))
    | Some sessions' =>
      match commit_while_locked true s with
      | None => (s, None)
      | Some (_, s) =>
        (mk_ServiceState (sys s) (session_heap s ++ [mk_SessionRecord id graph false])
           sessions' (pending_session_creates s) ((next_session_id s + 1) mod 2 ^ 64)
           (shutting_down s) (lifecycle_held s) (calls s), Some (inl (ROk id)))
      end
    end.

(** [session_count]. *)
Definition session_count (s : ServiceState) : Z := zlen (sessions s).

(** The open Session an identifier names. *)
Definition open_session (id : SessionId) (s : ServiceState) : option nat :=
  match map_find (session_value id) (sessions s) with
  | Some r =>
    if negb (session_instance id =? instance_id) || (session_value id =? 0) then None
    else match session_heap s !! r with
         | Some x => if sr_closing x then None else Some r
         | None => None
         end
  | None => None
  end.

(** [finalize_session_close]; [None] is [std::terminate]. *)
Definition finalize_session_close (id : SessionId) (r : nat) (s : ServiceState) :
    option ServiceState :=
  match map_find (session_value id) (sessions s), session_heap s !! r with
  | Some r', Some x =>
    if bool_decide (r' = r) && sr_closing x
    then Some (set_sessions (map_erase (session_value id) (sessions s)) s)
    else None
  | _, _ => None
  end.

(** The catch clause of [close_session]. *)
Definition reopen_session (id : SessionId) (r : nat) (s : ServiceState) : ServiceState :=
  if bool_decide (map_find (session_value id) (sessions s) = Some r)
  then set_closing r false s else s.

(** ** [dispatch] *)

(** Where the shutdown fence lets a request go. *)
Definition entry (m : Method.t) : call_pc :=
  match m with
  | Method.SessionCreate => CCreateReserve
  | Method.SessionClose => CCloseMark
  | Method.JobSubmit => CSubmitLookup
  | Method.JobStatus => CStatusFind
  | Method.JobCancel => CCancelFind
  | Method.JobResult => CResultFind
  | Method.JobRelease => CRelease
  | Method.DaemonInfo => CInfoSessions
  | Method.DaemonShutdown => CAnswered AnswerShutdown
  | Method.Unknown _ => CAnswered (AnswerStatus success)  (* no case matches *)
  end.

Definition response_for (request : Request) : Response :=
  response_header (req_request_id request) (req_method request) success.

(** The response [dispatch] fills from an answer. *)
Definition respond (request : Request) (a : answer) : Response :=
  let r := response_for request in
  let fill session job status result info shutdown :=
    mk_Response (resp_request_id r) (resp_method r)
      (match a with
       | AnswerSession x => result_status x
       | AnswerStatus s => s
       | AnswerJob x => result_status x
       | AnswerJobStatus x => result_status x
       | AnswerResult x => result_status x
       | AnswerInfo _ _ | AnswerShutdown => success
       end) session job status result info shutdown in
  match a with
  | AnswerSession (ROk id) =>
    fill id default_JobId default_job_status default_execution_result default_daemon_info false
  | AnswerJob (ROk id) =>
    fill default_SessionId id default_job_status default_execution_result default_daemon_info false
  | AnswerJobStatus (ROk status) =>
    fill default_SessionId default_JobId status default_execution_result default_daemon_info false
  | AnswerResult (ROk result) =>
    fill default_SessionId default_JobId default_job_status result default_daemon_info false
  | AnswerInfo ns nj =>
    fill default_SessionId default_JobId default_job_status default_execution_result
      (mk_DaemonInfo kProtocolVersion instance_id daemon_version (lit "unix-domain")
         method_inventory ns nj (cfg_maximum_concurrency config) (cfg_maximum_sessions config))
      false
  | AnswerShutdown =>
    fill default_SessionId default_JobId default_job_status default_execution_result
      default_daemon_info true
  | _ =>
    fill default_SessionId default_JobId default_job_status default_execution_result
      default_daemon_info false
  end.

(** What the environment decides at a step of a call: nothing, an exception, an
    allocation failure of [submit], the compiler's answer. *)
Inductive call_input :=
| Proceed
| Throws (e : exn)
| SubmitFails (f : submit_failure)
| Validates (a : kernel_answer ExecutionPlan).

Definition input_throws (i : call_input) : option exn :=
  match i with Throws e => Some e | _ => None end.
Definition raises (i : call_input) : bool :=
  match i with Throws _ => true | _ => false end.
Definition input_submit (i : call_input) : option submit_failure :=
  match i with SubmitFails f => Some f | _ => None end.

(** A step under [lifecycle_mutex]: it waits while [submit] holds it. *)
Definition locked {A} (s : ServiceState) (k : A) : option A :=
  if lifecycle_held s then None else Some k.

(** One step of a call; [None] when it waits. *)
Definition call_step (i : call_input) (s : ServiceState) (request : Request) (pc : call_pc) :
    option (ServiceState * call_pc) :=
  let sid := req_session_id request in
  let jid := req_job_id request in
  let caught e := CCaught (response_for request) e in
  match pc with
  | CFence =>
    if negb (bool_decide (req_method request = Method.DaemonShutdown)) && shutting_down s
    then Some (s, match input_throws i with
                  | Some e => caught e
                  | None => CDone (set_resp_status
                      (failure Cancelled (lit "daemon orchestration is shutting down"))
                      (response_for request))
                  end)
    else Some (s, entry (req_method request))
  | CCreateReserve =>
    locked s (match reserve_session s with
              | (s', Some (Some status)) => (s', CAnswered (AnswerSession (RErr status)))
              | (s', Some None) => (s', CCreateBuild)
              | (s', None) => (s', CTerminated)
              end)
  | CCreateBuild =>
    Some (s, match input_throws i with
             | Some e => CCreateRollback (inr e)
             | None => CCreateCompile (make_graph (req_document request))
             end)
  | CCreateCompile graph =>
    match i with
    | Validates (Answered (ROk _)) => Some (s, CCreatePublish graph)
    | Validates (Answered (RErr status)) =>
      Some (s, CCreateRollback (inl (AnswerSession (RErr status))))
    | Validates (Raised e) => Some (s, CCreateRollback (inr e))
    | _ => None
    end
  | CCreatePublish graph =>
    locked s (match publish_session graph (raises i) s with
              | (s', Some (inl (ROk id))) => (s', CAnswered (AnswerSession (ROk id)))
              | (s', Some (inl (RErr status))) =>
                (s', CCreateRollback (inl (AnswerSession (RErr status))))
              | (s', Some (inr e)) => (s', CCreateRollback (inr e))
              | (s', None) => (s', CTerminated)
              end)
  | CCreateRollback outcome =>
    locked s (match release_reservation true s with
              | None => (s, CTerminated)
              | Some s' =>
                (s', match outcome with inl a => CAnswered a | inr e => caught e end)
              end)
  | CCloseMark =>
    locked s (match open_session sid s with
              | None => (s, CAnswered (AnswerStatus session_not_found))
              | Some r => (set_closing r true s, CCloseDetach r)
              end)
  | CCloseDetach r =>
    match close_detach sid (raises i) (registry s) with
    | (g, inl (queued, running)) =>
      Some (set_sys (mk_JobSystem g (workers (sys s)) (detached (sys s) ++ queued)) s,
            CSettleQueued r queued running)
    | (g, inr e) => Some (set_registry g s, CCloseReopen r e)
    end
  | CSettleQueued r (q :: queued) running =>
    Some (set_sys (mk_JobSystem (settle_queued q (registry s)) (workers (sys s))
                     (filter (fun q' => q' <> q) (detached (sys s)))) s,
          CSettleQueued r queued running)
  | CSettleQueued r [] running => Some (s, CSettleRunning r running running)
  | CSettleRunning r (x :: todo) running =>
    Some (set_registry (settle_running x (registry s)) s, CSettleRunning r todo running)
  | CSettleRunning r [] running => Some (s, CSettleWait r running)
  | CSettleWait r (x :: running) =>
    if settled x (registry s) then Some (s, CSettleWait r running) else None
  | CSettleWait r [] => Some (s, CCloseFinalize r)
  | CCloseFinalize r =>
    locked s (match finalize_session_close sid r s with
              | Some s' => (s', CAnswered (AnswerStatus success))
              | None => (s, CTerminated)
              end)
  | CCloseReopen r e => locked s (reopen_session sid r s, caught e)
  | CSubmitLookup =>
    locked s (match open_session sid s with
              | None => (s, CAnswered (AnswerJob (RErr session_not_found)))
              | Some r => (set_lifecycle true s, CSubmitAdmit r)
              end)
  | CSubmitAdmit r =>
    session ← session_heap s !! r;
    let '(g, res) := submit (cfg_maximum_jobs config) instance_id (sr_id session)
                       (sr_graph session) (req_submit_options request) (input_submit i)
                       (registry s) in
    Some (set_lifecycle false (set_registry g s),
          match res with inl a => CAnswered (AnswerJob a) | inr e => caught e end)
  | CStatusFind =>
    Some (s, match find instance_id jid (registry s) with
             | None => CAnswered (AnswerJobStatus (RErr job_not_found))
             | Some r => CStatusRead r
             end)
  | CStatusRead r =>
    record ← heap (registry s) !! r;
    Some (s, CAnswered (AnswerJobStatus (ROk (status_snapshot record))))
  | CCancelFind =>
    Some (s, match find instance_id jid (registry s) with
             | None => CAnswered (AnswerStatus job_not_found)
             | Some r => CCancelMark r
             end)
  | CCancelMark r =>
    Some (set_registry (cancel_section r (registry s)) s, CAnswered (AnswerStatus success))
  | CResultFind =>
    Some (s, match find instance_id jid (registry s) with
             | None => CAnswered (AnswerResult (RErr job_not_found))
             | Some r => CResultRead r
             end)
  | CResultRead r =>
    record ← heap (registry s) !! r;
    Some (s, CAnswered (AnswerResult (result_snapshot record)))
  | CRelease =>
    let '(g, status) := release instance_id jid (registry s) in
    Some (set_registry g s, CAnswered (AnswerStatus status))
  | CInfoSessions => Some (s, CInfoJobs (session_count s))
  | CInfoJobs n => Some (s, CAnswered (AnswerInfo n (size (registry s))))
  | CAnswered a =>
    match input_throws i with
    | Some e =>
      Some (s, CCaught (respond request
                          (match a with AnswerShutdown => AnswerStatus success | _ => a end)) e)
    | None =>
      Some (match a with AnswerShutdown => set_shutting_down s | _ => s end,
            CDone (respond request a))
    end
  | CCaught partial e =>
    Some (s, CDone (fence e (raises i) partial))
  | CDone _ | CTerminated => None
  end.

(** ** The service as a system *)

Inductive service_event :=
| SWorker (w : nat) (i : worker_input)       (* a worker of the registry *)
| SDispatch (request : Request)              (* a handler calls [dispatch] *)
| SStep (c : nat) (i : call_input)           (* a call goes on *)
| SDestroy.                                  (* [~Service], when no call is running *)

Definition finished (call : Request * call_pc) : bool :=
  match call.2 with CDone _ => true | _ => false end.

Definition service_step (e : service_event) (s : ServiceState) : option ServiceState :=
  match e with
  | SWorker w i =>
    j ← job_step (cfg_maximum_jobs config) instance_id (cfg_gpu_enabled config)
          (EWorker w i) (sys s);
    Some (set_sys j s)
  | SDispatch request => Some (set_calls (calls s ++ [(request, CFence)]) s)
  | SStep c i =>
    '(request, pc) ← calls s !! c;
    '(s', pc') ← call_step i s request pc;
    Some (set_calls (<[c:=(request, pc')]> (calls s')) s')
  | SDestroy =>
    if forallb finished (calls s)
    then Some (set_registry (stop_section (registry s)) s) else None
  end.

(** [Service::Impl]'s members after construction. *)
Definition service_initial : ServiceState :=
  mk_ServiceState (initial (Z.to_nat (cfg_maximum_concurrency config))) [] [] 0 1 false false [].

Inductive service_reachable : ServiceState -> Prop :=
| sreach_initial : service_reachable service_initial
| sreach_step s e s' :
    service_reachable s -> service_step e s = Some s' -> service_reachable s'.

Fixpoint service_run (es : list service_event) (s : ServiceState) : option ServiceState :=
  match es with
  | [] => Some s
  | e :: es' => s' ← service_step e s; service_run es' s'
  end.
End Operations.
End Service.
