(* ===== verification/ServiceSystem.v ===== *)
(** Invariants of the service: its sessions, its calls, and the registry they share.  The
    service's steps refine the registry's. *)
From S2P Require Import Prelude OrdMap Kernel Protocol Codec Jobs JobSystem JobSpec Service.

(** ** What a program point owns *)

Section Views.
Context `{RT : Runtime}.

(** An active reservation of [create_session]. *)
Definition creating (pc : call_pc) : bool :=
  match pc with
  | CCreateBuild | CCreateCompile _ | CCreatePublish _ | CCreateRollback _ => true
  | _ => false
  end.

(** The Session a [close_session] has marked. *)
Definition closes (pc : call_pc) : option nat :=
  match pc with
  | CCloseDetach r | CSettleQueued r _ _ | CSettleRunning r _ _ | CSettleWait r _
  | CCloseFinalize r | CCloseReopen r _ => Some r
  | _ => None
  end.

(** Its records are still in the registry. *)
Definition detaching (pc : call_pc) : bool :=
  match pc with CCloseDetach _ | CCloseReopen _ _ => true | _ => false end.

(** The records it has taken from the queue and not settled. *)
Definition settling (pc : call_pc) : list nat :=
  match pc with CSettleQueued _ queued _ => queued | _ => [] end.

(** The records it will wait for. *)
Definition waiting (pc : call_pc) : list nat :=
  match pc with
  | CSettleQueued _ _ running | CSettleRunning _ _ running | CSettleWait _ running => running
  | _ => []
  end.

(** The Session a [submit] that holds [lifecycle_mutex] has found open. *)
Definition admits (pc : call_pc) : option nat :=
  match pc with CSubmitAdmit r => Some r | _ => None end.

(** The number of calls with an active reservation. *)
Definition creations (cs : list (Request * call_pc)) : Z :=
  zlen (filter (fun call => creating call.2 = true) cs).

Lemma creations_insert cs c req pc req' pc' :
  cs !! c = Some (req, pc) ->
  creations (<[c := (req', pc')]> cs) =
  creations cs + (if creating pc' then 1 else 0) - (if creating pc then 1 else 0).
Proof.
  intros Hc. unfold creations. rewrite insert_take_drop by (by eapply lookup_lt_Some).
  rewrite <- (take_drop_middle cs c (req, pc) Hc) at 3.
  rewrite !filter_app, !filter_cons, !zlen_app.
  destruct (creating pc) eqn:Hp, (creating pc') eqn:Hp'; repeat case_decide; cbn in *;
    try congruence; rewrite ?zlen_cons; lia.
Qed.

Lemma creations_snoc cs req pc :
  creations (cs ++ [(req, pc)]) = creations cs + (if creating pc then 1 else 0).
Proof.
  unfold creations. rewrite filter_app, filter_cons, zlen_app, filter_nil.
  destruct (creating pc) eqn:Hp; case_decide; cbn in *; try congruence;
    rewrite ?zlen_cons, zlen_nil; lia.
Qed.

Lemma creations_pos cs c req pc :
  cs !! c = Some (req, pc) -> creating pc = true -> 0 < creations cs.
Proof.
  intros Hc Hp. unfold creations. rewrite <- (take_drop_middle cs c (req, pc) Hc).
  rewrite filter_app, filter_cons, zlen_app. case_decide; [|by cbn in *].
  rewrite zlen_cons. pose proof (zlen_nonneg (filter (fun call => creating call.2 = true) (take c cs))).
  pose proof (zlen_nonneg (filter (fun call => creating call.2 = true) (drop (S c) cs))). lia.
Qed.

(** Replacing a call. *)
Lemma call_inserted {A} (cs : list A) c old new c' x :
  cs !! c = Some old -> <[c := new]> cs !! c' = Some x ->
  (c' = c /\ x = new) \/ (c' <> c /\ cs !! c' = Some x).
Proof.
  intros Hc Hx. destruct (decide (c' = c)) as [->|Hn].
  - rewrite list_lookup_insert_eq in Hx by (by eapply lookup_lt_Some). left. by injection Hx.
  - rewrite list_lookup_insert_ne in Hx by done. by right.
Qed.

Lemma call_updated {A} (cs : list A) c old new : cs !! c = Some old -> <[c := new]> cs !! c = Some new.
Proof. intros Hc. apply list_lookup_insert_eq. by eapply lookup_lt_Some. Qed.

Lemma call_kept {A} (cs : list A) c new c' : c' <> c -> <[c := new]> cs !! c' = cs !! c'.
Proof. intros. by apply list_lookup_insert_ne. Qed.
End Views.

(** ** The sessions *)

Section Sessions.
Context `{RT : Runtime}.
Context (config : ServiceConfig) (instance_id : Z).

Record sess_inv (s : ServiceState) : Prop := {
  si_sorted : sorted_map (sessions s);
  si_entries k r : (k, r) ∈ sessions s ->
    exists x, session_heap s !! r = Some x /\ sr_id x = mk_SessionId instance_id k;
  si_ids r x : session_heap s !! r = Some x ->
    exists v, sr_id x = mk_SessionId instance_id v /\ 0 < v < 2 ^ 64 /\
      (next_session_id s = 0 \/ v < next_session_id s);
  si_unique r1 r2 x1 x2 : session_heap s !! r1 = Some x1 -> session_heap s !! r2 = Some x2 ->
    sr_id x1 = sr_id x2 -> r1 = r2;
  si_next : 0 <= next_session_id s < 2 ^ 64;
  si_pending : pending_session_creates s = creations (calls s);
  si_capacity : zlen (sessions s) + pending_session_creates s
                <= Z.max 0 (cfg_maximum_sessions config);
  si_close c req pc r : calls s !! c = Some (req, pc) -> closes pc = Some r ->
    exists x, session_heap s !! r = Some x /\ sr_id x = req_session_id req /\
      sr_closing x = true /\ (session_value (sr_id x), r) ∈ sessions s;
  si_one_closer c1 c2 req1 req2 pc1 pc2 r :
    calls s !! c1 = Some (req1, pc1) -> calls s !! c2 = Some (req2, pc2) ->
    closes pc1 = Some r -> closes pc2 = Some r -> c1 = c2;
  si_closer k r x : session_heap s !! r = Some x -> sr_closing x = true -> (k, r) ∈ sessions s ->
    exists c req pc, calls s !! c = Some (req, pc) /\ closes pc = Some r;
  si_admit c req pc r : calls s !! c = Some (req, pc) -> admits pc = Some r ->
    lifecycle_held s = true /\ exists x, session_heap s !! r = Some x /\
      sr_id x = req_session_id req /\ sr_closing x = false /\
      (session_value (sr_id x), r) ∈ sessions s;
  si_one_admit c1 c2 req1 req2 pc1 pc2 r1 r2 :
    calls s !! c1 = Some (req1, pc1) -> calls s !! c2 = Some (req2, pc2) ->
    admits pc1 = Some r1 -> admits pc2 = Some r2 -> c1 = c2;
  si_lock : lifecycle_held s = true ->
    exists c req pc r, calls s !! c = Some (req, pc) /\ admits pc = Some r;
}.

Lemma sess_initial : sess_inv (service_initial config).
Proof.
  split; cbn; try done.
  - intros k r Hk. by apply not_elem_of_nil in Hk.
  - unfold zlen. cbn. lia.
Qed.

(** A call moves between two points that own the same Session, and its reservation is
    accounted for. *)
Lemma sess_move s j p sd c req pc pc' :
  sess_inv s -> calls s !! c = Some (req, pc) ->
  closes pc' = closes pc -> admits pc' = admits pc ->
  p = pending_session_creates s + (if creating pc' then 1 else 0) - (if creating pc then 1 else 0) ->
  zlen (sessions s) + p <= Z.max 0 (cfg_maximum_sessions config) ->
  sess_inv (mk_ServiceState j (session_heap s) (sessions s) p (next_session_id s) sd
    (lifecycle_held s) (<[c := (req, pc')]> (calls s))).
Proof.
  intros [Hsort Hent Hids Huniq Hnext Hpend Hcap Hclose Hone Hcloser Hadm Hone' Hlock]
    Hc Hcl Had Hp Hbound.
  assert (forall c' req1 pc1, <[c := (req, pc')]> (calls s) !! c' = Some (req1, pc1) ->
    exists pc2, calls s !! c' = Some (req1, pc2) /\ closes pc2 = closes pc1 /\
      admits pc2 = admits pc1) as Hback.
  { intros c' req1 pc1 Hc'. destruct (call_inserted _ _ _ _ _ _ Hc Hc') as [[-> [= -> ->]]|[_ ?]];
      eauto. }
  assert (forall c' req1 pc1, calls s !! c' = Some (req1, pc1) ->
    exists req2 pc2, <[c := (req, pc')]> (calls s) !! c' = Some (req2, pc2) /\
      closes pc2 = closes pc1 /\ admits pc2 = admits pc1) as Hforth.
  { intros c' req1 pc1 Hc'. destruct (decide (c' = c)) as [->|Hn].
    - rewrite Hc in Hc'. injection Hc' as <- <-. exists req, pc'.
      by rewrite (call_updated _ _ _ _ Hc).
    - exists req1, pc1. by rewrite call_kept. }
  split; cbn; try done.
  - rewrite (creations_insert _ _ _ _ _ _ Hc). lia.
  - intros c' req1 pc1 r Hc' Hr. destruct (Hback _ _ _ Hc') as (pc2 & H2 & <- & _) in Hr. eauto.
  - intros c1 c2 req1 req2 pc1 pc2 r H1 H2 Hr1 Hr2.
    destruct (Hback _ _ _ H1) as (pc3 & H3 & E3 & _), (Hback _ _ _ H2) as (pc4 & H4 & E4 & _).
    rewrite <- E3 in Hr1. rewrite <- E4 in Hr2. eauto.
  - intros k r x Hx Hxc Hk. destruct (Hcloser k r x Hx Hxc Hk) as (c' & req1 & pc1 & Hc' & Hr).
    destruct (Hforth _ _ _ Hc') as (req2 & pc2 & H2 & E2 & _). exists c', req2, pc2. by rewrite E2.
  - intros c' req1 pc1 r Hc' Hr. destruct (Hback _ _ _ Hc') as (pc2 & H2 & _ & <-) in Hr. eauto.
  - intros c1 c2 req1 req2 pc1 pc2 r1 r2 H1 H2 Hr1 Hr2.
    destruct (Hback _ _ _ H1) as (pc3 & H3 & _ & E3), (Hback _ _ _ H2) as (pc4 & H4 & _ & E4).
    rewrite <- E3 in Hr1. rewrite <- E4 in Hr2. eauto.
  - intros Hl. destruct (Hlock Hl) as (c' & req1 & pc1 & r & Hc' & Hr).
    destruct (Hforth _ _ _ Hc') as (req2 & pc2 & H2 & _ & E2). exists c', req2, pc2, r.
    by rewrite E2.
Qed.

(** The registry is no part of it. *)
Lemma sess_sys s j sd :
  sess_inv s ->
  sess_inv (mk_ServiceState j (session_heap s) (sessions s) (pending_session_creates s)
    (next_session_id s) sd (lifecycle_held s) (calls s)).
Proof. intros [Hsort Hent Hids Huniq Hnext Hpend Hcap Hclose Hone Hcloser Hadm Hone' Hlock]. by split. Qed.

(** A new call. *)
Lemma sess_dispatch s req :
  sess_inv s -> sess_inv (set_calls (calls s ++ [(req, CFence)]) s).
Proof.
  intros [Hsort Hent Hids Huniq Hnext Hpend Hcap Hclose Hone Hcloser Hadm Hone' Hlock].
  assert (forall c req1 pc1, (calls s ++ [(req, CFence)]) !! c = Some (req1, pc1) ->
    closes pc1 <> None \/ admits pc1 <> None -> calls s !! c = Some (req1, pc1)) as Hback.
  { intros c req1 pc1 Hc Hv. apply lookup_app_Some in Hc as [?|[_ Hc]]; [done|].
    apply list_lookup_singleton_Some in Hc as [_ [= <- <-]]. by destruct Hv. }
  assert (forall c x, calls s !! c = Some x -> (calls s ++ [(req, CFence)]) !! c = Some x)
    as Hforth by (intros; by apply lookup_app_l_Some).
  split; cbn; try done.
  - rewrite creations_snoc. cbn. lia.
  - intros c req1 pc1 r Hc Hr. apply Hback in Hc; [eauto|left; congruence].
  - intros c1 c2 req1 req2 pc1 pc2 r H1 H2 Hr1 Hr2.
    apply Hback in H1; [|left; congruence]. apply Hback in H2; [eauto|left; congruence].
  - intros k r x Hx Hxc Hk. destruct (Hcloser k r x Hx Hxc Hk) as (c' & req1 & pc1 & Hc' & Hr).
    eauto 10.
  - intros c req1 pc1 r Hc Hr. apply Hback in Hc; [eauto|right; congruence].
  - intros c1 c2 req1 req2 pc1 pc2 r1 r2 H1 H2 Hr1 Hr2.
    apply Hback in H1; [|right; congruence]. apply Hback in H2; [eauto|right; congruence].
  - intros Hl. destruct (Hlock Hl) as (c' & req1 & pc1 & r & Hc' & Hr). eauto 10.
Qed.

(** A new Session. *)
Lemma sess_insert s graph sessions' :
  sess_inv s -> next_session_id s <> 0 ->
  emplace (next_session_id s) (length (session_heap s)) (sessions s) = Some sessions' ->
  zlen (sessions s) + 1 + pending_session_creates s <= Z.max 0 (cfg_maximum_sessions config) ->
  sess_inv (mk_ServiceState (sys s)
    (session_heap s ++ [mk_SessionRecord (mk_SessionId instance_id (next_session_id s)) graph false])
    sessions' (pending_session_creates s) ((next_session_id s + 1) mod 2 ^ 64) (shutting_down s)
    (lifecycle_held s) (calls s)).
Proof.
  intros [Hsort Hent Hids Huniq Hnext Hpend Hcap Hclose Hone Hcloser Hadm Hone' Hlock] Hnz Hemp Hb.
  set (x0 := mk_SessionRecord _ graph false).
  assert (forall r x, session_heap s !! r = Some x -> (session_heap s ++ [x0]) !! r = Some x) as Hold
    by (intros; by apply lookup_app_l_Some).
  assert (forall r x, (session_heap s ++ [x0]) !! r = Some x ->
    session_heap s !! r = Some x \/ r = length (session_heap s) /\ x = x0) as Hcase.
  { intros r x Hx. apply lookup_app_Some in Hx as [?|[? Hx]]; [by left|]. right.
    apply list_lookup_singleton_Some in Hx as [? ->]. split; [lia|done]. }
  assert (forall r x, session_heap s !! r = Some x -> sr_id x <> sr_id x0) as Hfresh.
  { intros r x Hx He. destruct (Hids r x Hx) as (v & Hv & _ & [|]); [done|].
    rewrite Hv in He. injection He. lia. }
  assert (forall p, p ∈ sessions s -> p ∈ sessions') as Hkeep
    by (intros p Hp; rewrite (emplace_elem _ _ _ _ _ Hemp); by right).
  assert ((next_session_id s + 1) mod 2 ^ 64 = 0 \/
          (next_session_id s + 1) mod 2 ^ 64 = next_session_id s + 1) as Hw.
  { destruct (Z.eq_dec (next_session_id s + 1) (2 ^ 64)) as [->|];
      [left; by rewrite Z_mod_same_full|right; apply Z.mod_small; lia]. }
  split; cbn; try done.
  - by eapply emplace_sorted.
  - intros k r Hk. rewrite (emplace_elem _ _ _ _ _ Hemp) in Hk. destruct Hk as [[= -> ->]|Hk].
    + exists x0. split; [|done]. rewrite lookup_app_r by lia. by rewrite Nat.sub_diag.
    + destruct (Hent k r Hk) as (x & Hx & ?). eauto.
  - intros r x Hx. destruct (Hcase r x Hx) as [Hx'|[-> ->]].
    + destruct (Hids r x Hx') as (v & Hv & Hr & [|]); exists v; (split_and!; [done|lia|lia|lia]).
    + exists (next_session_id s). split_and!; [done|lia|lia|lia].
  - intros r1 r2 x1 x2 H1 H2 He. destruct (Hcase _ _ H1) as [H1'|[-> ->]],
      (Hcase _ _ H2) as [H2'|[-> ->]]; [eauto| | |done].
    + by destruct (Hfresh _ _ H1').
    + by destruct (Hfresh _ _ H2').
  - apply Z.mod_pos_bound. lia.
  - apply emplace_length in Hemp. unfold zlen in *. lia.
  - intros c req pc r Hc Hr. destruct (Hclose c req pc r Hc Hr) as (x & ? & ? & ? & ?). eauto 10.
  - intros k r x Hx Hxc Hk. destruct (Hcase r x Hx) as [Hx'|[-> ->]]; [|done].
    apply (Hcloser k r x Hx' Hxc). rewrite (emplace_elem _ _ _ _ _ Hemp) in Hk.
    destruct Hk as [[= -> ->]|]; [|done]. apply lookup_lt_Some in Hx'. lia.
  - intros c req pc r Hc Hr. destruct (Hadm c req pc r Hc Hr) as (? & x & ? & ? & ? & ?).
    split; [done|]. eauto 10.
Qed.

(** The members of [open_session]. *)
Lemma open_session_spec s sid r :
  sess_inv s -> open_session instance_id sid s = Some r ->
  exists x, session_heap s !! r = Some x /\ sr_id x = sid /\ sr_closing x = false /\
    (session_value sid, r) ∈ sessions s.
Proof.
  intros Hinv. unfold open_session. destruct (map_find _ _) as [r'|] eqn:Hf; [|done].
  destruct (negb _ || _) eqn:Hg; [done|].
  destruct (session_heap s !! r') as [x|] eqn:Hx; [|done].
  destruct (sr_closing x) eqn:Hc; [done|]. intros [= <-].
  apply map_find_elem in Hf; [|apply Hinv]. exists x. split_and!; try done.
  destruct (si_entries s Hinv _ _ Hf) as (y & Hy & Hid). rewrite Hx in Hy. injection Hy as <-.
  rewrite Hid. destruct sid. cbn in *. f_equal. lia.
Qed.

(** Every session value occurs once in the map. *)
Lemma sess_entry s r x k :
  sess_inv s -> session_heap s !! r = Some x -> (k, r) ∈ sessions s -> k = session_value (sr_id x).
Proof.
  intros Hinv Hx Hk. destruct (si_entries s Hinv k r Hk) as (y & Hy & Hid).
  rewrite Hx in Hy. injection Hy as <-. by rewrite Hid.
Qed.

(** What [set_closing] changes. *)
Lemma closing_lookup (h : list SessionRecord) r b r' x :
  alter (fun x => mk_SessionRecord (sr_id x) (sr_graph x) b) r h !! r' = Some x <->
  exists y, h !! r' = Some y /\ sr_id x = sr_id y /\ sr_graph x = sr_graph y /\
    sr_closing x = if bool_decide (r' = r) then b else sr_closing y.
Proof.
  case_bool_decide as Hr.
  - subst r'. rewrite list_lookup_alter_eq. split.
    + intros (y & Hy & ->)%fmap_Some. by exists y.
    + intros (y & Hy & Hi & Hg & Hc). rewrite Hy. cbn. f_equal. destruct x. cbn in *. by subst.
  - rewrite list_lookup_alter_ne by done. split; [intros Hx; by exists x|].
    intros (y & Hy & Hi & Hg & Hc). rewrite Hy. f_equal. destruct x, y. cbn in *. by subst.
Qed.

(** [close_session] marks its Session, or reopens it. *)
Lemma sess_mark s c req pc pc' r b :
  sess_inv s -> calls s !! c = Some (req, pc) -> lifecycle_held s = false ->
  admits pc' = None -> creating pc = creating pc' ->
  (exists x, session_heap s !! r = Some x /\ sr_id x = req_session_id req /\
     sr_closing x = negb b /\ (session_value (sr_id x), r) ∈ sessions s) ->
  closes pc = (if b then None else Some r) -> closes pc' = (if b then Some r else None) ->
  sess_inv (set_calls (<[c := (req, pc')]> (calls s)) (set_closing r b s)).
Proof.
  intros Hinv Hc Hfree Had Hcr (x0 & Hx0 & Hid0 & Hb0 & Hk0) Hcl Hcl'.
  pose proof Hinv as [Hsort Hent Hids Huniq Hnext Hpend Hcap Hclose Hone Hcloser Hadm Hone' Hlock].
  assert (forall c1 req1 pc1 r1, <[c := (req, pc')]> (calls s) !! c1 = Some (req1, pc1) ->
    admits pc1 <> Some r1) as Hnoadm.
  { intros c1 req1 pc1 r1 H1 H2. destruct (call_inserted _ _ _ _ _ _ Hc H1) as [[-> [= -> ->]]|[_ H3]];
      [congruence|]. destruct (Hadm _ _ _ _ H3 H2). congruence. }
  assert (forall c1 req1 pc1, c1 <> c -> calls s !! c1 = Some (req1, pc1) -> closes pc1 <> Some r)
    as Hnoother.
  { intros c1 req1 pc1 Hn H1 H2. destruct b; cbn in *.
    - destruct (Hclose _ _ _ _ H1 H2) as (y & Hy & _ & Hyc & _). congruence.
    - apply Hn. by eapply Hone. }
  split; cbn; try done.
  - intros k r1 Hk. destruct (Hent k r1 Hk) as (y & Hy & Hid).
    exists (mk_SessionRecord (sr_id y) (sr_graph y) (if bool_decide (r1 = r) then b else sr_closing y)).
    split; [|done]. apply closing_lookup. by exists y.
  - intros r1 x (y & Hy & -> & _)%closing_lookup. eauto.
  - intros r1 r2 x1 x2 (y1 & Hy1 & -> & _)%closing_lookup (y2 & Hy2 & -> & _)%closing_lookup. eauto.
  - rewrite (creations_insert _ _ _ _ _ _ Hc), Hcr. lia.
  - intros c1 req1 pc1 r1 H1 H2.
    destruct (call_inserted _ _ _ _ _ _ Hc H1) as [[-> [= -> ->]]|[Hn H3]].
    + rewrite Hcl' in H2. destruct b; [|done]. injection H2 as <-.
      exists (mk_SessionRecord (sr_id x0) (sr_graph x0) true). split_and!; [|done|done|done].
      apply closing_lookup. exists x0. by rewrite bool_decide_eq_true_2.
    + destruct (Hclose _ _ _ _ H3 H2) as (y & Hy & ? & ? & ?). exists y. split_and!; try done.
      apply closing_lookup. exists y. rewrite bool_decide_eq_false_2; [done|].
      intros ->. by apply (Hnoother _ _ _ Hn H3).
  - intros c1 c2 req1 req2 pc1 pc2 r1 H1 H2 E1 E2.
    destruct (call_inserted _ _ _ _ _ _ Hc H1) as [[-> [= -> ->]]|[Hn1 H1']],
      (call_inserted _ _ _ _ _ _ Hc H2) as [[-> [= -> ->]]|[Hn2 H2']]; [done|..|eauto].
    + rewrite Hcl' in E1. destruct b; [|done]. injection E1 as <-. by destruct (Hnoother _ _ _ Hn2 H2').
    + rewrite Hcl' in E2. destruct b; [|done]. injection E2 as <-. by destruct (Hnoother _ _ _ Hn1 H1').
  - intros k r1 x (y & Hy & Hxi & _ & Hxc)%closing_lookup Hcx Hk. rewrite Hcx in Hxc.
    destruct (decide (r1 = r)) as [->|Hn].
    + rewrite bool_decide_eq_true_2 in Hxc by done. subst b. exists c, req, pc'.
      by rewrite (call_updated _ _ _ _ Hc).
    + rewrite bool_decide_eq_false_2 in Hxc by done.
      destruct (Hcloser k r1 y Hy) as (c1 & req1 & pc1 & H1 & E1); [done..|].
      exists c1, req1, pc1. split; [|done]. rewrite call_kept; [done|]. intros ->.
      rewrite Hc in H1. injection H1 as <- <-. rewrite Hcl in E1. destruct b; congruence.
  - intros c1 req1 pc1 r1 H1 H2. by destruct (Hnoadm _ _ _ _ H1 H2).
  - intros c1 c2 req1 req2 pc1 pc2 r1 r2 H1 H2 E1. by destruct (Hnoadm _ _ _ _ H1 E1).
  - congruence.
Qed.

(** A call that owns nothing after the step, and [lifecycle_mutex] free. *)
Lemma call_free s c req pc pc' c1 req1 pc1 r :
  sess_inv s -> calls s !! c = Some (req, pc) -> lifecycle_held s = false -> admits pc' = None ->
  <[c := (req, pc')]> (calls s) !! c1 = Some (req1, pc1) -> admits pc1 <> Some r.
Proof.
  intros Hinv Hc Hfree Had H1 H2. destruct (call_inserted _ _ _ _ _ _ Hc H1) as [[-> [= -> ->]]|[_ H3]];
    [congruence|]. destruct (si_admit s Hinv _ _ _ _ H3 H2). congruence.
Qed.

(** [finalize_session_close]. *)
Lemma sess_erase s c req pc pc' r :
  sess_inv s -> calls s !! c = Some (req, pc) -> lifecycle_held s = false ->
  closes pc = Some r -> creating pc = false ->
  closes pc' = None -> admits pc' = None -> creating pc' = false ->
  sess_inv (set_calls (<[c := (req, pc')]> (calls s))
    (set_sessions (map_erase (session_value (req_session_id req)) (sessions s)) s)).
Proof.
  intros Hinv Hc Hfree Hcl Hcr Hcl' Had' Hcr'.
  pose proof Hinv as [Hsort Hent Hids Huniq Hnext Hpend Hcap Hclose Hone Hcloser Hadm Hone' Hlock].
  destruct (Hclose _ _ _ _ Hc Hcl) as (x0 & Hx0 & Hid0 & Hb0 & Hk0).
  assert (forall p, p ∈ map_erase (session_value (req_session_id req)) (sessions s) <->
    p ∈ sessions s /\ p.1 <> session_value (req_session_id req)) as Herase
    by (intros; by apply map_erase_elem).
  assert (forall k r1, (k, r1) ∈ sessions s -> r1 <> r ->
    (k, r1) ∈ map_erase (session_value (req_session_id req)) (sessions s)) as Hkeep.
  { intros k r1 Hk Hn. apply Herase. split; [done|]. cbn. rewrite <- Hid0. intros ->. apply Hn.
    exact (sorted_map_unique _ _ r1 r Hsort Hk Hk0). }
  assert (forall c1 req1 pc1 r1, <[c := (req, pc')]> (calls s) !! c1 = Some (req1, pc1) ->
    closes pc1 = Some r1 -> calls s !! c1 = Some (req1, pc1) /\ r1 <> r) as Hback.
  { intros c1 req1 pc1 r1 H1 E1.
    destruct (call_inserted _ _ _ _ _ _ Hc H1) as [[-> [= -> ->]]|[Hn H3]]; [congruence|].
    split; [done|]. intros ->. apply Hn. by eapply Hone. }
  split; cbn; try done.
  - eapply sorted_map_sublist; [apply map_erase_sublist|done].
  - intros k r1 [Hk _]%Herase. eauto.
  - rewrite (creations_insert _ _ _ _ _ _ Hc), Hcr, Hcr'. lia.
  - pose proof (sublist_length _ _ (map_erase_sublist (sessions s) (session_value (req_session_id req)))).
    unfold zlen in *. lia.
  - intros c1 req1 pc1 r1 H1 E1. destruct (Hback _ _ _ _ H1 E1) as [H3 Hn].
    destruct (Hclose _ _ _ _ H3 E1) as (x & ? & ? & ? & ?). eauto 10.
  - intros c1 c2 req1 req2 pc1 pc2 r1 H1 H2 E1 E2.
    destruct (Hback _ _ _ _ H1 E1) as [H3 _], (Hback _ _ _ _ H2 E2) as [H4 _]. eauto.
  - intros k r1 x Hx Hxc [Hk Hne]%Herase. destruct (Hcloser k r1 x Hx Hxc Hk) as (c1 & req1 & pc1 & H1 & E1).
    exists c1, req1, pc1. split; [|done]. rewrite call_kept; [done|]. intros ->.
    rewrite Hc in H1. injection H1 as <- <-. rewrite Hcl in E1. injection E1 as <-. cbn in Hne.
    apply Hne. rewrite <- Hid0. by eapply sess_entry.
  - intros c1 req1 pc1 r1 H1 E1. by destruct (call_free _ _ _ _ _ _ _ _ r1 Hinv Hc Hfree Had' H1).
  - intros c1 c2 req1 req2 pc1 pc2 r1 r2 H1 H2 E1.
    by destruct (call_free _ _ _ _ _ _ _ _ r1 Hinv Hc Hfree Had' H1).
  - congruence.
Qed.

(** [submit] keeps [lifecycle_mutex]. *)
Lemma sess_acquire s c req pc r :
  sess_inv s -> calls s !! c = Some (req, pc) -> lifecycle_held s = false ->
  closes pc = None -> creating pc = false ->
  (exists x, session_heap s !! r = Some x /\ sr_id x = req_session_id req /\
     sr_closing x = false /\ (session_value (sr_id x), r) ∈ sessions s) ->
  sess_inv (set_calls (<[c := (req, CSubmitAdmit r)]> (calls s)) (set_lifecycle true s)).
Proof.
  intros Hinv Hc Hfree Hcl Hcr Hx.
  pose proof Hinv as [Hsort Hent Hids Huniq Hnext Hpend Hcap Hclose Hone Hcloser Hadm Hone' Hlock].
  assert (forall c1 req1 pc1 r1, <[c := (req, CSubmitAdmit r)]> (calls s) !! c1 = Some (req1, pc1) ->
    closes pc1 = Some r1 -> calls s !! c1 = Some (req1, pc1)) as Hback.
  { intros c1 req1 pc1 r1 H1 E1.
    by destruct (call_inserted _ _ _ _ _ _ Hc H1) as [[-> [= -> ->]]|[Hn H3]]. }
  assert (forall c1 req1 pc1 r1, <[c := (req, CSubmitAdmit r)]> (calls s) !! c1 = Some (req1, pc1) ->
    admits pc1 = Some r1 -> c1 = c /\ req1 = req /\ r1 = r) as Hme.
  { intros c1 req1 pc1 r1 H1 E1.
    destruct (call_inserted _ _ _ _ _ _ Hc H1) as [[-> [= -> ->]]|[Hn H3]].
    - injection E1 as <-. done.
    - destruct (Hadm _ _ _ _ H3 E1). congruence. }
  split; cbn; try done.
  - rewrite (creations_insert _ _ _ _ _ _ Hc), Hcr. cbn. lia.
  - intros c1 req1 pc1 r1 H1 E1. eauto.
  - intros c1 c2 req1 req2 pc1 pc2 r1 H1 H2 E1 E2. eauto.
  - intros k r1 x Hx1 Hxc Hk. destruct (Hcloser k r1 x Hx1 Hxc Hk) as (c1 & req1 & pc1 & H1 & E1).
    exists c1, req1, pc1. split; [|done]. rewrite call_kept; [done|]. intros ->. congruence.
  - intros c1 req1 pc1 r1 H1 E1. split; [done|]. by destruct (Hme _ _ _ _ H1 E1) as (-> & -> & ->).
  - intros c1 c2 req1 req2 pc1 pc2 r1 r2 H1 H2 E1 E2.
    destruct (Hme _ _ _ _ H1 E1) as (-> & _), (Hme _ _ _ _ H2 E2) as (-> & _). done.
  - intros _. exists c, req, (CSubmitAdmit r), r. by rewrite (call_updated _ _ _ _ Hc).
Qed.

(** ... and gives it back. *)
Lemma sess_let_go s j c req r pc' :
  sess_inv s -> calls s !! c = Some (req, CSubmitAdmit r) ->
  closes pc' = None -> creating pc' = false -> admits pc' = None ->
  sess_inv (set_calls (<[c := (req, pc')]> (calls s)) (set_lifecycle false (set_sys j s))).
Proof.
  intros Hinv Hc Hcl Hcr Had.
  pose proof Hinv as [Hsort Hent Hids Huniq Hnext Hpend Hcap Hclose Hone Hcloser Hadm Hone' Hlock].
  assert (forall c1 req1 pc1 r1, <[c := (req, pc')]> (calls s) !! c1 = Some (req1, pc1) ->
    closes pc1 = Some r1 -> calls s !! c1 = Some (req1, pc1)) as Hback.
  { intros c1 req1 pc1 r1 H1 E1.
    destruct (call_inserted _ _ _ _ _ _ Hc H1) as [[-> [= -> ->]]|[Hn H3]]; [congruence|done]. }
  assert (forall c1 req1 pc1 r1, <[c := (req, pc')]> (calls s) !! c1 = Some (req1, pc1) ->
    admits pc1 <> Some r1) as Hnone.
  { intros c1 req1 pc1 r1 H1 E1.
    destruct (call_inserted _ _ _ _ _ _ Hc H1) as [[-> [= -> ->]]|[Hn H3]]; [congruence|].
    apply Hn. by eapply Hone'. }
  split; cbn; try done.
  - rewrite (creations_insert _ _ _ _ _ _ Hc), Hcr. cbn. lia.
  - intros c1 req1 pc1 r1 H1 E1. eauto.
  - intros c1 c2 req1 req2 pc1 pc2 r1 H1 H2 E1 E2. eauto.
  - intros k r1 x Hx1 Hxc Hk. destruct (Hcloser k r1 x Hx1 Hxc Hk) as (c1 & req1 & pc1 & H1 & E1).
    exists c1, req1, pc1. split; [|done]. rewrite call_kept; [done|]. intros ->.
    rewrite Hc in H1. by injection H1 as <- <-.
  - intros c1 req1 pc1 r1 H1 E1. by destruct (Hnone _ _ _ _ H1 E1).
  - intros c1 c2 req1 req2 pc1 pc2 r1 r2 H1 H2 E1. by destruct (Hnone _ _ _ _ H1 E1).
Qed.

(** Nothing but the registry and one neutral call. *)
Lemma sess_neutral s j sd c req pc pc' :
  sess_inv s -> calls s !! c = Some (req, pc) ->
  closes pc' = closes pc -> admits pc' = admits pc -> creating pc' = creating pc ->
  sess_inv (mk_ServiceState j (session_heap s) (sessions s) (pending_session_creates s)
    (next_session_id s) sd (lifecycle_held s) (<[c := (req, pc')]> (calls s))).
Proof.
  intros Hinv Hc Hcl Had Hcr. eapply sess_move; try done.
  - rewrite Hcr. lia.
  - pose proof (si_capacity s Hinv). lia.
Qed.
End Sessions.

(** ** Every step keeps the sessions consistent *)

Section SessionSteps.
Context `{RT : Runtime}.
Context (config : ServiceConfig) (instance_id : Z) (daemon_version : bytes).

Abbreviation sinv := (sess_inv config instance_id).
Abbreviation cstep := (call_step config instance_id daemon_version).

Lemma sess_create_step i s s' c req pc pc' :
  sinv s -> calls s !! c = Some (req, pc) -> creating pc = true \/ pc = CCreateReserve ->
  cstep i s req pc = Some (s', pc') ->
  sinv (set_calls (<[c := (req, pc')]> (calls s')) s') /\ pc' <> CTerminated.
Proof.
  intros Hinv Hc Hpc Hstep. pose proof (si_pending _ _ s Hinv) as Hpend.
  assert (creating pc = true -> 0 < pending_session_creates s) as Hpos.
  { intros Hp. rewrite Hpend. by eapply creations_pos. }
  destruct pc; cbn in Hpc; destruct Hpc as [Hpc|Hpc]; try discriminate Hpc; clear Hpc; cbn in Hstep.
  - unfold locked in Hstep. destruct (lifecycle_held s) eqn:Hl; [done|].
    unfold reserve_session, reserve_while_locked in Hstep. destruct (_ || _) eqn:Hg.
    + injection Hstep as <- <-. split; [|done]. by eapply (sess_neutral _ _ s).
    + destruct (next_session_id s =? 0); injection Hstep as <- <-; (split; [|done]).
      * by eapply (sess_neutral _ _ s).
      * eapply (sess_move _ _ s); [exact Hinv|exact Hc|done|done|cbn; lia|cbn; lia].
  - injection Hstep as <- <-. destruct (input_throws i); (split; [|done]); by eapply (sess_neutral _ _ s).
  - destruct i as [| | |[[plan|status]|e]]; try discriminate Hstep; injection Hstep as <- <-;
      (split; [|done]); by eapply (sess_neutral _ _ s).
  - unfold locked in Hstep. destruct (lifecycle_held s) eqn:Hl; [done|].
    unfold publish_session, commit_while_locked in Hstep. destruct (raises i).
    { injection Hstep as <- <-. split; [|done]. by eapply (sess_neutral _ _ s). }
    destruct (Z.eqb_spec (next_session_id s) 0).
    { injection Hstep as <- <-. split; [|done]. by eapply (sess_neutral _ _ s). }
    cbn [session_value] in Hstep. destruct (emplace _ _ _) as [sessions'|] eqn:Hemp.
    2: { injection Hstep as <- <-. split; [|done]. by eapply (sess_neutral _ _ s). }
    specialize (Hpos eq_refl). replace (pending_session_creates s =? 0) with false in Hstep by lia.
    injection Hstep as <- <-. split; [|done].
    set (s1 := mk_ServiceState (sys s) (session_heap s) (sessions s)
      (pending_session_creates s - 1) (next_session_id s) (shutting_down s) (lifecycle_held s)
      (<[c := (req, CAnswered (AnswerSession
         (ROk (mk_SessionId instance_id (next_session_id s)))))]> (calls s))).
    assert (sinv s1) as Hs1.
    { pose proof (si_capacity _ _ s Hinv).
      eapply (sess_move _ _ s); [exact Hinv|exact Hc|done|done|cbn; lia|cbn; lia]. }
    refine (sess_insert _ _ s1 graph sessions' Hs1 _ Hemp _); [done|].
    cbn. pose proof (si_capacity _ _ s Hinv). lia.
  - unfold locked in Hstep. destruct (lifecycle_held s) eqn:Hl; [done|]. specialize (Hpos eq_refl).
    unfold release_reservation in Hstep. replace (pending_session_creates s =? 0) with false in Hstep by lia.
    injection Hstep as <- <-. pose proof (si_capacity _ _ s Hinv).
    destruct outcome; (split; [|done]); 
      (eapply (sess_move _ _ s); [exact Hinv|exact Hc|done|done|cbn; lia|cbn; lia]).
Qed.

Lemma sess_close_step i s s' c req pc pc' :
  sinv s -> calls s !! c = Some (req, pc) -> is_Some (closes pc) \/ pc = CCloseMark ->
  cstep i s req pc = Some (s', pc') ->
  sinv (set_calls (<[c := (req, pc')]> (calls s')) s') /\ pc' <> CTerminated.
Proof.
  intros Hinv Hc Hpc Hstep.
  destruct pc; destruct Hpc as [[r0 Hpc]|Hpc]; try discriminate Hpc; clear Hpc; cbn in Hstep.
  - unfold locked in Hstep. destruct (lifecycle_held s) eqn:Hl; [done|].
    destruct (open_session instance_id (req_session_id req) s) as [r|] eqn:Ho; injection Hstep as <- <-.
    + split; [|done]. eapply (sess_mark _ _ s c req CCloseMark); try done.
      destruct (open_session_spec _ _ _ _ _ Hinv Ho) as (x & Hx & Hid & Hcl & Hk). exists x.
      by rewrite Hid.
    + split; [|done]. by eapply (sess_neutral _ _ s).
  - destruct (close_detach _ _ _) as [g [[queued running]|e]]; injection Hstep as <- <-;
      (split; [|done]); by eapply (sess_neutral _ _ s).
  - destruct queued; injection Hstep as <- <-; (split; [|done]); by eapply (sess_neutral _ _ s).
  - destruct todo; injection Hstep as <- <-; (split; [|done]); by eapply (sess_neutral _ _ s).
  - destruct running as [|x running]; [|destruct (settled x (registry s)); [|done]];
      injection Hstep as <- <-; (split; [|done]); by eapply (sess_neutral _ _ s).
  - unfold locked in Hstep. destruct (lifecycle_held s) eqn:Hl; [done|].
    destruct (si_close _ _ s Hinv _ _ _ _ Hc eq_refl) as (y & Hy & Hid & Hcl & Hk).
    unfold finalize_session_close in Hstep. rewrite Hid in Hk.
    apply map_find_elem in Hk; [|apply Hinv]. rewrite Hk, Hy, Hcl in Hstep.
    rewrite bool_decide_eq_true_2 in Hstep by done. injection Hstep as <- <-. split; [|done].
    by eapply (sess_erase _ _ s c req (CCloseFinalize session)).
  - unfold locked in Hstep. destruct (lifecycle_held s) eqn:Hl; [done|].
    destruct (si_close _ _ s Hinv _ _ _ _ Hc eq_refl) as (y & Hy & Hid & Hcl & Hk).
    injection Hstep as <- <-. split; [|done]. unfold reopen_session.
    rewrite bool_decide_eq_true_2 by (apply map_find_elem; [apply Hinv|by rewrite <- Hid]).
    eapply (sess_mark _ _ s c req (CCloseReopen session e)); try done. by exists y.
Qed.

Lemma sess_call_step i s s' c req pc pc' :
  sinv s -> calls s !! c = Some (req, pc) -> cstep i s req pc = Some (s', pc') ->
  sinv (set_calls (<[c := (req, pc')]> (calls s')) s') /\ pc' <> CTerminated.
Proof.
  intros Hinv Hc Hstep.
  destruct pc; try (eapply sess_create_step; eauto; fail); try (eapply sess_close_step; eauto; fail);
    cbn in Hstep.
  - assert (exists pc1, s' = s /\ pc' = pc1 /\ closes pc1 = None /\ admits pc1 = None /\
      creating pc1 = false /\ pc1 <> CTerminated) as (pc1 & -> & -> & ? & ? & ? & ?).
    { destruct (_ && _); injection Hstep as <- <-; eexists; (split; [done|split; [done|]]);
        repeat case_match; (split_and!; try done); by destruct (req_method req). }
    split; [|done]. by eapply (sess_neutral _ _ s).
  - unfold locked in Hstep. destruct (lifecycle_held s) eqn:Hl; [done|].
    destruct (open_session instance_id (req_session_id req) s) as [r|] eqn:Ho; injection Hstep as <- <-.
    + split; [|done]. eapply (sess_acquire _ _ s); try done.
      destruct (open_session_spec _ _ _ _ _ Hinv Ho) as (x & Hx & Hid & Hcl & Hk). exists x.
      by rewrite Hid.
    + split; [|done]. by eapply (sess_neutral _ _ s).
  - destruct (session_heap s !! session) as [x|]; [|done]. cbn in Hstep.
    destruct (submit _ _ _ _ _ _ _) as [g [res|e]]; injection Hstep as <- <-; (split; [|done]);
      by eapply (sess_let_go _ _ s).
  - destruct (find _ _ _); injection Hstep as <- <-; (split; [|done]); by eapply (sess_neutral _ _ s).
  - destruct (heap (registry s) !! record); [|done]. injection Hstep as <- <-. split; [|done].
    by eapply (sess_neutral _ _ s).
  - destruct (find _ _ _); injection Hstep as <- <-; (split; [|done]); by eapply (sess_neutral _ _ s).
  - injection Hstep as <- <-. split; [|done]. by eapply (sess_neutral _ _ s).
  - destruct (find _ _ _); injection Hstep as <- <-; (split; [|done]); by eapply (sess_neutral _ _ s).
  - destruct (heap (registry s) !! record); [|done]. injection Hstep as <- <-. split; [|done].
    by eapply (sess_neutral _ _ s).
  - destruct (release _ _ _) as [g st]. injection Hstep as <- <-. split; [|done].
    by eapply (sess_neutral _ _ s).
  - injection Hstep as <- <-. split; [|done]. by eapply (sess_neutral _ _ s).
  - injection Hstep as <- <-. split; [|done]. by eapply (sess_neutral _ _ s).
  - destruct (input_throws i).
    + injection Hstep as <- <-. split; [|done]. by eapply (sess_neutral _ _ s).
    + injection Hstep as <- <-. split; [|done]. destruct a; by eapply (sess_neutral _ _ s).
  - injection Hstep as <- <-. split; [|done]. by eapply (sess_neutral _ _ s).
  - done.
  - done.
Qed.
End SessionSteps.
