(* ===== verification/ServiceLink.v ===== *)
(** The sessions and the registry agree: every retained record belongs to a registered
    Session, every record a close has taken is settled by that close, and every step of
    the service is a step of the registry or leaves it alone. *)
From S2P Require Import Prelude OrdMap Kernel Protocol Codec Jobs JobSystem JobSpec Service.
From S2P Require Import ServiceSystem.

(** ** What the registry's operations do to the link *)

Section Frames.
Context `{RT : Runtime}.

(** Nothing enters the map or the queue, and records keep their Session. *)
Definition reg_frame (g g' : JobRegistry) : Prop :=
  (forall p, p ∈ jobs g' -> p ∈ jobs g) /\ (forall r, r ∈ queue g' -> r ∈ queue g) /\
  (forall r, jr_session_id <$> heap g' !! r = jr_session_id <$> heap g !! r).

Lemma frame_refl g : reg_frame g g.
Proof. done. Qed.

Lemma frame_update r f g :
  (forall x, heap g !! r = Some x -> jr_session_id (f x) = jr_session_id x) ->
  reg_frame g (update r f g).
Proof.
  intros Hf. split_and!; [done|done|]. intros r'. cbn. destruct (decide (r' = r)) as [->|Hn].
  - rewrite list_lookup_alter_eq. destruct (heap g !! r) as [x|] eqn:Hx; [|done]. cbn. f_equal. auto.
  - by rewrite list_lookup_alter_ne.
Qed.

Lemma frame_worker gpu i g pc g' pc' :
  (forall r, holds pc = Some r -> exists x, heap g !! r = Some x /\ held_ok pc x) ->
  worker_step gpu i g pc = Some (g', pc') -> reg_frame g g'.
Proof.
  intros Hok Hstep.
  destruct (worker_step_effect _ _ _ _ _ _ Hok Hstep) as
    [(_ & _ & -> & _)|[(r & q & _ & _ & Hq & -> & _)|(r & x & x' & _ & Hx & -> & Hid & _)]].
  - done.
  - split_and!; [done| |done]. intros r'. cbn. rewrite Hq. by right.
  - apply frame_update. intros y Hy. rewrite Hx in Hy. injection Hy as <-. symmetry. apply Hid.
Qed.

Lemma frame_cancel r g : reg_frame g (cancel_section r g).
Proof. apply frame_update. intros x _. by destruct (terminal (jr_state x)). Qed.

Lemma frame_settle r g : reg_frame g (settle_queued r g).
Proof. by apply frame_update. Qed.

Lemma frame_release instance_id id g : reg_frame g (release instance_id id g).1.
Proof.
  unfold release. destruct (map_find _ _) as [r|]; [|done]. destruct (_ || _); [done|].
  destruct (heap g !! r) as [x|]; [|done]. destruct (terminal _); [|done].
  split_and!; [|done|done]. intros p Hp. cbn in Hp.
  by eapply elem_of_submseteq, sublist_submseteq, map_erase_sublist.
Qed.

Lemma frame_detach sid fails g : reg_frame g (close_detach sid fails g).1.
Proof.
  unfold close_detach. destruct fails; [done|]. split_and!; [| |done].
  - intros p Hp. cbn in Hp. apply list_elem_of_filter in Hp as [_ Hp].
    by eapply elem_of_submseteq, sublist_submseteq, erase_queued_sublist.
  - intros r Hr. cbn in Hr. by apply list_elem_of_filter in Hr as [_ Hr].
Qed.

Lemma frame_lookup g g' r x' :
  reg_frame g g' -> heap g' !! r = Some x' ->
  exists x, heap g !! r = Some x /\ jr_session_id x = jr_session_id x'.
Proof.
  intros (_ & _ & Hh) Hx. specialize (Hh r). rewrite Hx in Hh.
  destruct (heap g !! r) as [x|]; [|done]. exists x. split; [done|]. cbn in Hh. by injection Hh.
Qed.

Lemma frame_lookup_fwd g g' r x :
  reg_frame g g' -> heap g !! r = Some x ->
  exists x', heap g' !! r = Some x' /\ jr_session_id x' = jr_session_id x.
Proof.
  intros (_ & _ & Hh) Hx. specialize (Hh r). rewrite Hx in Hh.
  destruct (heap g' !! r) as [x'|]; [|done]. exists x'. split; [done|]. cbn in Hh. by injection Hh.
Qed.
End Frames.

(** ** The link *)

Section Link.
Context `{RT : Runtime}.
Context (config : ServiceConfig) (instance_id : Z).

(** The Session [sid] may own retained records: it is registered, and either open or its
    close has not taken its records yet. *)
Definition job_open (s : ServiceState) (sid : SessionId) : Prop :=
  exists sr sx, session_heap s !! sr = Some sx /\ sr_id sx = sid /\
    (session_value sid, sr) ∈ sessions s /\
    (sr_closing sx = true -> exists c req pc, calls s !! c = Some (req, pc) /\
       closes pc = Some sr /\ detaching pc = true).

Record link_inv (s : ServiceState) : Prop := {
  li_open k r x : (k, r) ∈ jobs (registry s) -> heap (registry s) !! r = Some x ->
    job_open s (jr_session_id x);
  li_settle c req pc : calls s !! c = Some (req, pc) ->
    NoDup (settling pc) /\ forall r, r ∈ settling pc -> r ∈ detached (sys s) /\
      exists x, heap (registry s) !! r = Some x /\ jr_session_id x = req_session_id req;
  li_detached r : r ∈ detached (sys s) ->
    exists c req pc, calls s !! c = Some (req, pc) /\ r ∈ settling pc;
  li_wait c req pc r : calls s !! c = Some (req, pc) -> r ∈ waiting pc ->
    is_Some (heap (registry s) !! r) /\ (r ∉ queue (registry s)) /\ (r ∉ detached (sys s));
}.

Lemma link_initial : link_inv (service_initial config).
Proof.
  split; cbn; try done.
  intros r Hr. by apply not_elem_of_nil in Hr.
Qed.

(** A step that takes nothing from the queue but to run it. *)
Lemma link_frame s s' :
  link_inv s -> reg_frame (registry s) (registry s') -> detached (sys s') = detached (sys s) ->
  (forall c req pc, calls s' !! c = Some (req, pc) ->
     (settling pc = [] /\ waiting pc = []) \/
     exists pc0, calls s !! c = Some (req, pc0) /\ settling pc = settling pc0 /\
       forall r, r ∈ waiting pc -> r ∈ waiting pc0) ->
  (forall c req pc0 r, calls s !! c = Some (req, pc0) -> r ∈ settling pc0 ->
     exists pc, calls s' !! c = Some (req, pc) /\ r ∈ settling pc) ->
  (forall sid, job_open s sid -> job_open s' sid) ->
  link_inv s'.
Proof.
  intros [Hopen Hset Hdet Hwait] Hf Hd Hback Hforth Hjob. pose proof Hf as (Hj & Hq & Hh). split.
  - intros k r x Hk Hx. destruct (frame_lookup _ _ _ _ Hf Hx) as (y & Hy & <-). eauto.
  - intros c req pc Hc. destruct (Hback c req pc Hc) as [[-> _]|(pc0 & Hc0 & -> & _)].
    { split; [constructor|]. intros r Hr. by apply not_elem_of_nil in Hr. }
    destruct (Hset c req pc0 Hc0) as [Hnd Hr]. split; [done|]. intros r Hin.
    destruct (Hr r Hin) as (Hrd & x & Hx & Hid). rewrite Hd. split; [done|].
    destruct (frame_lookup_fwd _ _ _ _ Hf Hx) as (x' & Hx' & Hid'). exists x'. by rewrite Hid'.
  - intros r Hr. rewrite Hd in Hr. destruct (Hdet r Hr) as (c & req & pc & Hc & Hin).
    destruct (Hforth _ _ _ _ Hc Hin) as (pc' & ? & ?). eauto.
  - intros c req pc r Hc Hr. destruct (Hback c req pc Hc) as [[_ Hn]|(pc0 & Hc0 & _ & Hw)].
    { rewrite Hn in Hr. by apply not_elem_of_nil in Hr. }
    destruct (Hwait c req pc0 r Hc0 (Hw r Hr)) as ([x Hx] & Hnq & Hnd). rewrite Hd.
    destruct (frame_lookup_fwd _ _ _ _ Hf Hx) as (x' & Hx' & _). split_and!; [done| |done]. auto.
Qed.

(** One call moves, and the Sessions that may own records still may. *)
Lemma link_call s s' c req pc pc' :
  link_inv s -> calls s !! c = Some (req, pc) -> calls s' = <[c := (req, pc')]> (calls s) ->
  reg_frame (registry s) (registry s') -> detached (sys s') = detached (sys s) ->
  settling pc' = settling pc -> (forall r, r ∈ waiting pc' -> r ∈ waiting pc) ->
  (forall sid, job_open s sid -> job_open s' sid) -> link_inv s'.
Proof.
  intros Hinv Hc Hcs Hf Hd Hs Hw Hjob. apply (link_frame s); try done; rewrite Hcs.
  - intros c1 req1 pc1 H1. destruct (call_inserted _ _ _ _ _ _ Hc H1) as [[-> [= -> ->]]|[_ H3]].
    + right. by exists pc.
    + right. by exists pc1.
  - intros c1 req1 pc1 r H1 Hr. destruct (decide (c1 = c)) as [->|Hn].
    + rewrite Hc in H1. injection H1 as <- <-. exists pc'. by rewrite (call_updated _ _ _ _ Hc), Hs.
    + exists pc1. by rewrite call_kept.
Qed.

(** A Session keeps its witness when the call that moves owns another one, or owns it
    in the same way. *)
Lemma job_open_call s s' sid c req pc pc' :
  calls s !! c = Some (req, pc) -> calls s' = <[c := (req, pc')]> (calls s) ->
  (forall sr x, session_heap s !! sr = Some x -> sr_id x = sid ->
     (session_value sid, sr) ∈ sessions s ->
     exists x', session_heap s' !! sr = Some x' /\ sr_id x' = sid /\
       (session_value sid, sr) ∈ sessions s' /\
       (sr_closing x' = true ->
          (sr_closing x = true /\
           (closes pc = Some sr -> detaching pc = true ->
            closes pc' = Some sr /\ detaching pc' = true)) \/
          (closes pc' = Some sr /\ detaching pc' = true))) ->
  job_open s sid -> job_open s' sid.
Proof.
  intros Hc Hcs Hse (sr & x & Hx & Hid & Hin & Hcl).
  destruct (Hse sr x Hx Hid Hin) as (x' & Hx' & Hid' & Hin' & Hcl'). exists sr, x'.
  split_and!; try done. intros Hc'. rewrite Hcs.
  assert (closes pc' = Some sr -> detaching pc' = true ->
    exists c1 req1 pc1, <[c := (req, pc')]> (calls s) !! c1 = Some (req1, pc1) /\
      closes pc1 = Some sr /\ detaching pc1 = true) as Hme.
  { intros E D. exists c, req, pc'. by rewrite (call_updated _ _ _ _ Hc). }
  destruct (Hcl' Hc') as [[Hold Hsame]|[E D]]; [|by apply Hme].
  destruct (Hcl Hold) as (c1 & req1 & pc1 & H1 & E1 & D1). destruct (decide (c1 = c)) as [->|Hn].
  - rewrite Hc in H1. injection H1 as <- <-. destruct (Hsame E1 D1). by apply Hme.
  - exists c1, req1, pc1. by rewrite call_kept.
Qed.

(** The common case: the sessions stay. *)
Lemma link_move s s' c req pc pc' :
  link_inv s -> calls s !! c = Some (req, pc) -> calls s' = <[c := (req, pc')]> (calls s) ->
  session_heap s' = session_heap s -> sessions s' = sessions s ->
  reg_frame (registry s) (registry s') -> detached (sys s') = detached (sys s) ->
  settling pc' = settling pc -> (forall r, r ∈ waiting pc' -> r ∈ waiting pc) ->
  (closes pc' = closes pc /\ detaching pc' = detaching pc \/ detaching pc = false) ->
  link_inv s'.
Proof.
  intros Hinv Hc Hcs Hh Hse Hf Hd Hs Hw Hcl. eapply (link_call s); try done.
  intros sid. eapply job_open_call; try done. intros sr x Hx Hid Hin. rewrite Hh, Hse. exists x.
  split_and!; try done. intros Hxc. left. split; [done|]. intros E D.
  destruct Hcl as [[-> ->]|]; [done|congruence].
Qed.

Abbreviation sinv := (sess_inv config instance_id).

(** The sessions change under the link. *)
Lemma link_insert s s' c req pc pc' graph sessions' :
  link_inv s -> calls s !! c = Some (req, pc) -> calls s' = <[c := (req, pc')]> (calls s) ->
  sys s' = sys s -> session_heap s' = session_heap s ++ [graph] -> sessions s' = sessions' ->
  emplace (next_session_id s) (length (session_heap s)) (sessions s) = Some sessions' ->
  settling pc' = settling pc -> waiting pc' = waiting pc -> detaching pc = false ->
  link_inv s'.
Proof.
  intros Hinv Hc Hcs Hsys Hh Hse Hemp Hs Hw Hd.
  eapply (link_call s); try done; unfold registry; rewrite ?Hsys; try done; [by rewrite Hw|].
  intros sid. eapply job_open_call; try done. intros sr x Hx Hid Hin. rewrite Hh, Hse. exists x.
  split_and!; [by apply lookup_app_l_Some|done| |].
  - rewrite (emplace_elem _ _ _ _ _ Hemp). by right.
  - intros Hxc. left. split; [done|]. congruence.
Qed.

Lemma link_closing s c req pc pc' r (b : bool) :
  link_inv s -> sinv s -> calls s !! c = Some (req, pc) ->
  settling pc' = settling pc -> waiting pc' = waiting pc ->
  closes pc = (if b then None else Some r) ->
  (b = true -> closes pc' = Some r /\ detaching pc' = true) ->
  link_inv (set_calls (<[c := (req, pc')]> (calls s)) (set_closing r b s)).
Proof.
  intros Hinv Hsinv Hc Hs Hw Hcl Hcl'.
  eapply (link_call s); try done; [by rewrite Hw|].
  intros sid. eapply job_open_call; try done. intros sr x Hx Hid Hin.
  exists (mk_SessionRecord (sr_id x) (sr_graph x) (if bool_decide (sr = r) then b else sr_closing x)).
  split_and!; [|done|done|].
  - cbn. apply closing_lookup. by exists x.
  - cbn. case_bool_decide as Hr.
    + intros ->. right. subst sr. by apply Hcl'.
    + intros Hxc. left. split; [done|]. intros E _. rewrite Hcl in E. destruct b; congruence.
Qed.

Lemma link_erase s c req pc pc' r :
  link_inv s -> sinv s -> calls s !! c = Some (req, pc) ->
  closes pc = Some r -> detaching pc = false -> settling pc' = settling pc -> waiting pc' = [] ->
  link_inv (set_calls (<[c := (req, pc')]> (calls s))
    (set_sessions (map_erase (session_value (req_session_id req)) (sessions s)) s)).
Proof.
  intros Hinv Hsinv Hc Hcl Hdt Hs Hw.
  destruct (si_close config instance_id s Hsinv _ _ _ _ Hc Hcl) as (y & Hy & Hyid & Hyc & Hyk).
  eapply (link_call s); try done.
  { rewrite Hw. intros r1 Hr1. by apply not_elem_of_nil in Hr1. }
  intros sid Hopen. pose proof Hopen as (sr & x & Hx & Hid & Hin & Hxo).
  assert (sr <> r) as Hn.
  { intros ->. rewrite Hy in Hx. injection Hx as <-.
    destruct (Hxo Hyc) as (c1 & req1 & pc1 & H1 & E1 & D1).
    assert (c1 = c) as -> by (by eapply (si_one_closer config instance_id s Hsinv)).
    rewrite Hc in H1. injection H1 as <- <-. congruence. }
  exists sr, x. split_and!; try done.
  - cbn. apply map_erase_elem; [apply Hsinv|]. split; [done|]. cbn. intros Hk. apply Hn.
    rewrite Hk in Hin. rewrite Hyid in Hyk.
    exact (sorted_map_unique _ _ sr r (si_sorted config instance_id s Hsinv) Hin Hyk).
  - intros Hxc. destruct (Hxo Hxc) as (c1 & req1 & pc1 & H1 & E1 & D1). exists c1, req1, pc1. cbn.
    rewrite call_kept; [done|]. intros ->. rewrite Hc in H1. injection H1 as <- <-. congruence.
Qed.

(** A new call, and a step of the registry's own. *)
Lemma link_dispatch s req : link_inv s -> link_inv (set_calls (calls s ++ [(req, CFence)]) s).
Proof.
  intros Hinv. apply (link_frame s); try done; cbn.
  - intros c req1 pc1 Hc. apply lookup_app_Some in Hc as [Hc|[_ Hc]].
    + right. by exists pc1.
    + apply list_lookup_singleton_Some in Hc as [_ [= <- <-]]. by left.
  - intros c req1 pc1 r Hc Hr. exists pc1. split; [by apply lookup_app_l_Some|done].
  - intros sid (sr & x & Hx & Hid & Hin & Hcl). exists sr, x. split_and!; try done.
    intros Hxc. destruct (Hcl Hxc) as (c & req1 & pc1 & Hc & ?). exists c, req1, pc1. cbn.
    split; [by apply lookup_app_l_Some|done].
Qed.

Lemma link_registry s j :
  link_inv s -> reg_frame (registry s) (reg j) -> detached j = detached (sys s) ->
  link_inv (set_sys j s).
Proof.
  intros Hinv Hf Hd. apply (link_frame s); try done.
  - intros c req pc Hc. right. by exists pc.
  - intros c req pc r Hc Hr. by exists pc.
Qed.

(** ** Closing *)

(** The call that settles a record closes its Session. *)
Lemma settling_closes (pc : call_pc) r : r ∈ settling pc -> is_Some (closes pc) /\ detaching pc = false.
Proof. destruct pc; cbn; intros Hr; try (by apply not_elem_of_nil in Hr). eauto. Qed.

Lemma same_closer s c1 c2 req1 req2 pc1 pc2 :
  sinv s -> calls s !! c1 = Some (req1, pc1) -> calls s !! c2 = Some (req2, pc2) ->
  is_Some (closes pc1) -> is_Some (closes pc2) -> req_session_id req1 = req_session_id req2 ->
  c1 = c2.
Proof.
  intros Hs H1 H2 [r1 E1] [r2 E2] Hid.
  destruct (si_close config instance_id s Hs _ _ _ _ H1 E1) as (x1 & Hx1 & Hid1 & _).
  destruct (si_close config instance_id s Hs _ _ _ _ H2 E2) as (x2 & Hx2 & Hid2 & _).
  assert (r1 = r2) as -> by (eapply (si_unique config instance_id s Hs); eauto; congruence).
  by eapply (si_one_closer config instance_id s Hs).
Qed.

(** A detached record is not in the map. *)
Lemma detached_not_retained s r x k :
  link_inv s -> sinv s -> heap (registry s) !! r = Some x -> r ∈ detached (sys s) ->
  (k, r) ∉ jobs (registry s).
Proof.
  intros Hl Hs Hx Hd Hk. destruct (li_detached s Hl r Hd) as (c & req & pc & Hc & Hin).
  destruct (settling_closes pc r Hin) as [Hcl Hdt]. destruct Hcl as [r0 Hcl].
  destruct (li_settle s Hl c req pc Hc) as [_ Hset]. destruct (Hset r Hin) as (_ & y & Hy & Hid).
  rewrite Hx in Hy. injection Hy as <-.
  destruct (li_open s Hl k r x Hk Hx) as (sr & sx & Hsx & Hsid & _ & Hopen).
  destruct (si_close config instance_id s Hs _ _ _ _ Hc Hcl) as (y & Hy & Hyid & Hyc & _).
  assert (sr = r0) as -> by (eapply (si_unique config instance_id s Hs); eauto; congruence).
  rewrite Hsx in Hy. injection Hy as <-.
  destruct (Hopen Hyc) as (c1 & req1 & pc1 & H1 & E1 & D1).
  assert (c1 = c) as -> by (by eapply (si_one_closer config instance_id s Hs)).
  rewrite Hc in H1. injection H1 as <- <-. congruence.
Qed.

(** What a successful snapshot of [close_session] holds. *)
Lemma close_detach_facts sid g g' queued running maximum_jobs ws d :
  job_inv maximum_jobs instance_id (mk_JobSystem g ws d) ->
  close_detach sid false g = (g', inl (queued, running)) ->
  heap g' = heap g /\ NoDup queued /\
  (forall p, p ∈ jobs g' -> in_session sid g p.2 = false) /\
  (forall r, r ∈ queue g' -> in_session sid g r = false) /\
  (forall r, r ∈ queued -> r ∈ queue g /\ in_session sid g r = true) /\
  (forall r, r ∈ running -> in_session sid g r = true /\ (r ∉ queued) /\
     exists k, (k, r) ∈ jobs g).
Proof.
  intros Hinv Hc. unfold close_detach in Hc.
  set (queued0 := filter (fun r => in_session sid g r = true) (queue g)) in Hc.
  set (js := erase_queued _ _ _) in Hc. injection Hc as <- <- <-. split_and!; cbn.
  - done.
  - apply NoDup_filter, (strongly_sorted_nodup (queue g)). apply Hinv.
  - intros p [Hp _]%list_elem_of_filter. done.
  - intros r [Hr _]%list_elem_of_filter. done.
  - intros r [Hr ?]%list_elem_of_filter. done.
  - intros r ([k r1] & -> & [Hs Hk]%list_elem_of_filter)%list_elem_of_fmap. cbn in *.
    assert ((k, r1) ∈ jobs g) as Hkj.
    { eapply elem_of_submseteq; [exact Hk|]. by apply sublist_submseteq, erase_queued_sublist. }
    split_and!; [done| |by exists k]. intros Hq.
    destruct (ji_jobs _ _ _ Hinv k r1 Hkj) as (x & Hx & Hid). cbn in Hx.
    destruct (erase_queued_drop g queued0 (jobs g) r1 x (ji_sorted _ _ _ Hinv) Hq Hx).
    by rewrite Hid.
Qed.

Lemma link_detach s c req r g queued running maximum_jobs :
  link_inv s -> sinv s -> job_inv maximum_jobs instance_id (sys s) ->
  calls s !! c = Some (req, CCloseDetach r) ->
  close_detach (req_session_id req) false (registry s) = (g, inl (queued, running)) ->
  link_inv (set_calls (<[c := (req, CSettleQueued r queued running)]> (calls s))
    (set_sys (mk_JobSystem g (workers (sys s)) (detached (sys s) ++ queued)) s)).
Proof.
  intros Hl Hs Hj Hc Hd. pose proof Hl as [Hopen Hset Hdet Hwait].
  pose proof (frame_detach (req_session_id req) false (registry s)) as Hf. rewrite Hd in Hf.
  cbn [fst] in Hf. pose proof Hf as (Hfj & Hfq & _).
  assert (job_inv maximum_jobs instance_id
    (mk_JobSystem (registry s) (workers (sys s)) (detached (sys s)))) as Hj'
    by (unfold registry; by destruct (sys s)).
  destruct (close_detach_facts _ _ _ _ _ _ _ _ Hj' Hd) as (Hh & Hnd & Hjn & Hqn & Hqd & Hrun).
  assert (forall r1 x, heap (registry s) !! r1 = Some x ->
    in_session (req_session_id req) (registry s) r1 = true -> jr_session_id x = req_session_id req)
    as Hsess.
  { intros r1 x Hx. rewrite (in_session_spec _ _ _ _ Hx). by case_bool_decide. }
  split; unfold registry; cbn; rewrite ?Hh.
  - intros k r1 x Hk Hx. specialize (Hjn _ Hk). cbn in Hjn.
    rewrite (in_session_spec _ _ _ _ Hx), bool_decide_eq_false in Hjn.
    eapply (job_open_call s); [exact Hc|done| |by eapply Hopen; [apply Hfj|]].
    intros sr y Hy Hid Hin. exists y. split_and!; try done. intros Hyc. left. split; [done|].
    intros [= <-] _. destruct Hjn. rewrite <- Hid.
    destruct (si_close config instance_id s Hs _ _ _ _ Hc eq_refl) as (z & Hz & Hzid & _).
    congruence.
  - intros c1 req1 pc1 H1. destruct (call_inserted _ _ _ _ _ _ Hc H1) as [[-> [= -> ->]]|[Hn H3]].
    + split; [done|]. intros r1 Hr1. destruct (Hqd r1 Hr1) as [Hq Hin].
      split; [apply elem_of_app; by right|]. destruct (ji_queue _ _ _ Hj r1 Hq) as (x & Hx & _). eauto.
    + destruct (Hset _ _ _ H3) as [? Hr]. split; [done|]. intros r1 Hr1.
      destruct (Hr r1 Hr1) as (? & ?). split; [apply elem_of_app; by left|done].
  - intros r1 [Hr1|Hr1]%elem_of_app.
    + destruct (Hdet r1 Hr1) as (c1 & req1 & pc1 & H1 & Hin). exists c1, req1, pc1. split; [|done].
      rewrite call_kept; [done|]. intros ->. rewrite Hc in H1. injection H1 as <- <-.
      by apply not_elem_of_nil in Hin.
    + exists c, req, (CSettleQueued r queued running). by rewrite (call_updated _ _ _ _ Hc).
  - intros c1 req1 pc1 r1 H1 Hr1.
    destruct (call_inserted _ _ _ _ _ _ Hc H1) as [[-> [= -> ->]]|[Hn H3]].
    + cbn in Hr1. destruct (Hrun r1 Hr1) as (Hin & Hnq & k & Hk).
      destruct (ji_jobs _ _ _ Hj k r1 Hk) as (x & Hx & _). split_and!; [by exists x| |].
      * intros Hq. specialize (Hqn _ Hq). congruence.
      * rewrite elem_of_app. intros [Hd1|]; [|done].
        by apply (detached_not_retained s r1 x k Hl Hs Hx Hd1).
    + destruct (Hwait _ _ _ _ H3 Hr1) as (? & Hnq & Hnd1). split_and!; [done|by intros ?%Hfq|].
      rewrite elem_of_app. intros [|Hq]; [done|]. by destruct (Hqd _ Hq).
Qed.

Lemma link_settle s c req r q queued running :
  link_inv s -> sinv s -> calls s !! c = Some (req, CSettleQueued r (q :: queued) running) ->
  link_inv (set_calls (<[c := (req, CSettleQueued r queued running)]> (calls s))
    (set_sys (mk_JobSystem (settle_queued q (registry s)) (workers (sys s))
                (filter (fun q' => q' <> q) (detached (sys s)))) s)).
Proof.
  intros Hl Hs Hc. pose proof Hl as [Hopen Hset Hdet Hwait].
  pose proof (frame_settle q (registry s)) as Hf. pose proof Hf as (Hfj & Hfq & _).
  destruct (Hset _ _ _ Hc) as [Hnd Hmine]. cbn in Hnd. apply NoDup_cons in Hnd as [Hnq Hnd].
  split; unfold registry at 1; cbn -[settle_queued].
  - intros k r1 x Hk Hx. unfold registry in Hx. cbn -[settle_queued] in Hx.
    destruct (frame_lookup _ _ _ _ Hf Hx) as (y & Hy & <-).
    eapply (job_open_call s); [exact Hc|done| |by eapply Hopen; [apply Hfj|]].
    intros sr z Hz Hid Hin. exists z. split_and!; try done. intros Hzc. by left.
  - intros c1 req1 pc1 H1.
    assert (forall r1 x, heap (registry s) !! r1 = Some x -> jr_session_id x = req_session_id req1 ->
      exists x', heap (settle_queued q (registry s)) !! r1 = Some x' /\
        jr_session_id x' = req_session_id req1) as Hfwd.
    { intros r1 x Hx Hid. destruct (frame_lookup_fwd _ _ _ _ Hf Hx) as (x' & Hx' & Hid').
      exists x'. by rewrite Hid'. }
    destruct (call_inserted _ _ _ _ _ _ Hc H1) as [[-> [= -> ->]]|[Hn H3]].
    + split; [done|]. intros r1 Hr1. destruct (Hmine r1) as (Hd & x & Hx & Hid); [by right|].
      split; [|by eapply Hfwd]. apply list_elem_of_filter. split; [|done]. by intros ->.
    + destruct (Hset _ _ _ H3) as [Hnd3 Hr]. split; [done|]. intros r1 Hr1.
      destruct (Hr r1 Hr1) as (Hd & x & Hx & Hid). split; [|by eapply Hfwd].
      apply list_elem_of_filter. split; [|done]. intros ->. apply Hn.
      destruct (Hmine q) as (_ & y & Hy & Hyid); [by left|].
      rewrite Hx in Hy. injection Hy as <-. eapply (same_closer s); [done|exact H3|exact Hc| | |congruence].
      * by apply settling_closes in Hr1 as [? _].
      * by eexists.
  - intros r1 [Hn Hr1]%list_elem_of_filter.
    destruct (Hdet r1 Hr1) as (c1 & req1 & pc1 & H1 & Hin). destruct (decide (c1 = c)) as [->|Hne].
    + rewrite Hc in H1. injection H1 as <- <-. cbn in Hin. apply elem_of_cons in Hin as [?|Hin]; [done|].
      exists c, req, (CSettleQueued r queued running). by rewrite (call_updated _ _ _ _ Hc).
    + exists c1, req1, pc1. by rewrite call_kept.
  - intros c1 req1 pc1 r1 H1 Hr1.
    assert (exists req2 pc2, calls s !! c1 = Some (req2, pc2) /\ r1 ∈ waiting pc2)
      as (req2 & pc2 & H2 & Hr2).
    { destruct (call_inserted _ _ _ _ _ _ Hc H1) as [[-> [= -> ->]]|[Hn H3]]; eauto. }
    destruct (Hwait _ _ _ _ H2 Hr2) as ([x Hx] & Hq & Hd).
    destruct (frame_lookup_fwd _ _ _ _ Hf Hx) as (x' & Hx' & _).
    split_and!; [by exists x'|done|]. intros [_ ?]%list_elem_of_filter. done.
Qed.

(** ** Admission *)

Lemma submit_frame maximum_jobs sid graph options fails g :
  sorted_map (jobs g) ->
  let g' := (submit maximum_jobs instance_id sid graph options fails g).1 in
  (jobs g' = jobs g /\ queue g' = queue g /\ heap g' = heap g) \/
  exists jobs' record, emplace (next_id g) (length (heap g)) (jobs g) = Some jobs' /\
    jr_session_id record = sid /\ jobs g' = jobs' /\ heap g' = heap g ++ [record] /\
    queue g' = queue g ++ [length (heap g)].
Proof.
  intros Hsort. cbv zeta. unfold submit.
  destruct (stopping g); [by left|]. destruct (maximum_jobs <=? zlen (jobs g)); [by left|].
  destruct (next_id g =? 0); [by left|].
  case_bool_decide; [by left|]. case_bool_decide; [by left|]. cbn [job_value].
  destruct (emplace _ _ _) as [jobs'|] eqn:Hemp; [|by left]. case_bool_decide.
  - left. split_and!; [|done|done]. cbn. apply (map_erase_emplace _ _ _ _ Hsort Hemp).
  - right. eexists jobs', _. split_and!; try done. done.
Qed.

Lemma link_admit s c req r x options fails maximum_jobs pc' :
  link_inv s -> sinv s -> calls s !! c = Some (req, CSubmitAdmit r) ->
  session_heap s !! r = Some x ->
  settling pc' = [] -> waiting pc' = [] ->
  job_inv maximum_jobs instance_id (sys s) ->
  link_inv (set_calls (<[c := (req, pc')]> (calls s)) (set_lifecycle false
    (set_registry (submit maximum_jobs instance_id (sr_id x) (sr_graph x) options fails
       (registry s)).1 s))).
Proof.
  intros Hl Hs Hc Hx Hse Hwa Hj.
  destruct (si_admit config instance_id s Hs _ _ _ _ Hc eq_refl) as (_ & y & Hy & Hid & Hcl & Hin).
  rewrite Hx in Hy. injection Hy as <-.
  set (g := (submit _ _ _ _ _ _ (registry s)).1).
  assert (reg_frame (registry s) g ->
    link_inv (set_calls (<[c := (req, pc')]> (calls s)) (set_lifecycle false (set_registry g s))))
    as Hsame.
  { intros Hf. eapply (link_move s); try done; [rewrite Hwa; intros r1 Hr1|by right].
    by apply not_elem_of_nil in Hr1. }
  destruct (submit_frame maximum_jobs (sr_id x) (sr_graph x) options fails (registry s)
    (ji_sorted _ _ _ Hj)) as [Hf|(jobs' & job & Hemp & Hjob_id & Hgj & Hgh & Hgq)].
  { apply Hsame. destruct Hf as (Hfj & Hfq & Hfh). fold g in Hfj, Hfq, Hfh.
    split_and!; by rewrite ?Hfj, ?Hfq, ?Hfh. }
  fold g in Hgj, Hgh, Hgq. clearbody g. clear Hsame. pose proof Hl as [Hopen Hset Hdet Hwait].
  assert (forall r1 z, heap (registry s) !! r1 = Some z -> heap g !! r1 = Some z) as Hold
    by (intros; rewrite Hgh; by apply lookup_app_l_Some).
  assert (forall sid, job_open s sid -> job_open (set_calls (<[c := (req, pc')]> (calls s))
    (set_lifecycle false (set_registry g s))) sid) as Hjob.
  { intros sid. eapply job_open_call; [exact Hc|done|]. intros sr z Hz Hzid Hzin. exists z.
    split_and!; try done. intros Hzc. by left. }
  assert (forall c1 req1 pc1, <[c := (req, pc')]> (calls s) !! c1 = Some (req1, pc1) ->
    (settling pc1 = [] /\ waiting pc1 = []) \/ calls s !! c1 = Some (req1, pc1)) as Hback.
  { intros c1 req1 pc1 H1.
    destruct (call_inserted _ _ _ _ _ _ Hc H1) as [[-> [= -> ->]]|[Hn H3]]; auto. }
  split; unfold registry; cbn.
  - intros k r1 z Hk Hz. rewrite Hgj in Hk. rewrite Hgh in Hz. rewrite (emplace_elem _ _ _ _ _ Hemp) in Hk.
    apply lookup_app_Some in Hz as [Hz|[Hlen Hz]].
    + destruct Hk as [[= -> ->]|Hk]; [apply lookup_lt_Some in Hz; unfold registry in Hz; lia|]. eauto.
    + apply list_lookup_singleton_Some in Hz as [_ <-]. apply Hjob. exists r, x.
      rewrite Hjob_id.
      split_and!; try done. by rewrite Hcl.
  - intros c1 req1 pc1 H1. destruct (Hback _ _ _ H1) as [[-> _]|H3].
    + split; [constructor|]. intros r1 Hr1. by apply not_elem_of_nil in Hr1.
    + destruct (Hset _ _ _ H3) as [? Hr]. split; [done|]. intros r1 Hr1.
      destruct (Hr r1 Hr1) as (? & z & ? & ?). split; [done|]. exists z. auto.
  - intros r1 Hr1. destruct (Hdet r1 Hr1) as (c1 & req1 & pc1 & H1 & Hin1). exists c1, req1, pc1.
    split; [|done]. rewrite call_kept; [done|]. intros ->. rewrite Hc in H1. injection H1 as <- <-.
    by apply not_elem_of_nil in Hin1.
  - intros c1 req1 pc1 r1 H1 Hr1. destruct (Hback _ _ _ H1) as [[_ Hw]|H3].
    { rewrite Hw in Hr1. by apply not_elem_of_nil in Hr1. }
    destruct (Hwait _ _ _ _ H3 Hr1) as ([z Hz] & Hnq & Hnd). split_and!; [eauto| |done].
    rewrite Hgq. intros [?| ->%list_elem_of_singleton]%elem_of_app; [done|].
    apply lookup_lt_Some in Hz. unfold registry in Hz. lia.
Qed.
End Link.
