(* ===== verification/ServiceSpec.v ===== *)
(** Every step of the service is a step of the registry or leaves it alone, and keeps the
    agreement between the sessions and the registry; no close forgets a record that is
    still running. *)
From S2P Require Import Prelude OrdMap Kernel Protocol Codec Jobs JobSystem JobSpec Service.
From S2P Require Import ServiceSystem ServiceLink.

Section ServiceSpec.
Context `{RT : Runtime}.
Context (config : ServiceConfig) (instance_id : Z) (daemon_version : bytes).

Abbreviation sinv := (sess_inv config instance_id).
Abbreviation cstep := (call_step config instance_id daemon_version).
Abbreviation sstep := (service_step config instance_id daemon_version).
Abbreviation srun := (service_run config instance_id daemon_version).
Abbreviation sreach := (service_reachable config instance_id daemon_version).
Abbreviation jstep :=
  (job_step (cfg_maximum_jobs config) instance_id (cfg_gpu_enabled config)).
Abbreviation jinv := (job_inv (cfg_maximum_jobs config) instance_id).

(** A step of the registry's system, or none. *)
Definition job_move (j j' : JobSystem) : Prop := j' = j \/ exists e, jstep e j = Some j'.

Lemma with_reg_same j : with_reg (reg j) j = j.
Proof. by destruct j. Qed.

(** A call acts on the registry by its events only. *)
Lemma call_job_move i s s' c req pc pc' :
  link_inv s -> calls s !! c = Some (req, pc) -> cstep i s req pc = Some (s', pc') ->
  job_move (sys s) (sys s').
Proof.
  intros Hl Hc Hstep. unfold job_move.
  destruct pc as [ | | |graph|graph|out| |r|r [|q queued] running|r [|x todo] running|r [|x running]|r|r e
    | |r| |r| |r| |r| | |n|a|partial e|resp| ]; cbn in Hstep; unfold locked in Hstep;
    try (destruct (lifecycle_held s); [done|]).
  - destruct (_ && _); injection Hstep as <- <-; by left.
  - unfold reserve_session, reserve_while_locked in Hstep. repeat case_match; simplify_eq; by left.
  - injection Hstep as <- <-. by left.
  - repeat case_match; simplify_eq; by left.
  - unfold publish_session, commit_while_locked in Hstep. repeat case_match; simplify_eq; by left.
  - unfold release_reservation in Hstep.
    destruct (pending_session_creates s =? 0); injection Hstep as <- <-; by left.
  - destruct (open_session _ _ _); injection Hstep as <- <-; by left.
  - right. exists (EDetach (req_session_id req) (raises i)). cbn. unfold registry in Hstep.
    destruct (close_detach _ _ _) as [g [[queued running]|e]]; by injection Hstep as <- <-.
  - injection Hstep as <- <-. by left.
  - injection Hstep as <- <-. right. exists (ESettle q). cbn. rewrite bool_decide_eq_true_2; [done|].
    destruct (li_settle s Hl c req _ Hc) as [_ Hset]. destruct (Hset q); [by left|done].
  - injection Hstep as <- <-. by left.
  - injection Hstep as <- <-. right. by exists (ECancel x).
  - injection Hstep as <- <-. by left.
  - destruct (settled x (registry s)); [|done]. injection Hstep as <- <-. by left.
  - unfold finalize_session_close in Hstep. repeat case_match; simplify_eq; by left.
  - injection Hstep as <- <-. left. unfold reopen_session. by case_bool_decide.
  - destruct (open_session _ _ _); injection Hstep as <- <-; by left.
  - destruct (session_heap s !! r) as [x|]; [|done]. cbn in Hstep.
    right. exists (ESubmit (sr_id x) (sr_graph x) (req_submit_options req) (input_submit i)). cbn.
    unfold registry in Hstep.
    destruct (submit _ _ _ _ _ _ _) as [g [res|e]]; by injection Hstep as <- <-.
  - injection Hstep as <- <-. by left.
  - destruct (heap (registry s) !! r); [|done]. injection Hstep as <- <-. by left.
  - injection Hstep as <- <-. by left.
  - injection Hstep as <- <-. right. by exists (ECancel r).
  - injection Hstep as <- <-. by left.
  - destruct (heap (registry s) !! r); [|done]. injection Hstep as <- <-. by left.
  - right. exists (ERelease (req_job_id req)). cbn. unfold registry in Hstep.
    destruct (release _ _ _) as [g st]. by injection Hstep as <- <-.
  - injection Hstep as <- <-. by left.
  - injection Hstep as <- <-. by left.
  - destruct (input_throws i); injection Hstep as <- <-; [by left|]. left. by destruct a.
  - injection Hstep as <- <-. by left.
  - done.
  - done.
Qed.

(** *** The link is kept *)

Lemma link_create_step i s s' c req pc pc' :
  link_inv s -> sinv s -> calls s !! c = Some (req, pc) ->
  creating pc = true \/ pc = CCreateReserve -> cstep i s req pc = Some (s', pc') ->
  link_inv (set_calls (<[c := (req, pc')]> (calls s')) s').
Proof.
  intros Hl Hs Hc Hpc Hstep. destruct pc; destruct Hpc as [Hpc|Hpc]; try discriminate Hpc;
    clear Hpc; cbn in Hstep; unfold locked in Hstep; try (destruct (lifecycle_held s); [done|]).
  - unfold reserve_session, reserve_while_locked in Hstep.
    destruct (_ || _); [|destruct (next_session_id s =? 0)]; injection Hstep as <- <-;
      (eapply (link_move s); [exact Hl|exact Hc|done..|by right]).
  - injection Hstep as <- <-. destruct (input_throws i);
      (eapply (link_move s); [exact Hl|exact Hc|done..|by right]).
  - destruct i as [| | |[[plan|status]|e]]; try discriminate Hstep; injection Hstep as <- <-;
      (eapply (link_move s); [exact Hl|exact Hc|done..|by right]).
  - unfold publish_session, commit_while_locked in Hstep. destruct (raises i).
    { injection Hstep as <- <-. eapply (link_move s); [exact Hl|exact Hc|done..|by right]. }
    destruct (next_session_id s =? 0).
    { injection Hstep as <- <-. eapply (link_move s); [exact Hl|exact Hc|done..|by right]. }
    cbn [session_value] in Hstep. destruct (emplace _ _ _) as [sessions'|] eqn:Hemp.
    2: { injection Hstep as <- <-. eapply (link_move s); [exact Hl|exact Hc|done..|by right]. }
    destruct (pending_session_creates s =? 0); injection Hstep as <- <-.
    { eapply (link_move s); [exact Hl|exact Hc|done..|by right]. }
    eapply (link_insert s); [exact Hl|exact Hc|done..|exact Hemp|done|done|done].
  - unfold release_reservation in Hstep.
    destruct (pending_session_creates s =? 0); injection Hstep as <- <-;
      [|destruct outcome]; (eapply (link_move s); [exact Hl|exact Hc|done..|by right]).
Qed.

Lemma link_close_step i s s' c req pc pc' :
  link_inv s -> sinv s -> jinv (sys s) -> calls s !! c = Some (req, pc) ->
  is_Some (closes pc) \/ pc = CCloseMark -> cstep i s req pc = Some (s', pc') ->
  link_inv (set_calls (<[c := (req, pc')]> (calls s')) s').
Proof.
  intros Hl Hs Hj Hc Hpc Hstep. destruct pc; destruct Hpc as [[r0 Hpc]|Hpc];
    try discriminate Hpc; clear Hpc; cbn in Hstep; unfold locked in Hstep;
    try (destruct (lifecycle_held s); [done|]).
  - destruct (open_session _ _ _); injection Hstep as <- <-.
    + by eapply (link_closing config instance_id s).
    + eapply (link_move s); [exact Hl|exact Hc|done..|by right].
  - destruct (raises i).
    + cbn in Hstep. injection Hstep as <- <-.
      eapply (link_move s); [exact Hl|exact Hc|done..|by left].
    + destruct (close_detach _ _ _) as [g [[queued running]|e]] eqn:Hd; [|by cbn in Hd].
      injection Hstep as <- <-. by eapply (link_detach config instance_id s).
  - destruct queued as [|q queued]; injection Hstep as <- <-.
    + eapply (link_move s); [exact Hl|exact Hc|done..|by right].
    + by eapply (link_settle config instance_id s).
  - destruct todo as [|x todo]; injection Hstep as <- <-.
    + eapply (link_move s); [exact Hl|exact Hc|done..|by right].
    + eapply (link_move s); [exact Hl|exact Hc|done..| |done|done|done|by right].
      apply frame_cancel.
  - destruct running as [|x running]; [|destruct (settled x (registry s)); [|done]];
      injection Hstep as <- <-.
    + eapply (link_move s); [exact Hl|exact Hc|done..|by right].
    + eapply (link_move s); [exact Hl|exact Hc|done..| |by right]. intros r Hr. by right.
  - unfold finalize_session_close in Hstep.
    destruct (map_find _ _) as [r'|], (session_heap s !! session) as [x|];
      try destruct (_ && _); injection Hstep as <- <-;
      first [ by eapply (link_erase config instance_id s)
            | eapply (link_move s); [exact Hl|exact Hc|done..|by right] ].
  - injection Hstep as <- <-. unfold reopen_session. case_bool_decide.
    + by eapply (link_closing config instance_id s).
    + destruct (si_close config instance_id s Hs _ _ _ _ Hc eq_refl) as (x & Hx & Hid & _ & Hin).
      rewrite Hid in Hin. apply map_find_elem in Hin; [done|apply Hs].
Qed.

Lemma link_call_step i s s' c req pc pc' :
  link_inv s -> sinv s -> jinv (sys s) -> calls s !! c = Some (req, pc) ->
  cstep i s req pc = Some (s', pc') ->
  link_inv (set_calls (<[c := (req, pc')]> (calls s')) s').
Proof.
  intros Hl Hs Hj Hc Hstep.
  destruct pc; try (eapply link_create_step; eauto; fail); try (eapply link_close_step; eauto; fail);
    cbn in Hstep; unfold locked in Hstep; try (destruct (lifecycle_held s); [done|]).
  - assert (s' = s /\ settling pc' = [] /\ waiting pc' = []) as (-> & Hse & Hwa).
    { destruct (_ && _); injection Hstep as <- <-; [by destruct (input_throws i)|].
      by destruct (req_method req). }
    eapply (link_move s); [exact Hl|exact Hc|done..| |by right]. by rewrite Hwa.
  - destruct (open_session _ _ _); injection Hstep as <- <-;
      (eapply (link_move s); [exact Hl|exact Hc|done..|by right]).
  - destruct (session_heap s !! session) as [x|] eqn:Hx; [|done]. cbn in Hstep.
    pose proof (fun pc' Hse Hwa => link_admit config instance_id s c req session x
      (req_submit_options req) (input_submit i) (cfg_maximum_jobs config) pc' Hl Hs Hc Hx Hse Hwa Hj)
      as Hadmit.
    destruct (submit _ _ _ _ _ _ _) as [g [res|e]]; injection Hstep as <- <-; by apply Hadmit.
  - destruct (find _ _ _); injection Hstep as <- <-;
      (eapply (link_move s); [exact Hl|exact Hc|done..|by right]).
  - destruct (heap (registry s) !! record); [|done]. injection Hstep as <- <-.
    eapply (link_move s); [exact Hl|exact Hc|done..|by right].
  - destruct (find _ _ _); injection Hstep as <- <-;
      (eapply (link_move s); [exact Hl|exact Hc|done..|by right]).
  - injection Hstep as <- <-. eapply (link_move s); [exact Hl|exact Hc|done..| |done|done|done|by right].
    apply frame_cancel.
  - destruct (find _ _ _); injection Hstep as <- <-;
      (eapply (link_move s); [exact Hl|exact Hc|done..|by right]).
  - destruct (heap (registry s) !! record); [|done]. injection Hstep as <- <-.
    eapply (link_move s); [exact Hl|exact Hc|done..|by right].
  - pose proof (frame_release instance_id (req_job_id req) (registry s)) as Hf.
    destruct (release _ _ _) as [g st]. injection Hstep as <- <-.
    eapply (link_move s); [exact Hl|exact Hc|done..|exact Hf|done|done|done|by right].
  - injection Hstep as <- <-. eapply (link_move s); [exact Hl|exact Hc|done..|by right].
  - injection Hstep as <- <-. eapply (link_move s); [exact Hl|exact Hc|done..|by right].
  - destruct (input_throws i); injection Hstep as <- <-; [|destruct a];
      (eapply (link_move s); [exact Hl|exact Hc|done..|by right]).
  - injection Hstep as <- <-. eapply (link_move s); [exact Hl|exact Hc|done..|by right].
  - done.
  - done.
Qed.

(** *** Nothing that runs is forgotten by a close *)

(** A record that is not terminal. *)
Definition live (g : JobRegistry) (r : nat) : Prop :=
  exists x, heap g !! r = Some x /\ terminal (jr_state x) = false.

(** Every such record is retained, or a close is settling it or waiting for it. *)
Record close_inv (s : ServiceState) : Prop := {
  ci_retained r : live (registry s) r ->
    (exists k, (k, r) ∈ jobs (registry s)) \/
    exists c req pc, calls s !! c = Some (req, pc) /\ (r ∈ settling pc \/ r ∈ waiting pc);
  ci_wait c req pc r : calls s !! c = Some (req, pc) -> r ∈ waiting pc ->
    exists x, heap (registry s) !! r = Some x /\ jr_session_id x = req_session_id req;
}.

Lemma close_initial : close_inv (service_initial config).
Proof. split; cbn; [|done]. by intros r (x & Hx & _). Qed.

Lemma job_move_record j j' r x :
  jinv j -> job_move j j' -> heap (reg j) !! r = Some x ->
  exists x', heap (reg j') !! r = Some x' /\ jr_session_id x' = jr_session_id x /\
    (terminal (jr_state x) = true -> terminal (jr_state x') = true).
Proof.
  intros Hj [->|[e He]] Hx; [by exists x|].
  destruct (step_record _ _ _ _ _ _ _ _ Hj He Hx) as (x' & Hx' & Hcase). exists x'. split; [done|].
  destruct Hcase as [(_ & Hi & _ & _ & Hst & _)|[(w & i & -> & pc & pc' & _ & _ & _ & _ & Hid & _ & Hc & _)
    |(-> & _ & ->)]].
  - by rewrite Hi, Hst.
  - split; [symmetry; apply Hid|]. destruct Hc as [->|[[Hq _]|?]]; [done| |done].
    intros Ht. by rewrite Hq in Ht.
  - done.
Qed.

Lemma live_back j j' r :
  jinv j -> job_move j j' -> length (heap (reg j')) = length (heap (reg j)) ->
  live (reg j') r -> live (reg j) r.
Proof.
  intros Hj Hm Hlen (x' & Hx' & Ht).
  assert (is_Some (heap (reg j) !! r)) as [x Hx].
  { apply lookup_lt_is_Some. rewrite <- Hlen. by eapply lookup_lt_Some. }
  destruct (job_move_record _ _ _ _ Hj Hm Hx) as (y & Hy & _ & Hmono). exists x. split; [done|].
  rewrite Hx' in Hy. injection Hy as <-. destruct (terminal (jr_state x)); [|done].
  by rewrite Hmono in Ht.
Qed.

(** A call moves; it drops only records that are terminal. *)
Lemma close_move s s' c req pc pc' :
  close_inv s -> jinv (sys s) -> job_move (sys s) (sys s') ->
  calls s !! c = Some (req, pc) -> calls s' = <[c := (req, pc')]> (calls s) ->
  length (heap (registry s')) = length (heap (registry s)) ->
  (forall k r, (k, r) ∈ jobs (registry s) -> live (registry s') r ->
     (exists k', (k', r) ∈ jobs (registry s')) \/ r ∈ settling pc' \/ r ∈ waiting pc') ->
  (forall r, r ∈ waiting pc' ->
     r ∈ waiting pc \/ in_session (req_session_id req) (registry s) r = true) ->
  (forall r, r ∈ settling pc \/ r ∈ waiting pc -> live (registry s') r ->
     r ∈ settling pc' \/ r ∈ waiting pc') ->
  close_inv s'.
Proof.
  intros [Hret Hwait] Hj Hm Hc Hcs Hlen Hjobs Hback Hforth. split.
  - intros r Hr. assert (live (registry s) r) as Hr0 by (by eapply (live_back (sys s) (sys s'))).
    rewrite Hcs. destruct (Hret r Hr0) as [[k Hk]|(c1 & req1 & pc1 & H1 & Hin)].
    + destruct (Hjobs k r Hk Hr) as [|Hin]; [by left|]. right. exists c, req, pc'.
      by rewrite (call_updated _ _ _ _ Hc).
    + right. destruct (decide (c1 = c)) as [->|Hn].
      * rewrite Hc in H1. injection H1 as <- <-. exists c, req, pc'.
        rewrite (call_updated _ _ _ _ Hc). split; [done|]. by apply Hforth.
      * exists c1, req1, pc1. by rewrite call_kept.
  - intros c1 req1 pc1 r H1 Hr. rewrite Hcs in H1.
    assert (exists x, heap (registry s) !! r = Some x /\ jr_session_id x = req_session_id req1)
      as (x & Hx & Hid).
    { destruct (call_inserted _ _ _ _ _ _ Hc H1) as [[-> [= -> ->]]|[Hn H3]]; [|eauto].
      destruct (Hback r Hr) as [|Hin]; [eauto|]. unfold in_session in Hin.
      destruct (heap (registry s) !! r) as [x|]; [|done]. exists x. split; [done|].
      by apply bool_decide_eq_true in Hin. }
    destruct (job_move_record _ _ _ _ Hj Hm Hx) as (x' & Hx' & Hid' & _). exists x'. by rewrite Hid'.
Qed.

(** A step that leaves the map alone. *)
Lemma close_same s s' c req pc pc' :
  close_inv s -> jinv (sys s) -> job_move (sys s) (sys s') ->
  calls s !! c = Some (req, pc) -> calls s' = <[c := (req, pc')]> (calls s) ->
  length (heap (registry s')) = length (heap (registry s)) ->
  jobs (registry s') = jobs (registry s) ->
  (forall r, r ∈ waiting pc' -> r ∈ waiting pc) ->
  (forall r, r ∈ settling pc \/ r ∈ waiting pc -> live (registry s') r ->
     r ∈ settling pc' \/ r ∈ waiting pc') ->
  close_inv s'.
Proof.
  intros Hci Hj Hm Hc Hcs Hlen Hjobs Hback Hforth. eapply (close_move s); try done.
  - intros k r Hk _. left. exists k. by rewrite Hjobs.
  - intros r Hr. left. by apply Hback.
Qed.

Lemma nil_waiting (r : nat) (l : list nat) : r ∈ @nil nat -> r ∈ l.
Proof. intros Hr. by apply not_elem_of_nil in Hr. Qed.

Lemma nil_settling (r : nat) (P Q : Prop) : r ∈ @nil nat \/ r ∈ @nil nat -> P -> Q.
Proof. by intros [Hr|Hr]; apply not_elem_of_nil in Hr. Qed.

(** The calls that own no record, before and after. *)
Ltac unowned s Hci Hj Hm Hc :=
  eapply (close_same s);
    [exact Hci|exact Hj|exact Hm|exact Hc|done|done|done
    |intros ?; apply nil_waiting|intros ?; apply nil_settling].

(** Whether the call owns records. *)
Definition owner (pc : call_pc) : bool :=
  match pc with
  | CCloseDetach _ | CSettleQueued _ _ _ | CSettleRunning _ _ _ | CSettleWait _ _
  | CSubmitAdmit _ | CRelease => true
  | _ => false
  end.

(** Other calls leave the registry alone, or cancel in it. *)
Lemma unowned_step i s s' req pc pc' :
  owner pc = false -> cstep i s req pc = Some (s', pc') ->
  jobs (registry s') = jobs (registry s) /\
  length (heap (registry s')) = length (heap (registry s)) /\
  settling pc = [] /\ waiting pc = [] /\ settling pc' = [] /\ waiting pc' = [].
Proof.
  intros Ho Hstep. destruct pc; try discriminate Ho; cbn in Hstep; unfold locked in Hstep;
    try (destruct (lifecycle_held s); [done|]).
  - destruct (_ && _); injection Hstep as <- <-; [by destruct (input_throws i)|].
    by destruct (req_method req).
  - unfold reserve_session, reserve_while_locked in Hstep.
    destruct (_ || _); [|destruct (next_session_id s =? 0)]; by injection Hstep as <- <-.
  - injection Hstep as <- <-. by destruct (input_throws i).
  - destruct i as [| | |[[plan|status]|e]]; try discriminate Hstep; by injection Hstep as <- <-.
  - unfold publish_session, commit_while_locked in Hstep. repeat case_match; simplify_eq; done.
  - unfold release_reservation in Hstep.
    destruct (pending_session_creates s =? 0); injection Hstep as <- <-; [done|by destruct outcome].
  - destruct (open_session _ _ _); by injection Hstep as <- <-.
  - unfold finalize_session_close in Hstep. repeat case_match; simplify_eq; done.
  - injection Hstep as <- <-. unfold reopen_session. by case_bool_decide.
  - destruct (open_session _ _ _); by injection Hstep as <- <-.
  - destruct (find _ _ _); by injection Hstep as <- <-.
  - destruct (heap (registry s) !! record); [|done]. by injection Hstep as <- <-.
  - destruct (find _ _ _); by injection Hstep as <- <-.
  - injection Hstep as <- <-. cbn. by rewrite length_alter.
  - destruct (find _ _ _); by injection Hstep as <- <-.
  - destruct (heap (registry s) !! record); [|done]. by injection Hstep as <- <-.
  - by injection Hstep as <- <-.
  - by injection Hstep as <- <-.
  - destruct (input_throws i); injection Hstep as <- <-; [done|by destruct a].
  - by injection Hstep as <- <-.
  - done.
  - done.
Qed.

Lemma call_step_calls i s s' req pc pc' : cstep i s req pc = Some (s', pc') -> calls s' = calls s.
Proof.
  intros Hstep. destruct pc; cbn in Hstep; unfold locked in Hstep;
    try (destruct (lifecycle_held s); [done|]);
    unfold mbind, option_bind, reserve_session, reserve_while_locked, release_reservation, publish_session,
      commit_while_locked, finalize_session_close, reopen_session in Hstep;
    repeat case_match; simplify_eq; done.
Qed.

(** A close takes every record of its namespace that is still in the map. *)
Lemma close_detach_takes sid g g' queued running k r :
  close_detach sid false g = (g', inl (queued, running)) -> (k, r) ∈ jobs g ->
  sorted_map (jobs g) ->
  (k, r) ∈ jobs g' \/ r ∈ queued \/ r ∈ running.
Proof.
  intros Hc Hk Hsort. unfold close_detach in Hc.
  set (q := filter (fun r => in_session sid g r = true) (queue g)) in Hc.
  set (js := erase_queued _ _ _) in Hc. injection Hc as <- <- <-. cbn.
  destruct (decide (r ∈ q)) as [|Hn]; [by right; left|].
  assert ((k, r) ∈ js) as Hjs by (apply erase_queued_keep; [exact Hsort|exact Hn|exact Hk]).
  destruct (in_session sid g r) eqn:Hs.
  - right. right. apply list_elem_of_fmap. exists (k, r). split; [done|].
    by apply list_elem_of_filter.
  - left. by apply list_elem_of_filter.
Qed.

Lemma close_call_step i s s' c req pc pc' :
  close_inv s -> link_inv s -> jinv (sys s) -> calls s !! c = Some (req, pc) ->
  cstep i s req pc = Some (s', pc') ->
  close_inv (set_calls (<[c := (req, pc')]> (calls s')) s').
Proof.
  intros Hci Hl Hj Hc Hstep.
  pose proof (call_job_move _ _ _ _ _ _ _ Hl Hc Hstep) as Hm.
  pose proof (call_step_calls _ _ _ _ _ _ Hstep) as Hcalls.
  destruct (owner pc) eqn:Ho.
  2: { destruct (unowned_step _ _ _ _ _ _ Ho Hstep) as (Hjobs & Hlen & E1 & E2 & E3 & E4).
    eapply (close_same s); [exact Hci|exact Hj|exact Hm|exact Hc|by rewrite Hcalls|done|done|..].
    - rewrite E4. intros r. apply nil_waiting.
    - rewrite E1, E2. intros r. apply nil_settling. }
  rewrite Hcalls. destruct pc; try discriminate Ho; cbn in Hstep.
  - destruct (raises i); [cbn in Hstep; injection Hstep as <- <-; by unowned s Hci Hj Hm Hc|].
    destruct (close_detach _ _ _) as [g [[queued running]|e]] eqn:Hd; [|by cbn in Hd].
    injection Hstep as <- <-.
    assert (jinv (mk_JobSystem (registry s) (workers (sys s)) (detached (sys s)))) as Hj'
      by (unfold registry; by destruct (sys s)).
    destruct (close_detach_facts _ _ _ _ _ _ _ _ _ Hj' Hd) as (Hh & _ & _ & _ & _ & Hrun).
    eapply (close_move s); [exact Hci|exact Hj|exact Hm|exact Hc|done|by cbn; rewrite Hh|..].
    + intros k r Hk _. pose proof (ji_sorted _ _ _ Hj) as Hsort.
      destruct (close_detach_takes _ _ _ _ _ _ _ Hd Hk Hsort) as [|[|]]; cbn; eauto.
    + intros r Hr. right. by apply Hrun.
    + intros r. apply nil_settling.
  - destruct queued as [|q queued]; injection Hstep as <- <-.
    + eapply (close_same s); [exact Hci|exact Hj|exact Hm|exact Hc|done|done|done|done|].
      cbn. intros r [Hr|]; [by apply not_elem_of_nil in Hr|by right].
    + eapply (close_same s); [exact Hci|exact Hj|exact Hm|exact Hc|done| |done|done|].
      * cbn. by rewrite length_alter.
      * cbn -[settle_queued]. intros r [[->|Hr]%elem_of_cons|Hr]; [|by left|by right].
        intros (x & Hx & Ht). unfold registry in Hx. cbn in Hx.
        rewrite list_lookup_alter_eq in Hx. destruct (_ !! q); [|done]. by injection Hx as <-.
  - destruct todo as [|x todo]; injection Hstep as <- <-.
    + eapply (close_same s); [exact Hci|exact Hj|exact Hm|exact Hc|done|done|done|done|].
      cbn. intros r [Hr|]; [by apply not_elem_of_nil in Hr|by right].
    + eapply (close_same s); [exact Hci|exact Hj|exact Hm|exact Hc|done| |done|done|].
      * cbn. by rewrite length_alter.
      * cbn. intros r [Hr|]; [by apply not_elem_of_nil in Hr|by right].
  - destruct running as [|x running].
    + injection Hstep as <- <-. by unowned s Hci Hj Hm Hc.
    + destruct (settled x (registry s)) eqn:Hse; [|done]. injection Hstep as <- <-.
      eapply (close_same s); [exact Hci|exact Hj|exact Hm|exact Hc|done|done|done| |].
      * cbn. intros r Hr. by right.
      * cbn. intros r [Hr|[->|Hr]%elem_of_cons]; [by apply not_elem_of_nil in Hr| |by right].
        intros (y & Hy & Ht). unfold settled in Hse. cbn in Hy. unfold registry in *.
        cbn in Hy. rewrite Hy, Ht in Hse. done.
  - destruct (session_heap s !! session) as [x|]; [|done]. cbn in Hstep.
    pose proof (submit_frame instance_id (cfg_maximum_jobs config) (sr_id x) (sr_graph x)
      (req_submit_options req) (input_submit i) (registry s) (ji_sorted _ _ _ Hj)) as Hf. cbv zeta in Hf.
    destruct (submit _ _ _ _ _ _ _) as [g res]. cbn [fst] in Hf.
    assert (exists pc1, pc' = pc1 /\ s' = set_lifecycle false (set_registry g s) /\
      settling pc1 = [] /\ waiting pc1 = []) as (pc1 & -> & -> & E3 & E4)
      by (destruct res; injection Hstep as <- <-; eauto).
    destruct Hf as [(Hfj & Hfq & Hfh)|(jobs' & job & Hemp & Hid & Hfj & Hfh & _)].
    + eapply (close_same s); [exact Hci|exact Hj|exact Hm|exact Hc|done|cbn; by rewrite Hfh|done| |].
      * rewrite E4. intros r. apply nil_waiting.
      * intros r. apply nil_settling.
    + destruct Hci as [Hret Hwait]. split; cbn.
      * intros r (y & Hy & Ht). unfold registry in Hy. cbn in Hy. rewrite Hfh in Hy.
        rewrite Hfj.
        apply lookup_app_Some in Hy as [Hy|[Hlen Hy]].
        -- destruct (Hret r) as [[k Hk]|(c1 & req1 & pc2 & H1 & Hin)]; [by exists y| |].
           ++ left. exists k. rewrite (emplace_elem _ _ _ _ _ Hemp). by right.
           ++ right. exists c1, req1, pc2. split; [|done]. rewrite call_kept; [done|]. intros ->.
              rewrite Hc in H1. injection H1 as <- <-. by destruct Hin as [Hin|Hin];
                apply not_elem_of_nil in Hin.
        -- apply list_elem_of_lookup_2 in Hy as Hy'. left. exists (next_id (registry s)).
           rewrite (emplace_elem _ _ _ _ _ Hemp). left. f_equal.
           apply list_lookup_singleton_Some in Hy as [Hz _]. lia.
      * intros c1 req1 pc2 r H1 Hr.
        destruct (call_inserted _ _ _ _ _ _ Hc H1) as [[-> [= -> ->]]|[Hn H3]].
        { rewrite E4 in Hr. by apply not_elem_of_nil in Hr. }
        destruct (Hwait _ _ _ _ H3 Hr) as (y & Hy & Hyid). exists y. split; [|done].
        unfold registry. cbn. rewrite Hfh. by apply lookup_app_l_Some.
  - pose proof (release_cases instance_id (req_job_id req) (registry s)) as Hr.
    destruct (release _ _ _) as [g st]. injection Hstep as <- <-.
    assert (heap g = heap (registry s) /\ forall k r, (k, r) ∈ jobs (registry s) ->
      live g r -> (k, r) ∈ jobs g) as [Hh Hkeep].
    { destruct Hr as [[[-> _]|(r & x & Hf & Hx & Ht & _ & _ & -> & _)]|[-> _]]; [done| |done].
      split; [done|]. intros k r1 Hk (y & Hy & Hyt). cbn in *.
      pose proof (ji_sorted _ _ _ Hj) as Hsort. apply map_erase_elem; [done|]. split; [done|].
      cbn. intros ->. apply (map_find_elem _ _ _ Hsort) in Hk. unfold registry in *.
      rewrite Hf in Hk. injection Hk as <-. congruence. }
    eapply (close_move s); [exact Hci|exact Hj|exact Hm|exact Hc|done|by cbn; rewrite Hh|..].
    + intros k r Hk Hlive. left. exists k. by apply Hkeep.
    + intros r. intros Hin. by apply not_elem_of_nil in Hin.
    + intros r. apply nil_settling.
Qed.
End ServiceSpec.
