(* ===== verification/SessionSpec.v ===== *)
(** What the service promises about sessions: its steps refine the registry's, capacity
    is never exceeded and always given back, a closed Session leaves no record behind, and a
    finished close leaves nothing running. *)
From S2P Require Import Prelude OrdMap Kernel Protocol Codec Jobs JobSystem JobSpec Service.
From S2P Require Import ServiceSystem ServiceLink ServiceSpec.

Section SessionSpec.
Context `{RT : Runtime}.
Context (config : ServiceConfig) (instance_id : Z) (daemon_version : bytes).

Abbreviation sinv := (sess_inv config instance_id).
Abbreviation sstep := (service_step config instance_id daemon_version).
Abbreviation srun := (service_run config instance_id daemon_version).
Abbreviation sreach := (service_reachable config instance_id daemon_version).
Abbreviation jreach := (reachable (cfg_maximum_jobs config) instance_id
  (cfg_gpu_enabled config) (Z.to_nat (cfg_maximum_concurrency config))).
Abbreviation jmove := (job_move config instance_id).
Abbreviation jinv := (job_inv (cfg_maximum_jobs config) instance_id).

(** Everything that holds of a reachable state. *)
Record service_inv (s : ServiceState) : Prop := {
  sv_jobs : jreach (sys s);
  sv_sessions : sinv s;
  sv_link : link_inv s;
  sv_close : close_inv s;
  sv_running c req : calls s !! c <> Some (req, CTerminated);
}.

Lemma service_inv_jobs s : service_inv s -> jinv (sys s).
Proof. intros [Hj _ _ _ _]. by eapply reachable_inv. Qed.

Lemma jreach_move j j' : jreach j -> jmove j j' -> jreach j'.
Proof. intros Hj [->|[e He]]; [done|by eapply reach_step]. Qed.

(** Workers, and the destructor. *)
Lemma service_inv_sys s j :
  service_inv s -> jmove (sys s) j -> reg_frame (registry s) (reg j) ->
  detached j = detached (sys s) -> length (heap (reg j)) = length (heap (registry s)) ->
  jobs (reg j) = jobs (registry s) -> service_inv (set_sys j s).
Proof.
  intros Hv Hm Hf Hd Hlen Hjobs. pose proof (service_inv_jobs _ Hv) as Hj.
  destruct Hv as [Hjr Hs Hl [Hret Hwait] Ht].
  split.
  - by eapply jreach_move.
  - by apply sess_sys.
  - by apply link_registry.
  - split; cbn.
    + intros r Hr. unfold registry. cbn. rewrite Hjobs. apply Hret. by eapply live_back.
    + intros c req pc r Hc Hr. destruct (Hwait c req pc r Hc Hr) as (x & Hx & Hid).
      destruct (job_move_record _ _ _ _ _ _ Hj Hm Hx) as (x' & Hx' & Hid' & _). exists x'.
      by rewrite Hid'.
  - done.
Qed.

Lemma worker_jobs w i j j' :
  jinv j -> job_step (cfg_maximum_jobs config) instance_id (cfg_gpu_enabled config)
    (EWorker w i) j = Some j' ->
  reg_frame (reg j) (reg j') /\ detached j' = detached j /\
  length (heap (reg j')) = length (heap (reg j)) /\ jobs (reg j') = jobs (reg j).
Proof.
  intros Hj Hstep. cbn in Hstep. destruct (workers j !! w) as [pc|] eqn:Hw; [|done]. cbn in Hstep.
  destruct (worker_step _ _ _ _) as [[g pc']|] eqn:Hws; [|done]. injection Hstep as <-. cbn.
  assert (forall r, holds pc = Some r -> exists x, heap (reg j) !! r = Some x /\ held_ok pc x) as Hok
    by (intros; by eapply ji_held).
  split; [by eapply frame_worker|]. split; [done|].
  destruct (worker_step_effect _ _ _ _ _ _ Hok Hws) as
    [(_ & _ & -> & _)|[(r & q & _ & _ & _ & -> & _)|(r & x & x' & _ & _ & -> & _)]]; try done.
  cbn. by rewrite length_alter.
Qed.

Lemma stop_frame g :
  reg_frame g (stop_section g) /\ length (heap (stop_section g)) = length (heap g) /\
  jobs (stop_section g) = jobs g.
Proof.
  unfold stop_section. destruct (stopping g); [done|]. cbn.
  pose proof (stop_heap_core (heap g) (jobs g).*2) as Hcore.
  split; [split; [done|split; [done|]]|split; [|done]].
  - intros r. cbn. destruct (heap g !! r) as [x|] eqn:Hx.
    + destruct (Forall2_lookup_l _ _ _ _ _ Hcore Hx) as (y & Hy & Hc). rewrite Hy. cbn. f_equal.
      symmetry. apply Hc.
    + apply lookup_ge_None in Hx. rewrite (Forall2_length _ _ _ Hcore) in Hx.
      by apply lookup_ge_None in Hx as ->.
  - by rewrite (Forall2_length _ _ _ Hcore).
Qed.

Lemma service_inv_step e s s' : service_inv s -> sstep e s = Some s' -> service_inv s'.
Proof.
  intros Hv Hstep. pose proof (service_inv_jobs _ Hv) as Hj. destruct e; cbn -[job_step call_step] in Hstep.
  - destruct (job_step _ _ _ _ _) as [j|] eqn:Hjs; [|done]. injection Hstep as <-.
    destruct (worker_jobs _ _ _ _ Hj Hjs) as (Hf & Hd & Hlen & Hjobs).
    apply service_inv_sys; try done. right. by eexists.
  - injection Hstep as <-. destruct Hv as [Hjr Hs Hl [Hret Hwait] Ht]. split.
    + done.
    + by apply sess_dispatch.
    + by apply link_dispatch.
    + assert (forall c req pc, (calls s ++ [(request, CFence)]) !! c = Some (req, pc) ->
        waiting pc <> [] -> calls s !! c = Some (req, pc)) as Hback.
      { intros c req pc Hc Hne. apply lookup_app_Some in Hc as [?|[_ Hc]]; [done|].
        by apply list_lookup_singleton_Some in Hc as [_ [= <- <-]]. }
      split; cbn.
      * intros r Hr. destruct (Hret r Hr) as [|(c & req & pc & Hc & Hin)]; [by left|]. right.
        exists c, req, pc. split; [by apply lookup_app_l_Some|done].
      * intros c req pc r Hc Hr. apply Hback in Hc; [by eapply Hwait|]. intros Hn. rewrite Hn in Hr.
        by apply not_elem_of_nil in Hr.
    + intros c req Hc. apply lookup_app_Some in Hc as [Hc|[_ Hc]]; [by apply (Ht c req)|].
      by apply list_lookup_singleton_Some in Hc as [_ [=]].
  - destruct (calls s !! c) as [[req pc]|] eqn:Hc; [|done].
    cbn -[call_step] in Hstep.
    destruct (call_step _ _ _ _ _ _ _) as [[s1 pc']|] eqn:Hcs; [|done].
    injection Hstep as <-. destruct Hv as [Hjr Hs Hl Hci Ht].
    destruct (sess_call_step _ _ _ _ _ _ _ _ _ _ Hs Hc Hcs) as [Hs' Hnt]. split.
    + eapply jreach_move; [exact Hjr|].
      exact (call_job_move _ _ _ _ _ _ _ _ _ _ Hl Hc Hcs).
    + done.
    + by eapply link_call_step.
    + by eapply close_call_step.
    + intros c1 req1 H1. cbn in H1. rewrite (call_step_calls _ _ _ _ _ _ _ _ _ Hcs) in H1.
      destruct (call_inserted _ _ _ _ _ _ Hc H1) as [[_ [= _ He]]|[_ H2]]; [congruence|].
      by apply (Ht c1 req1).
  - destruct (forallb finished (calls s)); [|done]. injection Hstep as <-.
    destruct (stop_frame (registry s)) as (Hf & Hlen & Hjobs). apply service_inv_sys; try done.
    right. by exists EStop.
Qed.

Lemma service_inv_initial : service_inv (service_initial config).
Proof.
  split; [constructor|apply sess_initial|apply link_initial|apply close_initial|done].
Qed.

Lemma service_inv_reachable s : sreach s -> service_inv s.
Proof. induction 1; [apply service_inv_initial|by eapply service_inv_step]. Qed.

Lemma srun_reach es s s' : sreach s -> srun es s = Some s' -> sreach s'.
Proof.
  revert s. induction es as [|e es IH]; cbn; intros s Hs Hr; [by injection Hr as <-|].
  destruct (service_step _ _ _ _ _) as [s1|] eqn:He; [|done]. eapply IH; [|exact Hr].
  by eapply sreach_step.
Qed.

(** ** The properties *)

(** A step of the service as one of the registry's system. *)
Lemma service_job_step s e s' : sreach s -> sstep e s = Some s' -> jmove (sys s) (sys s').
Proof.
  intros Hs Hstep. pose proof (service_inv_reachable _ Hs) as Hv.
  destruct e; cbn -[job_step call_step] in Hstep.
  - destruct (job_step _ _ _ _ _) as [j|] eqn:Hjs; [|done]. injection Hstep as <-.
    right. by eexists.
  - injection Hstep as <-. by left.
  - destruct (calls s !! c) as [[req pc]|] eqn:Hc; [|done].
    cbn -[call_step] in Hstep.
    destruct (call_step _ _ _ _ _ _ _) as [[s1 pc']|] eqn:Hcs; [|done].
    injection Hstep as <-. exact (call_job_move _ _ _ _ _ _ _ _ _ _ (sv_link s Hv) Hc Hcs).
  - destruct (forallb finished (calls s)); [|done]. injection Hstep as <-. right. by exists EStop.
Qed.

(** C27: The concurrent service refines the registry: every state it reaches is a state of
    the registry's own system, and every step of a worker, of a call of [dispatch] or of
    the destructor is one of that system's events or leaves it alone.  So everything
    proved of the registry (forward lifecycles, stable results, cancellation before
    success) holds inside the service. *)
Theorem service_refines_registry s e s' :
  service_reachable config instance_id daemon_version s ->
  service_step config instance_id daemon_version e s = Some s' ->
  reachable (cfg_maximum_jobs config) instance_id (cfg_gpu_enabled config)
    (Z.to_nat (cfg_maximum_concurrency config)) (sys s) /\
  (sys s' = sys s \/
   exists je, job_step (cfg_maximum_jobs config) instance_id (cfg_gpu_enabled config) je (sys s)
     = Some (sys s')).
Proof.
  intros Hs Hstep. split; [by apply service_inv_reachable|by apply (service_job_step s e)].
Qed.

(** C31: Session capacity: registered Sessions and reservations together never exceed
    [maximum_sessions], the reservation counter is exactly the number of [create_session]
    calls that hold a reservation (so none is leaked, whatever they raise), and no
    interleaving reaches [std::terminate] in the reservation or in
    [finalize_session_close]. *)
Theorem session_capacity s :
  service_reachable config instance_id daemon_version s ->
  zlen (sessions s) + pending_session_creates s <= Z.max 0 (cfg_maximum_sessions config) /\
  pending_session_creates s = creations (calls s) /\
  (forall c req, calls s !! c <> Some (req, CTerminated)).
Proof.
  intros Hs. destruct (service_inv_reachable _ Hs) as [_ Hse _ _ Ht].
  split_and!; [apply Hse|apply Hse|exact Ht].
Qed.

(** Every record in the map or in the queue is a record of the namespace's registry. *)
Lemma retained_record s r :
  service_inv s -> (r ∈ queue (registry s) \/ exists k, (k, r) ∈ jobs (registry s)) ->
  exists x, heap (registry s) !! r = Some x /\ job_open s (jr_session_id x).
Proof.
  intros Hv Hr. pose proof (service_inv_jobs _ Hv) as Hj.
  assert (exists k, (k, r) ∈ jobs (registry s)) as [k Hk].
  { destruct Hr as [Hq|]; [|done]. destruct (ji_queue _ _ _ Hj r Hq) as (x & _ & _ & Hk). eauto. }
  destruct (ji_jobs _ _ _ Hj k r Hk) as (x & Hx & _). exists x. split; [done|].
  eapply li_open; [apply Hv|done..].
Qed.


(** C28: When [close_session] is about to answer, everything of its namespace has ended:
    every record ever submitted to it is terminal, whether it was queued, running or
    already finished when the close began. *)
Theorem close_session_settles s c req sr r x :
  service_reachable config instance_id daemon_version s ->
  calls s !! c = Some (req, CCloseFinalize sr) ->
  heap (registry s) !! r = Some x -> jr_session_id x = req_session_id req ->
  terminal (jr_state x) = true.
Proof.
  intros Hs Hc Hx Hid. pose proof (service_inv_reachable _ Hs) as Hv.
  pose proof (sv_sessions s Hv) as Hsi. destruct (terminal (jr_state x)) eqn:Ht; [done|]. exfalso.
  destruct (ci_retained s (sv_close s Hv) r) as [[k Hk]|(c1 & req1 & pc1 & H1 & Hin)]; [by exists x| |].
  - destruct (li_open s (sv_link s Hv) k r x Hk Hx) as (sr' & sx & Hsx & Hsid & _ & Hopen).
    destruct (si_close _ _ s Hsi _ _ _ _ Hc eq_refl) as (y & Hy & Hyid & Hyc & _).
    assert (sr' = sr) as -> by (eapply (si_unique _ _ s Hsi); eauto; congruence).
    rewrite Hsx in Hy. injection Hy as <-. destruct (Hopen Hyc) as (c1 & req1 & pc1 & H1 & E1 & D1).
    assert (c1 = c) as -> by (by eapply (si_one_closer _ _ s Hsi)).
    rewrite Hc in H1. by injection H1 as <- <-.
  - assert (req_session_id req1 = req_session_id req) as Hsame.
    { destruct Hin as [Hin|Hin].
      - destruct (li_settle s (sv_link s Hv) _ _ _ H1) as [_ Hset].
        destruct (Hset r Hin) as (_ & y & Hy & Hyid). congruence.
      - destruct (ci_wait s (sv_close s Hv) _ _ _ _ H1 Hin) as (y & Hy & Hyid). congruence. }
    assert (c1 = c) as ->.
    { eapply (same_closer _ _ s); [done|exact H1|exact Hc| |by eexists|done].
      destruct Hin as [Hin|Hin]; [by apply settling_closes in Hin as [? _]|].
      destruct pc1; cbn in Hin |- *; try (by apply not_elem_of_nil in Hin); by eexists. }
    rewrite Hc in H1. injection H1 as <- <-. by destruct Hin as [Hin|Hin];
      apply not_elem_of_nil in Hin.
Qed.

Lemma service_job_move e s s' : service_inv s -> sstep e s = Some s' -> jmove (sys s) (sys s').
Proof.
  intros Hv Hstep. destruct e; cbn -[job_step call_step] in Hstep.
  - destruct (job_step _ _ _ _ _) as [j|] eqn:Hjs; [|done]. injection Hstep as <-.
    right. by eexists.
  - injection Hstep as <-. by left.
  - destruct (calls s !! c) as [[req pc]|] eqn:Hc; [|done]. cbn -[call_step] in Hstep.
    destruct (call_step _ _ _ _ _ _ _) as [[s1 pc']|] eqn:Hcs; [|done]. injection Hstep as <-.
    exact (call_job_move _ _ _ _ _ _ _ _ _ _ (sv_link s Hv) Hc Hcs).
  - destruct (forallb finished (calls s)); [|done]. injection Hstep as <-. right. by exists EStop.
Qed.
End SessionSpec.
