(* ===== verification/Dispatch.v ===== *)
(** What [dispatch] answers: the response carries the request's correlation and exactly
    the payload its status and method select, an exception fence always yields a failure
    that can be sent, and nothing is admitted once shutdown was accepted. *)
From S2P Require Import Prelude OrdMap Kernel Protocol Utf8 CodecRequest Codec CodecSpec.
From S2P Require Import Layout Jobs JobSystem JobSpec JobOutcome Service.
From S2P Require Import ServiceSystem ServiceLink ServiceSpec SessionSpec.

(** ** The shape of answers *)

Section Answers.
Context `{HK : KernelLaws} {RT : Runtime}.
Context (config : ServiceConfig) (instance_id : Z) (daemon_version : bytes).

Definition set_shutdown_after_write (b : bool) (r : Response) : Response :=
  mk_Response (resp_request_id r) (resp_method r) (resp_status r) (resp_session_id r)
    (resp_job_id r) (resp_job_status r) (resp_execution_result r) (resp_daemon_info r) b.

Abbreviation cstep := (call_step config instance_id daemon_version).
Abbreviation sstep := (service_step config instance_id daemon_version).
Abbreviation srun := (service_run config instance_id daemon_version).
Abbreviation sreach := (service_reachable config instance_id daemon_version).
Abbreviation sinv := (service_inv config instance_id).

(** No payload of a success is left; the counters of [daemon.info] are zero. *)
Definition payload_empty (r : Response) : Prop :=
  let info := resp_daemon_info r in
  resp_session_id r = default_SessionId /\ resp_job_id r = default_JobId /\
  resp_job_status r = default_job_status /\
  resp_execution_result r = default_execution_result /\
  info = mk_DaemonInfo (protocol_version info) 0 [] [] [] 0 0 0 0 /\
  resp_shutdown_after_write r = false.

(** The response a request may get: its correlation; on failure no payload; on success
    the payload of its method only, and the shutdown flag for that method alone. *)
Definition answered (req : Request) (r : Response) : Prop :=
  resp_request_id r = req_request_id req /\ resp_method r = req_method req /\
  if status_ok (resp_status r)
  then set_shutdown_after_write false r = canonical_response r (resp_execution_result r) /\
       resp_shutdown_after_write r = bool_decide (req_method req = Method.DaemonShutdown)
  else payload_empty r.

(** The method an answer serves. *)
Definition serves (a : answer) (m : Method.t) : Prop :=
  match a with
  | AnswerSession _ => m = Method.SessionCreate
  | AnswerStatus _ =>
    match m with
    | Method.SessionClose | Method.JobCancel | Method.JobRelease | Method.Unknown _ => True
    | _ => False
    end
  | AnswerJob _ => m = Method.JobSubmit
  | AnswerJobStatus _ => m = Method.JobStatus
  | AnswerResult _ => m = Method.JobResult
  | AnswerInfo _ _ => m = Method.DaemonInfo
  | AnswerShutdown => m = Method.DaemonShutdown
  end.

Lemma respond_header req a :
  resp_request_id (respond config instance_id daemon_version req a) = req_request_id req /\
  resp_method (respond config instance_id daemon_version req a) = req_method req.
Proof. by destruct a as [[]|st|[]|[]|[]|ns nj|]. Qed.

Lemma respond_answered req a :
  serves a (req_method req) -> answered req (respond config instance_id daemon_version req a).
Proof.
  intros Ha. unfold answered, payload_empty, canonical_response.
  destruct req as [id m doc sid jid opts]. cbn [req_method] in Ha.
  assert (status_ok success = true) as Hok by apply Z.eqb_refl.
  destruct a as [[x|x]|st|[x|x]|[x|x]|[x|x]|ns nj|]; cbn in Ha; subst;
    cbn -[status_ok method_inventory lit success]; rewrite ?Hok; try destruct m; try done;
    clear Hok; by destruct (status_ok _).
Qed.

(** *** The exception fences *)

Lemma fence_code_known e :
  fence_code e ∈ [InvalidArgument; NotFound; ResourceExhausted; Cancelled; Internal].
Proof. destruct e; cbn; known_code. Qed.

Lemma fence_failure e again r :
  code (resp_status (fence e again r)) = fence_code e /\ fence_code e <> Ok.
Proof.
  destruct (empty_wire _ (fence_code_known e)) as [_ Hne]. split; [|exact Hne]. cbn in Hne.
  unfold fence. destruct again; cbn; [|done]. by apply Z.eqb_neq in Hne as ->.
Qed.

Lemma fence_answered req e again r :
  resp_request_id r = req_request_id req -> resp_method r = req_method req ->
  answered req (fence e again r).
Proof.
  intros Hid Hm. destruct (fence_failure e again r) as [Hc Hne].
  assert (status_ok (resp_status (fence e again r)) = false) as Hok
    by (unfold status_ok; rewrite Hc; by apply Z.eqb_neq).
  unfold answered. rewrite Hok. by destruct again.
Qed.

(** A failure without payload is encoded when its diagnostic is. *)
Lemma failure_encoded r :
  resp_request_id r <> 0 -> valid_method (resp_method r) = true ->
  status_ok_wire (resp_status r) -> status_ok (resp_status r) = false ->
  exists bs, encode_response r = Return (ROk bs).
Proof.
  intros Hid Hm Hw Hok. eexists. unfold encode_response.
  rewrite (emits_run _ (wire_header (resp_request_id r) (resp_method r) ++
    wire_status (resp_status r) ++ [])).
  - rewrite (proj2 (Z.leb_le _ _)); [done|]. pose proof (wire_status_length _ Hw).
    rewrite !zlen_app, wire_header_length, zlen_nil. unfold kMaximumFramePayloadBytes. lia.
  - apply emits_check; [rewrite Hm; cbn; lia|]. apply emits_bind; [apply emits_header|].
    apply emits_bind; [by apply emits_status|]. rewrite Hok. apply emits_ret.
Qed.

(** The catch clauses of [dispatch] always produce a response that can be sent: for
    every exception, whether or not its diagnostic can be allocated, and whatever was
    already written into the response, the status is a failure, and unless [what()] is
    not bounded UTF-8 text [encode_response] accepts it. *)
Theorem fence_encodable e again r :
  resp_request_id r <> 0 -> valid_method (resp_method r) = true ->
  again = true \/ honest_exn e ->
  status_ok (resp_status (fence e again r)) = false /\
  exists bs, encode_response (fence e again r) = Return (ROk bs).
Proof.
  intros Hid Hm He. destruct (fence_failure e again r) as [Hc Hne].
  assert (status_ok (resp_status (fence e again r)) = false) as Hok
    by (unfold status_ok; rewrite Hc; by apply Z.eqb_neq).
  split; [done|]. apply failure_encoded; [by destruct again..| |done].
  unfold fence in *. destruct again; cbn in *.
  - rewrite Hc. by apply empty_wire, fence_code_known.
  - apply failure_wire; [apply fence_code_known|]. destruct He as [|He]; [done|].
    destruct e as [|[what|]|]; cbn; first [done | by apply text_okb_ok].
Qed.

(** ** Every call, at every point *)

(** Where a request can be, and what it can hold there. *)
Definition pc_fits (s : ServiceState) (req : Request) (pc : call_pc) : Prop :=
  let m := req_method req in
  match pc with
  | CFence | CTerminated => True
  | CCreateReserve | CCreateBuild | CCreateCompile _ | CCreatePublish _ =>
    m = Method.SessionCreate
  | CCreateRollback (inl a) => m = Method.SessionCreate /\ serves a m
  | CCreateRollback (inr _) => m = Method.SessionCreate
  | CCloseMark | CCloseDetach _ | CSettleQueued _ _ _ | CSettleRunning _ _ _
  | CSettleWait _ _ | CCloseFinalize _ | CCloseReopen _ _ => m = Method.SessionClose
  | CSubmitLookup | CSubmitAdmit _ => m = Method.JobSubmit
  | CStatusFind => m = Method.JobStatus
  | CStatusRead r => m = Method.JobStatus /\ is_Some (heap (registry s) !! r)
  | CCancelFind | CCancelMark _ => m = Method.JobCancel
  | CResultFind => m = Method.JobResult
  | CResultRead r => m = Method.JobResult /\ is_Some (heap (registry s) !! r)
  | CRelease => m = Method.JobRelease
  | CInfoSessions | CInfoJobs _ => m = Method.DaemonInfo
  | CAnswered a => serves a m
  | CCaught partial _ =>
    resp_request_id partial = req_request_id req /\ resp_method partial = m
  | CDone resp =>
    answered req resp /\ (resp_shutdown_after_write resp = true -> shutting_down s = true)
  end.

Definition calls_fit (s : ServiceState) : Prop :=
  forall c req pc, calls s !! c = Some (req, pc) -> pc_fits s req pc.

(** Records stay and shutdown is for good. *)
Definition forward (s s' : ServiceState) : Prop :=
  (forall r, is_Some (heap (registry s) !! r) -> is_Some (heap (registry s') !! r)) /\
  (shutting_down s = true -> shutting_down s' = true).

Lemma pc_fits_forward s s' req pc : forward s s' -> pc_fits s req pc -> pc_fits s' req pc.
Proof.
  intros [Hh Hsd]. destruct pc; cbn; try done; intros [? ?]; auto.
Qed.

Lemma call_step_shutdown i s s' req pc pc' :
  cstep i s req pc = Some (s', pc') -> shutting_down s = true -> shutting_down s' = true.
Proof.
  intros Hstep. destruct pc; cbn in Hstep; unfold locked in Hstep;
    try (destruct (lifecycle_held s); [done|]);
    unfold mbind, option_bind, reserve_session, reserve_while_locked, release_reservation, publish_session,
      commit_while_locked, finalize_session_close,
      reopen_session in Hstep;
    repeat case_match; simplify_eq; done.
Qed.

Lemma forward_step e s s' : sinv s -> sstep e s = Some s' -> forward s s'.
Proof.
  intros Hv Hstep. split.
  - intros r [x Hx]. destruct (job_move_record _ _ _ _ _ _ (service_inv_jobs _ _ _ Hv)
      (service_job_move _ _ _ _ _ _ Hv Hstep) Hx) as (x' & Hx' & _). by eexists.
  - destruct e; cbn -[job_step call_step] in Hstep.
    + destruct (job_step _ _ _ _ _); [|done]. by injection Hstep as <-.
    + by injection Hstep as <-.
    + destruct (calls s !! c) as [[req pc]|]; [|done]. cbn -[call_step] in Hstep.
      destruct (cstep i s req pc) as [[s1 pc']|] eqn:Hcs; [|done]. injection Hstep as <-. cbn.
      by eapply call_step_shutdown.
    + destruct (forallb _ _); [|done]. by injection Hstep as <-.
Qed.

Lemma find_record s id r :
  sinv s -> find instance_id id (registry s) = Some r -> is_Some (heap (registry s) !! r).
Proof.
  intros Hv Hf. pose proof (service_inv_jobs _ _ _ Hv) as Hj. unfold find in Hf.
  destruct (_ || _); [done|]. apply (map_find_elem _ _ _ (ji_sorted _ _ _ Hj)) in Hf.
  destruct (ji_jobs _ _ _ Hj _ _ Hf) as (x & Hx & _). by exists x.
Qed.

(** The fence lets a request through, or refuses it. *)
Lemma pc_fits_entry s req : pc_fits s req (entry (req_method req)).
Proof. by destruct (req_method req) eqn:Hm; cbn; rewrite Hm. Qed.

Lemma pc_fits_refused s req c m :
  c ∈ [InvalidArgument; NotFound; ResourceExhausted; Cancelled; Internal] ->
  pc_fits s req (CDone (set_resp_status (failure c m) (response_for req))).
Proof.
  intros Hc. destruct (empty_wire c Hc) as [_ Hne]. split; [|done].
  unfold answered, status_ok. cbn in Hne |- *. by apply Z.eqb_neq in Hne as ->.
Qed.

(** What a step of a call makes of its own point. *)
Lemma pc_fits_call_step i s s' req pc pc' :
  sinv s -> pc_fits s req pc -> cstep i s req pc = Some (s', pc') -> pc_fits s' req pc'.
Proof.
  intros Hv Hfit Hstep.
  destruct pc; cbn -[respond fence answered] in Hstep, Hfit; unfold locked in Hstep;
    try (destruct (lifecycle_held s); [done|]).
  1: { destruct (_ && _); [destruct (input_throws i)|]; injection Hstep as <- <-; [done| |].
       - apply pc_fits_refused; known_code.
       - apply pc_fits_entry. }
  all: unfold mbind, option_bind, reserve_session, reserve_while_locked, release_reservation, publish_session,
      commit_while_locked, finalize_session_close in Hstep.
  all: try (repeat case_match; simplify_eq; cbn -[respond fence answered]; first [done | tauto | by rewrite Hfit]).
  - destruct (find _ _ _) as [r|] eqn:Hf; injection Hstep as <- <-; [|done].
    split; [done|]. by eapply find_record.
  - destruct (find _ _ _) as [r|] eqn:Hf; injection Hstep as <- <-; [|done].
    split; [done|]. by eapply find_record.
  - destruct (input_throws i); injection Hstep as <- <-; [apply respond_header|].
    split; [by apply respond_answered|]. by destruct a as [[]|st|[]|[]|[]|ns nj|].
  - injection Hstep as <- <-. destruct Hfit as [Hid Hm].
    pose proof (fence_answered req e (raises i) partial Hid Hm) as Ha. split; [exact Ha|].
    destruct Ha as (_ & _ & Ha). destruct (fence_failure e (raises i) partial) as [Hc Hne].
    unfold status_ok in Ha. rewrite Hc in Ha. apply Z.eqb_neq in Hne. rewrite Hne in Ha.
    destruct Ha as (_ & _ & _ & _ & _ & ->). done.
Qed.

Lemma calls_fit_step e s s' : sinv s -> calls_fit s -> sstep e s = Some s' -> calls_fit s'.
Proof.
  intros Hv Hfit Hstep. pose proof (forward_step _ _ _ Hv Hstep) as Hfw.
  assert (calls s' = calls s -> calls_fit s') as Hsame.
  { intros Hcalls c req pc Hc. rewrite Hcalls in Hc. eapply pc_fits_forward; eauto. }
  destruct e; cbn -[job_step call_step] in Hstep.
  - destruct (job_step _ _ _ _ _); [|done]. injection Hstep as <-. by apply Hsame.
  - injection Hstep as <-. intros c req pc Hc. cbn in Hc.
    apply lookup_app_Some in Hc as [Hc|[_ Hc]]; [by eapply pc_fits_forward, Hfit|].
    by apply list_lookup_singleton_Some in Hc as [_ [= <- <-]].
  - destruct (calls s !! c) as [[req pc]|] eqn:Hc; [|done]. cbn -[call_step] in Hstep.
    destruct (cstep i s req pc) as [[s1 pc']|] eqn:Hcs; [|done]. injection Hstep as <-.
    intros c1 req1 pc1 H1. cbn in H1. rewrite (call_step_calls _ _ _ _ _ _ _ _ _ Hcs) in H1.
    destruct (call_inserted _ _ _ _ _ _ Hc H1) as [[_ [= -> ->]]|[_ H2]].
    + assert (pc_fits s1 req pc') as Hpc by (eapply pc_fits_call_step; eauto).
      by destruct pc'.
    + eapply pc_fits_forward; [exact Hfw|]. by apply (Hfit c1).
  - destruct (forallb _ _); [|done]. injection Hstep as <-. by apply Hsame.
Qed.

Lemma calls_fit_reachable s : sreach s -> calls_fit s.
Proof.
  induction 1 as [|s e s' Hs IH Hstep]; [done|].
  eapply calls_fit_step; [by eapply service_inv_reachable|exact IH|exact Hstep].
Qed.

(** C32: Every response [dispatch] returns, in any interleaving and whatever is thrown,
    carries the request's correlation; a failure carries no payload at all and no
    shutdown flag, a success exactly the payload of its method; and the transport is
    told to shut down only for an accepted [daemon.shutdown], after the fence went up. *)
Theorem dispatch_answers s c req resp :
  service_reachable config instance_id daemon_version s ->
  calls s !! c = Some (req, CDone resp) ->
  answered req resp /\
  (resp_shutdown_after_write resp = true ->
   req_method req = Method.DaemonShutdown /\ shutting_down s = true).
Proof.
  intros Hs Hc. destruct (calls_fit_reachable s Hs _ _ _ Hc) as [Ha Hsd]. split; [exact Ha|].
  intros Hf. split; [|auto]. destruct Ha as (_ & _ & Ha).
  destruct (status_ok (resp_status resp)).
  - destruct Ha as [_ Ha]. rewrite Hf in Ha. symmetry in Ha. by apply bool_decide_eq_true in Ha.
  - destruct Ha as (_ & _ & _ & _ & _ & Ha). congruence.
Qed.

(** ** Shutdown *)

(** A call that shutdown keeps out, or that asks for shutdown again. *)
Definition fenced (call : Request * call_pc) : Prop :=
  match call.2 with
  | CFence | CCaught _ _ => True
  | CAnswered a => a = AnswerShutdown /\ req_method call.1 = Method.DaemonShutdown
  | CDone resp =>
    status_ok (resp_status resp) = false \/ req_method call.1 = Method.DaemonShutdown
  | _ => False
  end.

(** Every call was finished before, or is kept out. *)
Definition quiet (before : list (Request * call_pc)) (s : ServiceState) : Prop :=
  shutting_down s = true /\
  forall c call, calls s !! c = Some call ->
    (before !! c = Some call /\ finished call = true) \/ fenced call.

(** What admission changes. *)
Definition same_admissions (s s' : ServiceState) : Prop :=
  session_heap s' = session_heap s /\ sessions s' = sessions s /\
  pending_session_creates s' = pending_session_creates s /\
  next_session_id s' = next_session_id s /\
  length (heap (registry s')) = length (heap (registry s)) /\
  jobs (registry s') = jobs (registry s).

Lemma same_admissions_refl s : same_admissions s s.
Proof. done. Qed.

Lemma same_admissions_trans s1 s2 s3 :
  same_admissions s1 s2 -> same_admissions s2 s3 -> same_admissions s1 s3.
Proof.
  intros (E1 & E2 & E3 & E4 & E5 & E6) (F1 & F2 & F3 & F4 & F5 & F6).
  unfold same_admissions. by rewrite F1, F2, F3, F4, F5, F6.
Qed.

(** A call that is kept out changes nothing and stays out. *)
Lemma fenced_step i s s' req pc pc' :
  shutting_down s = true -> fenced (req, pc) -> cstep i s req pc = Some (s', pc') ->
  same_admissions s s' /\ fenced (req, pc').
Proof.
  intros Hsd Hf Hstep. destruct pc; try done; cbn -[respond fence] in Hstep.
  - rewrite Hsd in Hstep. case_bool_decide as Hm; cbn in Hstep.
    + rewrite Hm in Hstep. injection Hstep as <- <-. by repeat split.
    + destruct (input_throws i); injection Hstep as <- <-; (split; [apply same_admissions_refl|]);
        [done|]. left. cbn. apply Z.eqb_neq. by apply (empty_wire Cancelled); known_code.
  - destruct Hf as [Ha Hm]. cbn in Ha, Hm. rewrite Ha in Hstep.
    destruct (input_throws i); injection Hstep as <- <-; (split; [done|]); [done|by right].
  - injection Hstep as <- <-. split; [apply same_admissions_refl|]. left.
    destruct (fence_failure e (raises i) partial) as [Hc Hne]. unfold status_ok. rewrite Hc.
    by apply Z.eqb_neq.
Qed.

Lemma quiet_step before e s s' :
  sinv s -> quiet before s -> sstep e s = Some s' -> quiet before s' /\ same_admissions s s'.
Proof.
  intros Hv [Hsd Hq] Hstep. pose proof (service_inv_jobs _ _ _ Hv) as Hj.
  destruct (forward_step _ _ _ Hv Hstep) as [_ Hsd'].
  destruct e; cbn -[job_step call_step] in Hstep.
  - destruct (job_step _ _ _ _ _) as [j|] eqn:Hjs; [|done]. injection Hstep as <-.
    destruct (worker_jobs _ _ _ _ _ _ Hj Hjs) as (_ & _ & Hlen & Hjobs).
    split; [split; [auto|exact Hq]|]. by repeat split.
  - injection Hstep as <-. split; [|done]. split; [auto|]. intros c call Hc. cbn in Hc.
    apply lookup_app_Some in Hc as [Hc|[_ Hc]]; [by apply Hq|].
    apply list_lookup_singleton_Some in Hc as [_ <-]. by right.
  - destruct (calls s !! c) as [[req pc]|] eqn:Hc; [|done]. cbn -[call_step] in Hstep.
    destruct (cstep i s req pc) as [[s1 pc']|] eqn:Hcs; [|done]. injection Hstep as <-.
    assert (fenced (req, pc)) as Hf.
    { destruct (Hq _ _ Hc) as [[_ Hfin]|]; [|done]. by destruct pc. }
    destruct (fenced_step _ _ _ _ _ _ Hsd Hf Hcs) as [Hsame Hf']. split; [|exact Hsame].
    split; [auto|]. intros c1 call H1. cbn in H1. rewrite (call_step_calls _ _ _ _ _ _ _ _ _ Hcs) in H1.
    destruct (call_inserted _ _ _ _ _ _ Hc H1) as [[_ ->]|[_ H2]]; [by right|by apply Hq].
  - destruct (forallb _ _); [|done]. injection Hstep as <-.
    destruct (stop_frame (registry s)) as (_ & Hlen & Hjobs).
    split; [split; [auto|exact Hq]|]. by repeat split.
Qed.

Lemma quiet_run before es s s' :
  sinv s -> quiet before s -> srun es s = Some s' -> quiet before s' /\ same_admissions s s'.
Proof.
  revert s. induction es as [|e es IH]; cbn; intros s Hv Hq Hr; [by injection Hr as <-|].
  destruct (sstep e s) as [s1|] eqn:He; [|done]. cbn in Hr.
  destruct (quiet_step _ _ _ _ Hv Hq He) as [Hq1 Hs1].
  destruct (IH s1) as [Hq2 Hs2]; [by eapply service_inv_step|done|done|].
  split; [done|]. by eapply same_admissions_trans.
Qed.

End Answers.
