(* ===== verification/Progress.v ===== *)
(** Every call of [dispatch] comes to an answer: from any reachable state the call itself,
    the holder of [lifecycle_mutex] and the workers can be run until it is done, whatever
    the kernel answers and whatever is thrown.  So there is no deadlock between the locks,
    the workers and the wait of a close. *)
From S2P Require Import Prelude OrdMap Kernel Protocol Codec Jobs JobSystem JobSpec Service.
From S2P Require Import ServiceSystem ServiceLink ServiceSpec SessionSpec Dispatch.

Section Progress.
Context `{HK : KernelLaws} {RT : Runtime}.
Context (config : ServiceConfig) (instance_id : Z) (daemon_version : bytes).

Abbreviation cstep := (call_step config instance_id daemon_version).
Abbreviation sstep := (service_step config instance_id daemon_version).
Abbreviation sreach := (service_reachable config instance_id daemon_version).
Abbreviation sinv := (service_inv config instance_id).

(** The answers of the environment, at every point of a worker and of a call. *)
Context (workers_do : worker_pc -> worker_input) (calls_do : call_pc -> call_input).

(** The compiler answers, or throws. *)
Definition call_matched (pc : call_pc) (i : call_input) : Prop :=
  match pc with CCreateCompile _ => exists a, i = Validates a | _ => True end.

(** The events that bring call [c] on: its own steps, those of the call that holds
    [lifecycle_mutex], and the workers'; the environment decides their inputs. *)
Definition driving (c : nat) (s : ServiceState) (e : service_event) : Prop :=
  match e with
  | SWorker w i => exists pc, workers (sys s) !! w = Some pc /\ i = workers_do pc
  | SStep c' i => exists req pc, calls s !! c' = Some (req, pc) /\ i = calls_do pc /\
      (c' = c \/ is_Some (admits pc))
  | _ => False
  end.

Inductive driven (c : nat) : ServiceState -> ServiceState -> Prop :=
| driven_refl s : driven c s s
| driven_step s e s1 s2 : driving c s e -> sstep e s = Some s1 -> driven c s1 s2 -> driven c s s2.

Lemma driven_trans c s1 s2 s3 : driven c s1 s2 -> driven c s2 s3 -> driven c s1 s3.
Proof. intros H. revert s3. induction H; [done|]. intros. eapply driven_step; eauto. Qed.

Lemma driven_reach c s s' : sreach s -> driven c s s' -> sreach s'.
Proof. intros Hs H. induction H; [done|]. apply IHdriven. by eapply sreach_step. Qed.

(** ** Waiting for the workers *)

Context (Hworkers : forall pc, matched pc (workers_do pc)).
Context (Hcalls : forall pc, call_matched pc (calls_do pc)).

Lemma drive_driven c fuel w s j' :
  drive (cfg_maximum_jobs config) instance_id (cfg_gpu_enabled config) fuel workers_do w (sys s)
    = Some j' ->
  driven c s (set_sys j' s).
Proof.
  revert s. induction fuel as [|fuel IH]; intros s Hd; cbn -[job_step] in Hd;
    destruct (workers (sys s) !! w) as [pc|] eqn:Hw; try discriminate Hd; cbn -[job_step] in Hd;
    destruct (holds pc); try discriminate Hd.
  1, 3: injection Hd as <-; destruct s; constructor.
  destruct (job_step _ _ _ _ _) as [j1|] eqn:Hj; [|done]. cbn -[job_step] in Hd.
  apply (driven_step c s (SWorker w (workers_do pc)) (set_sys j1 s)); [by exists pc| |].
  - cbn -[job_step]. by rewrite Hj.
  - exact (IH (set_sys j1 s) Hd).
Qed.

(** A record that is terminal stays so. *)
Definition ended (r : nat) (s : ServiceState) : Prop :=
  exists x, heap (registry s) !! r = Some x /\ terminal (jr_state x) = true.

Lemma ended_step e s s' r : sinv s -> sstep e s = Some s' -> ended r s -> ended r s'.
Proof.
  intros Hv He (x & Hx & Ht). destruct (job_move_record _ _ _ _ _ _ (service_inv_jobs _ _ _ Hv)
    (service_job_move _ _ _ _ _ _ Hv He) Hx) as (x' & Hx' & _ & Hm). exists x'. auto.
Qed.

Lemma ended_driven c s s' r : sreach s -> driven c s s' -> ended r s -> ended r s'.
Proof.
  intros Hs H. induction H as [|s e s1 s2 _ He _ IH]; [done|]. intros Hr. apply IH.
  - by eapply sreach_step.
  - eapply ended_step; [by eapply service_inv_reachable|exact He|exact Hr].
Qed.

(** A record that a close waits for is terminal, or its worker can be run to the end. *)
Lemma wait_one c s req pc r :
  sreach s -> calls s !! c = Some (req, pc) -> r ∈ waiting pc ->
  exists j, driven c s (set_sys j s) /\ ended r (set_sys j s).
Proof.
  intros Hs Hc Hr. pose proof (service_inv_reachable _ _ _ _ Hs) as Hv.
  pose proof (service_inv_jobs _ _ _ Hv) as Hj.
  destruct (li_wait s (sv_link _ _ s Hv) c req pc r Hc Hr) as ([x Hx] & Hnq & Hnd).
  destruct (ji_complete _ _ _ Hj r x Hx) as [Ht|[?|[?|(w & wpc & Hw & Hh)]]]; [|done|done|].
  { exists (sys s). assert (set_sys (sys s) s = s) as -> by (by destruct s).
    split; [constructor|by exists x]. }
  destruct (drive_ends _ _ (cfg_gpu_enabled config) 9 workers_do w (sys s) wpc r Hj Hw Hh Hworkers)
    as (j & y & Hd & _ & Hy & Hyt); [destruct wpc; cbn; lia|].
  exists j. split; [by eapply drive_driven|by exists y].
Qed.

Lemma wait_all c s req pc (rs : list nat) :
  sreach s -> calls s !! c = Some (req, pc) -> (forall r, r ∈ rs -> r ∈ waiting pc) ->
  exists j, driven c s (set_sys j s) /\ forall r, r ∈ rs -> ended r (set_sys j s).
Proof.
  intros Hs Hc. induction rs as [|r rs IH]; intros Hin.
  { exists (sys s). assert (set_sys (sys s) s = s) as -> by (by destruct s).
    split; [constructor|]. intros r Hr. by apply not_elem_of_nil in Hr. }
  destruct IH as (j1 & H1 & Hall); [intros; apply Hin; by right|].
  pose proof (driven_reach _ _ _ Hs H1) as Hs1.
  destruct (wait_one c (set_sys j1 s) req pc r Hs1 Hc) as (j2 & H2 & Hend); [apply Hin; by left|].
  exists j2. change (set_sys j2 (set_sys j1 s)) with (set_sys j2 s) in *.
  split; [by eapply driven_trans|]. intros r' [->|Hr']%elem_of_cons; [done|].
  eapply ended_driven; [exact Hs1|exact H2|auto].
Qed.

(** ** Points from which a call finishes *)

Definition finishes (c : nat) (req : Request) (pc : call_pc) : Prop :=
  forall s, sreach s -> calls s !! c = Some (req, pc) ->
    exists s' resp, driven c s s' /\ calls s' !! c = Some (req, CDone resp).

Section Call.
Context (c : nat) (req : Request).

Lemma finishes_via s s1 pc1 :
  sreach s -> driven c s s1 -> calls s1 !! c = Some (req, pc1) -> finishes c req pc1 ->
  exists s' resp, driven c s s' /\ calls s' !! c = Some (req, CDone resp).
Proof.
  intros Hs Hd Hc Hf. destruct (Hf s1) as (s' & resp & Hd' & Hc'); [by eapply driven_reach|done|].
  exists s', resp. split; [by eapply driven_trans|done].
Qed.

(** A step of call [c'] as a drive. *)
Lemma drive_call c' req' s pc s1 pc1 :
  calls s !! c' = Some (req', pc) -> c' = c \/ is_Some (admits pc) ->
  cstep (calls_do pc) s req' pc = Some (s1, pc1) ->
  driven c s (set_calls (<[c' := (req', pc1)]> (calls s)) s1).
Proof.
  intros Hc Hd Hcs.
  eapply (driven_step c s (SStep c' (calls_do pc))); [by exists req', pc| |constructor].
  cbn -[call_step]. rewrite Hc. cbn -[call_step]. rewrite Hcs. cbn.
  by rewrite (call_step_calls _ _ _ _ _ _ _ _ _ Hcs).
Qed.

Lemma finishes_step pc :
  (forall s, sreach s -> calls s !! c = Some (req, pc) ->
     exists s1 pc1, cstep (calls_do pc) s req pc = Some (s1, pc1) /\ finishes c req pc1) ->
  finishes c req pc.
Proof.
  intros Hpc s Hs Hc. destruct (Hpc s Hs Hc) as (s1 & pc1 & Hcs & Hf).
  eapply finishes_via; [done|by eapply drive_call; [|left|]|by eapply call_updated|done].
Qed.

(** A step that takes [lifecycle_mutex]: whoever holds it can be run until it is free. *)
Lemma finishes_locked pc :
  admits pc = None ->
  (forall s, sreach s -> calls s !! c = Some (req, pc) -> lifecycle_held s = false ->
     exists s1 pc1, cstep (calls_do pc) s req pc = Some (s1, pc1) /\ finishes c req pc1) ->
  finishes c req pc.
Proof.
  intros Ha Hpc s Hs Hc. destruct (lifecycle_held s) eqn:Hl.
  2: { destruct (Hpc s Hs Hc Hl) as (s1 & pc1 & Hcs & Hf).
    eapply finishes_via; [done|by eapply drive_call; [|left|]|by eapply call_updated|done]. }
  pose proof (sv_sessions _ _ s (service_inv_reachable _ _ _ _ Hs)) as Hsi.
  destruct (si_lock _ _ s Hsi Hl) as (c2 & req2 & pc2 & r & H2 & Ha2).
  destruct pc2; try discriminate Ha2.
  destruct (si_admit _ _ s Hsi _ _ _ _ H2 eq_refl) as (_ & x & Hx & _).
  assert (exists s1 pc1, cstep (calls_do (CSubmitAdmit session)) s req2 (CSubmitAdmit session)
    = Some (s1, pc1) /\ lifecycle_held s1 = false) as (s1 & pc1 & Hcs & Hl1).
  { cbn. rewrite Hx. cbn. destruct (submit _ _ _ _ _ _ _) as [g res]. by do 2 eexists. }
  pose proof (drive_call c2 req2 s _ _ _ H2 ltac:(right; by eexists) Hcs) as Hd.
  set (s2 := set_calls _ s1) in Hd. pose proof (driven_reach _ _ _ Hs Hd) as Hs2.
  assert (calls s2 !! c = Some (req, pc)) as Hc2
    by (cbn; rewrite call_kept; [done|]; intros <-; congruence).
  destruct (Hpc s2 Hs2 Hc2 Hl1) as (s3 & pc3 & Hcs3 & Hf).
  destruct (finishes_via s2 _ pc3 Hs2 (drive_call c req s2 _ _ _ Hc2 (or_introl eq_refl) Hcs3)
    (call_updated _ _ _ _ Hc2) Hf) as (s' & resp & Hd' & Hc').
  exists s', resp. split; [by eapply driven_trans|done].
Qed.

(** A step that always goes to a point from which the call finishes. *)
Ltac goes := do 2 eexists; (split; [reflexivity|]); try done.

Lemma finishes_done resp : finishes c req (CDone resp).
Proof. intros s Hs Hc. exists s, resp. split; [constructor|done]. Qed.

Lemma finishes_terminated : finishes c req CTerminated.
Proof. intros s Hs Hc. by destruct (sv_running _ _ s (service_inv_reachable _ _ _ _ Hs) c req). Qed.

Lemma finishes_caught partial e : finishes c req (CCaught partial e).
Proof. apply finishes_step. intros s _ _. goes. apply finishes_done. Qed.

Lemma finishes_answered a : finishes c req (CAnswered a).
Proof.
  apply finishes_step. intros s _ _. cbn. destruct (input_throws _); goes.
  - apply finishes_caught.
  - apply finishes_done.
Qed.

Create HintDb finishes.
#[local] Hint Resolve finishes_done finishes_terminated finishes_caught finishes_answered : finishes.

(** *** [create_session] *)

Lemma finishes_rollback out : finishes c req (CCreateRollback out).
Proof.
  apply finishes_locked; [done|]. intros s _ _ Hl. cbn -[release_reservation]. unfold locked.
  rewrite Hl. destruct (release_reservation _ s); goes; [destruct out|]; auto with finishes.
Qed.
#[local] Hint Resolve finishes_rollback : finishes.

Lemma finishes_publish graph : finishes c req (CCreatePublish graph).
Proof.
  apply finishes_locked; [done|]. intros s _ _ Hl. cbn. unfold locked. rewrite Hl.
  destruct (publish_session _ _ _ _) as [s1 [[[id|st]|e]|]]; goes; auto with finishes.
Qed.

Lemma finishes_compile graph : finishes c req (CCreateCompile graph).
Proof.
  apply finishes_step. intros s _ _. cbn. destruct (Hcalls (CCreateCompile graph)) as [a ->].
  destruct a as [[plan|st]|e]; goes; auto using finishes_publish with finishes.
Qed.

Lemma finishes_build : finishes c req CCreateBuild.
Proof.
  apply finishes_step. intros s _ _. cbn. destruct (input_throws _); goes;
    auto using finishes_compile with finishes.
Qed.

Lemma finishes_reserve : finishes c req CCreateReserve.
Proof.
  apply finishes_locked; [done|]. intros s _ _ Hl. cbn. unfold locked. rewrite Hl.
  destruct (reserve_session _ s) as [s1 [[st|]|]]; goes; auto using finishes_build with finishes.
Qed.

(** *** [close_session] *)

Lemma finishes_finalize r : finishes c req (CCloseFinalize r).
Proof.
  apply finishes_locked; [done|]. intros s _ _ Hl. cbn. unfold locked. rewrite Hl.
  destruct (finalize_session_close _ _ s); goes; auto with finishes.
Qed.

(** Once every record it waits for is terminal, the wait is over. *)
Lemma wait_over s r rs :
  sreach s -> calls s !! c = Some (req, CSettleWait r rs) -> (forall x, x ∈ rs -> ended x s) ->
  exists s' resp, driven c s s' /\ calls s' !! c = Some (req, CDone resp).
Proof.
  revert s. induction rs as [|x rs IH]; intros s Hs Hc Hend.
  - eapply finishes_via; [done|by eapply drive_call; [exact Hc|left|reflexivity]
      |by eapply call_updated|apply finishes_finalize].
  - destruct (Hend x) as (y & Hy & Ht); [by left|].
    assert (driven c s (set_calls (<[c := (req, CSettleWait r rs)]> (calls s)) s)) as Hd.
    { eapply drive_call; [exact Hc|by left|]. cbn. unfold settled. by rewrite Hy, Ht. }
    destruct (IH _ (driven_reach _ _ _ Hs Hd)) as (s' & resp & Hd' & Hc').
    + by eapply call_updated.
    + intros z Hz. destruct (Hend z) as (w & ?); [by right|]. by exists w.
    + exists s', resp. split; [by eapply driven_trans|done].
Qed.

Lemma finishes_wait r rs : finishes c req (CSettleWait r rs).
Proof.
  intros s Hs Hc. destruct (wait_all c s req _ rs Hs Hc ltac:(done)) as (j & Hd & Hend).
  destruct (wait_over (set_sys j s) r rs (driven_reach _ _ _ Hs Hd) Hc Hend) as (s' & resp & Hd' & Hc').
  exists s', resp. split; [by eapply driven_trans|done].
Qed.

Lemma finishes_running r todo rs : finishes c req (CSettleRunning r todo rs).
Proof. induction todo; apply finishes_step; intros s _ _; goes; apply finishes_wait. Qed.

Lemma finishes_queued r q rs : finishes c req (CSettleQueued r q rs).
Proof. induction q; apply finishes_step; intros s _ _; goes; apply finishes_running. Qed.

Lemma finishes_reopen r e : finishes c req (CCloseReopen r e).
Proof.
  apply finishes_locked; [done|]. intros s _ _ Hl. cbn. unfold locked. rewrite Hl. goes.
  auto with finishes.
Qed.

Lemma finishes_detach r : finishes c req (CCloseDetach r).
Proof.
  apply finishes_step. intros s _ _. cbn [call_step].
  destruct (close_detach _ _ _) as [g [[q rs]|e]]; goes; [apply finishes_queued|apply finishes_reopen].
Qed.

Lemma finishes_mark : finishes c req CCloseMark.
Proof.
  apply finishes_locked; [done|]. intros s _ _ Hl. cbn. unfold locked. rewrite Hl.
  destruct (open_session _ _ _); goes; [apply finishes_detach|auto with finishes].
Qed.

(** *** [submit] and the methods of the registry *)

Lemma finishes_admit r : finishes c req (CSubmitAdmit r).
Proof.
  apply finishes_step. intros s Hs Hc. cbn.
  destruct (si_admit _ _ s (sv_sessions _ _ s (service_inv_reachable _ _ _ _ Hs)) _ _ _ _ Hc eq_refl)
    as (_ & x & Hx & _).
  rewrite Hx. cbn. destruct (submit _ _ _ _ _ _ _) as [g [a|e]]; goes; auto with finishes.
Qed.

Lemma finishes_lookup : finishes c req CSubmitLookup.
Proof.
  apply finishes_locked; [done|]. intros s _ _ Hl. cbn. unfold locked. rewrite Hl.
  destruct (open_session _ _ _); goes; [apply finishes_admit|auto with finishes].
Qed.

Lemma finishes_status_read r : finishes c req (CStatusRead r).
Proof.
  apply finishes_step. intros s Hs Hc. cbn.
  destruct (calls_fit_reachable _ _ _ s Hs _ _ _ Hc) as [_ [x ->]]. cbn. goes. auto with finishes.
Qed.

Lemma finishes_result_read r : finishes c req (CResultRead r).
Proof.
  apply finishes_step. intros s Hs Hc. cbn.
  destruct (calls_fit_reachable _ _ _ s Hs _ _ _ Hc) as [_ [x ->]]. cbn. goes. auto with finishes.
Qed.

Lemma finishes_cancel r : finishes c req (CCancelMark r).
Proof. apply finishes_step. intros s _ _. goes. auto with finishes. Qed.
#[local] Hint Resolve finishes_status_read finishes_result_read finishes_cancel : finishes.

Lemma finishes_find :
  finishes c req CStatusFind /\ finishes c req CCancelFind /\ finishes c req CResultFind.
Proof.
  split_and!; apply finishes_step; intros s _ _; cbn; destruct (find _ _ _); goes;
    auto with finishes.
Qed.

Lemma finishes_release : finishes c req CRelease.
Proof.
  apply finishes_step. intros s _ _. cbn [call_step]. destruct (release _ _ _). goes.
  auto with finishes.
Qed.

Lemma finishes_info_jobs n : finishes c req (CInfoJobs n).
Proof. apply finishes_step. intros s _ _. goes. auto with finishes. Qed.

Lemma finishes_info : finishes c req CInfoSessions.
Proof. apply finishes_step. intros s _ _. goes. apply finishes_info_jobs. Qed.

Lemma finishes_entry m : finishes c req (entry m).
Proof.
  destruct m; cbn; try apply finishes_find; auto using finishes_reserve, finishes_mark,
    finishes_lookup, finishes_release, finishes_info with finishes.
Qed.

Lemma finishes_fence : finishes c req CFence.
Proof.
  apply finishes_step. intros s _ _. cbn -[entry]. destruct (_ && _); goes; [|apply finishes_entry].
  destruct (input_throws _); auto with finishes.
Qed.

Lemma finishes_any pc : finishes c req pc.
Proof.
  destruct pc; auto using finishes_fence, finishes_reserve, finishes_build, finishes_compile,
    finishes_publish, finishes_mark, finishes_detach, finishes_queued, finishes_running,
    finishes_wait, finishes_finalize, finishes_reopen, finishes_lookup, finishes_admit,
    finishes_release, finishes_info, finishes_info_jobs with finishes; apply finishes_find.
Qed.
End Call.

End Progress.
