(* ===== verification/Quit.v ===== *)
(** The end of the registry: once it is stopped, every worker finishes the record it holds
    and leaves, so [JobRegistry::stop] can join them all. *)
From S2P Require Import Prelude OrdMap Kernel Protocol Codec Jobs JobSystem JobSpec Service.
From S2P Require Import ServiceSystem ServiceLink ServiceSpec SessionSpec Dispatch Progress.

Section Registry.
Context `{RT : Runtime}.
Context (maximum_jobs instance_id : Z) (gpu_enabled : bool).

Abbreviation jstep := (job_step maximum_jobs instance_id gpu_enabled).

(** The registry is stopped, and these workers have left it. *)
Record quitting (s s' : JobSystem) : Prop := {
  qu_stopping : stopping (reg s) = true -> stopping (reg s') = true;
  qu_exited w : workers s !! w = Some WExited -> workers s' !! w = Some WExited;
  qu_length : length (workers s') = length (workers s);
}.

Lemma worker_step_stopping i g pc g' pc' :
  worker_step gpu_enabled i g pc = Some (g', pc') -> stopping g' = stopping g.
Proof.
  unfold worker_step, after_section. intros Hstep.
  destruct pc; repeat match type of Hstep with
  | Some _ = Some _ => injection Hstep as <- _
  | (let '(_, _) := ?x in _) = Some _ => destruct x
  | (match ?x with _ => _ end) = Some _ => destruct x eqn:?; try discriminate Hstep
  | (?x ≫= _) = Some _ => destruct x; cbn [mbind option_bind] in Hstep; try discriminate Hstep
  end; try discriminate Hstep; done.
Qed.

Lemma job_step_quitting e s s' : jstep e s = Some s' -> quitting s s'.
Proof.
  intros Hstep. split; [| |by eapply workers_length_step].
  - intros Hs. destruct e; cbn in Hstep.
    + destruct (workers s !! w) as [pc|]; [|done]. cbn in Hstep.
      destruct (worker_step _ _ _ pc) as [[g pc']|] eqn:Hw; [|done]. injection Hstep as <-. cbn.
      by rewrite (worker_step_stopping _ _ _ _ _ Hw).
    + injection Hstep as <-. unfold submit. by rewrite Hs.
    + by injection Hstep as <-.
    + injection Hstep as <-. cbn. unfold release.
      destruct (map_find _ _); [|done]. destruct (_ || _); [done|]. destruct (heap _ !! _); [|done].
      by destruct (terminal _).
    + unfold close_detach in Hstep. destruct fails; by injection Hstep as <-.
    + case_bool_decide; [|done]. by injection Hstep as <-.
    + injection Hstep as <-. cbn. unfold stop_section. by rewrite Hs.
  - intros w Hw. destruct e; cbn in Hstep; try (by injection Hstep as <-).
    + destruct (workers s !! w0) as [pc|] eqn:H0; [|done]. cbn in Hstep.
      destruct (worker_step _ _ _ pc) as [[g pc']|] eqn:Hws; [|done]. injection Hstep as <-. cbn.
      destruct (decide (w = w0)) as [->|Hne]; [|by rewrite list_lookup_insert_ne].
      rewrite Hw in H0. by injection H0 as <-.
    + unfold close_detach in Hstep. destruct fails; by injection Hstep as <-.
    + case_bool_decide; [|done]. by injection Hstep as <-.
Qed.

Lemma quitting_refl s : quitting s s.
Proof. by split. Qed.

Lemma quitting_trans s1 s2 s3 : quitting s1 s2 -> quitting s2 s3 -> quitting s1 s3.
Proof. intros [A1 A2 A3] [B1 B2 B3]. split; [auto|auto|congruence]. Qed.
End Registry.

Section Service.
Context `{HK : KernelLaws} {RT : Runtime}.
Context (config : ServiceConfig) (instance_id : Z) (daemon_version : bytes).

Abbreviation sstep := (service_step config instance_id daemon_version).
Abbreviation sreach := (service_reachable config instance_id daemon_version).

Lemma service_step_quitting s e s' : sreach s -> sstep e s = Some s' -> quitting (sys s) (sys s').
Proof.
  intros Hs Hstep. destruct (service_job_step _ _ _ _ _ _ Hs Hstep) as [->|[je Hj]];
    [apply quitting_refl|by eapply job_step_quitting].
Qed.

Context (workers_do : worker_pc -> worker_input) (calls_do : call_pc -> call_input).
Context (Hworkers : forall pc, matched pc (workers_do pc)).

Abbreviation drives := (driven config instance_id daemon_version workers_do calls_do).

Lemma driven_quitting c s s' : sreach s -> drives c s s' -> quitting (sys s) (sys s').
Proof.
  intros Hs Hd. induction Hd as [s|s e s1 s2 _ Hstep _ IH]; [apply quitting_refl|].
  eapply quitting_trans; [by eapply service_step_quitting|]. apply IH. by econstructor.
Qed.

Lemma idle_quits c s w :
  workers (sys s) !! w = Some WIdle -> stopping (reg (sys s)) = true ->
  exists s', drives c s s' /\ workers (sys s') !! w = Some WExited.
Proof.
  intros Hw Hs.
  set (j := mk_JobSystem (reg (sys s)) (<[w:=WExited]> (workers (sys s))) (detached (sys s))).
  exists (set_sys j s). split; [|by apply list_lookup_insert_eq; eapply lookup_lt_Some].
  eapply (driven_step _ _ _ _ _ c s (SWorker w (workers_do WIdle))); [by exists WIdle| |constructor].
  cbn. rewrite Hw. cbn. by rewrite Hs.
Qed.

(** A worker comes to its end once the registry is stopped. *)
Lemma worker_quits c s w :
  sreach s -> stopping (reg (sys s)) = true -> (w < length (workers (sys s)))%nat ->
  exists s', drives c s s' /\ workers (sys s') !! w = Some WExited.
Proof.
  intros Hr Hs [pc Hw]%lookup_lt_is_Some.
  destruct (holds pc) as [r|] eqn:Hh.
  - pose proof (service_inv_jobs _ _ _ (service_inv_reachable _ _ _ _ Hr)) as Hinv.
    destruct (drive_ends (cfg_maximum_jobs config) instance_id (cfg_gpu_enabled config) 9 workers_do w
      (sys s) pc r Hinv Hw Hh Hworkers) as (j & x & Hd & Hi & _); [by destruct pc; cbn; lia|].
    pose proof (drive_driven config instance_id daemon_version _ calls_do c _ _ _ _ Hd) as Hdr.
    destruct (idle_quits c (set_sys j s) w Hi) as (s2 & Hd2 & Hx).
    { by apply (qu_stopping _ _ (driven_quitting c _ _ Hr Hdr)). }
    exists s2. split; [by eapply driven_trans|done].
  - destruct pc; try discriminate Hh; [by eapply idle_quits|]. exists s. split; [constructor|done].
Qed.
End Service.
