(* ===== verification/Startup.v ===== *)
(** The construction of the service ([make_instance_id], [JobRegistry::JobRegistry] and
    [Service::Impl::Impl] of [src/lib/orchestration/service.cpp]): the workers are started one
    by one, each runs from its start, and when something throws those that were started are
    stopped and joined. *)
From S2P Require Import Prelude OrdMap Kernel Protocol Jobs JobSystem Service.

(** [make_instance_id]: [source] is what the random device yields, two draws at a time; [None]
    when it is not long enough for the loop to end. *)
Fixpoint make_instance_id (source : list Z) : option Z :=
  match source with
  | high :: low :: source' =>
    let value := Z.lxor (Z.shiftl high 32 mod 2 ^ 64) low in
    if value =? 0 then make_instance_id source' else Some value
  | _ => None
  end.

Section Startup.
Context `{RT : Runtime}.

(** Where the constructing thread is. *)
Inductive start_pc :=
| SMembers                                           (* the members before [jobs] *)
| STest                                              (* [JobRegistry::JobRegistry] *)
| SReserve
| SSpawn (index : Z)
| SBody                                              (* the body of [Impl::Impl] *)
| SStop (e : exn)                                    (* [JobRegistry::stop] *)
| SJoin (w : nat) (e : exn)
| SConstructed
| SThrown (e : exn).

(** The thread, and the registry with the workers it has started. *)
Record Starting := mk_Starting { start_at : start_pc; started : JobSystem }.

Definition start_goto (pc : start_pc) (s : Starting) : Starting := mk_Starting pc (started s).

Section Steps.
Context (config : ServiceConfig) (instance_id : Z).

(** The test of [JobRegistry::JobRegistry]; the addresses of [Impl]'s members are not null. *)
Definition registry_refused : bool :=
  (cfg_maximum_concurrency config =? 0) || (cfg_maximum_jobs config =? 0) || (instance_id =? 0).

(** The test in the body of [Impl::Impl]. *)
Definition service_refused : bool :=
  (cfg_maximum_concurrency config =? 0) || (cfg_maximum_jobs config =? 0)
  || (cfg_maximum_sessions config =? 0).

(** [workers_.emplace_back]. *)
Definition spawn_worker (j : JobSystem) : JobSystem :=
  mk_JobSystem (reg j) (workers j ++ [WIdle]) (detached j).

(** One step of the constructing thread; it may throw where [raised] says what. *)
Definition start_step (raised : option exn) (s : Starting) : option Starting :=
  match start_at s with
  | SMembers =>
    Some (start_goto (match raised with Some e => SThrown e | None => STest end) s)
  | STest =>
    Some (start_goto
            (if registry_refused
             then SThrown (default (StdException
                    (Some (lit "execution registry configuration is invalid"))) raised)
             else SReserve) s)
  | SReserve =>
    Some (start_goto (match raised with Some e => SStop e | None => SSpawn 0 end) s)
  | SSpawn index =>
    Some (if index <? cfg_maximum_concurrency config
          then match raised with
               | Some e => start_goto (SStop e) s
               | None => mk_Starting (SSpawn ((index + 1) mod 2 ^ 32)) (spawn_worker (started s))
               end
          else start_goto SBody s)
  | SBody =>
    Some (start_goto
            (if service_refused
             then SStop (default (StdException (Some (lit "service bounds must be positive"))) raised)
             else SConstructed) s)
  | SStop e => Some (mk_Starting (SJoin 0 e) (with_reg (stop_section (reg (started s))) (started s)))
  | SJoin w e =>
    match workers (started s) !! w with
    | Some WExited => Some (start_goto (SJoin (S w) e) s)
    | Some _ => None
    | None => Some (mk_Starting (SThrown e) (with_reg (stop_clear (reg (started s))) (started s)))
    end
  | SConstructed | SThrown _ => None
  end.

(** The constructing thread goes on, or a worker that runs already. *)
Inductive start_event :=
| SOwner (raised : option exn)
| SWorkerGoes (w : nat) (i : worker_input).

Definition starting_step (e : start_event) (s : Starting) : option Starting :=
  match e with
  | SOwner raised => start_step raised s
  | SWorkerGoes w i =>
    j ← job_step (cfg_maximum_jobs config) instance_id (cfg_gpu_enabled config) (EWorker w i) (started s);
    Some (mk_Starting (start_at s) j)
  end.

Definition starting_initial : Starting := mk_Starting SMembers (mk_JobSystem empty_registry [] []).

Inductive starting_reachable : Starting -> Prop :=
| greach_initial : starting_reachable starting_initial
| greach_step s e s' :
    starting_reachable s -> starting_step e s = Some s' -> starting_reachable s'.

Fixpoint starting_run (es : list start_event) (s : Starting) : option Starting :=
  match es with
  | [] => Some s
  | e :: es' => s' ← starting_step e s; starting_run es' s'
  end.

(** Runs the threads when [raises] says what each point throws. *)
Inductive comes_up (raises : start_pc -> option exn) : Starting -> Starting -> Prop :=
| up_here s : comes_up raises s s
| up_owner s s1 s2 :
    start_step (raises (start_at s)) s = Some s1 -> comes_up raises s1 s2 -> comes_up raises s s2
| up_worker s w s1 s2 :
    starting_step (SWorkerGoes w Go) s = Some s1 -> comes_up raises s1 s2 -> comes_up raises s s2.
End Steps.
End Startup.
