(* ===== verification/StartupSpec.v ===== *)
(** What the construction of the service hands over: a registry at rest with all its workers,
    or an exception and no worker left. *)
From S2P Require Import Prelude OrdMap Kernel Protocol Jobs JobSystem Service Startup.

(** *** The instance *)

Lemma lxor_bound w a b : 0 <= w -> is_uint w a -> is_uint w b -> is_uint w (Z.lxor a b).
Proof.
  unfold is_uint. intros Hw Ha Hb. assert (0 <= Z.lxor a b) as H0 by (rewrite Z.lxor_nonneg; lia).
  split; [done|]. destruct (Z.eq_dec (Z.lxor a b) 0) as [->|Hne]; [apply pow2_pos; lia|].
  apply Z.log2_lt_pow2; [lia|]. eapply Z.le_lt_trans; [apply Z.log2_lxor; lia|].
  destruct (Z.eq_dec w 0) as [->|Hw0].
  { change (2 ^ 0) with 1 in *. replace a with 0 in * by lia. replace b with 0 in * by lia. done. }
  apply Z.max_lub_lt; [destruct (Z.eq_dec a 0) as [->|]|destruct (Z.eq_dec b 0) as [->|]];
    try (apply Z.log2_lt_pow2; lia); cbn; lia.
Qed.

(** The token is a nonzero 64-bit value, and the loop ends at the first pair of draws that
    gives one. *)
Lemma instance_id_spec source v :
  Forall (is_uint 32) source -> make_instance_id source = Some v -> is_uint 64 v /\ v <> 0.
Proof.
  remember (length source) as n eqn:Hn. assert (length source <= n)%nat as Hle by lia. clear Hn.
  revert source Hle. induction n as [|n IH]; intros source Hle Hs Hv.
  { destruct source; [done|cbn in Hle; lia]. }
  destruct source as [|high [|low source]]; try done. cbn [make_instance_id] in Hv. cbn zeta in Hv.
  rewrite !Forall_cons in Hs. destruct Hs as (Hh & Hl & Hs).
  destruct (Z.eqb_spec (Z.lxor (Z.shiftl high 32 mod 2 ^ 64) low) 0) as [_|Hne].
  - apply (IH source); [cbn in Hle; lia|done|done].
  - injection Hv as <-. split; [|done]. apply lxor_bound; [lia| |unfold is_uint in *; lia].
    apply Z.mod_pos_bound. lia.
Qed.

Lemma instance_id_ends source : 
  (exists k high low, source !! (2 * k)%nat = Some high /\ source !! (2 * k + 1)%nat = Some low /\
     Z.lxor (Z.shiftl high 32 mod 2 ^ 64) low <> 0) ->
  is_Some (make_instance_id source).
Proof.
  intros (k & high & low & Hh & Hl & Hne). revert source Hh Hl.
  induction k as [|k IH]; intros source Hh Hl; (destruct source as [|a [|b source]]; try done);
    cbn [make_instance_id]; cbn zeta.
  - injection Hh as ->. injection Hl as ->. by rewrite (proj2 (Z.eqb_neq _ _) Hne).
  - destruct (_ =? 0); [|done]. apply IH.
    + by replace (2 * S k)%nat with (S (S (2 * k))) in Hh by lia.
    + by replace (2 * S k + 1)%nat with (S (S (2 * k + 1))) in Hl by lia.
Qed.

Section Startup.
Context `{RT : Runtime}.
Context (config : ServiceConfig) (instance_id : Z).
Hypothesis Hconcurrency : is_uint 32 (cfg_maximum_concurrency config).

Abbreviation gstep := (starting_step config instance_id).
Abbreviation greach := (starting_reachable config instance_id).
Abbreviation up := (comes_up config instance_id).

(** Whether [JobRegistry::stop] was called. *)
Definition stopped (pc : start_pc) : bool :=
  match pc with SJoin _ _ => true | _ => false end.

(** At rest; [b] is [stopping_]. *)
Definition resting (b : bool) : JobRegistry := mk_JobRegistry [] [] [] 1 b.

Definition started_workers (pc : start_pc) (ws : list worker_pc) : Prop :=
  match pc with
  | SMembers | STest => ws = []
  | SReserve => ws = [] /\ registry_refused config instance_id = false
  | SSpawn index =>
    0 <= index <= cfg_maximum_concurrency config /\ ws = replicate (Z.to_nat index) WIdle /\
    registry_refused config instance_id = false
  | SBody =>
    ws = replicate (Z.to_nat (cfg_maximum_concurrency config)) WIdle /\
    registry_refused config instance_id = false
  | SConstructed =>
    ws = replicate (Z.to_nat (cfg_maximum_concurrency config)) WIdle /\
    registry_refused config instance_id = false /\ service_refused config = false
  | SStop _ => Forall (eq WIdle) ws
  | SJoin w _ =>
    Forall (fun pc => pc = WIdle \/ pc = WExited) ws /\ forall k, (k < w)%nat -> ws !! k = Some WExited
  | SThrown _ => Forall (eq WExited) ws
  end.

Record starting_inv (s : Starting) : Prop := {
  gi_registry : exists b, reg (started s) = resting b /\
    match start_at s with SJoin _ _ => b = true | SThrown _ => True | _ => b = false end;
  gi_detached : detached (started s) = [];
  gi_workers : started_workers (start_at s) (workers (started s));
}.

(** A worker that was started waits, and leaves once the registry is stopped. *)
Lemma resting_worker w i j j' b :
  reg j = resting b -> Forall (fun pc => pc = WIdle \/ pc = WExited) (workers j) ->
  job_step (cfg_maximum_jobs config) instance_id (cfg_gpu_enabled config) (EWorker w i) j = Some j' ->
  b = true /\ workers j !! w = Some WIdle /\
  j' = mk_JobSystem (resting b) (<[w := WExited]> (workers j)) (detached j).
Proof.
  intros Hr Hw Hstep. cbn in Hstep. destruct (workers j !! w) as [pc|] eqn:Hpc; [|done].
  cbn in Hstep. rewrite Hr in Hstep. eapply Forall_lookup_1 in Hw; [|exact Hpc].
  destruct Hw as [-> | ->]; [|done]. cbn in Hstep. destruct b; [|done]. by injection Hstep as <-.
Qed.

Lemma started_at_rest pc ws :
  started_workers pc ws -> Forall (fun pc => pc = WIdle \/ pc = WExited) ws.
Proof.
  assert (forall n, Forall (fun pc => pc = WIdle \/ pc = WExited) (replicate n WIdle)) as Hrep
    by (intros n; apply Forall_replicate; by left).
  destruct pc; cbn; try (by intros ->); try (by intros [-> _]).
  - by intros (_ & -> & _).
  - intros Hall. eapply Forall_impl; [exact Hall|]. intros x <-. by left.
  - by intros [Hall _].
  - intros Hall. eapply Forall_impl; [exact Hall|]. intros x <-. by right.
Qed.

Lemma starting_inv_step e s s' : starting_inv s -> gstep e s = Some s' -> starting_inv s'.
Proof.
  intros [(b & Hr & Hb) Hd Hw] Hstep. destruct e as [raised|w i]; cbn [starting_step] in Hstep.
  - unfold start_step in Hstep. destruct (start_at s) eqn:Hat.
    + injection Hstep as <-. destruct raised; split; cbn; eauto. rewrite Hw. constructor.
    + injection Hstep as <-. destruct (registry_refused config instance_id) eqn:Href; split; cbn; eauto.
      rewrite Hw. constructor.
    + destruct Hw as [Hw Href]. injection Hstep as <-. destruct raised; split; cbn; eauto.
      * rewrite Hw. constructor.
      * unfold is_uint in Hconcurrency. split_and!; try done; lia.
    + destruct Hw as (Hi & Hw & Href). destruct (Z.ltb_spec index (cfg_maximum_concurrency config)) as [Hlt|Hge].
      * destruct raised; injection Hstep as <-; split; cbn; eauto.
        -- rewrite Hw. by apply Forall_replicate.
        -- unfold is_uint in Hconcurrency. rewrite Z.mod_small by lia. split_and!; [lia|lia| |done].
           rewrite Hw, <-replicate_S_end. f_equal. lia.
      * injection Hstep as <-. split; cbn; eauto. split; [|done]. rewrite Hw. f_equal. lia.
    + destruct Hw as [Hw Href]. injection Hstep as <-. destruct (service_refused config) eqn:Hs; split; cbn; eauto.
      rewrite Hw. by apply Forall_replicate.
    + injection Hstep as <-. split; cbn; [|done|].
      * exists true. split; [|done]. rewrite Hr. by subst b.
      * split; [|intros k Hk; lia]. eapply Forall_impl; [exact Hw|]. intros x <-. by left.
    + destruct Hw as [Hall Hlt]. destruct (workers (started s) !! w) as [pc|] eqn:Hk.
      * destruct pc; try discriminate Hstep. injection Hstep as <-. split; cbn; eauto. split; [done|].
        intros k Hlk. destruct (decide (k = w)) as [->|Hne]; [done|]. apply Hlt. lia.
      * injection Hstep as <-. split; cbn; [|done|].
        -- exists b. split; [|done]. by rewrite Hr.
        -- apply Forall_lookup. intros k pc Hpc. rewrite Hlt in Hpc; [by injection Hpc|].
           apply lookup_ge_None in Hk. apply lookup_lt_Some in Hpc. lia.
    + done.
    + done.
  - destruct (job_step _ _ _ _ _) as [j|] eqn:Hj; [|done]. injection Hstep as <-.
    destruct (resting_worker _ _ _ _ _ Hr (started_at_rest _ _ Hw) Hj) as (-> & Hk & ->).
    destruct (start_at s) eqn:Hat; try discriminate Hb; split; cbn; eauto.
    + destruct Hw as [Hall Hlt]. split; [apply Forall_insert; auto|]. intros k Hlk.
      destruct (decide (k = w)) as [->|Hne]; [apply list_lookup_insert_eq; by eapply lookup_lt_Some|].
      rewrite list_lookup_insert_ne; auto.
    + eapply Forall_lookup_1 in Hw; [|exact Hk]. done.
Qed.

Lemma starting_inv_reachable s : greach s -> starting_inv s.
Proof.
  induction 1 as [|s e s' _ IH Hstep]; [|by eapply starting_inv_step].
  split; [by exists false|done|done].
Qed.

(** *** The end *)

Context (raises : start_pc -> option exn).

(** The construction comes to its end from here. *)
Definition settles (s : Starting) : Prop :=
  exists s', up raises s s' /\ (start_at s' = SConstructed \/ exists e, start_at s' = SThrown e).

Lemma settles_owner s s1 :
  start_step config instance_id (raises (start_at s)) s = Some s1 -> settles s1 -> settles s.
Proof. intros Hs (s' & Hu & He). exists s'. split; [by eapply up_owner|done]. Qed.

Lemma settles_worker s w s1 : gstep (SWorkerGoes w Go) s = Some s1 -> settles s1 -> settles s.
Proof. intros Hs (s' & Hu & He). exists s'. split; [by eapply up_worker|done]. Qed.

Lemma settles_thrown e j : settles (mk_Starting (SThrown e) j).
Proof. eexists. split; [constructor|]. right. by exists e. Qed.

(** The workers are joined one after the other. *)
Lemma settles_joining n w e j :
  starting_inv (mk_Starting (SJoin w e) j) -> (length (workers j) - w <= n)%nat ->
  settles (mk_Starting (SJoin w e) j).
Proof.
  revert w j. induction n as [|n IH]; intros w j Hinv Hn.
  { eapply settles_owner; [|apply settles_thrown]. unfold start_step. cbn.
    by rewrite (lookup_ge_None_2 (workers j) w) by lia. }
  destruct (workers j !! w) as [pc|] eqn:Hk.
  2: { eapply settles_owner; [|apply settles_thrown]. unfold start_step. cbn. by rewrite Hk. }
  assert (forall j1, workers j1 !! w = Some WExited -> length (workers j1) = length (workers j) ->
    starting_inv (mk_Starting (SJoin w e) j1) -> settles (mk_Starting (SJoin w e) j1)) as Hnext.
  { intros j1 Hx Hlen Hi1.
    assert (start_step config instance_id (raises (SJoin w e)) (mk_Starting (SJoin w e) j1)
      = Some (mk_Starting (SJoin (S w) e) j1)) as Hs by (unfold start_step; cbn; by rewrite Hx).
    eapply settles_owner; [exact Hs|]. apply IH; [|lia].
    by apply (starting_inv_step (SOwner (raises (SJoin w e))) _ _ Hi1). }
  pose proof Hinv as [(b & Hr & Hb) Hd Hw]. cbn in Hr, Hb, Hd, Hw. subst b.
  pose proof (Forall_lookup_1 _ _ _ _ (proj1 Hw) Hk) as [->| ->]; [|by apply Hnext].
  assert (gstep (SWorkerGoes w Go) (mk_Starting (SJoin w e) j) = Some (mk_Starting (SJoin w e)
    (mk_JobSystem (reg j) (<[w := WExited]> (workers j)) (detached j)))) as Hs
    by (cbn; rewrite Hk; cbn; by rewrite Hr).
  eapply settles_worker; [exact Hs|]. apply Hnext.
  - cbn. apply list_lookup_insert_eq. by eapply lookup_lt_Some.
  - apply length_insert.
  - exact (starting_inv_step (SWorkerGoes w Go) _ _ Hinv Hs).
Qed.

Lemma settles_stopping e j : starting_inv (mk_Starting (SStop e) j) -> settles (mk_Starting (SStop e) j).
Proof.
  intros Hinv. eapply settles_owner; [done|]. eapply settles_joining; [|reflexivity].
  by apply (starting_inv_step (SOwner (raises (SStop e))) _ _ Hinv).
Qed.

(** A point from which the owner's next step leads to ends. *)
Lemma settles_next pc j :
  starting_inv (mk_Starting pc j) ->
  (forall s1, start_step config instance_id (raises pc) (mk_Starting pc j) = Some s1 ->
     starting_inv s1 -> settles s1) ->
  is_Some (start_step config instance_id (raises pc) (mk_Starting pc j)) ->
  settles (mk_Starting pc j).
Proof.
  intros Hinv Hn [s1 Hs]. eapply settles_owner; [exact Hs|]. apply Hn; [done|].
  by apply (starting_inv_step (SOwner (raises pc)) _ _ Hinv).
Qed.

Lemma settles_body j : starting_inv (mk_Starting SBody j) -> settles (mk_Starting SBody j).
Proof.
  intros Hinv. apply settles_next; [done| |by eexists]. intros s1 [= <-] Hi. cbn in *.
  destruct (service_refused config); [by apply settles_stopping|].
  eexists. split; [constructor|by left].
Qed.

Lemma settles_spawning n index j :
  starting_inv (mk_Starting (SSpawn index) j) -> (Z.to_nat (cfg_maximum_concurrency config - index) <= n)%nat ->
  settles (mk_Starting (SSpawn index) j).
Proof.
  revert index j. induction n as [|n IH]; intros index j Hinv Hn;
    (apply settles_next; [done| |unfold start_step; cbn; by eexists]);
    unfold start_step; cbn; intros s1 [= <-] Hi;
    destruct (Z.ltb_spec index (cfg_maximum_concurrency config)); try (by apply settles_body); [lia|].
  destruct (raises (SSpawn index)); [by apply settles_stopping|]. apply IH; [done|].
  destruct (gi_workers _ Hi) as (Hb & _). cbn in Hb. destruct (gi_workers _ Hinv) as (Hb0 & _).
  unfold is_uint in Hconcurrency. rewrite Z.mod_small by lia. lia.
Qed.

Lemma starting_settles s : starting_inv s -> settles s.
Proof.
  assert (forall j, starting_inv (mk_Starting SReserve j) -> settles (mk_Starting SReserve j)) as Hreserve.
  { intros j Hi. apply settles_next; [done| |by eexists]. intros s1 [= <-] Hi1. cbn in *.
    destruct (raises SReserve); [by apply settles_stopping|by eapply settles_spawning]. }
  assert (forall j, starting_inv (mk_Starting STest j) -> settles (mk_Starting STest j)) as Htest.
  { intros j Hi. apply settles_next; [done| |by eexists]. intros s1 [= <-] Hi1. cbn in *.
    destruct (registry_refused config instance_id); [apply settles_thrown|by apply Hreserve]. }
  destruct s as [pc j]. intros Hinv. destruct pc; auto using settles_body, settles_stopping, settles_thrown.
  - apply settles_next; [done| |by eexists]. intros s1 [= <-] Hi1. cbn in *.
    destruct (raises SMembers); [apply settles_thrown|by apply Htest].
  - by eapply settles_spawning.
  - by eapply settles_joining.
  - eexists. split; [constructor|by left].
Qed.

End Startup.
