(* ===== verification/Posix.v ===== *)
(** The system calls that [src/lib/ipc/unix_socket.cpp] makes, on an explicit kernel
    state: the file system, the descriptors of the process, the peers that wait to be
    accepted.

    Other processes act between the calls, and a call may be refused for any reason:
    the schedule says, for each call in turn, what the others do first and which error
    is reported, if any.  When it is exhausted nothing interferes any more. *)
From S2P Require Import Prelude Kernel.

(** [st_dev] and [st_ino]. *)
Abbreviation identity := (Z * Z)%type.

(** [st_mode], as far as it is tested. *)
Inductive node_kind := Directory | SocketNode | OtherNode.
#[export] Instance node_kind_eq_dec : EqDecision node_kind.
Proof. solve_decision. Defined.

Abbreviation node := (identity * node_kind)%type.

(** Constants of the system headers, and [strerror]; POSIX gives each error its own number. *)
Class Posix := {
  EINTR : Z; ENOENT : Z; EINVAL : Z; EPROTONOSUPPORT : Z; ENOSYS : Z; EADDRINUSE : Z;
  EBADF : Z; ENOTDIR : Z;
  sun_path_size : Z;
  strerror : Z -> bytes;
  errno_distinct :
    NoDup [EINTR; ENOENT; EINVAL; EPROTONOSUPPORT; ENOSYS; EADDRINUSE; EBADF; ENOTDIR];
}.

(** What other processes can change: the entries of directories, what a pathname
    resolves to, who connects. *)
Record Outside := mk_Outside {
  entries : gmap (identity * bytes) node;
  resolved : gmap bytes node;
  pending : list Z;                       (* user of each waiting peer *)
}.

(** One call: the others' act, and the error that refuses it. *)
Record tick := mk_tick { others : Outside -> Outside; refused : option Z }.

Inductive object :=
| ODirectory (id : identity)
| OSocket
| OListener (backlog : Z)
| OStream (peer : Z).                      (* connected, with the peer's user *)

Record World := mk_World {
  outside : Outside;
  fds : gmap Z (object * bool);            (* the flag is [FD_CLOEXEC] *)
  ticks : list tick;
  bad_closes : nat;                        (* [close] on a descriptor not open *)
  unlinked : list (identity * bytes * option node);
}.

Definition set_outside (o : Outside) (w : World) : World :=
  mk_World o (fds w) (ticks w) (bad_closes w) (unlinked w).
Definition set_fds (f : gmap Z (object * bool)) (w : World) : World :=
  mk_World (outside w) f (ticks w) (bad_closes w) (unlinked w).
Definition set_entries (m : gmap (identity * bytes) node) (o : Outside) : Outside :=
  mk_Outside m (resolved o) (pending o).
Definition set_pending_peers (l : list Z) (o : Outside) : Outside :=
  mk_Outside (entries o) (resolved o) l.

(** A computation that makes system calls; [None] blocks for ever. *)
Definition sys (A : Type) : Type := World -> option (A * World).
#[export] Instance sys_ret : MRet sys := fun A a w => Some (a, w).
#[export] Instance sys_bind : MBind sys :=
  fun A B f m w => match m w with Some (a, w') => f a w' | None => None end.

(** The answer of a call: [errno], or its value. *)
Abbreviation answer A := (Z + A)%type.

(** The others act; then the call is refused or takes effect. *)
Definition syscall {A} (act : World -> option (answer A * World)) : sys (answer A) :=
  fun w => match ticks w with
           | [] => act w
           | t :: ts =>
             let w1 := mk_World (others t (outside w)) (fds w) ts (bad_closes w) (unlinked w) in
             match refused t with Some e => Some (inl e, w1) | None => act w1 end
           end.

(** A descriptor number that is not in use. *)
Definition fresh_fd (f : gmap Z (object * bool)) : Z :=
  foldr Z.max (-1) (map_to_list f).*1 + 1.

Section Calls.
Context {P : Posix}.

(** [openat] and [bind] name an entry of a directory. *)
Definition sys_open_directory (path : bytes) : sys (answer Z) :=
  syscall (fun w =>
    match resolved (outside w) !! path with
    | Some (id, Directory) =>
      let fd := fresh_fd (fds w) in
      Some (inr fd, set_fds (<[fd := (ODirectory id, true)]> (fds w)) w)
    | Some _ => Some (inl ENOTDIR, w)
    | None => Some (inl ENOENT, w)
    end).

Definition sys_fstat (fd : Z) : sys (answer node) :=
  syscall (fun w =>
    match fds w !! fd with
    | Some (ODirectory id, _) => Some (inr (id, Directory), w)
    | Some _ => Some (inr ((0, fd), SocketNode), w)
    | None => Some (inl EBADF, w)
    end).

Definition sys_stat (path : bytes) : sys (answer node) :=
  syscall (fun w =>
    match resolved (outside w) !! path with
    | Some n => Some (inr n, w)
    | None => Some (inl ENOENT, w)
    end).

(** [fstatat(..., AT_SYMLINK_NOFOLLOW)]. *)
Definition sys_fstatat (fd : Z) (name : bytes) : sys (answer node) :=
  syscall (fun w =>
    match fds w !! fd with
    | Some (ODirectory id, _) =>
      match entries (outside w) !! (id, name) with
      | Some n => Some (inr n, w)
      | None => Some (inl ENOENT, w)
      end
    | Some _ => Some (inl ENOTDIR, w)
    | None => Some (inl EBADF, w)
    end).

(** [unlinkat]; what was removed is recorded. *)
Definition sys_unlinkat (fd : Z) (name : bytes) : sys (answer unit) :=
  syscall (fun w =>
    match fds w !! fd with
    | Some (ODirectory id, _) =>
      let o := outside w in
      Some (match entries o !! (id, name) with Some _ => inr tt | None => inl ENOENT end,
            mk_World (set_entries (delete (id, name) (entries o)) o) (fds w) (ticks w)
              (bad_closes w) (unlinked w ++ [(id, name, entries o !! (id, name))]))
    | Some _ => Some (inl ENOTDIR, w)
    | None => Some (inl EBADF, w)
    end).

Definition sys_socket (cloexec : bool) : sys (answer Z) :=
  syscall (fun w =>
    let fd := fresh_fd (fds w) in
    Some (inr fd, set_fds (<[fd := (OSocket, cloexec)]> (fds w)) w)).

(** [fcntl(F_GETFD)] and [fcntl(F_SETFD, flags | FD_CLOEXEC)]. *)
Definition sys_getfd (fd : Z) : sys (answer bool) :=
  syscall (fun w => match fds w !! fd with
                    | Some (_, flag) => Some (inr flag, w)
                    | None => Some (inl EBADF, w)
                    end).
Definition sys_set_cloexec (fd : Z) : sys (answer unit) :=
  syscall (fun w => match fds w !! fd with
                    | Some (o, _) => Some (inr tt, set_fds (<[fd := (o, true)]> (fds w)) w)
                    | None => Some (inl EBADF, w)
                    end).

(** The node [bind] makes has an identity that no entry has. *)
Definition last_inode (m : gmap (identity * bytes) node) : Z :=
  foldr Z.max 0 ((fun p => p.2.1.2) <$> map_to_list m).
Definition fresh_node (m : gmap (identity * bytes) node) : identity := (0, last_inode m + 1).

(** [bind] follows the directory part of the pathname. *)
Definition sys_bind_unix (fd : Z) (parent leaf : bytes) : sys (answer unit) :=
  syscall (fun w =>
    let o := outside w in
    match resolved o !! parent with
    | Some (id, Directory) =>
      match entries o !! (id, leaf) with
      | Some _ => Some (inl EADDRINUSE, w)
      | None =>
        Some (inr tt, set_outside
          (set_entries (<[(id, leaf) := (fresh_node (entries o), SocketNode)]> (entries o)) o) w)
      end
    | Some _ => Some (inl ENOTDIR, w)
    | None => Some (inl ENOENT, w)
    end).

Definition sys_listen (fd backlog : Z) : sys (answer unit) :=
  syscall (fun w => match fds w !! fd with
                    | Some (_, flag) =>
                      Some (inr tt, set_fds (<[fd := (OListener backlog, flag)]> (fds w)) w)
                    | None => Some (inl EBADF, w)
                    end).

(** [connect]: someone listens there, with this user. *)
Definition sys_connect (fd : Z) (listening : option Z) : sys (answer unit) :=
  syscall (fun w => match fds w !! fd, listening with
                    | Some (_, flag), Some user =>
                      Some (inr tt, set_fds (<[fd := (OStream user, flag)]> (fds w)) w)
                    | _, _ => Some (inl ENOENT, w)
                    end).

(** [accept] takes the first waiting peer of a listener, and waits when there is none. *)
Definition sys_accept (listener : Z) (cloexec : bool) : sys (answer Z) :=
  syscall (fun w =>
    match fds w !! listener with
    | Some (OListener _, _) =>
      match pending (outside w) with
      | [] => None
      | user :: rest =>
        let fd := fresh_fd (fds w) in
        Some (inr fd, mk_World (set_pending_peers rest (outside w))
                        (<[fd := (OStream user, cloexec)]> (fds w)) (ticks w) (bad_closes w)
                        (unlinked w))
      end
    | Some _ => Some (inl EINVAL, w)
    | None => Some (inl EBADF, w)
    end).

(** [getsockopt(SO_PEERCRED)]. *)
Definition sys_peer_user (fd : Z) : sys (answer Z) :=
  syscall (fun w => match fds w !! fd with
                    | Some (OStream user, _) => Some (inr user, w)
                    | _ => Some (inl EBADF, w)
                    end).

Definition sys_close (fd : Z) : sys unit :=
  fun w => if bool_decide (is_Some (fds w !! fd))
           then Some (tt, set_fds (delete fd (fds w)) w)
           else Some (tt, mk_World (outside w) (fds w) (ticks w) (S (bad_closes w)) (unlinked w)).

(** [do ... while (result < 0 && errno == EINTR)]. *)
Fixpoint retry_fuel {A} (fuel : nat) (call : sys (answer A)) : sys (answer A) :=
  match fuel with
  | O => fun _ => None
  | S fuel' =>
    a ← call;
    match a with
    | inl e => if e =? EINTR then retry_fuel fuel' call else mret (inl e)
    | inr _ => mret a
    end
  end.

(** Every interruption uses up a tick. *)
Definition retry {A} (call : sys (answer A)) : sys (answer A) :=
  fun w => retry_fuel (S (length (ticks w))) call w.
End Calls.

(** ** Facts *)

Lemma fresh_fd_spec f : 0 <= fresh_fd f /\ f !! fresh_fd f = None.
Proof.
  assert (forall l : list Z, -1 <= foldr Z.max (-1) l /\ forall x, x ∈ l -> x <= foldr Z.max (-1) l)
    as Hl.
  { induction l as [|y l [IH1 IH2]]; cbn; (split; [lia|]); intros x Hx.
    - by apply not_elem_of_nil in Hx.
    - apply elem_of_cons in Hx as [->|Hx]; [lia|]. specialize (IH2 x Hx). lia. }
  unfold fresh_fd. destruct (Hl (map_to_list f).*1) as [H1 H2]. split; [lia|].
  destruct (f !! _) as [o|] eqn:Hf; [|done]. exfalso.
  apply elem_of_map_to_list in Hf. specialize (H2 _ (list_elem_of_fmap_2 fst _ _ Hf)). cbn in H2. lia.
Qed.

Lemma fresh_node_spec m key n : m !! key = Some n -> n.1 <> fresh_node m.
Proof.
  assert (forall l : list Z, forall x, x ∈ l -> x <= foldr Z.max 0 l) as Hl.
  { induction l as [|y l IH]; cbn; intros x Hx; [by apply not_elem_of_nil in Hx|].
    apply elem_of_cons in Hx as [->|Hx]; [lia|]. specialize (IH x Hx). lia. }
  intros Hn Heq. apply elem_of_map_to_list in Hn.
  destruct n as [[dev ino] k]. unfold fresh_node in Heq. injection Heq as _ Hi.
  assert (ino <= last_inode m); [|lia].
  apply Hl, list_elem_of_fmap. by exists (key, ((dev, ino), k)).
Qed.
