(* ===== verification/UnixSocket.v ===== *)
(** Local sockets ([src/lib/ipc/unix_socket.cpp]): descriptors with a single owner, the
    guard that removes the daemon's own socket node and no other, creating the listener,
    connecting, and accepting peers of the same user.  Linux is the platform modelled:
    the blocks for other systems are compiled out there.

    Destructors are written out at every return; a [UniqueDescriptor] is its number. *)
From S2P Require Import Prelude Kernel Posix.

(** [UniqueDescriptor::reset]: closes what is owned and owns [descriptor] instead. *)
Definition reset (owned descriptor : Z) : sys Z :=
  _ ← (if 0 <=? owned then sys_close owned else mret tt);
  mret descriptor.

(** [UniqueDescriptor::release]: what is handed over, and what is left. *)
Definition release_descriptor (owned : Z) : Z * Z := (owned, -1).

(** [operator=(UniqueDescriptor&&)] between two objects: the new values of both. *)
Definition move_descriptor (this other : Z) : sys (Z * Z) :=
  let '(taken, rest) := release_descriptor other in
  this' ← reset this taken;
  mret (this', rest).

Definition destroy_descriptor (owned : Z) : sys unit :=
  _ ← reset owned (-1);
  mret tt.

(** ** The guard of the socket node *)

Module NodeState.
Inductive t := Empty | Prepared | Armed | Consumed.
#[global] Instance eq_dec : EqDecision t.
Proof. solve_decision. Defined.
End NodeState.

(** [SocketNodeGuard]. *)
Record SocketNodeGuard := mk_SocketNodeGuard {
  parent_directory : Z;
  parent_path : bytes;
  leaf_name : bytes;
  parent_identity : identity;
  node_identity : identity;
  node_state : NodeState.t;
}.

Definition empty_guard : SocketNodeGuard :=
  mk_SocketNodeGuard (-1) [] [] (0, 0) (0, 0) NodeState.Empty.

Definition set_node_state (s : NodeState.t) (g : SocketNodeGuard) : SocketNodeGuard :=
  mk_SocketNodeGuard (parent_directory g) (parent_path g) (leaf_name g) (parent_identity g)
    (node_identity g) s.

(** The constructor; [node_identity_] starts at zero. *)
Definition prepare_guard (directory : Z) (parent leaf : bytes) (id : identity) : SocketNodeGuard :=
  mk_SocketNodeGuard directory parent leaf id (0, 0)
    (if (0 <=? directory) && negb (bool_decide (parent = [])) && negb (bool_decide (leaf = []))
     then NodeState.Prepared else NodeState.Empty).

Definition arm (id : identity) (g : SocketNodeGuard) : SocketNodeGuard :=
  if bool_decide (node_state g = NodeState.Prepared)
  then mk_SocketNodeGuard (parent_directory g) (parent_path g) (leaf_name g)
         (parent_identity g) id NodeState.Armed
  else g.

Definition abandon_unverified_bind (g : SocketNodeGuard) : SocketNodeGuard :=
  if bool_decide (node_state g = NodeState.Prepared)
  then set_node_state NodeState.Consumed g else g.

Section UnixSocket.
Context `{EC : ErrorCodes} {P : Posix}.

(** [errno_status]. *)
Definition errno_status (action : bytes) (e : Z) : Status :=
  failure Internal (action ++ lit ": " ++ strerror e).

(** [same_identity]. *)
Definition same_identity (state id : identity) : bool := bool_decide (state = id).

(** [parent_path_matches]. *)
Definition parent_path_matches (path : bytes) (id : identity) : sys bool :=
  st ← sys_stat path;
  mret (match st with
        | inr (current, kind) => bool_decide (kind = Directory) && same_identity current id
        | inl _ => false
        end).

(** [SocketNodeGuard::remove]. *)
Definition remove (g : SocketNodeGuard) : sys SocketNodeGuard :=
  let g' := set_node_state NodeState.Consumed g in
  if negb (bool_decide (node_state g = NodeState.Armed)) || (parent_directory g <? 0)
  then mret g'
  else
    fixed ← sys_fstat (parent_directory g);
    match fixed with
    | inr (id, Directory) =>
      if negb (same_identity id (parent_identity g)) then mret g'
      else
        same ← parent_path_matches (parent_path g) (parent_identity g);
        if negb same then mret g'
        else
          current ← sys_fstatat (parent_directory g) (leaf_name g);
          match current with
          | inr (id, SocketNode) =>
            if negb (same_identity id (node_identity g)) then mret g'
            else
              _ ← sys_unlinkat (parent_directory g) (leaf_name g);
              mret g'
          | _ => mret g'
          end
    | _ => mret g'
    end.

(** The destructor: [remove], then the member [parent_directory_]. *)
Definition destroy_guard (g : SocketNodeGuard) : sys unit :=
  g' ← remove g;
  destroy_descriptor (parent_directory g').

(** [operator=(SocketNodeGuard&&)] between two objects: the new values of both. *)
Definition move_guard (this other : SocketNodeGuard) : sys (SocketNodeGuard * SocketNodeGuard) :=
  this ← remove this;
  '(directory, rest) ← move_descriptor (parent_directory this) (parent_directory other);
  mret (mk_SocketNodeGuard directory (parent_path other) (leaf_name other)
          (parent_identity other) (node_identity other) (node_state other),
        mk_SocketNodeGuard rest [] [] (parent_identity other) (node_identity other)
          NodeState.Empty).

(** The move constructor: the new object, and what is left of the other. *)
Definition move_construct_guard (other : SocketNodeGuard) :
    sys (SocketNodeGuard * SocketNodeGuard) :=
  move_guard empty_guard other.

(** ** Paths *)

(** [validate_unix_socket_path]. *)
Definition validate_unix_socket_path (path : bytes) : Status :=
  if bool_decide (path = []) || (sun_path_size <=? zlen path) || bool_decide (0 ∈ path)
  then failure InvalidArgument (lit "Unix-domain socket path is invalid")
  else success.

(** [socket_address]: the address holds the path itself. *)
Definition socket_address (path : bytes) : Result bytes :=
  let status := validate_unix_socket_path path in
  if status_ok status then ROk path else RErr status.

Definition slash : Z := 47.

(** [find_last_of('/')]. *)
Fixpoint find_last_slash (path : bytes) : option nat :=
  match path with
  | [] => None
  | c :: path' =>
    match find_last_slash path' with
    | Some i => Some (S i)
    | None => if c =? slash then Some O else None
    end
  end.

(** [split_socket_path]: the parent path and the leaf. *)
Definition split_socket_path (path : bytes) : Result (bytes * bytes) :=
  let '(parent, leaf) :=
    match find_last_slash path with
    | None => (lit ".", path)
    | Some i => (match i with O => lit "/" | _ => take i path end, drop (S i) path)
    end in
  if bool_decide (leaf = []) || bool_decide (leaf = lit ".") || bool_decide (leaf = lit "..")
  then RErr (failure InvalidArgument (lit "Unix-domain socket leaf is invalid"))
  else ROk (parent, leaf).

(** ** Streams *)

(** [set_close_on_exec]; the flag of a stream is its only one. *)
Definition set_close_on_exec (fd : Z) : sys Status :=
  flags ← retry (sys_getfd fd);
  match flags with
  | inl e => mret (errno_status (lit "could not read local socket descriptor flags") e)
  | inr _ =>
    r ← retry (sys_set_cloexec fd);
    mret (match r with
          | inr _ => success
          | inl e => errno_status (lit "could not set local socket close-on-exec") e
          end)
  end.

(** The common end of [create_stream_socket] and [accept_stream]. *)
Definition own_stream (action : bytes) (plain : answer Z) : sys (Result Z) :=
  match plain with
  | inl e => mret (RErr (errno_status action e))
  | inr fd =>
    status ← set_close_on_exec fd;
    if status_ok status then mret (ROk fd)
    else _ ← destroy_descriptor fd; mret (RErr status)
  end.

Definition create_stream_socket (action : bytes) : sys (Result Z) :=
  flagged ← retry (sys_socket true);
  match flagged with
  | inr fd => mret (ROk fd)
  | inl e =>
    if negb (e =? EINVAL) && negb (e =? EPROTONOSUPPORT) then mret (RErr (errno_status action e))
    else plain ← retry (sys_socket false); own_stream action plain
  end.

Definition accept_stream (listener : Z) : sys (Result Z) :=
  let action := lit "local accept failed" in
  flagged ← retry (sys_accept listener true);
  match flagged with
  | inr fd => mret (ROk fd)
  | inl e =>
    if negb (e =? ENOSYS) && negb (e =? EINVAL) then mret (RErr (errno_status action e))
    else plain ← retry (sys_accept listener false); own_stream action plain
  end.

(** [prepare_stream]: [configure_no_sigpipe] is empty on Linux. *)
Definition prepare_stream (fd : Z) : sys (Result Z) := mret (ROk fd).

(** [connect_unix_socket]; [listening] is the user whose socket is at the address. *)
Definition connect_unix_socket (path : bytes) (listening : option Z) : sys (Result Z) :=
  match socket_address path with
  | RErr status => mret (RErr status)
  | ROk address =>
    created ← create_stream_socket (lit "could not create local socket");
    match created with
    | RErr status => mret (RErr status)
    | ROk fd =>
      prepared ← prepare_stream fd;
      match prepared with
      | RErr status => mret (RErr status)
      | ROk fd =>
        r ← sys_connect fd listening;
        match r with
        | inr _ => mret (ROk fd)
        | inl e =>
          _ ← destroy_descriptor fd;
          mret (RErr (errno_status (lit "could not connect local socket") e))
        end
      end
    end
  end.

(** ** The listener *)

(** The part of [create_unix_listener_impl] after the guard is prepared; [socket_node]
    is destroyed after [descriptor].  The kernel resolves the address as
    [split_socket_path] splits it. *)
Definition bind_listener (backlog : Z) (g : SocketNodeGuard) :
    sys (Result (Z * SocketNodeGuard)) :=
  let fail (g : SocketNodeGuard) (status : Status) : sys (Result (Z * SocketNodeGuard)) :=
    _ ← destroy_guard g; mret (RErr status) in
  created ← create_stream_socket (lit "could not create listener");
  match created with
  | RErr status => fail g status
  | ROk fd =>
    let fail_open g status := _ ← destroy_descriptor fd; fail g status in
    bound ← sys_bind_unix fd (parent_path g) (leaf_name g);
    match bound with
    | inl e => fail_open g (errno_status (lit "could not bind local socket") e)
    | inr _ =>
      st ← sys_fstatat (parent_directory g) (leaf_name g);
      proved ← (match st with
                | inr (id, SocketNode) =>
                  same ← parent_path_matches (parent_path g) (parent_identity g);
                  mret (if same : bool then Some id else None)
                | _ => mret None
                end);
      match proved with
      | None =>
        fail_open (abandon_unverified_bind g)
          (failure Internal (lit "could not prove the bound socket pathname generation"))
      | Some id =>
        let g := arm id g in
        r ← sys_listen fd backlog;
        match r with
        | inl e => fail_open g (errno_status (lit "could not listen locally") e)
        | inr _ => mret (ROk (fd, g))
        end
      end
    end
  end.

(** [create_unix_listener]. *)
Definition create_unix_listener (path : bytes) (backlog : Z) :
    sys (Result (Z * SocketNodeGuard)) :=
  match socket_address path with
  | RErr status => mret (RErr status)
  | ROk address =>
    if backlog <=? 0
    then mret (RErr (failure InvalidArgument
                 (lit "Unix-domain listener backlog must be positive")))
    else
      match split_socket_path path with
      | RErr status => mret (RErr status)
      | ROk (parent, leaf) =>
        opened ← sys_open_directory parent;
        match opened with
        | inl e => mret (RErr (errno_status (lit "could not open socket parent directory") e))
        | inr directory =>
          let fail status : sys (Result (Z * SocketNodeGuard)) :=
            _ ← destroy_descriptor directory; mret (RErr status) in
          fixed ← sys_fstat directory;
          match fixed with
          | inl e => fail (errno_status (lit "could not inspect socket parent directory") e)
          | inr (id, kind) =>
            if negb (bool_decide (kind = Directory))
            then fail (failure InvalidArgument (lit "socket parent is not a directory"))
            else
              same ← parent_path_matches parent id;
              if negb same
              then fail (failure InvalidArgument
                           (lit "socket parent directory identity is not stable"))
              else
                existing ← sys_fstatat directory leaf;
                match existing with
                | inr _ => fail (failure InvalidArgument (lit "listener path already exists"))
                | inl e =>
                  if negb (e =? ENOENT)
                  then fail (errno_status (lit "could not inspect socket path") e)
                  else bind_listener backlog (prepare_guard directory parent leaf id)
                end
          end
        end
      end
  end.

(** ** Accepting *)

Inductive AcceptDisposition := Accepted | PeerRejected | FatalFailure.

Record SameUserAcceptResult := mk_SameUserAcceptResult {
  disposition : AcceptDisposition;
  accepted_descriptor : Z;
  accept_status : Status;
}.

(** [verify_same_user], with the daemon's [geteuid()]. *)
Definition verify_same_user (euid fd : Z) : sys (AcceptDisposition * Status) :=
  peer ← sys_peer_user fd;
  mret (match peer with
        | inl e => (FatalFailure, errno_status (lit "could not read local peer identity") e)
        | inr user =>
          if negb (user =? euid)
          then (PeerRejected, failure InvalidArgument
                                (lit "local peer uid does not match daemon uid"))
          else (Accepted, success)
        end).

(** [accept_same_user]. *)
Definition accept_same_user (euid listener : Z) : sys SameUserAcceptResult :=
  accepted ← accept_stream listener;
  match accepted with
  | RErr status => mret (mk_SameUserAcceptResult FatalFailure (-1) status)
  | ROk fd =>
    prepared ← prepare_stream fd;
    match prepared with
    | RErr status => mret (mk_SameUserAcceptResult FatalFailure (-1) status)
    | ROk fd =>
      peer ← verify_same_user euid fd;
      match peer with
      | (Accepted, _) => mret (mk_SameUserAcceptResult Accepted fd success)
      | (d, status) =>
        _ ← destroy_descriptor fd;
        mret (mk_SameUserAcceptResult d (-1) status)
      end
    end
  end.
End UnixSocket.
