(* ===== verification/UnixSocketSpec.v ===== *)
(** What the local sockets promise under every interference and every refused call:
    descriptors are owned exactly once, the guard removes only the daemon's own node, a
    listener never replaces an entry, and only peers of the same user are accepted. *)
From S2P Require Import Prelude Kernel Posix UnixSocket.

(** ** A program logic for system calls *)

(** From a state of [Pre] the computation ends in a state of [Post], or [blocks]. *)
Definition runs {A} (blocks : Prop) (Pre : World -> Prop) (m : sys A)
    (Post : A -> World -> Prop) : Prop :=
  forall w, Pre w -> match m w with Some (a, w') => Post a w' | None => blocks end.

Lemma runs_ret {A} B (P : World -> Prop) (a : A) (Q : A -> World -> Prop) :
  (forall w, P w -> Q a w) -> runs B P (mret a) Q.
Proof. intros HQ w Hw. by apply HQ. Qed.

Lemma runs_bind {A C} B P (m : sys A) (k : A -> sys C) Q R :
  runs B P m Q -> (forall a, runs B (Q a) (k a) R) -> runs B P (m ≫= k) R.
Proof.
  intros Hm Hk w Hw. cbv [mbind sys_bind]. specialize (Hm w Hw).
  destruct (m w) as [[a w']|]; [by apply Hk|done].
Qed.

Lemma runs_weaken {A} B (P P' : World -> Prop) (m : sys A) Q (Q' : A -> World -> Prop) :
  runs B P m Q -> (forall w, P' w -> P w) -> (forall a w, Q a w -> Q' a w) -> runs B P' m Q'.
Proof.
  intros Hm HP HQ w Hw. specialize (Hm w (HP w Hw)). destruct (m w) as [[a w']|]; auto.
Qed.

Lemma runs_pure {A} B (P : World -> Prop) (φ : Prop) (m : sys A) Q :
  (φ -> runs B P m Q) -> runs B (fun w => φ /\ P w) m Q.
Proof. intros Hm w [Hφ Hw]. by apply Hm. Qed.

(** An interrupted call consumed a tick, so the loop ends. *)
Lemma runs_retry {A} `{Posix} B (P : World -> Prop) (call : sys (answer A)) Q :
  (forall n, runs B (fun w => P w /\ length (ticks w) = n) call
     (fun a w => Q a w /\ (a = inl EINTR -> P w /\ (length (ticks w) < n)%nat))) ->
  runs B P (retry call) Q.
Proof.
  intros Hc w Hw. unfold retry.
  assert (forall fuel w, P w -> (length (ticks w) < fuel)%nat ->
    match retry_fuel fuel call w with Some (a, w') => Q a w' | None => B end) as Hloop; [|apply Hloop; [done|lia]].
  clear w Hw. induction fuel as [|fuel IH]; intros w Hw Hlt; [lia|].
  cbn [retry_fuel]. cbv [mbind sys_bind]. specialize (Hc _ w (conj Hw eq_refl)).
  destruct (call w) as [[[e|a] w']|]; [|by apply Hc|done]. destruct Hc as [HQ Hi].
  destruct (Z.eqb_spec e EINTR) as [->|]; [|done]. destruct (Hi eq_refl). apply IH; [done|lia].
Qed.

(** ** Descriptors *)

(** The process holds exactly these descriptors, and has closed no other. *)
Definition holding (F : gmap Z (object * bool)) (n : nat) (w : World) : Prop :=
  fds w = F /\ bad_closes w = n.

Section Calls.
Context {P : Posix}.

(** A call that leaves the descriptors alone. *)
Lemma runs_call {A} B F n (act : World -> option (answer A * World)) (Q : answer A -> World -> Prop) :
  (forall e w, holding F n w -> Q (inl e) w) ->
  (forall w, holding F n w -> match act w with Some (a, w') => Q a w' | None => B end) ->
  runs B (holding F n) (syscall act) Q.
Proof.
  intros Hr Ha w [Hf Hn]. unfold syscall. destruct (ticks w) as [|t ts]; [by apply Ha|].
  destruct (refused t); [by apply Hr|by apply Ha].
Qed.

Lemma runs_stat B F n path : runs B (holding F n) (sys_stat path) (fun _ => holding F n).
Proof. apply runs_call; [done|]. intros w Hw. by destruct (resolved (outside w) !! path). Qed.

Lemma runs_fstat B F n fd :
  runs B (holding F n) (sys_fstat fd) (fun a w => holding F n w /\
    forall id k, a = inr (id, k) -> k = Directory -> exists b, F !! fd = Some (ODirectory id, b)).
Proof.
  apply runs_call; [done|]. intros w Hw. pose proof Hw as [Hf _]. rewrite Hf.
  destruct (F !! fd) as [[[id| | |] b]|]; (split; [exact Hw|]); intros i k [= <- <-] Hk;
    first [discriminate Hk|by exists b].
Qed.

Lemma runs_fstatat B F n fd name : runs B (holding F n) (sys_fstatat fd name) (fun _ => holding F n).
Proof.
  apply runs_call; [done|]. intros w Hw. destruct (fds w !! fd) as [[[id| | |] b]|]; try done.
  by destruct (entries (outside w) !! (id, name)).
Qed.

Lemma runs_unlinkat B F n fd name : runs B (holding F n) (sys_unlinkat fd name) (fun _ => holding F n).
Proof.
  apply runs_call; [done|]. intros w Hw. by destruct (fds w !! fd) as [[[id| | |] b]|].
Qed.

Lemma runs_bind_unix B F n fd parent leaf :
  runs B (holding F n) (sys_bind_unix fd parent leaf) (fun _ => holding F n).
Proof.
  apply runs_call; [done|]. intros w Hw. cbn zeta. destruct (resolved (outside w) !! parent) as [[id [| |]]|]; try done.
  by destruct (entries (outside w) !! (id, leaf)).
Qed.

(** A call that opens a descriptor. *)
Definition opens (F : gmap Z (object * bool)) (n : nat) (o : object -> Prop) (flag : bool -> Prop)
    (a : answer Z) (w : World) : Prop :=
  match a with
  | inl _ => holding F n w
  | inr fd => exists x b, o x /\ flag b /\ 0 <= fd /\ F !! fd = None /\
      holding (<[fd := (x, b)]> F) n w
  end.

Lemma runs_open_directory B F n path :
  runs B (holding F n) (sys_open_directory path)
    (opens F n (fun x => exists id, x = ODirectory id) (fun b => b = true)).
Proof.
  apply runs_call; [done|]. intros w Hw. destruct (resolved (outside w) !! path) as [[id [| |]]|]; try done.
  destruct Hw as [Hf Hn]. destruct (fresh_fd_spec F) as [H0 Hfr]. rewrite Hf.
  exists (ODirectory id), true. split_and!; try done. by exists id.
Qed.

Lemma runs_socket B F n flag :
  runs B (holding F n) (sys_socket flag) (opens F n (fun x => x = OSocket) (fun b => b = flag)).
Proof.
  apply runs_call; [done|]. intros w [Hf Hn]. destruct (fresh_fd_spec F) as [H0 Hfr]. rewrite Hf.
  exists OSocket, flag. by split_and!.
Qed.

Lemma runs_accept F n listener flag :
  runs True (holding F n) (sys_accept listener flag)
    (opens F n (fun x => exists user, x = OStream user) (fun b => b = flag)).
Proof.
  apply runs_call; [done|]. intros w [Hf Hn].
  destruct (fds w !! listener) as [[[id| |b|peer] cl]|]; try done.
  destruct (pending (outside w)) as [|user rest]; [done|].
  destruct (fresh_fd_spec F) as [H0 Hfr]. rewrite Hf. exists (OStream user), flag.
  split_and!; try done. by exists user.
Qed.

Lemma runs_listen B F n fd backlog x b :
  F !! fd = Some (x, b) ->
  runs B (holding F n) (sys_listen fd backlog) (fun a w => match a with
    | inl _ => holding F n w
    | inr _ => holding (<[fd := (OListener backlog, b)]> F) n w
    end).
Proof. intros Hfd. apply runs_call; [done|]. intros w [Hf Hn]. by rewrite Hf, Hfd. Qed.

Lemma runs_connect B F n fd listening x b :
  F !! fd = Some (x, b) ->
  runs B (holding F n) (sys_connect fd listening) (fun a w => match a with
    | inl _ => holding F n w
    | inr _ => exists user, listening = Some user /\ holding (<[fd := (OStream user, b)]> F) n w
    end).
Proof.
  intros Hfd. apply runs_call; [done|]. intros w [Hf Hn]. rewrite Hf, Hfd.
  destruct listening as [user|]; [by exists user|done].
Qed.

Lemma runs_peer_user B F n fd :
  runs B (holding F n) (sys_peer_user fd) (fun a w => holding F n w /\
    forall user, a = inr user -> exists b, F !! fd = Some (OStream user, b)).
Proof.
  apply runs_call; [done|]. intros w Hw. pose proof Hw as [Hf _]. rewrite Hf.
  destruct (F !! fd) as [[[| | |user] b]|]; (split; [exact Hw|]); intros u [= <-]. by exists b.
Qed.

(** Destroying a [UniqueDescriptor] closes what it owns, once. *)
Lemma runs_destroy B F n fd :
  0 <= fd -> is_Some (F !! fd) ->
  runs B (holding F n) (destroy_descriptor fd) (fun _ => holding (delete fd F) n).
Proof.
  intros H0 Hfd w [Hf Hn]. unfold destroy_descriptor, reset. cbv [mbind sys_bind mret sys_ret].
  rewrite (proj2 (Z.leb_le 0 fd) H0). unfold sys_close. rewrite Hf.
  rewrite bool_decide_eq_true_2 by done. by split.
Qed.
End Calls.

Section Sockets.
Context `{HE : ErrorCodesLaws} {P : Posix}.

Lemma errno_status_fails action e : status_ok (errno_status action e) = false.
Proof. apply Z.eqb_neq. cbn. codes. Qed.

(** A retried call; it never reports an interruption by itself. *)
Lemma runs_retry_call {A} B F n (act : World -> option (answer A * World))
    (Q : answer A -> World -> Prop) :
  (forall e w, holding F n w -> Q (inl e) w) ->
  (forall w, holding F n w ->
     match act w with Some (a, w') => Q a w' /\ a <> inl EINTR | None => B end) ->
  runs B (holding F n) (retry (syscall act)) Q.
Proof.
  intros Hr Ha. apply runs_retry. intros m w [Hw Hm]. unfold syscall.
  assert (forall w, holding F n w -> match act w with
    | Some (a, w') => Q a w' /\ (a = inl EINTR -> holding F n w' /\ (length (ticks w') < m)%nat)
    | None => B end) as Hact.
  { intros w1 H1. specialize (Ha w1 H1). destruct (act w1) as [[a w']|]; [|done].
    destruct Ha as [HQ Hne]. split; [done|]. intros ->. by destruct Hne. }
  destruct (ticks w) as [|t ts] eqn:Ht; [by apply Hact|]. destruct Hw as [Hf Hn].
  destruct (refused t); [|by apply Hact]. split; [by apply Hr|]. intros _. split; [done|].
  cbn in *. lia.
Qed.

Lemma runs_set_close_on_exec B F n fd x b :
  F !! fd = Some (x, b) ->
  runs B (holding F n) (set_close_on_exec fd) (fun st w =>
    if status_ok st then holding (<[fd := (x, true)]> F) n w else holding F n w).
Proof.
  intros Hfd. unfold set_close_on_exec. eapply runs_bind.
  { apply (runs_retry_call B F n _ (fun _ => holding F n)); [done|].
    intros w Hw. pose proof Hw as [Hf _]. by rewrite Hf, Hfd. }
  intros [e|flag]; cbn beta iota.
  { apply runs_ret. intros w Hw.
    by rewrite errno_status_fails. }
  eapply runs_bind.
  { apply (runs_retry_call B F n _ (fun a w => match a with
      | inl _ => holding F n w | inr _ => holding (<[fd := (x, true)]> F) n w end)); [done|].
    intros w [Hf Hn]. rewrite Hf, Hfd. done. }
  intros [e|[]]; cbn beta iota; apply runs_ret.
  - intros w Hw. by rewrite errno_status_fails.
  - intros w Hw. unfold status_ok. cbn. by rewrite Z.eqb_refl.
Qed.

(** One more stream, close-on-exec, or the same descriptors as before. *)
Definition stream_post (o : object -> Prop) (F : gmap Z (object * bool)) (n : nat)
    (r : Result Z) (w : World) : Prop :=
  match r with
  | ROk fd => exists x, o x /\ 0 <= fd /\ F !! fd = None /\ holding (<[fd := (x, true)]> F) n w
  | RErr st => status_ok st = false /\ holding F n w
  end.

Lemma runs_own_stream B F n action o fl a :
  runs B (opens F n o fl a) (own_stream action a) (stream_post o F n).
Proof.
  destruct a as [e|fd]; cbn [own_stream opens].
  - apply runs_ret. intros w Hw. split; [apply errno_status_fails|done].
  - intros w (x & b & Ho & _ & H0 & Hfr & Hw). revert w Hw.
    change (runs B (holding (<[fd := (x, b)]> F) n)
      (status ← set_close_on_exec fd; if status_ok status then mret (ROk fd)
       else _ ← destroy_descriptor fd; mret (RErr status)) (stream_post o F n)).
    eapply runs_bind; [apply (runs_set_close_on_exec _ _ _ _ x b), lookup_insert_eq|].
    intros st. cbn beta. destruct (status_ok st) eqn:Hst.
    + apply runs_ret. intros w Hw. rewrite insert_insert_eq in Hw. by exists x.
    + eapply runs_bind; [apply runs_destroy; [done|by rewrite lookup_insert_eq]|].
      intros []. apply runs_ret. intros w Hw. rewrite delete_insert_id in Hw by done. by split.
Qed.

Lemma runs_create_stream_socket B F n action :
  runs B (holding F n) (create_stream_socket action) (stream_post (fun x => x = OSocket) F n).
Proof.
  assert (forall flag, runs B (holding F n) (retry (sys_socket flag))
    (opens F n (fun x => x = OSocket) (fun b => b = flag))) as Hsocket.
  { intros flag. apply runs_retry_call; [done|]. intros w [Hf Hn].
    destruct (fresh_fd_spec F) as [H0 Hfr]. rewrite Hf. split; [|done].
    exists OSocket, flag. by split_and!. }
  unfold create_stream_socket. eapply runs_bind; [apply Hsocket|]. intros [e|fd]; cbn beta iota.
  - destruct (_ && _).
    + apply runs_ret. intros w Hw. split; [apply errno_status_fails|done].
    + eapply runs_bind; [apply Hsocket|]. intros a. apply runs_own_stream.
  - apply runs_ret. intros w (x & b & Hx & -> & H0 & Hfr & Hw). by exists x.
Qed.

Lemma runs_accept_stream F n listener :
  runs True (holding F n) (accept_stream listener)
    (stream_post (fun x => exists user, x = OStream user) F n).
Proof.
  assert (forall flag, runs True (holding F n) (retry (sys_accept listener flag))
    (opens F n (fun x => exists user, x = OStream user) (fun b => b = flag))) as Haccept.
  { intros flag. apply runs_retry_call; [done|]. intros w [Hf Hn].
    destruct (fds w !! listener) as [[[id| |b|peer] cl]|] eqn:El;
      try (split; [done|]; intros [= Heq]; pose proof errno_distinct as [Hd _]%NoDup_cons;
           rewrite <-Heq in Hd; set_solver).
    destruct (pending (outside w)) as [|user rest]; [done|].
    destruct (fresh_fd_spec F) as [H0 Hfr]. rewrite Hf. split; [|done].
    exists (OStream user), flag. split_and!; try done. by exists user. }
  unfold accept_stream. eapply runs_bind; [apply Haccept|]. intros [e|fd]; cbn beta iota.
  - destruct (_ && _).
    + apply runs_ret. intros w Hw. split; [apply errno_status_fails|done].
    + eapply runs_bind; [apply Haccept|]. intros a. apply runs_own_stream.
  - apply runs_ret. intros w (x & b & Hx & -> & H0 & Hfr & Hw). by exists x.
Qed.

(** ** The guard *)

Lemma runs_parent_path_matches B F n path id :
  runs B (holding F n) (parent_path_matches path id) (fun _ => holding F n).
Proof. eapply runs_bind; [apply runs_stat|]. intros a. by apply runs_ret. Qed.

(** Whatever [remove] does, the guard is spent and the descriptors are as before. *)
Lemma runs_remove B F n g :
  runs B (holding F n) (remove g)
    (fun g' w => g' = set_node_state NodeState.Consumed g /\ holding F n w).
Proof.
  assert (forall m, m = set_node_state NodeState.Consumed g -> runs B (holding F n) (mret m)
    (fun g' w => g' = set_node_state NodeState.Consumed g /\ holding F n w)) as Hret
    by (intros m ->; by apply runs_ret).
  unfold remove. destruct (_ || _); [by apply Hret|].
  eapply runs_bind.
  { eapply runs_weaken; [apply runs_fstat|intros w Hw; exact Hw|intros a w [Hw _]; exact Hw]. }
  intros [e|[id [| |]]]; cbn beta iota; [by apply Hret| |by apply Hret..].
  destruct (negb _); [by apply Hret|]. eapply runs_bind; [apply runs_parent_path_matches|].
  intros same. cbn beta. destruct (negb same); [by apply Hret|].
  eapply runs_bind; [apply runs_fstatat|]. intros [e|[id' [| |]]]; cbn beta iota;
    try by apply Hret.
  destruct (negb _); [by apply Hret|]. eapply runs_bind; [apply runs_unlinkat|]. intros a.
  by apply Hret.
Qed.

(** Destroying a guard closes its directory. *)
Lemma runs_destroy_guard B F n g x :
  0 <= parent_directory g -> F !! parent_directory g = None ->
  runs B (holding (<[parent_directory g := x]> F) n) (destroy_guard g) (fun _ => holding F n).
Proof.
  intros H0 Hfr. unfold destroy_guard. eapply runs_bind; [apply runs_remove|]. intros g'.
  apply runs_pure. intros ->. cbn [parent_directory set_node_state].
  eapply runs_weaken; [apply runs_destroy; [done|]|intros w Hw; exact Hw|].
  - by rewrite lookup_insert_eq.
  - intros [] w Hw. cbn beta in Hw. by rewrite delete_insert_id in Hw.
Qed.

(** A failure that leaves the descriptors as they were. *)
Definition failed {A} (F : gmap Z (object * bool)) (n : nat) (r : Result A) (w : World) : Prop :=
  exists st, r = RErr st /\ status_ok st = false /\ holding F n w.

(** ** The listener *)

(** What a successful creation hands over. *)
Definition listening (backlog : Z) (F : gmap Z (object * bool)) (n : nat) (parent leaf : bytes)
    (r : Z * SocketNodeGuard) (w : World) : Prop :=
  let '(fd, g) := r in
  0 <= fd /\ 0 <= parent_directory g /\ F !! fd = None /\ F !! parent_directory g = None /\
  fd <> parent_directory g /\
  node_state g = NodeState.Armed /\ parent_path g = parent /\ leaf_name g = leaf /\
  holding (<[fd := (OListener backlog, true)]>
    (<[parent_directory g := (ODirectory (parent_identity g), true)]> F)) n w.

Definition listener_post (backlog : Z) (F : gmap Z (object * bool)) (n : nat)
    (parent leaf : bytes) (r : Result (Z * SocketNodeGuard)) (w : World) : Prop :=
  match r with
  | ROk made => listening backlog F n parent leaf made w
  | RErr st => status_ok st = false /\ holding F n w
  end.

(** A return that destroys the guard first. *)
Lemma runs_fail_guard B F n g x st backlog parent leaf :
  0 <= parent_directory g -> F !! parent_directory g = None -> status_ok st = false ->
  runs B (holding (<[parent_directory g := x]> F) n) (_ ← destroy_guard g; mret (RErr st))
    (listener_post backlog F n parent leaf).
Proof.
  intros H0 Hfr Hst. eapply runs_bind; [by apply runs_destroy_guard|]. intros []. by apply runs_ret.
Qed.

(** A return that destroys the stream and then the guard. *)
Lemma runs_fail_open B F n fd y g x st backlog parent leaf :
  0 <= fd -> <[parent_directory g := x]> F !! fd = None ->
  0 <= parent_directory g -> F !! parent_directory g = None -> status_ok st = false ->
  runs B (holding (<[fd := y]> (<[parent_directory g := x]> F)) n)
    (_ ← destroy_descriptor fd; _ ← destroy_guard g; mret (RErr st))
    (listener_post backlog F n parent leaf).
Proof.
  intros H0 Hfr H0' Hfr' Hst. eapply runs_bind.
  - apply runs_destroy; [done|]. by rewrite lookup_insert_eq.
  - intros []. cbn beta. rewrite delete_insert_id by done. by apply runs_fail_guard.
Qed.

Lemma runs_bind_listener B F n backlog directory parent leaf id :
  0 <= directory -> F !! directory = None -> parent <> [] -> leaf <> [] ->
  runs B (holding (<[directory := (ODirectory id, true)]> F) n)
    (bind_listener backlog (prepare_guard directory parent leaf id))
    (listener_post backlog F n parent leaf).
Proof.
  intros H0 Hfr Hp Hlf. unfold bind_listener. set (g := prepare_guard _ _ _ _).
  assert (node_state g = NodeState.Prepared) as Hst.
  { unfold g, prepare_guard. cbn. rewrite (proj2 (Z.leb_le 0 directory) H0).
    by rewrite !bool_decide_eq_false_2. }
  eapply runs_bind; [apply runs_create_stream_socket|]. intros [fd|st]; cbn beta iota.
  2: { apply runs_pure. intros Hf. by apply (runs_fail_guard B F n g). }
  intros w (x & -> & Hfd0 & Hfd & Hw). revert w Hw. cbn [stream_post].
  match goal with |- forall w, _ -> match ?m w with _ => _ end =>
    change (runs B (holding (<[fd:=(OSocket, true)]> (<[directory:=(ODirectory id, true)]> F)) n) m
      (listener_post backlog F n parent leaf)) end.
  assert (forall g' y st, parent_directory g' = directory -> status_ok st = false ->
    runs B (holding (<[fd := y]> (<[directory := (ODirectory id, true)]> F)) n)
      (_ ← destroy_descriptor fd; _ ← destroy_guard g'; mret (RErr st))
      (listener_post backlog F n parent leaf)) as Hfail.
  { intros g' y st <- Hf. by apply runs_fail_open. }
  eapply runs_bind; [apply runs_bind_unix|]. intros [e|_]; cbn beta iota.
  { apply Hfail; [done|]. apply errno_status_fails. }
  eapply runs_bind; [apply runs_fstatat|]. intros a. cbn beta.
  eapply runs_bind.
  { instantiate (1 := fun _ => holding _ n). destruct a as [e|[node [| |]]]; try by apply runs_ret.
    eapply runs_bind; [apply runs_parent_path_matches|]. intros same. by apply runs_ret. }
  intros [node|]; cbn beta iota.
  2: { apply Hfail; [unfold abandon_unverified_bind; by case_bool_decide|].
       apply failure_fails. known_code. }
  eapply runs_bind; [apply (runs_listen _ _ _ _ _ OSocket true), lookup_insert_eq|].
  unfold arm. rewrite bool_decide_eq_true_2 by done. intros [e|_]; cbn beta iota.
  { apply Hfail; [done|]. apply errno_status_fails. }
  apply runs_ret. intros w Hw. rewrite insert_insert_eq in Hw.
  assert (fd <> directory) as Hne.
  { intros ->. rewrite lookup_insert_eq in Hfd. done. }
  rewrite lookup_insert_ne in Hfd by done. by split_and!.
Qed.

(** *** Paths *)

Lemma find_last_slash_spec path :
  match find_last_slash path with
  | Some i => path !! i = Some slash /\ slash ∉ drop (S i) path
  | None => slash ∉ path
  end.
Proof.
  induction path as [|c path IH]; cbn; [apply not_elem_of_nil|].
  destruct (find_last_slash path) as [i|]; [exact IH|].
  destruct (Z.eqb_spec c slash) as [->|Hne]; [done|]. apply not_elem_of_cons. by split.
Qed.

(** The two parts are not empty and, joined, name the same entry. *)
Lemma split_socket_path_spec path parent leaf :
  split_socket_path path = ROk (parent, leaf) ->
  parent <> [] /\ leaf <> [] /\ (slash ∉ leaf) /\
  (path = leaf /\ parent = lit "." \/ path = parent ++ leaf /\ parent = lit "/" \/
   path = parent ++ (slash :: leaf)).
Proof.
  unfold split_socket_path. pose proof (find_last_slash_spec path) as Hs.
  destruct (find_last_slash path) as [i|].
  - destruct Hs as [Hi Hno]. pose proof (take_drop_middle path i slash Hi) as Hpath.
    destruct (_ || _) eqn:Hc; [done|]. intros [= <- <-].
    rewrite !orb_false_iff in Hc. destruct Hc as [[Hc%bool_decide_eq_false _] _].
    split_and!; [|done|done|].
    + destruct i; [done|]. destruct path; done.
    + destruct i; [right; left|right; right]; [|done]. split; [|done].
      destruct path; cbn in *; [done|]. by injection Hi as ->.
  - destruct (_ || _) eqn:Hc; [done|]. intros [= <- <-].
    rewrite !orb_false_iff in Hc. destruct Hc as [[Hc%bool_decide_eq_false _] _].
    split_and!; [done|done|done|by left].
Qed.

Lemma socket_address_status path : match socket_address path with
  | ROk address => address = path | RErr st => status_ok st = false end.
Proof. unfold socket_address. by destruct (status_ok _) eqn:H. Qed.

Lemma split_status path st : split_socket_path path = RErr st -> status_ok st = false.
Proof.
  unfold split_socket_path.
  match goal with |- (let '(_, _) := ?m in _) = _ -> _ => destruct m as [parent leaf] end.
  destruct (_ || _); [|done]. intros [= <-]. apply failure_fails. known_code.
Qed.

(** What [create_unix_listener] leaves behind, whatever happens. *)
Definition created (path : bytes) (backlog : Z) (F : gmap Z (object * bool)) (n : nat)
    (r : Result (Z * SocketNodeGuard)) (w : World) : Prop :=
  match r with
  | ROk made => exists parent leaf, split_socket_path path = ROk (parent, leaf) /\
      0 < backlog /\ listening backlog F n parent leaf made w
  | RErr st => status_ok st = false /\ holding F n w
  end.

Lemma runs_create_unix_listener B F n path backlog :
  runs B (holding F n) (create_unix_listener path backlog) (created path backlog F n).
Proof.
  unfold create_unix_listener. pose proof (socket_address_status path) as Hadr.
  destruct (socket_address path) as [address|st]; [|by apply runs_ret].
  destruct (Z.leb_spec backlog 0); [apply runs_ret; intros w Hw; split; [|done]; apply failure_fails; known_code|].
  destruct (split_socket_path path) as [[parent leaf]|st] eqn:Hsplit.
  2: { apply split_status in Hsplit. by apply runs_ret. }
  destruct (split_socket_path_spec _ _ _ Hsplit) as (Hp & Hlf & _ & _).
  eapply runs_bind; [apply runs_open_directory|]. intros [e|dir]; cbn beta iota.
  { apply runs_ret. intros w Hw. split; [apply errno_status_fails|done]. }
  intros w (x & b & [id ->] & -> & H0 & Hfr & Hw). revert w Hw.
  match goal with |- forall w, _ -> match ?m w with _ => _ end =>
    change (runs B (holding (<[dir:=(ODirectory id, true)]> F) n) m (created path backlog F n)) end.
  assert (forall st, status_ok st = false ->
    runs B (holding (<[dir := (ODirectory id, true)]> F) n)
      (_ ← destroy_descriptor dir; mret (RErr st)) (created path backlog F n)) as Hfail.
  { intros st Hst. eapply runs_bind; [apply runs_destroy; [done|by rewrite lookup_insert_eq]|].
    intros []. apply runs_ret. intros w Hw. cbn beta in Hw. rewrite delete_insert_id in Hw by done.
    by split. }
  eapply runs_bind; [apply runs_fstat|]. intros [e|[id' kind]]; cbn beta iota.
  { intros w [Hw _]. revert w Hw. apply Hfail, errno_status_fails. }
  intros w [Hw Hid]. destruct (bool_decide (kind = Directory)) eqn:Hk; cbn [negb].
  2: { revert w Hw Hid. intros w Hw _. revert w Hw. apply Hfail, failure_fails. known_code. }
  apply bool_decide_eq_true in Hk. destruct (Hid id' kind eq_refl Hk) as [b Hb].
  rewrite lookup_insert_eq in Hb. injection Hb as <- _. clear Hid. revert w Hw.
  match goal with |- forall w, _ -> match ?m w with _ => _ end =>
    change (runs B (holding (<[dir:=(ODirectory id, true)]> F) n) m (created path backlog F n)) end.
  eapply runs_bind; [apply runs_parent_path_matches|]. intros same. cbn beta.
  destruct same; cbn [negb]; [|apply Hfail, failure_fails; known_code].
  eapply runs_bind; [apply runs_fstatat|]. intros [e|nd]; cbn beta iota.
  2: { apply Hfail, failure_fails. known_code. }
  destruct (e =? ENOENT); cbn [negb]; [|apply Hfail, errno_status_fails].
  eapply runs_weaken; [by apply runs_bind_listener|intros w Hw; exact Hw|].
  intros [made|st] w Hw; [|exact Hw]. by exists parent, leaf.
Qed.

(** A listener owns exactly what it says, under every interference and whichever calls
    are refused: creating one always ends; a failure is typed and leaves the descriptors
    as they were; a success adds the listening stream and its parent directory, both
    close-on-exec, with an armed guard for the given pathname, and destroying both
    restores the descriptors.  Nothing is ever closed twice. *)
Theorem listener_owns_descriptors path backlog w :
  exists r w', create_unix_listener path backlog w = Some (r, w') /\
    created path backlog (fds w) (bad_closes w) r w' /\
    forall fd g, r = ROk (fd, g) ->
      exists w'', (_ ← destroy_descriptor fd; destroy_guard g) w' = Some (tt, w'') /\
        fds w'' = fds w /\ bad_closes w'' = bad_closes w.
Proof.
  pose proof (runs_create_unix_listener False (fds w) (bad_closes w) path backlog w
    (conj eq_refl eq_refl)) as Hc.
  destruct (create_unix_listener path backlog w) as [[r w']|]; [|done].
  exists r, w'. split; [done|]. split; [exact Hc|]. intros fd g ->.
  destruct Hc as (parent & leaf & _ & _ & H0 & H0' & Hfr & Hfr' & Hne & _ & _ & _ & Hw).
  assert (runs False
    (holding (<[fd := (OListener backlog, true)]> (<[parent_directory g :=
      (ODirectory (parent_identity g), true)]> (fds w))) (bad_closes w))
    (_ ← destroy_descriptor fd; destroy_guard g)
    (fun _ => holding (fds w) (bad_closes w))) as Hd.
  { eapply runs_bind; [apply runs_destroy; [done|by rewrite lookup_insert_eq]|]. intros [].
    cbn beta. rewrite delete_insert_id; [by apply runs_destroy_guard|].
    by rewrite lookup_insert_ne. }
  specialize (Hd w' Hw). destruct ((_ ← destroy_descriptor fd; destroy_guard g) w') as [[[] w'']|];
    [|done].
  exists w''. by destruct Hd.
Qed.

(** ** What the guard removes *)

(** The state after the others' next act. *)
Definition acted (w : World) : World :=
  match ticks w with
  | [] => w
  | t :: ts => mk_World (others t (outside w)) (fds w) ts (bad_closes w) (unlinked w)
  end.

Lemma syscall_cases {A} (act : World -> option (answer A * World)) w :
  (exists e, syscall act w = Some (inl e, acted w)) \/ syscall act w = act (acted w).
Proof.
  unfold syscall, acted. destruct (ticks w) as [|t ts]; [by right|].
  destruct (refused t); [left; by eexists|by right].
Qed.

Lemma acted_same w :
  fds (acted w) = fds w /\ bad_closes (acted w) = bad_closes w /\ unlinked (acted w) = unlinked w /\
  ticks (acted w) = tail (ticks w).
Proof. unfold acted. destruct (ticks w) eqn:Ht; cbn; [|done]. by rewrite Ht. Qed.

Lemma fstat_observes fd w : exists a, sys_fstat fd w = Some (a, acted w) /\
  forall id, a = inr (id, Directory) -> exists b, fds w !! fd = Some (ODirectory id, b).
Proof.
  unfold sys_fstat. destruct (syscall_cases (fun w => match fds w !! fd with
    | Some (ODirectory id, _) => Some (inr (id, Directory), w)
    | Some _ => Some (inr ((0, fd), SocketNode), w)
    | None => Some (inl EBADF, w) end) w) as [[e ->]| ->]; [by eexists|].
  destruct (acted_same w) as (-> & _).
  destruct (fds w !! fd) as [[[id| | |] b]|]; (eexists; split; [done|]); intros i [= <-]. by exists b.
Qed.

Lemma stat_observes path id w : exists same, parent_path_matches path id w = Some (same, acted w).
Proof.
  unfold parent_path_matches, same_identity, sys_stat. cbv [mbind sys_bind mret sys_ret].
  destruct (syscall_cases (fun w => match resolved (outside w) !! path with
    | Some n => Some (inr n, w) | None => Some (inl ENOENT, w) end) w) as [[e ->]| ->]; [by eexists|].
  destruct (resolved _ !! path); by eexists.
Qed.

Lemma fstatat_observes fd name w : exists a, sys_fstatat fd name w = Some (a, acted w) /\
  forall n, a = inr n -> exists id b, fds w !! fd = Some (ODirectory id, b) /\
    entries (outside (acted w)) !! (id, name) = Some n.
Proof.
  unfold sys_fstatat. destruct (syscall_cases (fun w => match fds w !! fd with
    | Some (ODirectory id, _) => match entries (outside w) !! (id, name) with
      | Some n => Some (inr n, w) | None => Some (inl ENOENT, w) end
    | Some _ => Some (inl ENOTDIR, w)
    | None => Some (inl EBADF, w) end) w) as [[e ->]| ->]; [by eexists|].
  destruct (acted_same w) as (-> & _).
  destruct (fds w !! fd) as [[[id| | |] b]|]; try (by eexists).
  destruct (entries _ !! (id, name)) as [n|] eqn:Hn; (eexists; split; [done|]); intros n' [= <-].
  by exists id, b.
Qed.

Lemma unlinkat_removes fd name w : exists a w', sys_unlinkat fd name w = Some (a, w') /\
  fds w' = fds w /\ bad_closes w' = bad_closes w /\
  (unlinked w' = unlinked w \/ exists id b, fds w !! fd = Some (ODirectory id, b) /\
     unlinked w' = unlinked w ++ [(id, name, entries (outside (acted w)) !! (id, name))]).
Proof.
  unfold sys_unlinkat. destruct (acted_same w) as (Hf & Hb & Hu & _).
  match goal with |- context [syscall ?act w] => destruct (syscall_cases act w) as [[e ->]| ->] end.
  { eexists _, _. split; [done|]. rewrite Hf, Hb, Hu. auto. }
  rewrite Hf. destruct (fds w !! fd) as [[[id| | |] b]|];
    (eexists _, _; split; [done|]); cbn; rewrite ?Hf, ?Hb, ?Hu; auto.
  split; [done|]. split; [done|]. right. by exists id, b.
Qed.

Lemma tail3 {A} (l : list A) : tail (tail (tail l)) = drop 3 l.
Proof. by destruct l as [|? [|? [|? ?]]]. Qed.

(** The others leave an entry alone at the [i]-th call from here. *)
Definition undisturbed (i : nat) (key : identity * bytes) (w : World) : Prop :=
  forall t o, ticks w !! i = Some t -> entries (others t o) !! key = entries o !! key.


(** ** Accepting *)

(** What [accept_same_user] may answer. *)
Definition accept_post (euid : Z) (F : gmap Z (object * bool)) (n : nat)
    (r : SameUserAcceptResult) (w : World) : Prop :=
  match disposition r with
  | Accepted => let fd := accepted_descriptor r in
      accept_status r = success /\ 0 <= fd /\ F !! fd = None /\
      holding (<[fd := (OStream euid, true)]> F) n w
  | PeerRejected | FatalFailure =>
      accepted_descriptor r = -1 /\ status_ok (accept_status r) = false /\ holding F n w
  end.

Lemma runs_verify B F n euid fd user :
  F !! fd = Some (OStream user, true) ->
  runs B (holding F n) (verify_same_user euid fd) (fun a w => holding F n w /\
    match a.1 with Accepted => user = euid | _ => status_ok a.2 = false end).
Proof.
  intros Hfd. unfold verify_same_user. eapply runs_bind; [apply runs_peer_user|].
  intros [e|peer]; apply runs_ret; intros w [Hw Hp]; (split; [exact Hw|]); cbn.
  - apply errno_status_fails.
  - destruct (Hp peer eq_refl) as [b Hb]. rewrite Hfd in Hb. injection Hb as -> _.
    destruct (Z.eqb_spec peer euid); cbn; [done|]. apply failure_fails. known_code.
Qed.

Lemma runs_accept_same_user F n euid listener :
  runs True (holding F n) (accept_same_user euid listener) (accept_post euid F n).
Proof.
  unfold accept_same_user. eapply runs_bind; [apply runs_accept_stream|].
  intros [fd|st]; cbn beta iota; [|apply runs_ret; intros w [Hst Hw]; by split_and!].
  intros w (x & [user ->] & H0 & Hfr & Hw). revert w Hw.
  match goal with |- forall w, _ -> match ?m w with _ => _ end =>
    change (runs True (holding (<[fd:=(OStream user, true)]> F) n) m (accept_post euid F n)) end.
  eapply runs_bind; [by apply (runs_ret _ _ _ (fun r w => r = ROk fd /\
    holding (<[fd:=(OStream user, true)]> F) n w))|].
  intros r. apply runs_pure. intros ->. cbn beta iota.
  eapply runs_bind; [apply runs_verify, lookup_insert_eq|]. intros [d st]. cbn [fst snd].
  assert (d <> Accepted -> runs True
    (fun w => holding (<[fd:=(OStream user, true)]> F) n w /\
       match d with Accepted => user = euid | _ => status_ok st = false end)
    (_ ← destroy_descriptor fd; mret (mk_SameUserAcceptResult d (-1) st))
    (accept_post euid F n)) as Hfail.
  { intros Hd. assert (forall w, (holding (<[fd:=(OStream user, true)]> F) n w /\
      match d with Accepted => user = euid | _ => status_ok st = false end) ->
      status_ok st = false /\ holding (<[fd:=(OStream user, true)]> F) n w) as Hswap
      by (intros w [Hw Hs]; by destruct d).
    eapply runs_weaken; [|exact Hswap|intros a w H; exact H]. apply runs_pure. intros Hst.
    eapply runs_bind; [apply runs_destroy; [done|by rewrite lookup_insert_eq]|]. intros [].
    apply runs_ret. intros w Hw. cbn beta in Hw. rewrite delete_insert_id in Hw by done.
    by destruct d. }
  destruct d; [|by apply Hfail..]. apply runs_ret. intros w [Hw ->]. by split_and!.
Qed.

(** Only peers of the daemon's own user get in: when [accept_same_user] returns at all,
    it accepts exactly one more close-on-exec stream whose peer has the daemon's user, or
    it reports a typed rejection or failure, publishes no descriptor and has closed the
    stream it had; interruptions are retried, and nothing is closed twice. *)
Theorem accept_only_same_user euid listener w r w' :
  accept_same_user euid listener w = Some (r, w') ->
  accept_post euid (fds w) (bad_closes w) r w'.
Proof.
  intros Ha. pose proof (runs_accept_same_user (fds w) (bad_closes w) euid listener w
    (conj eq_refl eq_refl)) as Hp. by rewrite Ha in Hp.
Qed.

(** ** A calm life of a listener *)

(** Nobody interferes any more. *)
Definition calm (O : Outside) (F : gmap Z (object * bool)) (n : nat)
    (u : list (identity * bytes * option node)) : World := mk_World O F [] n u.

(** Evaluates a call in a calm world. *)
Ltac calm_eval :=
  unfold syscall;
  cbv beta iota zeta delta [mbind sys_bind mret sys_ret calm outside fds ticks bad_closes unlinked
    set_fds set_outside].

Section Calm.
Context (O : Outside) (F : gmap Z (object * bool)) (n : nat).
Context (u : list (identity * bytes * option node)).

Lemma calm_socket action :
  create_stream_socket action (calm O F n u)
  = Some (ROk (fresh_fd F), calm O (<[fresh_fd F := (OSocket, true)]> F) n u).
Proof. reflexivity. Qed.

Lemma calm_parent path id :
  resolved O !! path = Some (id, Directory) ->
  parent_path_matches path id (calm O F n u) = Some (true, calm O F n u).
Proof.
  intros Hp. unfold parent_path_matches, same_identity, sys_stat. calm_eval.
  rewrite Hp. by rewrite !bool_decide_eq_true_2.
Qed.

Lemma calm_open path :
  match resolved O !! path with
  | Some (id, Directory) => sys_open_directory path (calm O F n u)
      = Some (inr (fresh_fd F), calm O (<[fresh_fd F := (ODirectory id, true)]> F) n u)
  | _ => exists e, sys_open_directory path (calm O F n u) = Some (inl e, calm O F n u)
  end.
Proof.
  unfold sys_open_directory. calm_eval. destruct (resolved O !! path) as [[id [| |]]|]; eauto.
Qed.

Lemma calm_fstat fd id b :
  F !! fd = Some (ODirectory id, b) ->
  sys_fstat fd (calm O F n u) = Some (inr (id, Directory), calm O F n u).
Proof. intros Hf. unfold sys_fstat. calm_eval. by rewrite Hf. Qed.

Lemma calm_fstatat fd id b name :
  F !! fd = Some (ODirectory id, b) ->
  sys_fstatat fd name (calm O F n u) = Some (match entries O !! (id, name) with
    | Some nd => inr nd | None => inl ENOENT end, calm O F n u).
Proof. intros Hf. unfold sys_fstatat. calm_eval. rewrite Hf. by destruct (_ !! (id, name)). Qed.

Lemma calm_bind fd parent leaf id :
  resolved O !! parent = Some (id, Directory) -> entries O !! (id, leaf) = None ->
  sys_bind_unix fd parent leaf (calm O F n u) = Some (inr tt, calm
    (set_entries (<[(id, leaf) := (fresh_node (entries O), SocketNode)]> (entries O)) O) F n u).
Proof. intros Hp He. unfold sys_bind_unix. calm_eval. by rewrite Hp, He. Qed.

Lemma calm_listen fd backlog b o :
  F !! fd = Some (o, b) ->
  sys_listen fd backlog (calm O F n u)
  = Some (inr tt, calm O (<[fd := (OListener backlog, b)]> F) n u).
Proof. intros Hf. unfold sys_listen. calm_eval. by rewrite Hf. Qed.

Lemma calm_destroy fd x :
  0 <= fd -> F !! fd = Some x ->
  destroy_descriptor fd (calm O F n u) = Some (tt, calm O (delete fd F) n u).
Proof.
  intros H0 Hf. unfold destroy_descriptor, reset. cbv [mbind sys_bind mret sys_ret].
  rewrite (proj2 (Z.leb_le 0 fd) H0). unfold sys_close. calm_eval. by rewrite bool_decide_eq_true_2 by eauto.
Qed.

(** An armed guard whose generation is still there. *)
Lemma calm_destroy_guard g b :
  node_state g = NodeState.Armed -> 0 <= parent_directory g ->
  F !! parent_directory g = Some (ODirectory (parent_identity g), b) ->
  resolved O !! parent_path g = Some (parent_identity g, Directory) ->
  entries O !! (parent_identity g, leaf_name g) = Some (node_identity g, SocketNode) ->
  exists u', destroy_guard g (calm O F n u) = Some (tt, calm
    (set_entries (delete (parent_identity g, leaf_name g) (entries O)) O)
    (delete (parent_directory g) F) n u').
Proof.
  intros Ha H0 Hd Hp He. eexists. unfold destroy_guard, remove, same_identity.
  rewrite (bool_decide_eq_true_2 _ Ha). replace (parent_directory g <? 0) with false by lia.
  cbn [negb orb]. cbv [mbind sys_bind mret sys_ret].
  rewrite (calm_fstat _ _ _ Hd). cbn beta iota. rewrite bool_decide_eq_true_2 by done. cbn [negb].
  rewrite (calm_parent _ _ Hp). cbn beta iota. cbn [negb].
  rewrite (calm_fstatat _ _ _ _ Hd), He. cbn beta iota. rewrite bool_decide_eq_true_2 by done. cbn [negb].
  unfold sys_unlinkat. calm_eval. rewrite Hd, He. cbn.
  unfold destroy_descriptor, reset. cbv [mbind sys_bind mret sys_ret].
  rewrite (proj2 (Z.leb_le 0 _) H0). unfold sys_close. calm_eval.
  by rewrite bool_decide_eq_true_2 by eauto.
Qed.
End Calm.

(** A successful creation in a calm world. *)
Definition calm_made (backlog : Z) (O : Outside) (F : gmap Z (object * bool)) (n : nat)
    (u : list (identity * bytes * option node)) (fd : Z) (g : SocketNodeGuard) (w : World) : Prop :=
  let key := (parent_identity g, leaf_name g) in
  node_state g = NodeState.Armed /\ 0 <= fd /\ 0 <= parent_directory g /\
  fd <> parent_directory g /\ F !! fd = None /\ F !! parent_directory g = None /\
  resolved O !! parent_path g = Some (parent_identity g, Directory) /\ entries O !! key = None /\
  w = calm (set_entries (<[key := (node_identity g, SocketNode)]> (entries O)) O)
        (<[fd := (OListener backlog, true)]>
           (<[parent_directory g := (ODirectory (parent_identity g), true)]> F)) n u.

Lemma calm_create path backlog O F n u r w1 :
  create_unix_listener path backlog (calm O F n u) = Some (r, w1) ->
  match r with
  | RErr _ => outside w1 = O
  | ROk (fd, g) => calm_made backlog O F n u fd g w1
  end.
Proof.
  intros Hc.
  unfold create_unix_listener in Hc.
  destruct (socket_address path) as [address|st]; [|by injection Hc as <- <-].
  destruct (backlog <=? 0); [by injection Hc as <- <-|].
  destruct (split_socket_path path) as [[parent leaf]|st] eqn:Hsplit; [|by injection Hc as <- <-].
  destruct (split_socket_path_spec _ _ _ Hsplit) as (Hpne & Hlne & _ & _).
  cbv [mbind sys_bind mret sys_ret] in Hc. pose proof (calm_open O F n u parent) as Hopen.
  destruct (resolved O !! parent) as [[id [| |]]|] eqn:Hp;
    [|destruct Hopen as [e He]; rewrite He in Hc; by injection Hc as <- <-..].
  rewrite Hopen in Hc. cbn beta iota in Hc.
  destruct (fresh_fd_spec F) as [H0 Hfr]. set (d := fresh_fd F) in *.
  set (F1 := <[d := (ODirectory id, true)]> F) in *.
  assert (F1 !! d = Some (ODirectory id, true)) as Hd by apply lookup_insert_eq.
  rewrite (calm_fstat _ _ _ _ _ _ _ Hd) in Hc. cbn beta iota in Hc.
  rewrite bool_decide_eq_true_2 in Hc by done. cbn [negb] in Hc.
  rewrite (calm_parent _ _ _ _ _ _ Hp) in Hc. cbn beta iota in Hc. cbn [negb] in Hc.
  rewrite (calm_fstatat _ _ _ _ _ _ _ _ Hd) in Hc.
  destruct (entries O !! (id, leaf)) as [nd|] eqn:He.
  { rewrite (calm_destroy _ _ _ _ _ _ H0 Hd) in Hc. by injection Hc as <- <-. }
  rewrite Z.eqb_refl in Hc. cbn [negb] in Hc. unfold bind_listener in Hc.
  cbv [mbind sys_bind mret sys_ret] in Hc. rewrite calm_socket in Hc. cbn beta iota in Hc.
  destruct (fresh_fd_spec F1) as [H0' Hfr']. set (fd := fresh_fd F1) in *.
  set (F2 := <[fd := (OSocket, true)]> F1) in *.
  assert (fd <> d) as Hne by (intros Efd; rewrite Efd, Hd in Hfr'; done).
  assert (F2 !! d = Some (ODirectory id, true)) as Hd2 by (unfold F2; by rewrite lookup_insert_ne).
  unfold prepare_guard in Hc. rewrite (proj2 (Z.leb_le 0 d) H0) in Hc.
  rewrite !bool_decide_eq_false_2 in Hc by done. cbn [negb andb parent_path leaf_name parent_directory parent_identity] in Hc.
  rewrite (calm_bind _ _ _ _ _ _ _ _ Hp He) in Hc. cbn beta iota in Hc.
  set (O1 := set_entries _ O) in *.
  assert (entries O1 !! (id, leaf) = Some (fresh_node (entries O), SocketNode)) as He1
    by apply lookup_insert_eq.
  rewrite (calm_fstatat _ _ _ _ _ _ _ _ Hd2), He1 in Hc. cbn beta iota in Hc.
  assert (resolved O1 !! parent = Some (id, Directory)) as Hp1 by done.
  rewrite (calm_parent _ _ _ _ _ _ Hp1) in Hc. cbn beta iota in Hc.
  assert (F2 !! fd = Some (OSocket, true)) as Hfd by apply lookup_insert_eq.
  rewrite (calm_listen _ _ _ _ _ _ _ _ Hfd) in Hc. injection Hc as <- <-.
  unfold arm. rewrite bool_decide_eq_true_2 by done. unfold calm_made.
  assert (F !! fd = None) as Hfn.
  { unfold F1 in Hfr'. by rewrite lookup_insert_ne in Hfr' by done. }
  split_and!; try done. unfold F2. by rewrite insert_insert_eq.
Qed.

(** Round trip of the pathname: with nobody interfering and no call refused, a
    successful creation adds exactly one entry, a socket under the given name that was
    absent before, whose generation the guard has captured; destroying the listener then
    gives back the file system and the descriptors as they were.  A failed creation
    changes neither. *)
Theorem listener_roundtrip path backlog w r w1 :
  ticks w = [] -> create_unix_listener path backlog w = Some (r, w1) ->
  match r with
  | RErr _ => outside w1 = outside w
  | ROk (fd, g) =>
    let key := (parent_identity g, leaf_name g) in
    resolved (outside w) !! parent_path g = Some (parent_identity g, Directory) /\
    entries (outside w) !! key = None /\
    outside w1 = set_entries
      (<[key := (node_identity g, SocketNode)]> (entries (outside w))) (outside w) /\
    exists w2, (_ ← destroy_descriptor fd; destroy_guard g) w1 = Some (tt, w2) /\
      outside w2 = outside w /\ fds w2 = fds w /\ bad_closes w2 = bad_closes w
  end.
Proof.
  intros Ht Hc. destruct w as [O F ts n u]. cbn in Ht. subst ts.
  apply (calm_create path backlog O F n u) in Hc. destruct r as [[fd g]|st]; [|exact Hc].
  destruct Hc as (Harm & H0 & H0' & Hne & Hf & Hd & Hp & He & ->). cbn zeta.
  split_and!; [exact Hp|exact He|done|]. cbv [mbind sys_bind].
  rewrite (calm_destroy _ _ _ _ _ _ H0 (lookup_insert_eq _ _ _)).
  rewrite delete_insert_id by (by rewrite lookup_insert_ne).
  set (O1 := set_entries _ O).
  destruct (calm_destroy_guard O1 (<[parent_directory g := (ODirectory (parent_identity g), true)]> F)
    n u g true Harm H0' (lookup_insert_eq _ _ _) Hp (lookup_insert_eq _ _ _)) as [u' Hdg].
  eexists. split; [exact Hdg|]. cbn. rewrite !delete_insert_id by done. by destruct O.
Qed.
End Sockets.
