(* ===== verification/DaemonMain.v ===== *)
(** The daemon's command line ([src/apps/photospiderd/main.cpp]).

    [strtoull] (under [std::stoull]) is the standard library's: it skips white space,
    takes a sign, and negates modulo 2^64. *)
From S2P Require Import Prelude Kernel.

(** What may leave these functions. *)
Inductive main_exn :=
| StdInvalidArgument (what : bytes)
| StdOutOfRange (what : bytes)
| OtherStdException (what : bytes).

(** ** [std::stoull(text, &consumed, 10)] *)

(** [isspace] in the "C" locale. *)
Definition is_space (c : Z) : bool := (c =? 32) || ((9 <=? c) && (c <=? 13)).
Definition is_digit (c : Z) : bool := (48 <=? c) && (c <=? 57).

(** The rest of the text after the characters that satisfy [p], and their number. *)
Fixpoint skip (p : Z -> bool) (text : bytes) : nat * bytes :=
  match text with
  | c :: text' => if p c then let '(n, rest) := skip p text' in (S n, rest) else (O, text)
  | [] => (O, [])
  end.

(** The value of the leading digits. *)
Fixpoint digits_value (acc : Z) (text : bytes) : Z :=
  match text with
  | c :: text' => if is_digit c then digits_value (acc * 10 + (c - 48)) text' else acc
  | [] => acc
  end.

(** The optional sign: whether it is a minus, and its length. *)
Definition sign (text : bytes) : bool * nat :=
  match text with
  | c :: _ => if c =? 45 then (true, 1%nat) else if c =? 43 then (false, 1%nat) else (false, O)
  | [] => (false, O)
  end.

(** The value, and how many characters were consumed. *)
Definition stoull (text : bytes) : outcome main_exn (Z * Z) :=
  let '(spaces, rest) := skip is_space text in
  let '(negative, sign_length) := sign rest in
  let number := drop sign_length rest in
  let '(count, _) := skip is_digit number in
  match count with
  | O => Throw (StdInvalidArgument (lit "stoull"))
  | _ =>
    let value := digits_value 0 number in
    if 2 ^ 64 <=? value then Throw (StdOutOfRange (lit "stoull"))
    else Return (if negative : bool then (- value) mod 2 ^ 64 else value,
                 Z.of_nat (spaces + sign_length + count))
  end.

(** ** The command line *)

Record Options := mk_Options {
  socket_path : bytes;
  opt_maximum_concurrency : Z;
  opt_maximum_jobs : Z;
  opt_maximum_sessions : Z;
  opt_maximum_connections : Z;
  opt_gpu_enabled : bool;
  opt_help : bool;
}.
Definition default_options : Options := mk_Options [] 1 1024 128 64 false false.

Definition uint32_limit : Z := 2 ^ 32 - 1.

Definition positive_uint32 (text option : bytes) : outcome main_exn Z :=
  match stoull text with
  | Throw e => Throw e
  | Return (value, consumed) =>
    if negb (consumed =? zlen text) || (value =? 0) || (uint32_limit <? value)
    then Throw (StdInvalidArgument (option ++ lit " requires a positive uint32"))
    else Return value
  end.

(** One option that takes a value. *)
Definition store_option (argument value : bytes) (o : Options) : outcome main_exn Options :=
  let 'mk_Options socket concurrency jobs sessions connections gpu help := o in
  let number (k : Z -> Options) :=
    match positive_uint32 value argument with Return n => Return (k n) | Throw e => Throw e end in
  if bool_decide (argument = lit "--socket")
  then Return (mk_Options value concurrency jobs sessions connections gpu help)
  else if bool_decide (argument = lit "--max-concurrency")
  then number (fun n => mk_Options socket n jobs sessions connections gpu help)
  else if bool_decide (argument = lit "--max-jobs")
  then number (fun n => mk_Options socket concurrency n sessions connections gpu help)
  else if bool_decide (argument = lit "--max-sessions")
  then number (fun n => mk_Options socket concurrency jobs n connections gpu help)
  else number (fun n => mk_Options socket concurrency jobs sessions n gpu help).

Definition takes_value (argument : bytes) : bool :=
  bool_decide (argument = lit "--socket") || bool_decide (argument = lit "--max-concurrency")
  || bool_decide (argument = lit "--max-jobs") || bool_decide (argument = lit "--max-sessions")
  || bool_decide (argument = lit "--max-connections").

(** The loop over [argv[1]], [argv[2]], ... *)
Fixpoint parse_arguments (arguments : list bytes) (o : Options) : outcome main_exn Options :=
  match arguments with
  | [] => Return o
  | argument :: rest =>
    if bool_decide (argument = lit "--help")
    then parse_arguments rest
           (mk_Options (socket_path o) (opt_maximum_concurrency o) (opt_maximum_jobs o)
              (opt_maximum_sessions o) (opt_maximum_connections o) (opt_gpu_enabled o) true)
    else if bool_decide (argument = lit "--gpu")
    then parse_arguments rest
           (mk_Options (socket_path o) (opt_maximum_concurrency o) (opt_maximum_jobs o)
              (opt_maximum_sessions o) (opt_maximum_connections o) true (opt_help o))
    else if takes_value argument then
      match rest with
      | [] => Throw (StdInvalidArgument (argument ++ lit " requires a value"))
      | value :: rest' =>
        match store_option argument value o with
        | Return o' => parse_arguments rest' o'
        | Throw e => Throw e
        end
      end
    else Throw (StdInvalidArgument (lit "unknown option: " ++ argument))
  end.

Definition parse_options (arguments : list bytes) : outcome main_exn Options :=
  match parse_arguments arguments default_options with
  | Throw e => Throw e
  | Return o =>
    if negb (opt_help o) && bool_decide (socket_path o = [])
    then Throw (StdInvalidArgument (lit "--socket PATH is required"))
    else Return o
  end.
