(* ===== verification/DaemonMainSpec.v ===== *)
(** What the command line promises: accepted options are usable, and every usable set of
    options can be written on a command line. *)
From S2P Require Import Prelude Kernel DaemonMain.

(** ** Numbers *)

Lemma skip_app p ws text :
  Forall (fun c => p c = true) ws ->
  skip p (ws ++ text) = ((length ws + (skip p text).1)%nat, (skip p text).2).
Proof.
  induction 1 as [|c ws Hc _ IH]; cbn; [by destruct (skip p text)|].
  rewrite Hc, IH. by destruct (skip p text).
Qed.

Lemma skip_spec p text :
  exists ws, text = ws ++ (skip p text).2 /\ length ws = (skip p text).1 /\
    Forall (fun c => p c = true) ws.
Proof.
  induction text as [|c text (ws & Ht & Hl & Hp)]; cbn; [by exists []|].
  destruct (p c) eqn:Hc; [|by exists []]. destruct (skip p text) as [n rest]. cbn in *.
  exists (c :: ws). split_and!; [by rewrite Ht|cbn; congruence|by constructor].
Qed.

Lemma skip_all p text : Forall (fun c => p c = true) text -> skip p text = (length text, []).
Proof.
  intros H. pose proof (skip_app p text [] H) as E. rewrite app_nil_r in E.
  rewrite E. cbn. by rewrite Nat.add_0_r.
Qed.

Lemma digits_value_app acc ds1 ds2 :
  Forall (fun c => is_digit c = true) ds1 ->
  digits_value acc (ds1 ++ ds2) = digits_value (digits_value acc ds1) ds2.
Proof.
  intros H. revert acc. induction H as [|c ds Hc _ IH]; intros acc; cbn; [done|].
  by rewrite Hc, IH.
Qed.

(** The digits of a number, most significant first. *)
Fixpoint decimal_digits (fuel : nat) (n : Z) : bytes :=
  match fuel with
  | O => []
  | S fuel' => if n <? 10 then [48 + n] else decimal_digits fuel' (n / 10) ++ [48 + n mod 10]
  end.

(** Ten digits are enough for 32 bits. *)
Definition decimal (n : Z) : bytes := decimal_digits 10 n.

Lemma is_digit_of d : 0 <= d < 10 -> is_digit (48 + d) = true.
Proof. unfold is_digit. lia. Qed.

Lemma decimal_digits_spec fuel n :
  0 <= n < 10 ^ Z.of_nat fuel ->
  Forall (fun c => is_digit c = true) (decimal_digits fuel n) /\
  digits_value 0 (decimal_digits fuel n) = n /\ (fuel <> O -> decimal_digits fuel n <> []).
Proof.
  revert n. induction fuel as [|fuel IH]; intros n Hn.
  - cbn in *. split_and!; [constructor|lia|done].
  - cbn [decimal_digits]. destruct (Z.ltb_spec n 10).
    + split_and!; [|cbn|done].
      * constructor; [apply is_digit_of; lia|constructor].
      * rewrite is_digit_of by lia. lia.
    + rewrite Nat2Z.inj_succ, Z.pow_succ_r in Hn by lia.
      destruct (IH (n / 10)) as (Hd & Hv & _).
      { split; [apply Z.div_pos; lia|apply Z.div_lt_upper_bound; lia]. }
      pose proof (Z.mod_pos_bound n 10 ltac:(lia)). split_and!.
      * apply Forall_app. split; [done|]. constructor; [apply is_digit_of; lia|constructor].
      * rewrite digits_value_app, Hv by done. cbn. rewrite is_digit_of by lia.
        rewrite (Z.div_mod n 10) at 3; lia.
      * intros _ Hnil. by apply app_eq_nil in Hnil as [_ [=]].
Qed.

Lemma stoull_decimal n :
  0 <= n < 2 ^ 32 -> stoull (decimal n) = Return (n, zlen (decimal n)).
Proof.
  intros Hn. destruct (decimal_digits_spec 10 n) as (Hd & Hv & Hne); [lia|]. fold (decimal n) in *.
  unfold stoull. specialize (Hne ltac:(done)). destruct (decimal n) as [|c ds] eqn:E; [done|].
  apply Forall_cons in Hd as Hc. destruct Hc as [Hc _].
  assert (skip is_space (c :: ds) = (O, c :: ds)) as ->.
  { cbn. unfold is_digit in Hc. unfold is_space. by replace (_ || _) with false by lia. }
  assert (sign (c :: ds) = (false, O)) as ->.
  { cbn. unfold is_digit in Hc. replace (c =? 45) with false by lia.
    by replace (c =? 43) with false by lia. }
  cbn [drop]. rewrite (skip_all _ _ Hd). cbn [length]. rewrite Hv.
  by replace (2 ^ 64 <=? n) with false by lia.
Qed.

Lemma positive_decimal n option :
  1 <= n <= uint32_limit -> positive_uint32 (decimal n) option = Return n.
Proof.
  unfold uint32_limit. intros Hn. unfold positive_uint32. rewrite stoull_decimal by lia.
  rewrite Z.eqb_refl. replace (n =? 0) with false by lia.
  unfold uint32_limit. by replace (2 ^ 32 - 1 <? n) with false by lia.
Qed.

Lemma positive_uint32_range text option n :
  positive_uint32 text option = Return n -> 1 <= n <= uint32_limit.
Proof.
  unfold positive_uint32. destruct (stoull text) as [[value consumed]|e] eqn:Hs; [|done].
  destruct (_ || _) eqn:Hc; [done|]. intros [= <-]. rewrite !orb_false_iff in Hc.
  destruct Hc as [[_ Hz%Z.eqb_neq] Hm%Z.ltb_ge]. split; [|done].
  unfold stoull in Hs. destruct (skip is_space text) as [spaces rest].
  destruct (sign rest) as [negative sign_length].
  destruct (skip is_digit (drop sign_length rest)) as [[|count] r] eqn:Hk; [done|].
  destruct (_ <=? _); [done|]. injection Hs as <- _.
  destruct negative; [pose proof (Z.mod_pos_bound (- digits_value 0 (drop sign_length rest)) (2 ^ 64) ltac:(lia)); lia|].
  assert (forall ds acc, 0 <= acc -> 0 <= digits_value acc ds) as Hpos.
  { induction ds as [|d ds IH]; intros acc Ha; cbn; [done|]. destruct (is_digit d) eqn:Hd; [|done].
    apply IH. unfold is_digit in Hd. lia. }
  specialize (Hpos (drop sign_length rest) 0 ltac:(lia)). lia.
Qed.

(** ** Options *)

(** Options the daemon can be started with, or a request for help. *)
Record options_ok (o : Options) : Prop := {
  oo_socket : opt_help o = true \/ socket_path o <> [];
  oo_concurrency : 1 <= opt_maximum_concurrency o <= uint32_limit;
  oo_jobs : 1 <= opt_maximum_jobs o <= uint32_limit;
  oo_sessions : 1 <= opt_maximum_sessions o <= uint32_limit;
  oo_connections : 1 <= opt_maximum_connections o <= uint32_limit;
}.

(** The bounds alone, while the arguments are read. *)
Definition bounds_ok (o : Options) : Prop :=
  Forall (fun n => 1 <= n <= uint32_limit)
    [opt_maximum_concurrency o; opt_maximum_jobs o; opt_maximum_sessions o;
     opt_maximum_connections o].

Lemma store_option_bounds argument value o o' :
  bounds_ok o -> store_option argument value o = Return o' -> bounds_ok o'.
Proof.
  unfold bounds_ok, store_option. destruct o as [socket concurrency jobs sessions connections gpu help].
  rewrite !Forall_cons, !Forall_nil. cbn. intros Hb Hs.
  pose proof (positive_uint32_range value argument) as Hr.
  repeat case_bool_decide; destruct (positive_uint32 value argument) as [n|e]; simplify_eq; cbn;
    try specialize (Hr n eq_refl); tauto.
Qed.

Lemma parse_arguments_bounds n arguments o o' :
  (length arguments <= n)%nat -> bounds_ok o -> parse_arguments arguments o = Return o' ->
  bounds_ok o'.
Proof.
  revert arguments o. induction n as [|n IH]; intros [|argument rest] o Hn Hb;
    cbn in Hn |- *; try lia; [by intros [= <-]|by intros [= <-]|].
  case_bool_decide; [apply IH; [lia|exact Hb]|]. case_bool_decide; [apply IH; [lia|exact Hb]|].
  destruct (takes_value argument); [|done]. destruct rest as [|value rest]; [done|].
  destruct (store_option argument value o) as [o1|e] eqn:Hs; [|done].
  cbn in Hn. apply IH; [lia|]. by eapply store_option_bounds.
Qed.

Lemma default_bounds : bounds_ok default_options.
Proof. unfold bounds_ok, uint32_limit. rewrite !Forall_cons, Forall_nil. cbn. lia. Qed.

Lemma parse_options_bounds arguments o : parse_options arguments = Return o -> bounds_ok o.
Proof.
  unfold parse_options. destruct (parse_arguments arguments default_options) as [o'|e] eqn:Ha; [|done].
  destruct (negb _ && _); [done|]. intros [= <-].
  exact (parse_arguments_bounds _ _ _ _ (le_n _) default_bounds Ha).
Qed.

(** C39: the command line never yields an unusable configuration: whenever [parse_options]
    returns, every numeric bound is a positive 32-bit number and a socket path is present
    unless help was asked for. *)
Theorem command_line_sound arguments o : parse_options arguments = Return o -> options_ok o.
Proof.
  intros Hp. pose proof (parse_options_bounds _ _ Hp) as Hb. revert Hp.
  unfold parse_options. destruct (parse_arguments arguments default_options) as [o'|e] eqn:Ha; [|done].
  destruct (negb _ && _) eqn:Hs; [done|]. intros [= <-].
  unfold bounds_ok in Hb. rewrite !Forall_cons in Hb. destruct Hb as (H1 & H2 & H3 & H4 & _).
  constructor; [|done..]. apply andb_false_iff in Hs as [Hs|Hs].
  - left. by apply negb_false_iff.
  - right. by apply bool_decide_eq_false in Hs.
Qed.

(** A command line that sets every option. *)
Definition render (o : Options) : list bytes :=
  (if opt_help o then [lit "--help"] else []) ++ (if opt_gpu_enabled o then [lit "--gpu"] else [])
  ++ [lit "--socket"; socket_path o;
      lit "--max-concurrency"; decimal (opt_maximum_concurrency o);
      lit "--max-jobs"; decimal (opt_maximum_jobs o);
      lit "--max-sessions"; decimal (opt_maximum_sessions o);
      lit "--max-connections"; decimal (opt_maximum_connections o)].

(** An option, its value, and what it stores. *)
Inductive option_of (value : bytes) : bytes -> (Options -> outcome main_exn Options) -> Prop :=
| OptSocket :
  option_of value (lit "--socket") (fun '(mk_Options _ c j s n gpu help) =>
    Return (mk_Options value c j s n gpu help))
| OptConcurrency k :
  positive_uint32 value (lit "--max-concurrency") = Return k ->
  option_of value (lit "--max-concurrency") (fun '(mk_Options socket _ j s n gpu help) =>
    Return (mk_Options socket k j s n gpu help))
| OptJobs k :
  positive_uint32 value (lit "--max-jobs") = Return k ->
  option_of value (lit "--max-jobs") (fun '(mk_Options socket c _ s n gpu help) =>
    Return (mk_Options socket c k s n gpu help))
| OptSessions k :
  positive_uint32 value (lit "--max-sessions") = Return k ->
  option_of value (lit "--max-sessions") (fun '(mk_Options socket c j _ n gpu help) =>
    Return (mk_Options socket c j k n gpu help))
| OptConnections k :
  positive_uint32 value (lit "--max-connections") = Return k ->
  option_of value (lit "--max-connections") (fun '(mk_Options socket c j s _ gpu help) =>
    Return (mk_Options socket c j s k gpu help)).

Ltac option_names :=
  repeat match goal with
  | |- context [bool_decide (lit ?a = lit ?b)] =>
    let b' := eval vm_compute in (bool_decide (lit a = lit b)) in
    change (bool_decide (lit a = lit b)) with b'
  end; cbn [orb].

Lemma parse_option value argument store rest o o' :
  option_of value argument store -> store o = Return o' ->
  parse_arguments (argument :: value :: rest) o = parse_arguments rest o'.
Proof.
  intros Ho Hs. destruct o. destruct Ho as [|? Hp|? Hp|? Hp|? Hp]; cbn beta iota in Hs;
    injection Hs as <-; cbn beta iota fix delta [parse_arguments takes_value store_option];
    option_names; cbn beta iota; by rewrite ?Hp.
Qed.

Lemma parse_flags (help gpu : bool) rest o :
  parse_arguments ((if help then [lit "--help"] else []) ++
    (if gpu then [lit "--gpu"] else []) ++ rest) o =
  parse_arguments rest
    (mk_Options (socket_path o) (opt_maximum_concurrency o) (opt_maximum_jobs o)
       (opt_maximum_sessions o) (opt_maximum_connections o)
       (gpu || opt_gpu_enabled o) (help || opt_help o)).
Proof.
  destruct o, help, gpu; cbn [app]; try done;
    cbn beta iota fix delta [parse_arguments]; option_names; done.
Qed.

(** C40: every usable configuration can be given on a command line: the options written out
    with decimal numbers parse back to themselves. *)
Theorem command_line_roundtrip o :
  options_ok o -> socket_path o <> [] -> parse_options (render o) = Return o.
Proof.
  intros [_ H1 H2 H3 H4] Hs. unfold parse_options.
  assert (parse_arguments (render o) default_options = Return o) as ->.
  { unfold render. rewrite parse_flags. destruct o as [socket c j s n gpu help]. cbn in H1, H2, H3, H4.
    erewrite parse_option; [|exact (OptSocket socket)|reflexivity].
    erewrite parse_option; [|exact (OptConcurrency _ c (positive_decimal _ _ H1))|reflexivity].
    erewrite parse_option; [|exact (OptJobs _ j (positive_decimal _ _ H2))|reflexivity].
    erewrite parse_option; [|exact (OptSessions _ s (positive_decimal _ _ H3))|reflexivity].
    erewrite parse_option; [|exact (OptConnections _ n (positive_decimal _ _ H4))|reflexivity].
    cbn [parse_arguments default_options opt_gpu_enabled opt_help]. by rewrite !orb_false_r. }
  rewrite bool_decide_eq_false_2 by done. by rewrite andb_false_r.
Qed.

(** ** Numbers that are accepted or rejected unexpectedly *)

(** [std::stoull] accepts a sign and negates modulo 2^64, so this negative number is 1. *)
Lemma negative_number_accepted option :
  positive_uint32 (lit "-18446744073709551615") option = Return 1.
Proof. vm_compute. reflexivity. Qed.

(** A number above 64 bits is a usage error too, but no [invalid_argument]. *)
Lemma huge_number_thrown :
  parse_options [lit "--max-jobs"; lit "18446744073709551616"] = Throw (StdOutOfRange (lit "stoull")).
Proof. vm_compute. reflexivity. Qed.
