(* ===== verification/Client.v ===== *)
(** The client ([src/lib/ipc/client.cpp], [include/photospider/ipc/client.hpp]): one
    connection, one sequence of correlated calls.

    A [unique_ptr<Impl>] is an [option]: [None] is a moved-from client.  The mutex of the
    implementation covers each operation, so the calls of several threads are one sequence
    of operations. *)
From S2P Require Import Prelude OrdMap Kernel Protocol Utf8 Wire RoundTrip Scalars.
From S2P Require Import CodecRequest CodecResult Codec Frame Posix UnixSocket.

(** ** The process and its peer *)

(** What the connected stream will deliver and accept. *)
Record Link := mk_Link { incoming : list arrival; outbound : outgoing }.

(** The kernel's state and the peer's. *)
Record Net := mk_Net { world : World; link : Link }.

(** Blocking computations on them. *)
Definition io (A : Type) : Type := Net -> blocking (A * Net).
#[export] Instance io_ret : MRet io := fun A a n => Done (a, n).
#[export] Instance io_bind : MBind io :=
  fun A B f m n => match m n with
                   | Done (a, n') => f a n'
                   | Blocked => Blocked
                   | OutOfFuel => OutOfFuel
                   end.

Definition io_sys {A} (m : sys A) : io A := fun n =>
  match m (world n) with
  | Some (a, w) => Done (a, mk_Net w (link n))
  | None => Blocked
  end.

(** A new connection has a peer of its own. *)
Definition io_connect_peer (peer : Link) : io unit := fun n => Done (tt, mk_Net (world n) peer).

Section Client.
Context `{K : Kernel} {P : Posix}.

Definition io_write (descriptor : Z) (payload : bytes) : io Status := fun n =>
  match write_frame descriptor payload (outbound (link n)) with
  | Done (status, out) => Done (status, mk_Net (world n) (mk_Link (incoming (link n)) out))
  | Blocked => Blocked
  | OutOfFuel => OutOfFuel
  end.

Definition io_read (descriptor : Z) : io (Result bytes) := fun n =>
  match read_frame descriptor None (incoming (link n)) with
  | Done (frame, _, s) => Done (frame, mk_Net (world n) (mk_Link s (outbound (link n))))
  | Blocked => Blocked
  | OutOfFuel => OutOfFuel
  end.

(** ** [Client::Impl] *)

Record Impl := mk_Impl { descriptor : Z; next_request_id : Z }.

Definition fresh_impl : Impl := mk_Impl (-1) 1.

Definition valid (this : Impl) : bool := 0 <=? descriptor this.

(** [descriptor.reset()]. *)
Definition invalidate (this : Impl) : io Impl :=
  d ← io_sys (reset (descriptor this) (-1));
  mret (mk_Impl d (next_request_id this)).

Definition correlate (id : Z) (r : Request) : Request :=
  mk_Request id (req_method r) (req_document r) (req_session_id r) (req_job_id r)
    (req_submit_options r).

(** A local or transport failure that ends the connection. *)
Definition fail_call (status : Status) (this : Impl) :
    io (outcome CodecExn (Result Response) * Impl) :=
  this ← invalidate this;
  mret (Return (RErr status), this).

(** The second half of [call]: the response to [request], which was written whole. *)
Definition await_response (request : Request) (this : Impl) :
    io (outcome CodecExn (Result Response) * Impl) :=
  frame ← io_read (descriptor this);
  match frame with
  | RErr status =>
    fail_call (if code status =? NotFound
               then failure Internal (lit
                 "local peer closed before a response; request outcome is unknown")
               else status) this
  | ROk payload =>
    match decode_response payload (req_method request) (req_request_id request) with
    | ROk response => mret (Return (ROk response), this)
    | RErr status =>
      match decode_protocol_error payload with
      | Throw exn => mret (Throw exn, this)
      | Return (ROk sentinel) =>
        if (resp_request_id sentinel =? 0)
           && bool_decide (resp_method sentinel = Method.DaemonInfo)
        then fail_call (resp_status sentinel) this
        else fail_call status this
      | Return (RErr _) => fail_call status this
      end
    end
  end.

(** [Client::Impl::call]. *)
Definition call (request : Request) (this : Impl) :
    io (outcome CodecExn (Result Response) * Impl) :=
  if negb (valid this)
  then mret (Return (RErr (failure InvalidArgument (lit "client is not connected"))), this)
  else if next_request_id this =? 0
  then fail_call (failure ResourceExhausted (lit "client request id exhausted")) this
  else
    let request := correlate (next_request_id this) request in
    let this := mk_Impl (descriptor this) ((next_request_id this + 1) mod 2 ^ 64) in
    match encode_request request with
    | Throw exn => mret (Throw exn, this)
    | Return (RErr status) => mret (Return (RErr status), this)
    | Return (ROk encoded) =>
      write_status ← io_write (descriptor this) encoded;
      if status_ok write_status then await_response request this
      else fail_call write_status this
    end.

(** ** The class *)

Definition make_client : option Impl := Some fresh_impl.

(** [~Client]. *)
Definition destroy_client (client : option Impl) : io unit :=
  match client with
  | Some impl => io_sys (destroy_descriptor (descriptor impl))
  | None => mret tt
  end.

(** The move constructor: the new client, and what [other] becomes. *)
Definition move_client (other : option Impl) : option Impl * option Impl := (other, None).

(** [operator=(Client&&)] between two objects. *)
Definition move_assign_client (this other : option Impl) : io (option Impl * option Impl) :=
  _ ← destroy_client this;
  mret (other, None).

(** [connect]; [listening] is the user whose socket is at the address, [peer] what the new
    stream will do. *)
Definition connect (path : bytes) (listening : option Z) (peer : Link) (client : option Impl) :
    io (Status * option Impl) :=
  let impl := default fresh_impl client in
  connected ← io_sys (connect_unix_socket path listening);
  match connected with
  | RErr status => mret (status, Some impl)
  | ROk taken =>
    '(d, rest) ← io_sys (move_descriptor (descriptor impl) taken);
    _ ← io_connect_peer peer;
    _ ← io_sys (destroy_descriptor rest);
    mret (success, Some (mk_Impl d 1))
  end.

Definition disconnect (client : option Impl) : io (option Impl) :=
  match client with
  | Some impl => impl ← invalidate impl; mret (Some impl)
  | None => mret None
  end.

Definition connected (client : option Impl) : bool :=
  match client with Some impl => valid impl | None => false end.

(** ** The calls *)

Definition moved_from : Status := failure InvalidArgument (lit "client is moved from").

(** A call that returns a value: the value of a successful response, or its status. *)
Definition value_call {A} (value : Response -> A) (request : Request) (client : option Impl) :
    io (outcome CodecExn (Result A) * option Impl) :=
  match client with
  | None => mret (Return (RErr moved_from), None)
  | Some impl =>
    '(response, impl) ← call request impl;
    mret (match response with
          | Throw exn => Throw exn
          | Return (RErr status) => Return (RErr status)
          | Return (ROk response) =>
            Return (if status_ok (resp_status response) then ROk (value response)
                    else RErr (resp_status response))
          end, Some impl)
  end.

(** A call that returns a status. *)
Definition status_call (request : Request) (client : option Impl) :
    io (outcome CodecExn Status * option Impl) :=
  match client with
  | None => mret (Return moved_from, None)
  | Some impl =>
    '(response, impl) ← call request impl;
    mret (match response with
          | Throw exn => Throw exn
          | Return (RErr status) => Return status
          | Return (ROk response) => Return (resp_status response)
          end, Some impl)
  end.

(** A request with a method and one argument set. *)
Definition method_request (method : Method.t) : Request :=
  mk_Request 0 method default_document default_SessionId default_JobId default_submit_options.
Definition session_request (method : Method.t) (session : SessionId) : Request :=
  mk_Request 0 method default_document session default_JobId default_submit_options.
Definition job_request (method : Method.t) (job : JobId) : Request :=
  mk_Request 0 method default_document default_SessionId job default_submit_options.

Definition session_create (document : WorkflowDocument) :=
  value_call resp_session_id
    (mk_Request 0 Method.SessionCreate document default_SessionId default_JobId
       default_submit_options).
Definition session_close (session : SessionId) :=
  status_call (session_request Method.SessionClose session).
Definition job_submit (session : SessionId) (options : JobSubmitOptions) :=
  value_call resp_job_id
    (mk_Request 0 Method.JobSubmit default_document session default_JobId options).
Definition job_status (job : JobId) := value_call resp_job_status (job_request Method.JobStatus job).
Definition job_cancel (job : JobId) := status_call (job_request Method.JobCancel job).
Definition job_result (job : JobId) :=
  value_call resp_execution_result (job_request Method.JobResult job).
Definition job_release (job : JobId) := status_call (job_request Method.JobRelease job).
Definition daemon_info := value_call resp_daemon_info (method_request Method.DaemonInfo).

(** [daemon_shutdown]: the connection is torn down whatever the outcome; an exception leaves
    before that. *)
Definition daemon_shutdown (client : option Impl) : io (outcome CodecExn Status * option Impl) :=
  match client with
  | None => mret (Return moved_from, None)
  | Some _ =>
    '(status, client) ← status_call (method_request Method.DaemonShutdown) client;
    match status with
    | Throw exn => mret (Throw exn, client)
    | Return status => client ← disconnect client; mret (Return status, client)
    end
  end.
End Client.
