(* ===== verification/ClientSpec.v ===== *)
(** What the client promises: a call is one exchange of correlated frames or ends the
    connection, descriptors are owned exactly once, and a request reaches the server whole
    and its response comes back. *)
From S2P Require Import Prelude OrdMap Kernel Protocol Utf8 Wire RoundTrip Scalars.
From S2P Require Import CodecRequest CodecResult Codec CodecSpec Layout ProtocolErrors.
From S2P Require Import Framing ResponseSpec Frame FrameSpec Posix UnixSocket.
From S2P Require Import UnixSocketSpec Client.

(** ** A program logic for blocking computations *)

(** From a state of [Pre] the computation ends in a state of [Post] or waits for the peer;
    it never lacks fuel. *)
Definition io_runs {A} (Pre : Net -> Prop) (m : io A) (Post : A -> Net -> Prop) : Prop :=
  forall net, Pre net -> match m net with
                         | Done (a, net') => Post a net'
                         | Blocked => True
                         | OutOfFuel => False
                         end.

Lemma io_runs_ret {A} (P : Net -> Prop) (a : A) (Q : A -> Net -> Prop) :
  (forall net, P net -> Q a net) -> io_runs P (mret a) Q.
Proof. intros HQ net Hn. by apply HQ. Qed.

Lemma io_runs_bind {A B} P (m : io A) (k : A -> io B) Q R :
  io_runs P m Q -> (forall a, io_runs (Q a) (k a) R) -> io_runs P (m ≫= k) R.
Proof.
  intros Hm Hk net Hn. cbv [mbind io_bind]. specialize (Hm net Hn).
  destruct (m net) as [[a net']| |]; [by apply Hk|done|done].
Qed.

Lemma io_runs_weaken {A} (P P' : Net -> Prop) (m : io A) Q (Q' : A -> Net -> Prop) :
  io_runs P m Q -> (forall net, P' net -> P net) -> (forall a net, Q a net -> Q' a net) ->
  io_runs P' m Q'.
Proof.
  intros Hm HP HQ net Hn. specialize (Hm net (HP net Hn)).
  destruct (m net) as [[a net']| |]; auto.
Qed.

Lemma io_runs_sys {A} (P : World -> Prop) (m : sys A) Q l :
  runs True P m Q ->
  io_runs (fun net => P (world net) /\ link net = l) (io_sys m)
    (fun a net => Q a (world net) /\ link net = l).
Proof.
  intros Hm net [Hw Hl]. unfold io_sys. specialize (Hm _ Hw).
  by destruct (m (world net)) as [[a w]|].
Qed.

(** ** One exchange *)

Definition link_wf (l : Link) : Prop := arrivals_wf (incoming l) /\ capacities_wf (outbound l).

Section ClientSpec.
Context `{HK : KernelLaws} {P : Posix}.

(** The client's descriptor is open besides [F], and its stream is a stream. *)
Definition holds (F : gmap Z (object * bool)) (n : nat) (this : Impl) (net : Net) : Prop :=
  if valid this
  then F !! descriptor this = None /\ link_wf (link net) /\
       exists x, holding (<[descriptor this := x]> F) n (world net)
  else holding F n (world net).

Definition owns (F : gmap Z (object * bool)) (n : nat) (client : option Impl) (net : Net) : Prop :=
  match client with Some this => holds F n this net | None => holding F n (world net) end.

Definition next_id (id : Z) : Z := (id + 1) mod 2 ^ 64.

(** After the call, the client without its connection. *)
Definition severed (this : Impl) : Impl := mk_Impl (-1) (next_id (next_request_id this)).
Definition kept (this : Impl) : Impl :=
  mk_Impl (descriptor this) (next_id (next_request_id this)).

(** The bytes a call adds to the stream, and what it does with the answer.  The request
    carries the next identifier. *)
Inductive exchange (request : Request) (this : Impl) (l : Link) :
    Result Response -> Impl -> Link -> Prop :=
| NotConnected :
  valid this = false ->
  exchange request this l (RErr (failure InvalidArgument (lit "client is not connected"))) this l
| Exhausted :
  valid this = true -> next_request_id this = 0 ->
  exchange request this l (RErr (failure ResourceExhausted (lit "client request id exhausted")))
    (mk_Impl (-1) 0) l
| NotEncodable status :
  valid this = true -> next_request_id this <> 0 ->
  encode_request (correlate (next_request_id this) request) = Return (RErr status) ->
  exchange request this l (RErr status) (kept this) l
| NotWritten encoded k status l' :
  valid this = true -> next_request_id this <> 0 ->
  encode_request (correlate (next_request_id this) request) = Return (ROk encoded) ->
  sent (outbound l') = sent (outbound l) ++ k -> k `prefix_of` frame_bytes encoded ->
  incoming l' = incoming l -> status_ok status = false ->
  exchange request this l (RErr status) (severed this) l'
| NotAnswered encoded status l' :
  valid this = true -> next_request_id this <> 0 ->
  encode_request (correlate (next_request_id this) request) = Return (ROk encoded) ->
  sent (outbound l') = sent (outbound l) ++ frame_bytes encoded ->
  parse_frame (stream (incoming l)).1 (stream (incoming l)).2 = FrameFailed status ->
  exchange request this l
    (RErr (if code status =? NotFound
           then failure Internal
                  (lit "local peer closed before a response; request outcome is unknown")
           else status)) (severed this) l'
| Refused encoded payload rest status l' :
  valid this = true -> next_request_id this <> 0 ->
  encode_request (correlate (next_request_id this) request) = Return (ROk encoded) ->
  sent (outbound l') = sent (outbound l) ++ frame_bytes encoded ->
  parse_frame (stream (incoming l)).1 (stream (incoming l)).2 = FrameOk payload rest ->
  stream (incoming l') = (rest, (stream (incoming l)).2) ->
  decode_response payload (req_method request) (next_request_id this) = RErr status ->
  exchange request this l
    (RErr match decode_protocol_error payload with
          | Return (ROk sentinel) =>
            if (resp_request_id sentinel =? 0)
               && bool_decide (resp_method sentinel = Method.DaemonInfo)
            then resp_status sentinel else status
          | _ => status
          end) (severed this) l'
| Answered encoded payload rest response l' :
  valid this = true -> next_request_id this <> 0 ->
  encode_request (correlate (next_request_id this) request) = Return (ROk encoded) ->
  sent (outbound l') = sent (outbound l) ++ frame_bytes encoded ->
  parse_frame (stream (incoming l)).1 (stream (incoming l)).2 = FrameOk payload rest ->
  stream (incoming l') = (rest, (stream (incoming l)).2) ->
  decode_response payload (req_method request) (next_request_id this) = ROk response ->
  response_decoded (req_method request) (next_request_id this) response ->
  exchange request this l (ROk response) (kept this) l'.

(** *** Its parts *)

Lemma io_invalidate F n this l x :
  valid this = true -> F !! descriptor this = None ->
  io_runs (fun net => holding (<[descriptor this := x]> F) n (world net) /\ link net = l)
    (invalidate this)
    (fun this' net => this' = mk_Impl (-1) (next_request_id this) /\
       holding F n (world net) /\ link net = l).
Proof.
  intros Hv%Z.leb_le Hfr. unfold invalidate.
  eapply (io_runs_bind _ _ _ (fun d net => (d = -1 /\ holding F n (world net)) /\ link net = l)).
  - apply (io_runs_sys _ _ (fun d w => d = -1 /\ holding F n w)). unfold reset.
    intros w [Hf Hn]. cbv [mbind sys_bind mret sys_ret].
    rewrite (proj2 (Z.leb_le 0 _) Hv). unfold sys_close.
    rewrite bool_decide_eq_true_2 by (rewrite Hf, lookup_insert_eq; eauto).
    split; [done|]. split; [|done]. cbn. by rewrite Hf, delete_insert_id.
  - intros d. apply io_runs_ret. by intros net [[-> ?] ?].
Qed.

Lemma io_fail_call F n this l x status :
  valid this = true -> F !! descriptor this = None ->
  io_runs (fun net => holding (<[descriptor this := x]> F) n (world net) /\ link net = l)
    (fail_call status this)
    (fun a net => a = (Return (RErr status), mk_Impl (-1) (next_request_id this)) /\
       holding F n (world net) /\ link net = l).
Proof.
  intros Hv Hfr. unfold fail_call. eapply io_runs_bind; [by apply io_invalidate|].
  intros this'. apply io_runs_ret. by intros net (-> & ? & ?).
Qed.

Lemma io_runs_write Pw l d payload :
  link_wf l ->
  io_runs (fun net => Pw (world net) /\ link net = l) (io_write d payload)
    (fun status net => Pw (world net) /\ link_wf (link net) /\
       incoming (link net) = incoming l /\
       exists k, sent (outbound (link net)) = sent (outbound l) ++ k /\
         k `prefix_of` frame_bytes payload /\ (status_ok status = true -> k = frame_bytes payload)).
Proof.
  intros [Hi Ho] net [Hw <-]. unfold io_write.
  pose proof (write_frame_fuel d payload (outbound (link net))) as Hfuel.
  destruct (write_frame d payload (outbound (link net))) as [[st out]| |] eqn:E; [|done|done].
  apply write_frame_prefix in E as (k & Hk & Hp & Hok & Hc); [|done]. cbn.
  split_and!; [done|split; cbn; done|done|]. by exists k.
Qed.

Lemma io_runs_read Pw l d :
  link_wf l -> 0 <= d ->
  io_runs (fun net => Pw (world net) /\ link net = l) (io_read d)
    (fun frame net => Pw (world net) /\ outbound (link net) = outbound l /\
       match frame with
       | ROk payload => exists rest,
           parse_frame (stream (incoming l)).1 (stream (incoming l)).2 = FrameOk payload rest /\
           stream (incoming (link net)) = (rest, (stream (incoming l)).2) /\ link_wf (link net)
       | RErr status =>
           parse_frame (stream (incoming l)).1 (stream (incoming l)).2 = FrameFailed status
       end).
Proof.
  intros [Hi Ho] Hd net [Hw <-]. unfold io_read.
  pose proof (read_frame_spec d None (incoming (link net)) Hi Hd) as Hr.
  unfold frame_answered in Hr. destruct (stream (incoming (link net))) as [avail e]. cbn [fst snd].
  destruct (parse_frame avail e) as [payload rest|st|].
  - destruct Hr as (s' & -> & Hs & Hwf). cbn. split_and!; [done|done|]. by exists rest.
  - by destruct Hr as (got & s' & -> & _).
  - by rewrite Hr.
Qed.

Lemma parse_frame_payload avail e payload rest :
  Forall (is_uint 8) avail -> parse_frame avail e = FrameOk payload rest ->
  Forall (is_uint 8) payload.
Proof.
  intros Ha. unfold parse_frame. destruct (_ <? 4); [by destruct e; destruct (bool_decide _)|].
  destruct (_ || _); [done|]. destruct (_ <? _); [by destruct e|].
  intros [= <- _]. by apply Forall_take, Forall_drop.
Qed.

(** ** A call is an exchange *)

Definition call_post (F : gmap Z (object * bool)) (n : nat) (request : Request) (this : Impl)
    (l : Link) (a : outcome CodecExn (Result Response) * Impl) (net : Net) : Prop :=
  exists result, a.1 = Return result /\ exchange request this l result a.2 (link net) /\
    holds F n a.2 net.

Lemma io_severed F n request this l x (Q : Link -> Prop) status (m : Impl) :
  valid this = true -> F !! descriptor this = None -> m = kept this ->
  (forall l', Q l' -> exchange request this l (RErr status) (severed this) l') ->
  io_runs (fun net => holding (<[descriptor this := x]> F) n (world net) /\ Q (link net))
    (fail_call status m) (call_post F n request this l).
Proof.
  intros Hv Hfr -> HQ net [Hw Hq].
  pose proof (io_fail_call F n (kept this) (link net) x status Hv Hfr net (conj Hw eq_refl)) as Hf.
  destruct (fail_call status (kept this) net) as [[a net']| |]; [|done|done].
  destruct Hf as (-> & Hh & Hl). exists (RErr status). cbn [fst snd].
  split_and!; [done|rewrite Hl; by apply HQ|exact Hh].
Qed.

Lemma runs_await F n request this l encoded l1 x :
  valid this = true -> next_request_id this <> 0 -> F !! descriptor this = None ->
  link_wf l -> link_wf l1 -> incoming l1 = incoming l ->
  encode_request (correlate (next_request_id this) request) = Return (ROk encoded) ->
  sent (outbound l1) = sent (outbound l) ++ frame_bytes encoded ->
  io_runs (fun net => holding (<[descriptor this := x]> F) n (world net) /\ link net = l1)
    (await_response (correlate (next_request_id this) request) (kept this))
    (call_post F n request this l).
Proof.
  intros Hv Hz Hfr [Hai _] Hwf1 Hi Henc Hsent. pose proof Hv as Hd%Z.leb_le. unfold await_response.
  eapply io_runs_bind; [by apply (io_runs_read (holding _ n))|].
  rewrite Hi. intros [payload|stf]; cbn beta iota.
  2: { eapply io_runs_weaken; [eapply (io_severed F n request this l x (fun l' =>
         parse_frame (stream (incoming l)).1 (stream (incoming l)).2 = FrameFailed stf /\
         outbound l' = outbound l1)); [done|done|done|]| |by intros].
       - intros l' (Hf & Ho). eapply NotAnswered; [done|done|done| |done]. by rewrite Ho.
       - by intros net (Hw & Ho & Hf). }
  cbn [correlate req_method req_request_id].
  destruct (decode_response payload _ _) as [response|sd] eqn:Hdec.
  { apply io_runs_ret. intros net (Hw & Ho & rest & Hp & Hs & Hwf2). exists (ROk response).
    split; [done|]. cbn [fst snd]. split.
    - eapply Answered; [done|done|done| |done|done|done|]; [by rewrite Ho|].
      eapply decoded_response_ok; [|exact Hdec].
      eapply parse_frame_payload; [by apply stream_bytes|exact Hp].
    - unfold holds. change (valid (kept this)) with (valid this). rewrite Hv. eauto. }
  destruct (decode_protocol_error_returns payload) as [pe Hpe].
  pose proof (fun (l' : Link) Hs rest Hp Hi =>
    Refused request this l encoded payload rest sd l' Hv Hz Henc Hs Hp Hi Hdec) as Hrefused.
  rewrite Hpe in Hrefused |- *.
  set (st' := match pe with ROk sentinel => _ | _ => sd end) in Hrefused.
  assert (match pe with
    | ROk sentinel => if (resp_request_id sentinel =? 0)
        && bool_decide (resp_method sentinel = Method.DaemonInfo)
        then fail_call (resp_status sentinel) (kept this) else fail_call sd (kept this)
    | RErr _ => fail_call sd (kept this) end = fail_call st' (kept this)) as ->.
  { unfold st'. destruct pe as [sentinel|]; [|done]. by destruct (_ && _). }
  eapply io_runs_weaken; [eapply (io_severed F n request this l x (fun l' =>
    outbound l' = outbound l1 /\ exists rest,
      parse_frame (stream (incoming l)).1 (stream (incoming l)).2 = FrameOk payload rest /\
      stream (incoming l') = (rest, (stream (incoming l)).2))); [done|done|done|]| |by intros].
  - intros l' (Ho & rest & Hp & Hs). eapply Hrefused; [by rewrite Ho|done|done].
  - intros net (Hw & Ho & rest & Hp & Hs & _). eauto.
Qed.

Lemma runs_client_call F n request this l :
  io_runs (fun net => holds F n this net /\ link net = l) (call request this)
    (call_post F n request this l).
Proof.
  unfold call. destruct (valid this) eqn:Hv; cbn [negb].
  2: { apply io_runs_ret. intros net [Hn <-]. eexists. split; [done|]. split; [|exact Hn].
       by apply NotConnected. }
  unfold holds. rewrite Hv. intros net [(Hfr & Hwf & x & Hw) Hl]. rewrite Hl in Hwf.
  match goal with |- match ?m net with _ => _ end => cut (io_runs
    (fun net => holding (<[descriptor this := x]> F) n (world net) /\ link net = l) m
    (call_post F n request this l)) end; [intros H; by apply H|].
  clear net Hw Hl. destruct (Z.eqb_spec (next_request_id this) 0) as [Hz|Hz].
  { eapply io_runs_weaken; [by apply io_fail_call|intros net Hn; exact Hn|]. intros a net (-> & Hh & Hl).
    eexists. split; [done|]. cbn [fst snd]. rewrite Hz, Hl. split; [by apply Exhausted|exact Hh]. }
  fold (next_id (next_request_id this)). fold (kept this). cbn [descriptor].
  destruct (encode_request_returns (correlate (next_request_id this) request)) as [[encoded|st] Henc];
    rewrite Henc.
  2: { apply io_runs_ret. intros net [Hw Hl]. exists (RErr st). split; [done|]. cbn [fst snd].
       rewrite Hl. split; [by apply NotEncodable|]. unfold holds.
       change (valid (kept this)) with (valid this). rewrite Hv, Hl. eauto. }
  eapply io_runs_bind; [by apply (io_runs_write (holding _ n))|]. intros st. cbn beta.
  destruct (status_ok st) eqn:Hst.
  - intros net (Hw & Hwf1 & Hi & k & Hk & _ & Hok). rewrite (Hok eq_refl) in Hk.
    by eapply (runs_await F n request this l encoded (link net)).
  - eapply io_runs_weaken; [eapply (io_severed F n request this l x (fun l' =>
      exists k, sent (outbound l') = sent (outbound l) ++ k /\ k `prefix_of` frame_bytes encoded /\
        incoming l' = incoming l)); [done|done|done|]| |by intros].
    + intros l' (k & Hk & Hp & Hi). by eapply NotWritten.
    + intros net (Hw & _ & Hi & k & Hk & Hp & _). split; [exact Hw|]. by exists k.
Qed.


(** ** Descriptors *)

Lemma runs_connect_unix_socket B F n path listening :
  runs B (holding F n) (connect_unix_socket path listening)
    (stream_post (fun x => exists user, listening = Some user /\ x = OStream user) F n).
Proof.
  unfold connect_unix_socket. pose proof (socket_address_status path) as Ha.
  destruct (socket_address path) as [address|st].
  2: { apply runs_ret. intros w Hw. by split. }
  eapply runs_bind; [apply runs_create_stream_socket|]. intros [fd|st]; cbn beta iota.
  2: { apply runs_ret. intros w Hw. exact Hw. }
  intros w (x & -> & H0 & Hfr & Hw). revert w Hw.
  match goal with |- forall w, _ -> match ?m w with _ => _ end =>
    change (runs B (holding (<[fd:=(OSocket, true)]> F) n) m (stream_post
      (fun x => exists user, listening = Some user /\ x = OStream user) F n)) end.
  eapply runs_bind; [by apply (runs_ret _ _ _ (fun r w => r = ROk fd /\
    holding (<[fd:=(OSocket, true)]> F) n w))|].
  intros r. apply runs_pure. intros ->. cbn beta iota.
  eapply runs_bind; [apply (runs_connect _ _ _ _ _ OSocket true), lookup_insert_eq|].
  intros [e|[]]; cbn beta iota.
  - eapply runs_bind; [apply runs_destroy; [done|by rewrite lookup_insert_eq]|].
    intros []. apply runs_ret. intros w' Hw'. rewrite delete_insert_id in Hw' by done.
    split; [apply errno_status_fails|exact Hw'].
  - apply runs_ret. intros w' (user & Hu & Hw'). rewrite insert_insert_eq in Hw'. 
    exists (OStream user). split_and!; eauto.
Qed.

(** What a program does with one client. *)
Inductive client_op :=
| Connect (path : bytes) (listening : option Z) (peer : Link)
| Disconnect
| Call (request : Request)
| Shutdown
| GiveAway.                        (* moved into another object, which is destroyed *)

Definition perform (o : client_op) (client : option Impl) : io (option Impl) :=
  match o with
  | Connect path listening peer =>
    '(_, client) ← connect path listening peer client; mret client
  | Disconnect => disconnect client
  | Call request => '(_, client) ← status_call request client; mret client
  | Shutdown => '(_, client) ← daemon_shutdown client; mret client
  | GiveAway => let '(other, client) := move_client client in _ ← destroy_client other; mret client
  end.

Fixpoint perform_all (ops : list client_op) (client : option Impl) : io (option Impl) :=
  match ops with
  | [] => mret client
  | o :: ops' => client ← perform o client; perform_all ops' client
  end.

Definition op_wf (o : client_op) : Prop :=
  match o with Connect _ _ peer => link_wf peer | _ => True end.

(** Closing a client's descriptor, owned or not. *)
Lemma owned_destroy F n this :
  io_runs (holds F n this) (io_sys (destroy_descriptor (descriptor this)))
    (fun _ net => holding F n (world net)).
Proof.
  intros net Hn. unfold holds, valid in Hn. unfold io_sys.
  destruct (Z.leb_spec 0 (descriptor this)) as [Hd|Hd].
  - destruct Hn as (Hfr & _ & x & Hw).
    pose proof (runs_destroy True (<[descriptor this := x]> F) n (descriptor this) Hd
      ltac:(rewrite lookup_insert_eq; eauto) (world net) Hw) as Hr.
    destruct (destroy_descriptor _ _) as [[[] w]|]; [|done].
    rewrite delete_insert_id in Hr by done. exact Hr.
  - unfold destroy_descriptor, reset. cbv [mbind sys_bind mret sys_ret].
    rewrite (proj2 (Z.leb_gt 0 (descriptor this)) Hd). exact Hn.
Qed.

Lemma runs_destroy_client F n client :
  io_runs (owns F n client) (destroy_client client) (fun _ net => holding F n (world net)).
Proof.
  destruct client as [this|]; [apply owned_destroy|]. by apply io_runs_ret.
Qed.

Lemma runs_disconnect F n client :
  io_runs (owns F n client) (disconnect client)
    (fun client' net => owns F n client' net /\ connected client' = false).
Proof.
  destruct client as [this|]; [|by apply io_runs_ret]. intros net Hn.
  pose proof (owned_destroy F n this net Hn) as Hd. revert Hd. unfold disconnect, invalidate, io_sys.
  cbv [mbind io_bind mret io_ret]. unfold destroy_descriptor. cbv [mbind sys_bind mret sys_ret].
  destruct (reset (descriptor this) (-1) (world net)) as [[d w]|] eqn:Hr; [|done].
  assert (d = -1) as ->; [|by intros Hw].
  revert Hr. unfold reset. cbv [mbind sys_bind mret sys_ret].
  destruct (if _ : bool then _ else _) as [[[] w']|]; congruence.
Qed.

Lemma runs_connect_client F n path listening peer client :
  link_wf peer ->
  io_runs (owns F n client) (connect path listening peer client)
    (fun a net => owns F n a.2 net /\ (status_ok a.1 = true -> connected a.2 = true) /\
       (status_ok a.1 = false -> a.2 = Some (default fresh_impl client))).
Proof.
  intros Hpeer. unfold connect. set (impl := default fresh_impl client).
  intros net Hn. assert (holds F n impl net) as Himpl by by destruct client.
  clear Hn. unfold io_sys. cbv [mbind io_bind].
  assert (exists G, holding G n (world net) /\
    if valid impl then exists x, F !! descriptor impl = None /\ G = <[descriptor impl := x]> F
    else G = F) as (G & Hw & HG).
  { unfold holds in Himpl. destruct (valid impl); [|by exists F].
    destruct Himpl as (? & _ & x & ?). eauto. }
  pose proof (runs_connect_unix_socket True G n path listening (world net) Hw) as Hc.
  destruct (connect_unix_socket path listening (world net)) as [[[fd|st] w]|]; [| |done].
  2: { destruct Hc as [Hst Hw']. cbv [mret io_ret]. cbn [fst snd owns]. split; [|split; [congruence|done]].
       unfold holds in *.
       destruct (valid impl); [|by subst G]. destruct HG as (x & Hfr & ->).
       destruct Himpl as (_ & Hl & _). eauto. }
  destruct Hc as (o & _ & H0 & Hfr & [Hf Hb]). unfold move_descriptor, release_descriptor, reset.
  cbn [world link]. cbv [mbind sys_bind mret sys_ret io_ret]. fold (valid impl).
  assert (F !! fd = None) as HF.
  { destruct (valid impl); [|by subst G]. destruct HG as (x & Hd & ->).
    by apply lookup_insert_None in Hfr as []. }
  assert (exists w', (if valid impl then sys_close (descriptor impl) else mret tt) w = Some (tt, w') /\
    holding (<[fd := (o, true)]> F) n w') as (w' & E & Hw').
  { destruct (valid impl); [|exists w; by subst G]. destruct HG as (x & Hd & ->).
    apply lookup_insert_None in Hfr as [_ Hne]. unfold sys_close. rewrite Hf.
    rewrite bool_decide_eq_true_2 by (rewrite lookup_insert_ne, lookup_insert_eq by done; eauto).
    eexists. split; [done|]. split; [|done]. cbn.
    by rewrite delete_insert_ne, delete_insert_id by done. }
  cbv [mret sys_ret] in E. rewrite E. cbn. split; [|split; [by intros _; apply Z.leb_le|]].
  - change (holds F n (mk_Impl fd 1) (mk_Net w' peer)). unfold holds.
    rewrite (proj2 (Z.leb_le 0 fd) H0 : valid (mk_Impl fd 1) = true). cbn. eauto.
  - unfold status_ok, success. cbn. by rewrite Z.eqb_refl.
Qed.

Lemma runs_status_call F n request client :
  io_runs (owns F n client) (status_call request client) (fun a net => owns F n a.2 net).
Proof.
  destruct client as [this|]; [|by apply io_runs_ret]. intros net Hn. unfold status_call.
  cbv [mbind io_bind]. pose proof (runs_client_call F n request this (link net) net (conj Hn eq_refl)) as Hc.
  destruct (call request this net) as [[[result this'] net']| |]; [|done|done].
  destruct Hc as (r & _ & _ & Hh). exact Hh.
Qed.

Lemma runs_shutdown F n client :
  io_runs (owns F n client) (daemon_shutdown client) (fun a net => owns F n a.2 net).
Proof.
  destruct client as [this|]; [|by apply io_runs_ret]. unfold daemon_shutdown.
  eapply io_runs_bind; [apply runs_status_call|]. intros [[status|exn] client]; cbn beta iota.
  - eapply io_runs_bind; [apply runs_disconnect|]. intros client'. apply io_runs_ret. by intros net [? _].
  - by apply io_runs_ret.
Qed.

Lemma runs_perform F n o client :
  op_wf o -> io_runs (owns F n client) (perform o client) (fun client' net => owns F n client' net).
Proof.
  intros Ho. destruct o; unfold perform.
  - eapply io_runs_bind; [by apply runs_connect_client|]. intros [st c]. apply io_runs_ret.
    by intros net [? _].
  - eapply io_runs_weaken; [apply runs_disconnect|done|]. by intros c net [? _].
  - eapply io_runs_bind; [apply runs_status_call|]. intros [st c]. by apply io_runs_ret.
  - eapply io_runs_bind; [apply runs_shutdown|]. intros [st c]. by apply io_runs_ret.
  - eapply io_runs_bind; [apply runs_destroy_client|]. intros []. by apply io_runs_ret.
Qed.

Lemma runs_perform_all F n ops client :
  Forall op_wf ops ->
  io_runs (owns F n client) (perform_all ops client) (fun client' net => owns F n client' net).
Proof.
  intros Hops. revert client. induction Hops as [|o ops Ho _ IH]; intros client; cbn [perform_all].
  - by apply io_runs_ret.
  - eapply io_runs_bind; [by apply runs_perform|]. intros c. apply IH.
Qed.

(** C35: A client owns its descriptor exactly once: after any sequence of connections (also
    over an existing one), calls, shutdowns, disconnections and moves, under every
    interference, refusal and answer of the peer, the open descriptors are those from
    before and at most the client's own, and destroying the client gives back exactly
    those; nothing is ever closed twice, and no operation runs out of fuel. *)
Theorem client_owns_descriptor ops net :
  Forall op_wf ops ->
  match (client ← perform_all ops make_client; _ ← destroy_client client; mret client) net with
  | Done (client, net') => fds (world net') = fds (world net) /\
      bad_closes (world net') = bad_closes (world net)
  | Blocked => True
  | OutOfFuel => False
  end.
Proof.
  intros Hops. cut (io_runs (owns (fds (world net)) (bad_closes (world net)) make_client)
    (client ← perform_all ops make_client; _ ← destroy_client client; mret client)
    (fun _ net' => holding (fds (world net)) (bad_closes (world net)) (world net'))).
  { intros H. by apply H. }
  eapply io_runs_bind; [by apply runs_perform_all|]. intros client.
  eapply io_runs_bind; [apply runs_destroy_client|]. intros []. by apply io_runs_ret.
Qed.

(** ** End to end *)

Lemma encoded_request_payload r bs :
  request_fits r -> encode_request r = Return (ROk bs) -> frame_payload_ok bs.
Proof.
  intros Hr Henc. destruct (encoded_request_decodes r bs Hr Henc) as [Hmax Hdec]. split; [|exact Hmax].
  intros ->. by vm_compute in Hdec.
Qed.

Lemma encoded_response_payload r bs :
  response_fits r -> encode_response r = Return (ROk bs) -> frame_payload_ok bs.
Proof.
  intros Hr Henc. destruct (encoded_response_decodes r bs Hr Henc) as [Hmax (r' & Hdec & _)].
  split; [|exact Hmax]. intros ->. revert Hdec. unfold decode_response.
  destruct (_ || _); [done|]. by vm_compute.
Qed.

(** A call whose answer arrives. *)
Lemma call_answered F n request response encoded bs this net rest e m :
  holds F n this net -> valid this = true -> next_request_id this <> 0 ->
  request_fits (correlate (next_request_id this) request) -> response_fits response ->
  resp_request_id response = next_request_id this ->
  resp_method response = req_method request ->
  encode_request (correlate (next_request_id this) request) = Return (ROk encoded) ->
  encode_response response = Return (ROk bs) ->
  0 <= m -> roomy (4 + zlen encoded + m) (outbound (link net)) ->
  stream (incoming (link net)) = (frame_bytes bs ++ rest, e) ->
  exists response' net',
    call request this net = Done (Return (ROk response'), kept this, net') /\
    response_equiv response response' /\
    stream (incoming (link net')) = (rest, e) /\
    sent (outbound (link net')) = sent (outbound (link net)) ++ frame_bytes encoded /\
    roomy m (outbound (link net')) /\ holds F n (kept this) net'.
Proof.
  intros Hn Hv Hz Hreq Hresp Hid Hm Henc Hencr H0 Hroom Hs. unfold holds in Hn |- *.
  rewrite Hv in Hn. change (valid (kept this)) with (valid this). rewrite Hv.
  destruct Hn as (Hfr & [Hai Hco] & Hw). pose proof Hv as Hd%Z.leb_le.
  pose proof (encoded_request_payload _ _ Hreq Henc) as Hp.
  pose proof (encoded_response_payload _ _ Hresp Hencr) as Hpr.
  destruct (encoded_response_decodes _ _ Hresp Hencr) as [_ (response' & Hdec & Heq)].
  destruct (write_frame_total (descriptor this) encoded (outbound (link net)) m)
    as (out & Hwr & Hm'); [done..|].
  destruct (write_frame_prefix _ _ _ _ _ Hco Hwr) as (k & Hk & _ & Hok & Hwf).
  rewrite (Hok (Z.eqb_refl _)) in Hk. clear k Hok.
  destruct (frame_read_back (descriptor this) bs None (incoming (link net)) rest e Hpr Hd Hai Hs)
    as (s' & Hread & Hs' & Hai').
  exists response', (mk_Net (world net) (mk_Link s' out)). split_and!; try done.
  unfold call. rewrite Hv. cbn [negb]. rewrite (proj2 (Z.eqb_neq _ _) Hz), Henc.
  unfold await_response, io_write, io_read. cbv [mbind io_bind mret io_ret]. cbn [descriptor].
  rewrite Hwr. cbn [link world incoming outbound].
  rewrite (Z.eqb_refl _ : status_ok success = true). cbn [descriptor link world incoming outbound].
  rewrite Hread. cbn [correlate req_method req_request_id].
  by rewrite <-Hm, <-Hid, Hdec, Hid.
Qed.

(** The server's end of the stream: the frame read and the request decoded, however the
    bytes [k] arrive. *)
Definition received_as (k : bytes) (request : Request) : Prop :=
  forall d progress s more e, 0 <= d -> arrivals_wf s -> stream s = (k ++ more, e) ->
  exists payload progress' s',
    read_frame d progress s = Done (ROk payload, progress', s') /\ stream s' = (more, e) /\
    decode_request payload = ROk request.

(** End to end: on a working connection a request that can be encoded is sent whole, and
    the server, however the bytes are cut and interrupted on their way, reads one frame and
    decodes exactly the request with the client's next identifier; and once the encoded
    response of that correlation arrives, again in any pieces, [call] returns that
    response, keeps the connection and leaves what follows on the stream. *)
Theorem rpc_end_to_end F n request response encoded bs this net rest e :
  holds F n this net -> valid this = true -> next_request_id this <> 0 ->
  request_fits (correlate (next_request_id this) request) -> response_fits response ->
  resp_request_id response = next_request_id this ->
  resp_method response = req_method request ->
  encode_request (correlate (next_request_id this) request) = Return (ROk encoded) ->
  encode_response response = Return (ROk bs) ->
  roomy (4 + zlen encoded) (outbound (link net)) ->
  stream (incoming (link net)) = (frame_bytes bs ++ rest, e) ->
  exists response' net' k,
    call request this net = Done (Return (ROk response'), kept this, net') /\
    response_equiv response response' /\
    stream (incoming (link net')) = (rest, e) /\
    sent (outbound (link net')) = sent (outbound (link net)) ++ k /\
    received_as k (canonical_request (correlate (next_request_id this) request)).
Proof.
  intros Hn Hv Hz Hreq Hresp Hid Hm Henc Hencr Hroom Hs.
  destruct (call_answered F n request response encoded bs this net rest e 0)
    as (response' & net' & Hc & Heq & Hs' & Hsent & _); try done; [by rewrite Z.add_0_r|].
  exists response', net', (frame_bytes encoded). split_and!; try done.
  pose proof (encoded_request_payload _ _ Hreq Henc) as Hp.
  intros d progress s more e' Hd' Hwf Hst.
  destruct (frame_read_back d encoded progress s more e' Hp Hd' Hwf Hst) as (s2 & Hr & Hs2 & _).
  eexists _, _, s2. split_and!; [exact Hr|done|].
  by destruct (encoded_request_decodes _ _ Hreq Henc).
Qed.
End ClientSpec.
