(* ===== verification/Server.v ===== *)
(** The local server ([src/lib/server/server.cpp]): one thread accepts, one thread serves
    each connection, and anyone may stop the server.

    A thread is a program point; a step is what it does between two points at which others
    can observe it: under a mutex, on an atomic, in a call of the service.  Reading or
    writing a frame is one step, taken when [read_frame] or [write_frame] returns on what
    the peer has sent and the kernel accepts by then.  [shutdown] on a connection ends what
    it will receive and fails its further writes. *)
From S2P Require Import Prelude OrdMap Kernel Protocol Wire Codec Frame Jobs JobSystem.
From S2P Require Import Service.

(** [ServerConfig]. *)
Record ServerConfig := mk_ServerConfig {
  scfg_socket_path : bytes;
  scfg_service : ServiceConfig;
  scfg_listen_backlog : Z;
  scfg_maximum_active_connections : Z;
}.

Section Server.
Context `{RT : Runtime}.

(** The test of [Server::Server], before any resource is taken. *)
Definition server_config_valid (config : ServerConfig) : bool :=
  let service := scfg_service config in
  negb (bool_decide (scfg_socket_path config = []) || (scfg_listen_backlog config <=? 0)
        || (cfg_maximum_concurrency service =? 0) || (cfg_maximum_jobs service =? 0)
        || (cfg_maximum_sessions service =? 0)
        || (scfg_maximum_active_connections config =? 0)
        || (4096 <? scfg_maximum_active_connections config)).

(** ** Failure responses *)

(** [set_failure_without_allocation]. *)
Definition set_failure_without_allocation (c : Z) : Status :=
  mk_Status (if c =? Ok then Internal else c) [].

(** The bytes [write_protocol_failure] writes, if any: an encoder that fails or throws ends
    the attempt. *)
Definition protocol_failure (status : Status) (request_payload : option bytes)
    (progress : option FrameReadProgress) : option bytes :=
  let payload :=
    match request_payload, progress with
    | None, Some p =>
      if payload_prefix_size p =? 0 then None
      else Some (take (Z.to_nat (payload_prefix_size p)) (payload_prefix p))
    | _, _ => request_payload
    end in
  match encode_protocol_error status payload with
  | Return (ROk encoded) => Some encoded
  | _ => None
  end.

(** The status of [write_handler_failure]; the diagnostic may not be allocated. *)
Definition handler_failure (e : exn) (again : bool) : Status :=
  let c := match e with BadAlloc => ResourceExhausted | _ => Internal end in
  if again then set_failure_without_allocation c
  else failure c match e with
                 | BadAlloc => lit "connection handler allocation failed"
                 | StdException what => default [] what
                 | NonStandard => lit "connection handler raised an exception"
                 end.

(** ** Stopping *)

(** Where a caller of [stop] is. *)
Inductive stop_pc := StopExchange | StopListener | StopConnections | StopReturned.

(** ** Handlers *)

(** The program points of a handler thread. *)
Inductive handler_pc :=
| HRegister
| HTop                                               (* the test of the loop *)
| HRead
| HDecode (frame : bytes)
| HDispatch (frame : bytes) (c : nat)                (* in [dispatch], as call [c] *)
| HEncode (frame : bytes) (c : nat) (response : Response)
| HWrite (c : nat) (encoded : bytes)
| HCatch (e : exn)
| HFailure (status : Status) (payload : option bytes) (progress : option FrameReadProgress)
| HTail
| HStop (p : stop_pc)
| HErase
| HClose
| HFlag                                              (* [~HandlerCompletion] *)
| HRelease
| HEnd.

(** A connection and its thread.  [h_delivered] and [h_calls] are history: everything that
    arrived on the stream, and the calls of [dispatch] that were answered to the peer. *)
Record Handler := mk_Handler {
  h_descriptor : Z;
  h_pc : handler_pc;
  h_incoming : list arrival;
  h_outgoing : outgoing;
  h_progress : FrameReadProgress;
  h_registered : bool;
  h_accepted_shutdown : bool;
  h_finished : bool;
  h_shut : bool;                                       (* [shutdown] was called on it *)
  h_delivered : list arrival;
  h_calls : list nat;
}.

Definition h_to (pc : handler_pc) (h : Handler) : Handler :=
  mk_Handler (h_descriptor h) pc (h_incoming h) (h_outgoing h) (h_progress h) (h_registered h)
    (h_accepted_shutdown h) (h_finished h) (h_shut h) (h_delivered h) (h_calls h).
Definition h_read (s : list arrival) (p : FrameReadProgress) (h : Handler) : Handler :=
  mk_Handler (h_descriptor h) (h_pc h) s (h_outgoing h) p (h_registered h)
    (h_accepted_shutdown h) (h_finished h) (h_shut h) (h_delivered h) (h_calls h).
Definition h_wrote (o : outgoing) (h : Handler) : Handler :=
  mk_Handler (h_descriptor h) (h_pc h) (h_incoming h) o (h_progress h) (h_registered h)
    (h_accepted_shutdown h) (h_finished h) (h_shut h) (h_delivered h) (h_calls h).
Definition h_register (h : Handler) : Handler :=
  mk_Handler (h_descriptor h) (h_pc h) (h_incoming h) (h_outgoing h) (h_progress h) true
    (h_accepted_shutdown h) (h_finished h) (h_shut h) (h_delivered h) (h_calls h).
Definition h_accept (b : bool) (h : Handler) : Handler :=
  mk_Handler (h_descriptor h) (h_pc h) (h_incoming h) (h_outgoing h) (h_progress h)
    (h_registered h) b (h_finished h) (h_shut h) (h_delivered h) (h_calls h).
Definition h_finish (h : Handler) : Handler :=
  mk_Handler (h_descriptor h) (h_pc h) (h_incoming h) (h_outgoing h) (h_progress h)
    (h_registered h) (h_accepted_shutdown h) true (h_shut h) (h_delivered h) (h_calls h).
Definition h_arrive (a : list arrival) (h : Handler) : Handler :=
  mk_Handler (h_descriptor h) (h_pc h) (h_incoming h ++ a) (h_outgoing h) (h_progress h)
    (h_registered h) (h_accepted_shutdown h) (h_finished h) (h_shut h) (h_delivered h ++ a)
    (h_calls h).
Definition h_answered (c : nat) (h : Handler) : Handler :=
  mk_Handler (h_descriptor h) (h_pc h) (h_incoming h) (h_outgoing h) (h_progress h)
    (h_registered h) (h_accepted_shutdown h) (h_finished h) (h_shut h) (h_delivered h)
    (h_calls h ++ [c]).

(** A new connection. *)
Definition new_handler (descriptor : Z) (capacity : list capacity) : Handler :=
  mk_Handler descriptor HRegister [] (mk_outgoing capacity []) default_progress false false false
    false [] [].

(** Whether the thread is writing. *)
Definition writing (pc : handler_pc) : bool :=
  match pc with HWrite _ _ | HFailure _ _ _ => true | _ => false end.

(** [shutdown_descriptor] on an open connection: end of file after what has arrived; a
    write that has begun keeps what the kernel took. *)
Definition shut (h : Handler) : Handler :=
  mk_Handler (h_descriptor h) (h_pc h) (h_incoming h ++ [PeerClosed])
    (mk_outgoing (if writing (h_pc h) then capacities (h_outgoing h) else [])
       (sent (h_outgoing h)))
    (h_progress h) (h_registered h) (h_accepted_shutdown h) (h_finished h) true
    (h_delivered h ++ [PeerClosed]) (h_calls h).

(** The kernel's side of a write: after [shutdown] every further [send] fails. *)
Definition sending (broken_pipe : bytes) (h : Handler) : outgoing :=
  if h_shut h
  then mk_outgoing (capacities (h_outgoing h) ++ [SendFailed broken_pipe]) (sent (h_outgoing h))
  else h_outgoing h.

(** The connection is closed when [serve_connection] returns. *)
Definition h_open (h : Handler) : bool :=
  match h_pc h with HFlag | HRelease | HEnd => false | _ => true end.

(** ** The accepting thread *)

(** What [accept_same_user] returned; an accepted peer with its descriptor and what the
    kernel lets be sent to it for a start. *)
Inductive accepted :=
| AcceptedPeer (descriptor : Z) (capacity : list capacity)
| RejectedPeer
| AcceptFailed (status : Status).

(** How [run] ends: it returns a status or throws. *)
Abbreviation run_outcome := (Status + exn)%type.

(** The program points of [run], and of [~Impl] after it. *)
Inductive run_pc :=
| RStart                                             (* not called; its owner may throw *)
| RTop                                               (* the test of the loop *)
| RListener
| RAccept (listener : Z)
| RTest (a : accepted)
| RReap (descriptor : Z) (capacity : list capacity) (i : nat)
| RCapacity (descriptor : Z) (capacity : list capacity)
| RRefuse (descriptor : Z) (capacity : list capacity)
| RReserve (descriptor : Z) (capacity : list capacity)
| RSpawn (descriptor : Z) (capacity : list capacity)
| RFailed (slot_reserved : bool) (e : exn)           (* the outer catch clause *)
| RFatal (p : stop_pc) (status : Status)             (* [stop] in the loop *)
| RStop (p : stop_pc) (o : run_outcome)
| RSwap (o : run_outcome)                            (* [join_handlers] *)
| RJoin (owned : list nat) (o : run_outcome)
| RRemove (o : run_outcome)
| RReturned (o : run_outcome)
| DStop (p : stop_pc)                                (* [~Impl] *)
| DSwap
| DJoin (owned : list nat)
| DRemove
| DService
| DWorkers (w : nat)                                 (* [JobRegistry::stop], joining *)
| Gone.

(** ** State *)

Record ServerState := mk_ServerState {
  service : ServiceState;
  socket_node_owned : bool;                          (* [socket_node] was not removed *)
  listener_fd : Z;
  stopping : bool;
  active_connections : gset Z;
  handlers : list nat;                               (* retained records, by thread *)
  active_handlers : Z;
  threads : list Handler;
  run : run_pc;
  stoppers : list stop_pc;                           (* callers of [request_stop] *)
}.

Definition set_service (x : ServiceState) (s : ServerState) : ServerState :=
  mk_ServerState x (socket_node_owned s) (listener_fd s) (stopping s) (active_connections s)
    (handlers s) (active_handlers s) (threads s) (run s) (stoppers s).
Definition set_node (x : bool) (s : ServerState) : ServerState :=
  mk_ServerState (service s) x (listener_fd s) (stopping s) (active_connections s)
    (handlers s) (active_handlers s) (threads s) (run s) (stoppers s).
Definition set_listener (x : Z) (s : ServerState) : ServerState :=
  mk_ServerState (service s) (socket_node_owned s) x (stopping s) (active_connections s)
    (handlers s) (active_handlers s) (threads s) (run s) (stoppers s).
Definition set_stopping (s : ServerState) : ServerState :=
  mk_ServerState (service s) (socket_node_owned s) (listener_fd s) true (active_connections s)
    (handlers s) (active_handlers s) (threads s) (run s) (stoppers s).
Definition set_connections (x : gset Z) (s : ServerState) : ServerState :=
  mk_ServerState (service s) (socket_node_owned s) (listener_fd s) (stopping s) x
    (handlers s) (active_handlers s) (threads s) (run s) (stoppers s).
Definition set_handlers (x : list nat) (s : ServerState) : ServerState :=
  mk_ServerState (service s) (socket_node_owned s) (listener_fd s) (stopping s)
    (active_connections s) x (active_handlers s) (threads s) (run s) (stoppers s).
(** A [std::atomic<std::uint32_t>]. *)
Definition set_active (x : Z) (s : ServerState) : ServerState :=
  mk_ServerState (service s) (socket_node_owned s) (listener_fd s) (stopping s)
    (active_connections s) (handlers s) (x mod 2 ^ 32) (threads s) (run s) (stoppers s).
Definition set_threads (x : list Handler) (s : ServerState) : ServerState :=
  mk_ServerState (service s) (socket_node_owned s) (listener_fd s) (stopping s)
    (active_connections s) (handlers s) (active_handlers s) x (run s) (stoppers s).
Definition set_run (x : run_pc) (s : ServerState) : ServerState :=
  mk_ServerState (service s) (socket_node_owned s) (listener_fd s) (stopping s)
    (active_connections s) (handlers s) (active_handlers s) (threads s) x (stoppers s).
Definition set_stoppers (x : list stop_pc) (s : ServerState) : ServerState :=
  mk_ServerState (service s) (socket_node_owned s) (listener_fd s) (stopping s)
    (active_connections s) (handlers s) (active_handlers s) (threads s) (run s) x.
Definition set_thread (k : nat) (h : Handler) (s : ServerState) : ServerState :=
  set_threads (<[k:=h]> (threads s)) s.

Section Operations.
Context (config : ServerConfig) (instance_id : Z) (daemon_version broken_pipe : bytes).

(** One step of [stop]. *)
Definition stop_step (p : stop_pc) (s : ServerState) : option (ServerState * stop_pc) :=
  match p with
  | StopExchange =>
    Some (if stopping s then (s, StopReturned) else (set_stopping s, StopListener))
  | StopListener => Some (set_listener (-1) s, StopConnections)
  | StopConnections =>
    Some (set_threads
            ((fun h => if h_open h && bool_decide (h_descriptor h ∈ active_connections s)
                       then shut h else h) <$> threads s) s, StopReturned)
  | StopReturned => None
  end.

(** ** [serve_connection] *)

(** What the environment decides at a step of a handler: nothing, or an exception; of
    [read_frame] one after the given number of arrivals. *)
Inductive handler_input :=
| HProceed
| HThrows (e : exn) (arrivals : nat).

(** The end of a failure response: an unregistered connection returns at once. *)
Definition after_failure (h : Handler) : Handler :=
  h_to (if h_registered h then HTail else HClose) h.

(** The first [read_frame] of an iteration, or its exception. *)
Definition handler_read (i : handler_input) (h : Handler) : option Handler :=
  match i with
  | HProceed =>
    match read_frame (h_descriptor h) (Some (h_progress h)) (h_incoming h) with
    | Done (ROk frame, Some p, s) => Some (h_to (HDecode frame) (h_read s p h))
    | Done (RErr status, Some p, s) =>
      Some (h_to (if code status =? NotFound then HTail else HFailure status None (Some p))
              (h_read s p h))
    | _ => None
    end
  | HThrows e k =>
    match read_frame (h_descriptor h) (Some (h_progress h))
            (take k (h_incoming h) ++ [PeerClosed]) with
    | Done (_, Some p, _) => Some (h_to (HCatch e) (h_read (h_incoming h) p h))
    | _ => None
    end
  end.

(** [write_frame] of a response. *)
Definition handler_write (i : handler_input) (c : nat) (encoded : bytes) (h : Handler) :
    option Handler :=
  match write_frame (h_descriptor h) encoded (sending broken_pipe h) with
  | Done (status, o) =>
    let h := h_wrote o h in
    Some (if status_ok status
          then h_to (if h_accepted_shutdown h then HTail else HTop) (h_answered c h)
          else match i with
               | HThrows e _ => h_to (HCatch e) h
               | HProceed => h_to HTail h
               end)
  | _ => None
  end.

(** [write_protocol_failure]. *)
Definition handler_fail (i : handler_input) (status : Status) (payload : option bytes)
    (progress : option FrameReadProgress) (h : Handler) : option Handler :=
  match i, protocol_failure status payload progress with
  | HProceed, Some encoded =>
    match write_frame (h_descriptor h) encoded (sending broken_pipe h) with
    | Done (_, o) => Some (after_failure (h_wrote o h))
    | _ => None
    end
  | _, _ => Some (after_failure h)
  end.

(** One step of handler [k]; [None] when it waits or has ended. *)
Definition handler_step (i : handler_input) (k : nat) (s : ServerState) : option ServerState :=
  h ← threads s !! k;
  let go h' := Some (set_thread k h' s) in
  match h_pc h with
  | HRegister =>
    match i with
    | HProceed =>
      Some (set_thread k (h_to HTop (h_register h))
              (set_connections ({[h_descriptor h]} ∪ active_connections s) s))
    | HThrows _ _ =>
      go (h_to (HFailure (set_failure_without_allocation ResourceExhausted) None None) h)
    end
  | HTop => go (h_to (if stopping s then HTail else HRead) h)
  | HRead => h' ← handler_read i h; go h'
  | HDecode frame =>
    match i with
    | HThrows e _ => go (h_to (HCatch e) h)
    | HProceed =>
      match decode_request frame with
      | RErr status => go (h_to (HFailure status (Some frame) None) h)
      | ROk request =>
        x ← service_step (scfg_service config) instance_id daemon_version (SDispatch request)
              (service s);
        Some (set_thread k (h_to (HDispatch frame (length (calls (service s)))) h)
                (set_service x s))
      end
    end
  | HDispatch frame c =>
    match calls (service s) !! c with
    | Some (_, CDone response) =>
      go (h_to (HEncode frame c response)
            (h_accept (status_ok (resp_status response) && resp_shutdown_after_write response) h))
    | _ => None
    end
  | HEncode frame c response =>
    match i, encode_response response with
    | HThrows e _, _ => go (h_to (HCatch e) h)
    | HProceed, Return (ROk encoded) => go (h_to (HWrite c encoded) h)
    | HProceed, Return (RErr status) => go (h_to (HFailure status (Some frame) None) h)
    | HProceed, Throw (CodecFailure _ what) | HProceed, Throw (StdInvalidArgument what) =>
      go (h_to (HCatch (StdException (Some what))) h)
    end
  | HWrite c encoded => h' ← handler_write i c encoded h; go h'
  | HCatch e =>
    go (h_to (HFailure (handler_failure e (match i with HThrows _ _ => true | _ => false end))
                None (Some (h_progress h))) h)
  | HFailure status payload progress => h' ← handler_fail i status payload progress h; go h'
  | HTail => go (h_to (if h_accepted_shutdown h then HStop StopExchange else HErase) h)
  | HStop StopReturned => go (h_to HErase h)
  | HStop p =>
    '(s', p') ← stop_step p s;
    h' ← threads s' !! k;
    Some (set_thread k (h_to (HStop p') h') s')
  | HErase =>
    Some (set_thread k (h_to HClose h)
            (set_connections (active_connections s ∖ {[h_descriptor h]}) s))
  | HClose => go (h_to HFlag h)
  | HFlag => go (h_to HRelease (h_finish h))
  | HRelease => Some (set_thread k (h_to HEnd h) (set_active (active_handlers s - 1) s))
  | HEnd => None
  end.

(** ** [run] and [~Impl] *)

(** What the environment decides at a step of the accepting thread. *)
Inductive run_input :=
| RProceed
| RAnswer (a : accepted)                             (* of [accept_same_user] *)
| RThrows (e : exn).

(** [send] accepts no negative number of bytes. *)
Definition capacity_ok (c : capacity) : bool :=
  match c with Accept n => 0 <=? n | _ => true end.

(** A descriptor the kernel can give out. *)
Definition fresh_descriptor (d : Z) (s : ServerState) : bool :=
  (0 <=? d) && negb (d =? listener_fd s)
  && forallb (fun h => negb (h_open h && (h_descriptor h =? d))) (threads s).

Definition capacity_status : Status :=
  failure ResourceExhausted (lit "active connection capacity is exhausted").

(** A thread has ended, so that joining it returns. *)
Definition ended (s : ServerState) (k : nat) : bool :=
  match threads s !! k with
  | Some h => match h_pc h with HEnd => true | _ => false end
  | None => false
  end.

(** The flag of a retained record. *)
Definition flagged (s : ServerState) (k : nat) : bool :=
  match threads s !! k with Some h => h_finished h | None => false end.

(** One step of the accepting thread; [None] when it waits. *)
Definition run_step (i : run_input) (s : ServerState) : option ServerState :=
  let goto pc := Some (set_run pc s) in
  match run s with
  | RStart =>
    match i with
    | RThrows e => goto (RReturned (inr e))
    | _ => goto (if stopping s then RReturned (inl success) else RTop)
    end
  | RTop => goto (if stopping s then RStop StopExchange (inl success) else RListener)
  | RListener =>
    goto (if listener_fd s <? 0 then RStop StopExchange (inl success) else RAccept (listener_fd s))
  | RAccept _ =>
    match i with
    | RProceed => None
    | RThrows e => goto (RReturned (inr e))
    | RAnswer (AcceptedPeer d capacity) =>
      if fresh_descriptor d s && forallb capacity_ok capacity
      then goto (RTest (AcceptedPeer d capacity)) else None
    | RAnswer a => goto (RTest a)
    end
  | RTest a =>
    if stopping s then goto (RStop StopExchange (inl success))
    else match a with
         | RejectedPeer => goto RTop
         | AcceptFailed status => goto (RFatal StopExchange status)
         | AcceptedPeer d capacity => goto (RReap d capacity 0)
         end
  | RReap d capacity n =>
    match handlers s !! n with
    | None => goto (RCapacity d capacity)
    | Some k =>
      if negb (flagged s k) then goto (RReap d capacity (S n))
      else if ended s k then Some (set_handlers (delete n (handlers s)) s)
      else None
    end
  | RCapacity d capacity =>
    goto (if scfg_maximum_active_connections config <=? active_handlers s
          then RRefuse d capacity else RReserve d capacity)
  | RRefuse d capacity =>
    match i with
    | RThrows e => goto (RReturned (inr e))
    | _ =>
      match protocol_failure capacity_status None None with
      | None => goto RTop
      | Some encoded =>
        match write_frame d encoded (mk_outgoing capacity []) with
        | Done _ => goto RTop
        | _ => None
        end
      end
    end
  | RReserve d capacity =>
    match i with
    | RThrows e => goto (RFailed false e)
    | _ => Some (set_run (RSpawn d capacity) (set_active (active_handlers s + 1) s))
    end
  | RSpawn d capacity =>
    match i with
    | RThrows e => goto (RFailed true e)
    | _ =>
      Some (set_run RTop
              (set_handlers (handlers s ++ [length (threads s)])
                 (set_threads (threads s ++ [new_handler d capacity]) s)))
    end
  | RFailed slot_reserved e =>
    Some (set_run (RStop StopExchange (inr e))
            (if slot_reserved : bool then set_active (active_handlers s - 1) s else s))
  | RFatal StopReturned status => goto (RStop StopExchange (inl status))
  | RFatal p status => '(s', p') ← stop_step p s; Some (set_run (RFatal p' status) s')
  | RStop StopReturned o => goto (RSwap o)
  | RStop p o => '(s', p') ← stop_step p s; Some (set_run (RStop p' o) s')
  | RSwap o => Some (set_run (RJoin (handlers s) o) (set_handlers [] s))
  | RJoin (k :: owned) o => if ended s k then goto (RJoin owned o) else None
  | RJoin [] o => goto (RRemove o)
  | RRemove o => Some (set_run (RReturned o) (set_node false s))
  | RReturned _ =>
    if forallb (fun p => match p with StopReturned => true | _ => false end) (stoppers s)
    then goto (DStop StopExchange) else None
  | DStop StopReturned => goto DSwap
  | DStop p => '(s', p') ← stop_step p s; Some (set_run (DStop p') s')
  | DSwap => Some (set_run (DJoin (handlers s)) (set_handlers [] s))
  | DJoin (k :: owned) => if ended s k then goto (DJoin owned) else None
  | DJoin [] => goto DRemove
  | DRemove => Some (set_run DService (set_node false s))
  | DService =>
    x ← service_step (scfg_service config) instance_id daemon_version SDestroy (service s);
    Some (set_run (DWorkers 0) (set_service x s))
  | DWorkers w =>
    match workers (sys (service s)) !! w with
    | Some WExited => goto (DWorkers (S w))
    | Some _ => None
    | None => goto Gone
    end
  | Gone => None
  end.

(** ** The server as a system *)

(** [recv] reports at least one byte of an open stream, and bytes. *)
Definition arrival_ok (a : arrival) : bool :=
  match a with
  | Arrive data => negb (bool_decide (data = [])) && forallb (fun b => (0 <=? b) && (b <? 256)) data
  | _ => true
  end.

Inductive server_event :=
| VHandler (k : nat) (i : handler_input)
| VRun (i : run_input)
| VWorker (w : nat) (i : worker_input)               (* a worker of the service *)
| VCall (c : nat) (i : call_input)                   (* a call of [dispatch] goes on *)
| VRequestStop                                       (* [Server::request_stop] is called *)
| VStopper (n : nat)                                 (* and goes on *)
| VDeliver (k : nat) (a : list arrival)              (* the peer of connection [k] *)
| VRoom (k : nat) (capacity : list capacity).

(** [main] requests a stop only while the server lives. *)
Definition alive (s : ServerState) : bool :=
  match run s with
  | DStop _ | DSwap | DJoin _ | DRemove | DService | DWorkers _ | Gone => false
  | _ => true
  end.

Definition server_step (e : server_event) (s : ServerState) : option ServerState :=
  match e with
  | VHandler k i => handler_step i k s
  | VRun i => run_step i s
  | VWorker w i =>
    x ← service_step (scfg_service config) instance_id daemon_version (SWorker w i) (service s);
    Some (set_service x s)
  | VCall c i =>
    x ← service_step (scfg_service config) instance_id daemon_version (SStep c i) (service s);
    Some (set_service x s)
  | VRequestStop =>
    if alive s then Some (set_stoppers (stoppers s ++ [StopExchange]) s) else None
  | VStopper n =>
    p ← stoppers s !! n;
    '(s', p') ← stop_step p s;
    Some (set_stoppers (<[n:=p']> (stoppers s')) s')
  | VDeliver k a =>
    h ← threads s !! k;
    if forallb arrival_ok a then Some (set_thread k (h_arrive a h) s) else None
  | VRoom k capacity =>
    h ← threads s !! k;
    if h_shut h || negb (forallb capacity_ok capacity) then None
    else Some (set_thread k (h_wrote (mk_outgoing (capacities (h_outgoing h) ++ capacity)
                                        (sent (h_outgoing h))) h) s)
  end.

(** After construction. *)
Definition server_initial (listener : Z) : ServerState :=
  mk_ServerState (service_initial (scfg_service config)) true listener false ∅ [] 0 [] RStart [].

Inductive server_reachable (listener : Z) : ServerState -> Prop :=
| vreach_initial : server_reachable listener (server_initial listener)
| vreach_step s e s' :
    server_reachable listener s -> server_step e s = Some s' -> server_reachable listener s'.

Fixpoint server_run (es : list server_event) (s : ServerState) : option ServerState :=
  match es with
  | [] => Some s
  | e :: es' => s' ← server_step e s; server_run es' s'
  end.
End Operations.
End Server.
