(* ===== verification/ServerSpec.v ===== *)
(** What the server promises about its threads and descriptors: every handler is counted,
    retained until it is joined, and registered exactly while its connection is open, so
    that stopping interrupts these connections and no other descriptor. *)
From S2P Require Import Prelude OrdMap Kernel Protocol Wire Codec Frame Jobs JobSystem.
From S2P Require Import Service Server.

Section Places.
Context `{RT : Runtime}.

(** ** Where a thread is *)

(** What [shutdown] by another thread leaves alone: descriptor, registration, point. *)
Definition place (h : Handler) : Z * bool * handler_pc :=
  (h_descriptor h, h_registered h, h_pc h).

Abbreviation spot := (Z * bool * handler_pc)%type.
Definition at_fd (p : spot) : Z := p.1.1.

(** It still holds its slot of [active_handlers]. *)
Definition live (p : spot) : bool := match p.2 with HEnd => false | _ => true end.

(** Its completion flag is set. *)
Definition done_flag (p : spot) : bool :=
  match p.2 with HRelease | HEnd => true | _ => false end.

(** Its descriptor is open. *)
Definition opened (p : spot) : bool :=
  match p.2 with HFlag | HRelease | HEnd => false | _ => true end.

(** Its descriptor is in [active_connections]. *)
Definition attached (p : spot) : bool :=
  p.1.2 && match p.2 with HClose | HFlag | HRelease | HEnd => false | _ => true end.

(** The points only a registered connection reaches. *)
Definition serving (pc : handler_pc) : bool :=
  match pc with
  | HRegister | HFailure _ _ _ | HClose | HFlag | HRelease | HEnd => false
  | _ => true
  end.

(** The points inside the loop. *)
Definition in_loop (pc : handler_pc) : bool :=
  match pc with
  | HRead | HDecode _ | HDispatch _ _ | HEncode _ _ _ | HWrite _ _ | HCatch _
  | HFailure _ _ _ => true
  | _ => false
  end.

(** What holds of every thread on its own. *)
Record thread_ok (h : Handler) : Prop := {
  to_fd : 0 <= h_descriptor h;
  to_serving : serving (h_pc h) = true -> h_registered h = true;
  to_fresh : h_pc h = HRegister -> h_registered h = false;
  to_flag : h_finished h = done_flag (place h);
}.

(** ** One step of a handler *)

Section Steps.
Context (config : ServerConfig) (instance_id : Z) (daemon_version broken_pipe : bytes).

Abbreviation hstep := (handler_step config instance_id daemon_version broken_pipe).
Abbreviation rstep := (run_step config instance_id daemon_version).
Abbreviation vstep := (server_step config instance_id daemon_version broken_pipe).
Abbreviation vreach := (server_reachable config instance_id daemon_version broken_pipe).
Abbreviation sstep := (service_step (scfg_service config) instance_id daemon_version).
Abbreviation max_active := (scfg_maximum_active_connections config).

(** The registry of connections follows the place of the thread. *)
Definition follows (h h' : Handler) (c c' : gset Z) : Prop :=
  (attached (place h') = attached (place h) /\ c' = c) \/
  (attached (place h) = false /\ attached (place h') = true /\ c' = {[h_descriptor h]} ∪ c) \/
  (attached (place h) = true /\ attached (place h') = false /\ c' = c ∖ {[h_descriptor h]}).

(** What a step of handler [k] does to the server. *)
Record handler_moved (k : nat) (h h' : Handler) (s s' : ServerState) : Prop := {
  hm_places : place <$> threads s' = <[k:=place h']> (place <$> threads s);
  hm_thread : threads s' !! k = Some h';
  hm_ok : thread_ok h';
  hm_fd : h_descriptor h' = h_descriptor h;
  hm_open : opened (place h') = true -> opened (place h) = true;
  hm_live : live (place h) = true;
  hm_active : active_handlers s' =
    if live (place h') then active_handlers s else (active_handlers s - 1) mod 2 ^ 32;
  hm_follows : follows h h' (active_connections s) (active_connections s');
  hm_run : run s' = run s;
  hm_handlers : handlers s' = handlers s;
  hm_stoppers : stoppers s' = stoppers s;
  hm_stopping : stopping s = true -> stopping s' = true;
}.

Lemma places_set k h' s :
  place <$> threads (set_thread k h' s) = <[k:=place h']> (place <$> threads s).
Proof. apply list_fmap_insert. Qed.

Lemma set_thread_at k h h' s : threads s !! k = Some h -> threads (set_thread k h' s) !! k = Some h'.
Proof. intros Hk. cbn. apply list_lookup_insert_eq. by eapply lookup_lt_Some. Qed.

(** A step that only moves the thread. *)
Lemma moved_alone k h h' s :
  threads s !! k = Some h -> thread_ok h' -> h_descriptor h' = h_descriptor h ->
  (opened (place h') = true -> opened (place h) = true) -> live (place h) = true ->
  live (place h') = true -> attached (place h') = attached (place h) ->
  handler_moved k h h' s (set_thread k h' s).
Proof.
  intros Hk Hok Hfd Hop Hl Hl' Ha. split; try done.
  - apply places_set.
  - by eapply set_thread_at.
  - by rewrite Hl'.
  - by left.
Qed.

(** *** [stop] *)

Lemma place_shut h : place (shut h) = place h.
Proof. done. Qed.

(** What a step of [stop] leaves alone. *)
Record stop_moved (s s' : ServerState) : Prop := {
  sm_places : place <$> threads s' = place <$> threads s;
  sm_ok : Forall thread_ok (threads s) -> Forall thread_ok (threads s');
  sm_connections : active_connections s' = active_connections s;
  sm_active : active_handlers s' = active_handlers s;
  sm_run : run s' = run s;
  sm_handlers : handlers s' = handlers s;
  sm_stoppers : stoppers s' = stoppers s;
  sm_service : service s' = service s;
  sm_stopping : stopping s = true -> stopping s' = true;
}.

Lemma thread_ok_shut h : thread_ok h -> thread_ok (shut h).
Proof. intros [H1 H2 H3 H4]. by split. Qed.

Lemma stop_step_moved p s s' p' : stop_step p s = Some (s', p') -> stop_moved s s'.
Proof.
  intros Hp. destruct p; cbn in Hp; [|injection Hp as <- <-; by split| |done].
  - destruct (stopping s) eqn:Hs; injection Hp as <- <-; split; done.
  - injection Hp as <- <-. split; try done; cbn.
    + rewrite <-list_fmap_compose. apply list_fmap_ext. intros ? h _. cbn. by destruct (_ && _).
    + intros Hok. apply Forall_fmap. eapply Forall_impl; [exact Hok|]. intros h Hh. cbn.
      destruct (_ && _); [by apply thread_ok_shut|done].
Qed.

(** *** The points of a handler *)

(** The facts of a thread at a known point, and its new ones. *)
Ltac thread_at H Hpc :=
  let H1 := fresh "Hfd" in let H2 := fresh "Hserving" in
  let H3 := fresh "Hfresh" in let H4 := fresh "Hflag" in
  destruct H as [H1 H2 H3 H4]; unfold place, done_flag in H4; rewrite Hpc in H2, H3, H4;
  cbn in H2, H3, H4.
Ltac new_thread := split; cbn; first [done | by auto | by intros; auto | discriminate].

Lemma read_place i h h' :
  handler_read i h = Some h' -> h_pc h = HRead -> thread_ok h ->
  thread_ok h' /\ h_descriptor h' = h_descriptor h /\ h_registered h' = h_registered h /\
  (in_loop (h_pc h') = true \/ h_pc h' = HTail).
Proof.
  intros Hr Hpc Hok. thread_at Hok Hpc.
  unfold handler_read in Hr. destruct i as [|e n].
  - destruct (read_frame _ _ _) as [[[[frame|st] [p|]] s]| |]; try done; injection Hr as <-.
    + split; [new_thread|]. split; [done|]. split; [done|by left].
    + destruct (_ =? _); (split_and!; [new_thread|done|done|]); [by right|by left].
  - destruct (read_frame _ _ _) as [[[r [p|]] s]| |]; try done. injection Hr as <-.
    split_and!; [new_thread|done|done|by left].
Qed.

Lemma write_place i c encoded h h' :
  handler_write broken_pipe i c encoded h = Some h' -> h_pc h = HWrite c encoded -> thread_ok h ->
  thread_ok h' /\ h_descriptor h' = h_descriptor h /\ h_registered h' = h_registered h /\
  (h_pc h' = HTop \/ h_pc h' = HTail \/ exists e, h_pc h' = HCatch e).
Proof.
  intros Hr Hpc Hok. thread_at Hok Hpc.
  unfold handler_write in Hr. destruct (write_frame _ _ _) as [[st o]| |]; try done.
  injection Hr as <-. destruct (status_ok st); cbn.
  - destruct (h_accepted_shutdown h); (split_and!; [new_thread|done|done|]); auto.
  - destruct i; (split_and!; [new_thread|done|done|]); eauto.
Qed.

Lemma fail_place i st pl pr h h' :
  handler_fail broken_pipe i st pl pr h = Some h' -> h_pc h = HFailure st pl pr -> thread_ok h ->
  thread_ok h' /\ h_descriptor h' = h_descriptor h /\ h_registered h' = h_registered h /\
  h_pc h' = if h_registered h then HTail else HClose.
Proof.
  intros Hr Hpc Hok. thread_at Hok Hpc.
  assert (forall o, thread_ok (after_failure (h_wrote o h)) /\ thread_ok (after_failure h)) as Hok1.
  { intros o. unfold after_failure. cbn. destruct (h_registered h) eqn:Hreg;
      split; split; cbn; rewrite ?Hreg; first [done | by auto | discriminate]. }
  unfold handler_fail in Hr. destruct i as [|e n]; [|injection Hr as <-; by destruct (Hok1 (h_outgoing h))].
  destruct (protocol_failure _ _ _); [|injection Hr as <-; by destruct (Hok1 (h_outgoing h))].
  destruct (write_frame _ _ _) as [[st' o]| |]; try done. injection Hr as <-.
  by destruct (Hok1 o).
Qed.

(** A thread that goes on inside [serve_connection]. *)
Lemma moved_serving k h h' s :
  threads s !! k = Some h -> thread_ok h -> thread_ok h' -> h_descriptor h' = h_descriptor h ->
  h_registered h' = h_registered h -> serving (h_pc h) || in_loop (h_pc h) = true ->
  serving (h_pc h') || in_loop (h_pc h') = true \/ (h_registered h = false /\ h_pc h' = HClose) ->
  handler_moved k h h' s (set_thread k h' s).
Proof.
  intros Hk Hok Hok' Hfd Hreg Hpc Hpc'. apply moved_alone; try done.
  - intros _. unfold opened, place. cbn. by destruct (h_pc h).
  - unfold live, place. cbn. by destruct (h_pc h).
  - unfold live, place. cbn. destruct Hpc' as [Hpc'|[_ ->]]; [by destruct (h_pc h')|done].
  - unfold attached, place. cbn. rewrite Hreg. destruct Hpc' as [Hpc'|[-> _]]; [|done].
    by destruct (h_pc h), (h_pc h').
Qed.

(** Only the service changed besides. *)
Lemma moved_service k h h' s x :
  handler_moved k h h' s (set_thread k h' s) ->
  handler_moved k h h' s (set_thread k h' (set_service x s)).
Proof. intros [? ? ? ? ? ? ? ? ? ? ? ?]. by split. Qed.

Ltac serve Hpc :=
  apply moved_serving;
  [assumption|assumption|new_thread|reflexivity|reflexivity|rewrite Hpc; reflexivity
  |left; reflexivity].

Lemma handler_stop_moves p i k h s s' :
  Forall thread_ok (threads s) -> threads s !! k = Some h -> h_pc h = HStop p ->
  hstep i k s = Some s' -> exists h', handler_moved k h h' s s'.
Proof.
  intros Hall Hk Hpc Hstep. assert (thread_ok h) as Hok by by eapply Forall_lookup_1.
  assert (p = StopReturned \/ exists s1 p1 h1, stop_step p s = Some (s1, p1) /\
    threads s1 !! k = Some h1 /\ s' = set_thread k (h_to (HStop p1) h1) s1) as [->|Hmove].
  { unfold handler_step in Hstep. rewrite Hk in Hstep. cbn -[stop_step] in Hstep. rewrite Hpc in Hstep.
    destruct p; [right|right|right|by left];
      match type of Hstep with context [stop_step ?p s] =>
        destruct (stop_step p s) as [[s1 p1]|] eqn:Hs; [|done] end;
      cbn in Hstep; destruct (threads s1 !! k) as [h1|] eqn:H1; try done;
      injection Hstep as <-; by exists s1, p1, h1. }
  - unfold handler_step in Hstep. rewrite Hk in Hstep. cbn in Hstep. rewrite Hpc in Hstep.
    injection Hstep as <-. exists (h_to HErase h). pose proof Hok as Hok0. thread_at Hok Hpc.
    serve Hpc.
  - destruct Hmove as (s1 & p1 & h1 & Hs & H1 & ->).
    pose proof (stop_step_moved _ _ _ _ Hs) as [Hpl Hok1 Hc Ha Hr Hh Hst _ Hstop].
    assert (place h1 = place h) as Hplace.
    { pose proof (f_equal (.!! k) Hpl) as E. rewrite !list_lookup_fmap, H1, Hk in E. cbn in E. congruence. }
    injection Hplace as Hfd Hreg Hpc1. assert (thread_ok h1) as Hokh1 by (eapply Forall_lookup_1; [by apply Hok1|exact H1]).
    thread_at Hokh1 (eq_trans Hpc1 Hpc). exists (h_to (HStop p1) h1). split; try done.
    + rewrite places_set, Hpl. done.
    + by eapply set_thread_at.
    + by (unfold opened, place; rewrite Hpc).
    + by (unfold live, place; rewrite Hpc).
    + left. split; [|done]. unfold attached, place. cbn. by rewrite Hpc, Hreg.
Qed.

Lemma handler_moves i k s s' :
  Forall thread_ok (threads s) -> hstep i k s = Some s' ->
  exists h h', threads s !! k = Some h /\ handler_moved k h h' s s'.
Proof.
  intros Hall Hstep. destruct (threads s !! k) as [h|] eqn:Hk;
    [|unfold handler_step in Hstep; by rewrite Hk in Hstep].
  exists h. assert (thread_ok h) as Hok by by eapply Forall_lookup_1.
  destruct (h_pc h) as [| | |frame|frame c|frame c response|c encoded|e|st pl pr| |p| | | | |] eqn:Hpc;
    try (destruct (handler_stop_moves _ _ _ _ _ _ Hall Hk Hpc Hstep) as [h' Hm]; by exists h');
    unfold handler_step in Hstep; rewrite Hk in Hstep; cbn -[service_step] in Hstep;
    rewrite Hpc in Hstep; pose proof Hok as Hok0; thread_at Hok Hpc.
  - destruct i; injection Hstep as <-.
    + exists (h_to HTop (h_register h)). split; [done|]. split; try done; try new_thread.
      * exact (places_set k _ (set_threads (threads s) s)).
      * by eapply (set_thread_at k h).
      * by (unfold opened, place; rewrite Hpc).
      * by (unfold live, place; rewrite Hpc).
      * right; left. unfold attached, place. cbn. by rewrite Hfresh.
    + eexists. split; [done|]. apply moved_alone; try done; try new_thread.
      * unfold opened, place. by rewrite Hpc.
      * unfold live, place. by rewrite Hpc.
      * unfold attached, place. cbn. by rewrite Hfresh.
  - injection Hstep as <-. destruct (stopping s); eexists; (split; [done|]); serve Hpc.
  - destruct (handler_read i h) as [h'|] eqn:Hr; [|done]. injection Hstep as <-.
    destruct (read_place _ _ _ Hr Hpc Hok0) as (Hok' & Hfd' & Hreg & Hpc'). exists h'. split; [done|].
    apply moved_serving; try done; [by rewrite Hpc|left].
    destruct Hpc' as [->| ->]; [apply orb_true_r|done].
  - destruct i as [|e n]; [|eexists; split; [done|]; injection Hstep as <-; serve Hpc].
    destruct (decode_request frame) as [request|st]; injection Hstep as <-; eexists; (split; [done|]).
    + apply moved_service. serve Hpc.
    + serve Hpc.
  - destruct (calls (service s) !! c) as [[req pc0]|]; [|done]. destruct pc0; try discriminate Hstep.
    injection Hstep as <-. eexists. split; [done|]. serve Hpc.
  - destruct i as [|e n]; [|injection Hstep as <-; eexists; split; [done|]; serve Hpc].
    destruct (encode_response response) as [[encoded|st]|[? ?|?]]; injection Hstep as <-;
      eexists; (split; [done|]); serve Hpc.
  - destruct (handler_write broken_pipe i c encoded h) as [h'|] eqn:Hw; [|done]. injection Hstep as <-.
    destruct (write_place _ _ _ _ _ Hw Hpc Hok0) as (Hok' & Hfd' & Hreg & Hpc'). exists h'. split; [done|].
    apply moved_serving; try done; [by rewrite Hpc|left].
    by destruct Hpc' as [-> |[-> |[e ->]]].
  - injection Hstep as <-. eexists. split; [done|]. serve Hpc.
  - destruct (handler_fail broken_pipe i st pl pr h) as [h'|] eqn:Hw; [|done]. injection Hstep as <-.
    destruct (fail_place _ _ _ _ _ _ Hw Hpc Hok0) as (Hok' & Hfd' & Hreg & Hpc'). exists h'. split; [done|].
    apply moved_serving; try done; [by rewrite Hpc|]. rewrite Hpc'. destruct (h_registered h); auto.
  - injection Hstep as <-. destruct (h_accepted_shutdown h); eexists; (split; [done|]); serve Hpc.
  - injection Hstep as <-. exists (h_to HClose h). split; [done|]. split; try done; try new_thread.
    + exact (places_set k _ (set_threads (threads s) s)).
    + by eapply (set_thread_at k h).
    + by (unfold opened, place; rewrite Hpc).
    + by (unfold live, place; rewrite Hpc).
    + right; right. unfold attached, place. cbn. rewrite Hpc, Hserving by done.
      by rewrite andb_false_r.
  - injection Hstep as <-. eexists. split; [done|]. apply moved_alone; try done; try new_thread.
    + by (unfold live, place; rewrite Hpc).
    + unfold attached, place. cbn. by rewrite Hpc, !andb_false_r.
  - injection Hstep as <-. eexists. split; [done|]. apply moved_alone; try done; try new_thread.
    + by (unfold live, place; rewrite Hpc).
    + unfold attached, place. cbn. by rewrite Hpc, !andb_false_r.
  - injection Hstep as <-. exists (h_to HEnd h). split; [done|]. split; try done; try new_thread.
    + exact (places_set k _ (set_threads (threads s) s)).
    + by eapply (set_thread_at k h).
    + by (unfold live, place; rewrite Hpc).
    + left. unfold attached, place. cbn. by rewrite Hpc, !andb_false_r.
  - discriminate Hstep.
Qed.

(** *** The other threads *)

Lemma stop_step_threads p s s' p' j h' :
  stop_step p s = Some (s', p') -> threads s' !! j = Some h' ->
  exists h, threads s !! j = Some h /\ (h' = h \/ h' = shut h).
Proof.
  intros Hp Hj. destruct p; cbn in Hp; [|injection Hp as <- <-; eauto| |done].
  - destruct (stopping s); injection Hp as <- <-; eauto.
  - injection Hp as <- <-. cbn in Hj. rewrite list_lookup_fmap in Hj.
    destruct (threads s !! j) as [h|]; [|done]. injection Hj as <-. exists h.
    split; [done|]. destruct (_ && _); auto.
Qed.

Lemma set_thread_others k h s s0 j h' :
  j <> k -> threads s = threads s0 -> threads (set_thread k h s) !! j = Some h' ->
  exists h0, threads s0 !! j = Some h0 /\ (h' = h0 \/ h' = shut h0).
Proof.
  intros Hj Hs Hh. cbn in Hh. rewrite list_lookup_insert_ne, Hs in Hh by done. eauto.
Qed.

Lemma handler_others i k s s' j h' :
  hstep i k s = Some s' -> j <> k -> threads s' !! j = Some h' ->
  exists h, threads s !! j = Some h /\ (h' = h \/ h' = shut h).
Proof.
  intros Hstep Hj Hh. unfold handler_step in Hstep.
  destruct (threads s !! k) as [h|] eqn:Hk; [|done]. cbn -[service_step stop_step] in Hstep.
  assert (forall p, (('(s1, p') ← stop_step p s; h1 ← threads s1 !! k;
      Some (set_thread k (h_to (HStop p') h1) s1)) = Some s') ->
    exists h0, threads s !! j = Some h0 /\ (h' = h0 \/ h' = shut h0)) as Hstop.
  { intros p Hp. destruct (stop_step p s) as [[s1 p1]|] eqn:Hs; [|done]. cbn in Hp.
    destruct (threads s1 !! k) as [h1|]; [|done]. injection Hp as <-. cbn in Hh.
    rewrite list_lookup_insert_ne in Hh by done. by eapply stop_step_threads. }
  destruct (h_pc h); try (destruct p; try (eapply Hstop; exact Hstep));
    try discriminate Hstep;
    repeat match type of Hstep with
    | Some _ = Some _ => injection Hstep as <-
    | (match ?x with _ => _ end) = Some _ => destruct x; try discriminate Hstep
    | (?x ≫= _) = Some _ => destruct x; cbn [mbind option_bind] in Hstep; try discriminate Hstep
    end; (eapply set_thread_others; [exact Hj| |exact Hh]; reflexivity).
Qed.

(** ** Accounting *)

(** How many threads are at such a place. *)
Definition num (p : spot -> bool) (l : list spot) : nat := length (filter (fun x => p x = true) l).

Lemma num_app p l1 l2 : num p (l1 ++ l2) = (num p l1 + num p l2)%nat.
Proof. unfold num. by rewrite filter_app, length_app. Qed.

Lemma num_one p x : num p [x] = if p x then 1%nat else O.
Proof. unfold num. rewrite filter_cons. by destruct (p x); case_decide. Qed.

Lemma num_insert p l k x y :
  l !! k = Some x ->
  (num p (<[k:=y]> l) + (if p x then 1 else 0) = num p l + (if p y then 1 else 0))%nat.
Proof.
  intros Hk. pose proof (lookup_lt_Some _ _ _ Hk) as Hlt.
  rewrite insert_take_drop by done. rewrite <-(take_drop_middle l k x Hk) at 3.
  rewrite !num_app. change (y :: drop (S k) l) with ([y] ++ drop (S k) l).
  change (x :: drop (S k) l) with ([x] ++ drop (S k) l). rewrite !num_app, !num_one. lia.
Qed.

(** Whether thread [k] is at such a place. *)
Definition at_place (p : spot -> bool) (l : list spot) (k : nat) : bool :=
  match l !! k with Some x => p x | None => false end.

Definition num_of (p : spot -> bool) (l : list spot) (ks : list nat) : nat :=
  length (filter (fun k => at_place p l k = true) ks).

Lemma num_of_mono p l l' ks :
  (forall k, at_place p l' k = true -> at_place p l k = true) ->
  (num_of p l' ks <= num_of p l ks)%nat.
Proof.
  intros Hp. unfold num_of. induction ks as [|k ks IH]; [done|]. rewrite !filter_cons.
  destruct (at_place p l' k) eqn:E.
  - rewrite (Hp _ E). repeat case_decide; cbn; try lia; done.
  - repeat case_decide; cbn; try lia; congruence.
Qed.

Lemma filter_agree (f g : nat -> bool) (ks : list nat) :
  (forall k, k ∈ ks -> f k = g k) ->
  filter (fun k => f k = true) ks = filter (fun k => g k = true) ks.
Proof.
  induction ks as [|k ks IH]; intros Hfg; [done|]. rewrite !filter_cons, IH.
  - rewrite (Hfg k) by (by left). done.
  - intros k' Hk'. apply Hfg. by right.
Qed.

Lemma num_of_seq p l : num_of p l (seq 0 (length l)) = num p l.
Proof.
  induction l as [|x l IH] using rev_ind; [done|].
  rewrite length_app, Nat.add_1_r, seq_S, num_app, num_one. cbn [Nat.add].
  unfold num_of in *. rewrite filter_app, length_app. f_equal.
  - rewrite <-IH. f_equal. apply filter_agree. intros k Hk.
    apply elem_of_seq in Hk. unfold at_place. by rewrite lookup_app_l by lia.
  - assert (at_place p (l ++ [x]) (length l) = p x) as E
      by (unfold at_place; by rewrite lookup_app_r, Nat.sub_diag by done).
    rewrite filter_cons, E. destruct (p x); by case_decide.
Qed.

(** Distinct threads are at most all threads. *)
Lemma num_of_le p l ks : NoDup ks -> (num_of p l ks <= num p l)%nat.
Proof.
  intros Hnd. rewrite <-num_of_seq. unfold num_of. apply submseteq_length, NoDup_submseteq.
  - by apply NoDup_filter.
  - intros k [Hk Hin]%list_elem_of_filter. apply list_elem_of_filter. split; [done|].
    apply elem_of_seq. unfold at_place in Hk. destruct (l !! k) eqn:E; [|done].
    apply lookup_lt_Some in E. lia.
Qed.

Abbreviation places s := (place <$> threads s).

(** The slot [run] holds for a thread that does not exist yet, or never will. *)
Definition reserved (r : run_pc) : Z :=
  match r with RSpawn _ _ | RFailed true _ => 1 | _ => 0 end.

(** The records being joined. *)
Definition joining (r : run_pc) : list nat :=
  match r with RJoin owned _ | DJoin owned => owned | _ => [] end.

(** The handlers were taken out to be joined. *)
Definition taken (r : run_pc) : bool :=
  match r with
  | RJoin _ _ | RRemove _ | DJoin _ | DRemove | DService | DWorkers _ | Gone => true
  | _ => false
  end.

(** What bounds the retained records at each point of the accept loop. *)
Definition retained_bound (s : ServerState) : Prop :=
  match run s with
  | RReap _ _ n =>
    (n <= length (handlers s))%nat /\
    Z.of_nat n + Z.of_nat (num_of live (places s) (drop n (handlers s))) <= max_active /\
    zlen (handlers s) <= max_active + 1
  | RCapacity _ _ | RRefuse _ _ | RReserve _ _ | RSpawn _ _ => zlen (handlers s) <= max_active
  | _ => zlen (handlers s) <= max_active + 1
  end.

Record accounted (s : ServerState) : Prop := {
  ac_ok : Forall thread_ok (threads s);
  ac_active : active_handlers s = Z.of_nat (num live (places s)) + reserved (run s);
  ac_max : active_handlers s <= max_active;
  ac_reserve : match run s with RReserve _ _ => active_handlers s < max_active | _ => True end;
  ac_retained : forall k, at_place live (places s) k = true -> k ∈ handlers s ++ joining (run s);
  ac_nodup : NoDup (handlers s ++ joining (run s));
  ac_known : Forall (fun k => (k < length (threads s))%nat) (handlers s ++ joining (run s));
  ac_taken : taken (run s) = true -> handlers s = [];
  ac_bound : retained_bound s;
}.

(** *** Every event keeps the account *)

Lemma forall_ok_step i k s s' :
  Forall thread_ok (threads s) -> hstep i k s = Some s' -> Forall thread_ok (threads s').
Proof.
  intros Hall Hstep. destruct (handler_moves _ _ _ _ Hall Hstep) as (h & h' & Hk & Hm).
  apply Forall_lookup. intros j hj Hj. destruct (decide (j = k)) as [->|Hne].
  - rewrite (hm_thread _ _ _ _ _ Hm) in Hj. injection Hj as <-. apply Hm.
  - destruct (handler_others _ _ _ _ _ _ Hstep Hne Hj) as (h0 & H0 & Heq).
    eapply Forall_lookup_1 in H0; [|done].
    destruct Heq as [->| ->]; [done|by apply thread_ok_shut].
Qed.

(** The account depends on the places, and may only lose live threads. *)
Lemma acc_frame s s' :
  accounted s -> Forall thread_ok (threads s') -> length (threads s') = length (threads s) ->
  (forall k, at_place live (places s') k = true -> at_place live (places s) k = true) ->
  active_handlers s' = Z.of_nat (num live (places s')) + reserved (run s') ->
  active_handlers s' <= active_handlers s ->
  run s' = run s -> handlers s' = handlers s -> accounted s'.
Proof.
  intros Ha Hok Hlen Hlive Hact Hle Hrun Hh. destruct Ha. split; try done.
  - lia.
  - rewrite Hrun. destruct (run s); try done. lia.
  - intros k Hk. rewrite Hh, Hrun. by apply ac_retained0, Hlive.
  - by rewrite Hh, Hrun.
  - by rewrite Hh, Hrun, Hlen.
  - by rewrite Hh, Hrun.
  - unfold retained_bound in *. rewrite Hrun, Hh. destruct (run s); try done.
    destruct ac_bound0 as (? & ? & ?). split_and!; [done| |done].
    pose proof (num_of_mono live (places s) (places s') (drop i (handlers s)) Hlive). lia.
Qed.

Lemma length_places s : length (places s) = length (threads s).
Proof. apply length_fmap. Qed.

Lemma acc_handler i k s s' :
  max_active < 2 ^ 32 -> accounted s -> hstep i k s = Some s' -> accounted s'.
Proof.
  intros Hmax Ha Hstep. pose proof Ha as [Hok Hact Hle _ _ _ _ _ _].
  destruct (handler_moves _ _ _ _ Hok Hstep) as (h & h' & Hk & Hm). destruct Hm.
  assert (places s !! k = Some (place h)) as Hpk by (by rewrite list_lookup_fmap, Hk).
  pose proof (num_insert live _ k _ (place h') Hpk) as Hnum. rewrite hm_live0, <-hm_places0 in Hnum.
  assert (active_handlers s' = Z.of_nat (num live (places s')) + reserved (run s')) as Hact'.
  { rewrite hm_active0, hm_run0. destruct (live (place h')); [lia|].
    rewrite Z.mod_small; [lia|]. unfold reserved in *. destruct (run s) as [| | | | | | | | | |[]| | | | | | | | | | | | |]; lia. }
  eapply (acc_frame s); try done.
  - by eapply forall_ok_step.
  - by rewrite <-!length_places, hm_places0, length_insert.
  - intros j Hj. unfold at_place in *. rewrite hm_places0 in Hj.
    destruct (decide (j = k)) as [->|Hne]; [by rewrite Hpk|].
    by rewrite list_lookup_insert_ne in Hj.
  - rewrite Hact', hm_run0, Hact. destruct (live (place h')); lia.
Qed.

Lemma acc_stop p s s' p' : accounted s -> stop_step p s = Some (s', p') -> accounted s'.
Proof.
  intros Ha Hs. pose proof (stop_step_moved _ _ _ _ Hs) as []. pose proof Ha as [Hok Hact _ _ _ _ _ _ _].
  eapply (acc_frame s); try done.
  - by apply sm_ok0.
  - by rewrite <-!length_places, sm_places0.
  - by rewrite sm_places0.
  - by rewrite sm_active0, sm_places0, sm_run0.
  - by rewrite sm_active0.
Qed.

(** The accepting thread goes on and nothing else changes. *)
Lemma acc_goto s pc :
  accounted s -> reserved pc = reserved (run s) -> joining pc = joining (run s) ->
  (taken pc = true -> handlers s = []) ->
  match pc with RReserve _ _ => active_handlers s < max_active | _ => True end ->
  retained_bound (set_run pc s) -> accounted (set_run pc s).
Proof.
  intros [H1 H2 H3 H4 H5 H6 H7 H8 H9] Hr Hj Ht Hres Hb. split; cbn; try done.
  - by rewrite Hr.
  - by rewrite Hj.
  - by rewrite Hj.
  - by rewrite Hj.
Qed.

(** The weakest bound of the accept loop. *)
Lemma acc_loose s : accounted s -> zlen (handlers s) <= max_active + 1.
Proof.
  intros Ha. pose proof (ac_bound _ Ha) as Hb. unfold retained_bound in Hb.
  destruct (run s); try done; [by destruct Hb as (_ & _ & ?)| | | |]; lia.
Qed.

(** A point with nothing of its own. *)
Definition plain (pc : run_pc) : bool :=
  match pc with
  | RReap _ _ _ | RCapacity _ _ | RRefuse _ _ | RReserve _ _ | RSpawn _ _ => false
  | RJoin _ _ | DJoin _ => false
  | _ => true
  end.

Lemma acc_plain s pc :
  accounted s -> plain pc = true -> reserved pc = reserved (run s) -> joining (run s) = [] ->
  (taken pc = true -> handlers s = []) -> accounted (set_run pc s).
Proof.
  intros Ha Hp Hr Hj Ht. pose proof (acc_loose s Ha) as Hl.
  apply acc_goto; try done; [|by destruct pc|by destruct pc]. rewrite Hj. by destruct pc.
Qed.

Lemma ended_not_live s k : ended s k = true -> at_place live (places s) k = false.
Proof.
  unfold ended, at_place. rewrite list_lookup_fmap. destruct (threads s !! k) as [h|]; [|done].
  cbn. unfold live, place. cbn. by destruct (h_pc h).
Qed.

Lemma unflagged_live s k :
  Forall thread_ok (threads s) -> (k < length (threads s))%nat -> flagged s k = false ->
  at_place live (places s) k = true.
Proof.
  intros Hok Hk. unfold flagged, at_place. rewrite list_lookup_fmap.
  apply lookup_lt_is_Some in Hk as [h Hk]. rewrite Hk. cbn. intros Hf.
  eapply Forall_lookup_1 in Hk; [|exact Hok]. rewrite (to_flag _ Hk) in Hf.
  unfold live, place, done_flag in *. cbn in *. by destruct (h_pc h).
Qed.

(** The loop of [reap_finished_handlers]. *)
Lemma acc_reap_next s d c n k :
  accounted s -> run s = RReap d c n -> handlers s !! n = Some k -> flagged s k = false ->
  accounted (set_run (RReap d c (S n)) s).
Proof.
  intros Ha Hrun Hk Hf. pose proof Ha as [Hok _ _ _ _ _ Hkn _ Hb]. unfold retained_bound in Hb.
  rewrite Hrun in Hb. destruct Hb as (Hn & Hlive & Hlen).
  apply acc_goto; try done; try (by rewrite Hrun). unfold retained_bound. cbn [run set_run handlers].
  pose proof (lookup_lt_Some _ _ _ Hk) as Hlt. split_and!; [lia| |done].
  rewrite (drop_S _ _ _ Hk) in Hlive. unfold num_of in *. rewrite filter_cons in Hlive.
  assert (at_place live (places s) k = true) as Hl.
  { apply unflagged_live; try done. rewrite Forall_forall in Hkn. apply Hkn.
    apply elem_of_app. left. by eapply list_elem_of_lookup_2. }
  rewrite Hl in Hlive. case_decide; [|done]. cbn [length] in Hlive. cbn [threads set_run]. lia.
Qed.

Lemma acc_reap_erase s d c n k :
  accounted s -> run s = RReap d c n -> handlers s !! n = Some k -> ended s k = true ->
  accounted (set_handlers (delete n (handlers s)) s).
Proof.
  intros [H1 H2 H3 H4 H5 H6 H7 H8 H9] Hrun Hk He. apply ended_not_live in He.
  assert (joining (run s) = []) as Hj by (by rewrite Hrun).
  rewrite Hj, app_nil_r in H5, H6, H7. unfold retained_bound in H9. rewrite Hrun in H9.
  destruct H9 as (Hn & Hlive & Hlen). pose proof (lookup_lt_Some _ _ _ Hk) as Hlt.
  assert (handlers s ≡ₚ k :: delete n (handlers s)) as Hperm by by apply delete_Permutation.
  split; cbn [threads set_handlers active_handlers run handlers]; rewrite ?Hj, ?app_nil_r; try done.
  - intros k' Hk'. assert (k' <> k) as Hne by congruence. specialize (H5 k' Hk').
    rewrite Hperm in H5. by apply elem_of_cons in H5 as [?|?].
  - rewrite Hperm in H6. by apply NoDup_cons in H6 as [_ ?].
  - rewrite Hperm in H7. by apply Forall_cons in H7 as [_ ?].
  - by rewrite Hrun.
  - unfold retained_bound. cbn [run set_handlers handlers threads]. rewrite Hrun.
    assert (length (delete n (handlers s)) = (length (handlers s) - 1)%nat) as Hdl by
      (apply length_delete; eauto).
    unfold zlen in *. rewrite Hdl. split_and!; [lia| |lia].
    rewrite delete_take_drop, drop_app_length' by (rewrite length_take; lia).
    rewrite (drop_S _ _ _ Hk) in Hlive. unfold num_of in *. rewrite filter_cons, He in Hlive.
    case_decide; [done|]. exact Hlive.
Qed.

Lemma acc_reserve_slot s d c :
  max_active < 2 ^ 32 -> accounted s -> run s = RReserve d c ->
  accounted (set_run (RSpawn d c) (set_active (active_handlers s + 1) s)).
Proof.
  intros Hmax [H1 H2 H3 H4 H5 H6 H7 H8 H9] Hrun. unfold retained_bound in H9. rewrite Hrun in H2, H4, H9.
  cbn in H2. assert ((active_handlers s + 1) mod 2 ^ 32 = active_handlers s + 1) as Hmod
    by (apply Z.mod_small; lia).
  split; cbn [threads set_run set_active active_handlers run handlers]; rewrite ?Hmod; try done.
  - cbn. lia.
  - lia.
  - by rewrite Hrun in H5.
  - by rewrite Hrun in H6.
  - by rewrite Hrun in H7.
Qed.

Lemma acc_spawn s d c :
  0 <= d -> accounted s -> run s = RSpawn d c ->
  accounted (set_run RTop (set_handlers (handlers s ++ [length (threads s)])
    (set_threads (threads s ++ [new_handler d c]) s))).
Proof.
  intros Hd [H1 H2 H3 H4 H5 H6 H7 H8 H9] Hrun. unfold retained_bound in H9. rewrite Hrun in H2, H9.
  assert (joining (run s) = []) as Hj by (by rewrite Hrun). rewrite Hj, app_nil_r in H5, H6, H7.
  cbn in H2. split; cbn [threads set_run set_threads set_handlers active_handlers run handlers joining];
    rewrite ?app_nil_r; try done.
  - apply Forall_app. split; [done|]. constructor; [|constructor]. by split.
  - rewrite fmap_app, num_app. cbn [fmap list_fmap]. rewrite num_one. cbn. lia.
  - intros k Hk. apply elem_of_app. unfold at_place in *. rewrite fmap_app in Hk.
    destruct (decide (k < length (threads s))%nat) as [Hlt|Hge].
    + left. apply H5. by rewrite lookup_app_l in Hk by (by rewrite length_places).
    + right. rewrite lookup_app_r in Hk by (rewrite length_places; lia).
      rewrite length_places in Hk. destruct (k - length (threads s))%nat eqn:E; [|done].
      apply list_elem_of_singleton. lia.
  - apply NoDup_app. split_and!; [done| |by apply NoDup_singleton]. intros k Hk Hin.
    apply list_elem_of_singleton in Hin as ->. rewrite Forall_forall in H7. specialize (H7 _ Hk). lia.
  - rewrite length_app. cbn. apply Forall_app. split.
    + eapply Forall_impl; [exact H7|]. cbn. lia.
    + constructor; [lia|constructor].
  - unfold retained_bound. cbn. rewrite zlen_app. change (zlen [length (threads s)]) with 1. lia.
Qed.

(** ** Descriptors *)

(** The accepted connection [run] holds. *)
Definition held (r : run_pc) : option Z :=
  match r with
  | RTest (AcceptedPeer d _) | RReap d _ _ | RCapacity d _ | RRefuse d _ | RReserve d _
  | RSpawn d _ => Some d
  | _ => None
  end.

(** Open connections have different descriptors, and [active_connections] has exactly the
    registered ones. *)
Record connected_inv (s : ServerState) : Prop := {
  ci_ok : Forall thread_ok (threads s);
  ci_held : forall d, held (run s) = Some d ->
    0 <= d /\ forall k p, places s !! k = Some p -> opened p = true -> at_fd p <> d;
  ci_distinct : forall j k p q, places s !! j = Some p -> places s !! k = Some q ->
    opened p = true -> opened q = true -> at_fd p = at_fd q -> j = k;
  ci_connections : forall d, d ∈ active_connections s <->
    exists k p, places s !! k = Some p /\ attached p = true /\ at_fd p = d;
}.

Lemma attached_opened p : attached p = true -> opened p = true.
Proof. unfold attached, opened. destruct p as [[d []] pc]; cbn; [|done]. by destruct pc. Qed.

Lemma conn_handler i k s s' : connected_inv s -> hstep i k s = Some s' -> connected_inv s'.
Proof.
  intros [Hok Hheld Hdist Hconn] Hstep.
  destruct (handler_moves _ _ _ _ Hok Hstep) as (h & h' & Hk & Hm).
  pose proof (forall_ok_step _ _ _ _ Hok Hstep) as Hok'. destruct Hm.
  assert (places s !! k = Some (place h)) as Hpk by (by rewrite list_lookup_fmap, Hk).
  assert (at_fd (place h') = at_fd (place h)) as Hfd by done.
  assert (forall j p, places s' !! j = Some p -> exists p0, places s !! j = Some p0 /\
    at_fd p = at_fd p0 /\ (opened p = true -> opened p0 = true)) as Hback.
  { intros j p Hj. rewrite hm_places0 in Hj.
    destruct (decide (j = k)) as [->|Hne].
    - rewrite list_lookup_insert_eq in Hj by (by eapply lookup_lt_Some). injection Hj as <-.
      by exists (place h).
    - rewrite list_lookup_insert_ne in Hj by done. by exists p. }
  split; [done|..].
  - intros d Hd. rewrite hm_run0 in Hd. destruct (Hheld d Hd) as [H0 Hne]. split; [done|].
    intros j p Hj Hop. destruct (Hback j p Hj) as (p0 & Hj0 & -> & Hop0). eauto.
  - intros j1 j2 p q Hp Hq Hop Hoq Heq. destruct (Hback _ _ Hp) as (p0 & Hp0 & E1 & Ho1).
    destruct (Hback _ _ Hq) as (q0 & Hq0 & E2 & Ho2). rewrite E1, E2 in Heq. eauto.
  - intros d. rewrite hm_places0.
    assert (forall Q : spot -> Prop, (exists j p, <[k:=place h']> (places s) !! j = Some p /\ Q p) <->
      Q (place h') \/ exists j p, j <> k /\ places s !! j = Some p /\ Q p) as Hsplit.
    { intros Q. split.
      - intros (j & p & Hj & HQ). destruct (decide (j = k)) as [->|Hne].
        + rewrite list_lookup_insert_eq in Hj by (by eapply lookup_lt_Some). injection Hj as <-. by left.
        + rewrite list_lookup_insert_ne in Hj by done. right. eauto 10.
      - intros [HQ|(j & p & Hne & Hj & HQ)].
        + exists k, (place h'). rewrite list_lookup_insert_eq by (by eapply lookup_lt_Some). done.
        + exists j, p. by rewrite list_lookup_insert_ne. }
    rewrite (Hsplit (fun p => attached p = true /\ at_fd p = d)).
    assert (d ∈ active_connections s <-> (attached (place h) = true /\ at_fd (place h) = d) \/
      exists j p, j <> k /\ places s !! j = Some p /\ attached p = true /\ at_fd p = d) as Hold.
    { rewrite Hconn. split.
      - intros (j & p & Hj & HQ). destruct (decide (j = k)) as [->|Hne]; [|right; eauto 10].
        left. rewrite Hpk in Hj. by injection Hj as <-.
      - intros [HQ|(j & p & Hne & Hj & HQ)]; eauto. }
    rewrite Hfd. destruct hm_follows0 as [[-> ->]|[(Hat & Hat' & ->)|(Hat & Hat' & ->)]].
    + exact Hold.
    + rewrite elem_of_union, elem_of_singleton, Hold, Hat, Hat'. unfold at_fd, place. cbn. split.
      * intros [->|[[? _]|?]]; [by left|done|by right].
      * intros [[_ <-]|?]; [by left|by right; right].
    + rewrite elem_of_difference, elem_of_singleton, Hold, Hat, Hat'. split.
      * intros [[[_ <-]|?] Hne]; [by destruct Hne|by right].
      * intros [[? _]|Hex]; [done|]. split; [by right|]. intros ->.
        destruct Hex as (j & p & Hne & Hj & Ha & Hf). apply Hne.
        eapply (Hdist j k p (place h)); eauto using attached_opened.
Qed.

Lemma conn_stop p s s' p' : connected_inv s -> stop_step p s = Some (s', p') -> connected_inv s'.
Proof.
  intros [Hok Hheld Hdist Hconn] Hs. destruct (stop_step_moved _ _ _ _ Hs).
  split; rewrite ?sm_places0, ?sm_run0, ?sm_connections0; try done. by apply sm_ok0.
Qed.

Lemma conn_goto s s' :
  connected_inv s -> threads s' = threads s -> active_connections s' = active_connections s ->
  (held (run s') = None \/ held (run s') = held (run s)) -> connected_inv s'.
Proof.
  intros [Hok Hheld Hdist Hconn] Ht Hc Hh. split; rewrite ?Ht, ?Hc; try done.
  intros d Hd. apply Hheld. destruct Hh; congruence.
Qed.

Lemma fresh_descriptor_spec d s :
  fresh_descriptor d s = true ->
  0 <= d /\ forall k p, places s !! k = Some p -> opened p = true -> at_fd p <> d.
Proof.
  unfold fresh_descriptor. rewrite !andb_true_iff, forallb_forall. intros [[Hd _] Hall].
  split; [by apply Z.leb_le|]. intros k p Hk Ho Heq. rewrite list_lookup_fmap in Hk.
  destruct (threads s !! k) as [h|] eqn:Hh; [|done]. injection Hk as <-.
  apply list_elem_of_lookup_2, list_elem_of_In, Hall in Hh. apply negb_true_iff in Hh.
  change (opened (place h)) with (h_open h) in Ho. unfold at_fd, place in Heq. cbn in Heq.
  rewrite Ho, Heq, Z.eqb_refl in Hh. done.
Qed.

Lemma conn_accept d c s :
  connected_inv s -> fresh_descriptor d s = true ->
  connected_inv (set_run (RTest (AcceptedPeer d c)) s).
Proof.
  intros [Hok Hheld Hdist Hconn] Hf. split; try done. intros d' [= <-].
  by apply fresh_descriptor_spec.
Qed.

Lemma conn_spawn d c s :
  connected_inv s -> run s = RSpawn d c ->
  connected_inv (set_run RTop (set_handlers (handlers s ++ [length (threads s)])
    (set_threads (threads s ++ [new_handler d c]) s))).
Proof.
  intros [Hok Hheld Hdist Hconn] Hrun. destruct (Hheld d) as [Hd Hne]; [by rewrite Hrun|].
  assert (forall k p, (place <$> threads s ++ [new_handler d c]) !! k = Some p ->
    places s !! k = Some p \/ (k = length (threads s) /\ p = place (new_handler d c))) as Hcase.
  { intros k p Hk. rewrite fmap_app in Hk. apply lookup_app_Some in Hk as [Hk|[Hge Hk]]; [by left|].
    right. rewrite length_places in *. apply list_lookup_singleton_Some in Hk as [Hz <-]. split; [lia|done]. }
  split; cbn [threads set_run set_handlers set_threads active_connections run].
  - apply Forall_app. split; [done|]. constructor; [|constructor]. by split.
  - done.
  - intros j k p q Hp Hq Hop Hoq Heq.
    destruct (Hcase _ _ Hp) as [Hp0|[-> ->]], (Hcase _ _ Hq) as [Hq0|[-> ->]]; try done; eauto.
    + by destruct (Hne _ _ Hp0 Hop).
    + by destruct (Hne _ _ Hq0 Hoq).
  - intros d'. rewrite Hconn. split.
    + intros (k & p & Hk & HQ). exists k, p. split; [|done]. rewrite fmap_app. by apply lookup_app_l_Some.
    + intros (k & p & Hk & Hat & Hf). destruct (Hcase _ _ Hk) as [Hk0|[_ ->]]; [eauto|done].
Qed.

(** A peer or the kernel acts on a connection: the place stays. *)
Lemma places_same k h h' s :
  threads s !! k = Some h -> place h' = place h -> places (set_thread k h' s) = places s.
Proof.
  intros Hk Hp. rewrite places_set, Hp. apply list_insert_id. by rewrite list_lookup_fmap, Hk.
Qed.

Lemma conn_same k h h' s :
  connected_inv s -> threads s !! k = Some h -> place h' = place h ->
  h_finished h' = h_finished h -> connected_inv (set_thread k h' s).
Proof.
  intros [Hok Hheld Hdist Hconn] Hk Hp Hf. pose proof (places_same _ _ _ _ Hk Hp) as E.
  split; rewrite ?E; try done. apply Forall_insert; [done|].
  eapply Forall_lookup_1 in Hk; [|exact Hok]. destruct Hk as [H1 H2 H3 H4].
  pose proof Hp as [= E1 E2 E3]. split; rewrite ?E1, ?E2, ?E3, ?Hf, ?Hp; done.
Qed.

Lemma acc_same k h h' s :
  accounted s -> threads s !! k = Some h -> place h' = place h ->
  connected_inv (set_thread k h' s) -> accounted (set_thread k h' s).
Proof.
  intros Ha Hk Hp [Hok _ _ _]. pose proof (places_same _ _ _ _ Hk Hp) as E.
  eapply (acc_frame s); try done; rewrite ?E; try done; [apply length_insert|apply Ha].
Qed.

(** *** The accepting thread *)

Definition inv (s : ServerState) : Prop := connected_inv s /\ accounted s.

Lemma inv_plain s pc :
  inv s -> plain pc = true -> held pc = None -> reserved pc = reserved (run s) ->
  joining (run s) = [] -> (taken pc = true -> handlers s = []) -> inv (set_run pc s).
Proof. intros [Hc Ha] Hp Hh Hr Hj Ht. split; [by eapply conn_goto; eauto|by apply acc_plain]. Qed.

Lemma server_inv_stop p s s' p' : inv s -> stop_step p s = Some (s', p') -> inv s' /\ run s' = run s.
Proof.
  intros [Hc Ha] Hs. split; [split; [by eapply conn_stop|by eapply acc_stop]|].
  by apply (sm_run _ _ (stop_step_moved _ _ _ _ Hs)).
Qed.

(** [join_handlers]: taking the records, and joining one. *)
Lemma inv_swap s pc :
  1 <= max_active -> inv s -> joining (run s) = [] -> reserved (run s) = 0 ->
  joining pc = handlers s -> plain pc = false -> held pc = None -> reserved pc = 0 ->
  inv (set_run pc (set_handlers [] s)).
Proof.
  intros Hmax [Hc [H1 H2 H3 H4 H5 H6 H7 H8 H9]] Hj Hr Hj' Hp Hh Hr'.
  split; [by eapply conn_goto; eauto|]. rewrite Hj, app_nil_r in H5, H6, H7.
  split; cbn [threads set_run set_handlers active_handlers run handlers app]; rewrite ?Hj'; try done.
  - by rewrite Hr', <-Hr.
  - by destruct pc.
  - destruct pc; try discriminate Hh; try discriminate Hp; change (zlen (@nil nat) <= max_active + 1);
      rewrite zlen_nil; lia.
Qed.

Lemma inv_joined s k owned pc :
  inv s -> joining (run s) = k :: owned -> ended s k = true -> joining pc = owned ->
  held pc = None -> reserved pc = reserved (run s) -> taken pc = true -> taken (run s) = true ->
  inv (set_run pc s).
Proof.
  intros [Hc [H1 H2 H3 H4 H5 H6 H7 H8 H9]] Hj He Hj' Hh Hr Ht Ht0. specialize (H8 Ht0).
  split; [by eapply conn_goto; eauto|]. apply ended_not_live in He. rewrite Hj, H8 in H5, H6, H7.
  cbn [app] in H5, H6, H7.
  split; cbn [threads set_run active_handlers run handlers]; rewrite ?Hj', ?H8; try done.
  - by rewrite Hr.
  - by destruct pc.
  - intros k' Hk'. specialize (H5 k' Hk'). apply elem_of_cons in H5 as [->|?]; [congruence|done].
  - by apply NoDup_cons in H6 as [_ ?].
  - by apply Forall_cons in H7 as [_ ?].
  - unfold retained_bound. cbn [run set_run handlers]. rewrite H8.
    assert (zlen (handlers s) <= max_active + 1) as Hl.
    { unfold retained_bound in H9. by destruct (run s). }
    rewrite H8 in Hl. destruct pc; done.
Qed.

Lemma inv_released s :
  max_active < 2 ^ 32 -> forall e b, inv s -> run s = RFailed b e ->
  inv (set_run (RStop StopExchange (inr e))
         (if b : bool then set_active (active_handlers s - 1) s else s)).
Proof.
  intros Hmax e b [Hc Ha] Hrun. pose proof Ha as [H1 H2 H3 H4 H5 H6 H7 H8 H9].
  unfold retained_bound in H9. rewrite Hrun in *. destruct b.
  - split; [by eapply conn_goto; eauto|]. cbn in H2.
    assert ((active_handlers s - 1) mod 2 ^ 32 = active_handlers s - 1) as Hmod by (apply Z.mod_small; lia).
    split; cbn [threads set_run set_active active_handlers run handlers]; rewrite ?Hmod; try done; cbn; lia.
  - apply inv_plain; try done; by rewrite Hrun.
Qed.

Lemma inv_run i s s' :
  1 <= max_active <= 4096 -> inv s -> rstep i s = Some s' -> inv s'.
Proof.
  intros Hmax Hinv Hstep. pose proof Hinv as [Hc Ha].
  assert (forall pc, plain pc = true -> held pc = None -> reserved pc = reserved (run s) ->
    joining (run s) = [] -> (taken pc = true -> handlers s = []) -> inv (set_run pc s)) as Hplain
    by (intros; by apply inv_plain).
  assert (forall p (k : stop_pc -> run_pc), (forall p', plain (k p') = true /\ held (k p') = None /\
      reserved (k p') = 0 /\ taken (k p') = false) -> joining (run s) = [] -> reserved (run s) = 0 ->
    ('(s1, p') ← stop_step p s; Some (set_run (k p') s1)) = Some s' -> inv s') as Hstop.
  { intros p k Hk Hj Hr Hp. destruct (stop_step p s) as [[s1 p1]|] eqn:Hs; [|done]. injection Hp as <-.
    destruct (server_inv_stop _ _ _ _ Hinv Hs) as [Hinv1 Hrun1]. destruct (Hk p1) as (? & ? & ? & Ht).
    apply inv_plain; try done; rewrite ?Hrun1; congruence. }
  unfold run_step in Hstep. destruct (run s) as [| | |l|a|d c n|d c|d c|d c|d c|b e|p st|p o|o|owned o|o|o|p| |owned| | |wk|] eqn:Hrun;
    cbn -[stop_step service_step] in Hstep.
  - destruct i, (stopping s); injection Hstep as <-; by apply Hplain.
  - destruct (stopping s); injection Hstep as <-; by apply Hplain.
  - destruct (listener_fd s <? 0); injection Hstep as <-; by apply Hplain.
  - destruct i as [|[d c| |st]|e]; [done| | | |]; try (injection Hstep as <-; by apply Hplain).
    destruct (fresh_descriptor d s && _) eqn:Hf; [|done]. apply andb_true_iff in Hf as [Hf _].
    injection Hstep as <-.
    split; [by apply conn_accept|]. apply acc_plain; try done; by rewrite Hrun.
  - destruct (stopping s); [injection Hstep as <-; by apply Hplain|].
    destruct a as [d c| |st]; injection Hstep as <-; try (by apply Hplain).
    split; [by eapply conn_goto; [|..|right; by rewrite Hrun]|].
    apply acc_goto; try done; try (by rewrite Hrun).
    pose proof (acc_loose s Ha). unfold retained_bound. cbn [run set_run handlers drop].
    split_and!; [lia| |done]. destruct Ha as [H1 H2 H3 H4 H5 H6 H7 H8 H9].
    rewrite Hrun in H2, H6. cbn in H2, H6. rewrite app_nil_r in H6.
    pose proof (num_of_le live (places s) _ H6). cbn [threads set_run]. rewrite drop_0. lia.
  - destruct (handlers s !! n) as [k|] eqn:Hk.
    + destruct (flagged s k) eqn:Hf; cbn [negb] in Hstep.
      * destruct (ended s k) eqn:He; [|done]. injection Hstep as <-.
        split; [by eapply conn_goto; eauto|by eapply acc_reap_erase].
      * injection Hstep as <-. split; [by eapply conn_goto; [|..|right; by rewrite Hrun]|].
        by eapply acc_reap_next.
    + injection Hstep as <-. split; [by eapply conn_goto; [|..|right; by rewrite Hrun]|].
      apply acc_goto; try done; try (by rewrite Hrun). pose proof (ac_bound _ Ha) as Hb.
      unfold retained_bound in Hb |- *. rewrite Hrun in Hb. cbn [run set_run handlers].
      destruct Hb as (Hn & Hl & _). apply lookup_ge_None in Hk. unfold zlen. lia.
  - assert (zlen (handlers s) <= max_active) as Hb
      by (pose proof (ac_bound _ Ha) as Hb; unfold retained_bound in Hb; by rewrite Hrun in Hb).
    injection Hstep as <-. destruct (Z.leb_spec max_active (active_handlers s));
      (split; [by eapply conn_goto; [|..|right; by rewrite Hrun]|]);
      (apply acc_goto; try done; by rewrite Hrun).
  - destruct i as [| |e]; [| |injection Hstep as <-; by apply Hplain];
      (destruct (protocol_failure _ _ _); [|injection Hstep as <-; by apply Hplain]);
      (destruct (write_frame _ _ _); try done; injection Hstep as <-; by apply Hplain).
  - destruct i as [| |e]; [| |injection Hstep as <-; by apply Hplain]; injection Hstep as <-;
      (split; [by eapply conn_goto; [|..|right; by rewrite Hrun]|]);
      (apply acc_reserve_slot; [lia|done|done]).
  - destruct i as [| |e]; [| |injection Hstep as <-; by apply Hplain]; injection Hstep as <-;
      (split; [by eapply conn_spawn|]);
      (eapply acc_spawn; [|done|done]); by apply (ci_held _ Hc); rewrite Hrun.
  - injection Hstep as <-. apply inv_released; [lia|done|done].
  - destruct p; try (eapply (Hstop _ (fun p => RFatal p st)); [done..|exact Hstep]).
    injection Hstep as <-. by apply Hplain.
  - destruct p; try (eapply (Hstop _ (fun p => RStop p o)); [done..|exact Hstep]).
    injection Hstep as <-. by apply Hplain.
  - injection Hstep as <-. apply inv_swap; try done; [lia|by rewrite Hrun|by rewrite Hrun].
  - destruct owned as [|k owned].
    + injection Hstep as <-. apply Hplain; try done. intros _. apply (ac_taken _ Ha). by rewrite Hrun.
    + destruct (ended s k) eqn:He; [|done]. injection Hstep as <-.
      eapply inv_joined; try done; by rewrite Hrun.
  - injection Hstep as <-. apply (inv_plain (set_node false s)); try done; cbn; rewrite ?Hrun; try done.
    destruct Hc, Ha. by split; split.
  - destruct (forallb _ _); [|done]. injection Hstep as <-. by apply Hplain.
  - destruct p; try (eapply (Hstop _ DStop); [done..|exact Hstep]).
    injection Hstep as <-. by apply Hplain.
  - injection Hstep as <-. apply inv_swap; try done; [lia|by rewrite Hrun|by rewrite Hrun].
  - destruct owned as [|k owned].
    + injection Hstep as <-. apply Hplain; try done. intros _. apply (ac_taken _ Ha). by rewrite Hrun.
    + destruct (ended s k) eqn:He; [|done]. injection Hstep as <-.
      eapply inv_joined; try done; by rewrite Hrun.
  - injection Hstep as <-. apply (inv_plain (set_node false s)); try done; cbn; rewrite ?Hrun; try done.
    + destruct Hc, Ha. by split; split.
    + intros _. apply (ac_taken _ Ha). by rewrite Hrun.
  - destruct (sstep SDestroy (service s)) as [x|]; [|done]. injection Hstep as <-.
    apply (inv_plain (set_service x s)); try done; cbn; rewrite ?Hrun; try done.
    + destruct Hc, Ha. by split; split.
    + intros _. apply (ac_taken _ Ha). by rewrite Hrun.
  - assert (handlers s = []) as Hh by (apply (ac_taken _ Ha); by rewrite Hrun).
    destruct (workers (sys (service s)) !! wk) as [[]|]; try discriminate Hstep;
      injection Hstep as <-; by apply Hplain.
  - done.
Qed.

Lemma inv_service s x : inv s -> inv (set_service x s).
Proof. intros [[H1 H2 H3 H4] [? ? ? ? ? ? ? ? ?]]. by split; split. Qed.

Lemma inv_stoppers s l : inv s -> inv (set_stoppers l s).
Proof. intros [[H1 H2 H3 H4] [? ? ? ? ? ? ? ? ?]]. by split; split. Qed.

Lemma inv_step e s s' : 1 <= max_active <= 4096 -> inv s -> vstep e s = Some s' -> inv s'.
Proof.
  intros Hmax Hinv Hstep. pose proof Hinv as [Hc Ha]. destruct e; cbn -[handler_step run_step service_step stop_step] in Hstep.
  - split; [by eapply conn_handler|eapply acc_handler; [lia|done..]].
  - by eapply inv_run.
  - destruct (sstep _ _) as [x|]; [|done]. injection Hstep as <-. by apply inv_service.
  - destruct (sstep _ _) as [x|]; [|done]. injection Hstep as <-. by apply inv_service.
  - destruct (alive s); [|done]. injection Hstep as <-. by apply inv_stoppers.
  - destruct (stoppers s !! n) as [p|]; [|done]. cbn -[stop_step] in Hstep.
    destruct (stop_step p s) as [[s1 p1]|] eqn:Hs; [|done]. injection Hstep as <-.
    apply inv_stoppers. by eapply server_inv_stop.
  - destruct (threads s !! k) as [h|] eqn:Hk; [|done]. cbn -[forallb] in Hstep.
    destruct (forallb _ a); [|done]. injection Hstep as <-.
    assert (connected_inv (set_thread k (h_arrive a h) s)) by (by eapply conn_same).
    split; [done|by eapply acc_same].
  - destruct (threads s !! k) as [h|] eqn:Hk; [|done]. cbn -[forallb] in Hstep.
    destruct (h_shut h || _); [done|].
    injection Hstep as <-.
    match goal with |- inv (set_thread k ?h' s) =>
      assert (connected_inv (set_thread k h' s)) by (by eapply conn_same) end.
    split; [done|by eapply acc_same].
Qed.

Lemma server_inv_initial listener : 1 <= max_active -> inv (server_initial config listener).
Proof.
  intros Hmax. split; split; cbn; try done.
  - intros d. split; [by intros ?%not_elem_of_empty|]. by intros (k & p & Hk & _).
  - lia.
  - constructor.
  - change (zlen (@nil nat) <= max_active + 1). rewrite zlen_nil. lia.
Qed.

Lemma config_max :
  server_config_valid config = true -> is_uint 32 max_active -> 1 <= max_active <= 4096.
Proof. unfold server_config_valid, is_uint. rewrite negb_true_iff, !orb_false_iff. lia. Qed.

Lemma inv_reachable listener s :
  server_config_valid config = true -> is_uint 32 max_active -> vreach listener s -> inv s.
Proof.
  intros Hv Hu. pose proof (config_max Hv Hu) as Hmax.
  induction 1 as [|s e s' _ IH Hstep]; [apply server_inv_initial; lia|by eapply inv_step].
Qed.

(** ** The promises *)

(** C12: No handler is lost and the bound on connections holds, in every interleaving and
    whichever allocation or thread creation fails: [active_handlers] is exactly the number
    of handler threads that have not yet released their slot (and of the one about to be
    started), it never exceeds [maximum_active_connections] and never wraps; each such
    thread is in [handlers] or being joined, at most once, so that it will be joined; and
    the retained records are at most one more than the bound. *)
Theorem handlers_accounted listener s :
  server_config_valid config = true -> is_uint 32 max_active ->
  server_reachable config instance_id daemon_version broken_pipe listener s ->
  active_handlers s = Z.of_nat (num live (place <$> threads s)) + reserved (run s) /\
  active_handlers s <= max_active /\
  (forall k h, threads s !! k = Some h -> h_pc h <> HEnd -> k ∈ handlers s ++ joining (run s)) /\
  NoDup (handlers s ++ joining (run s)) /\ zlen (handlers s) <= max_active + 1.
Proof.
  intros Hv Hu Hs. destruct (inv_reachable _ _ Hv Hu Hs) as [Hc Ha].
  split_and!; try apply Ha; [|by apply acc_loose].
  intros k h Hk Hpc. apply (ac_retained _ Ha). unfold at_place. rewrite list_lookup_fmap, Hk. cbn.
  unfold live, place. cbn. by destruct (h_pc h).
Qed.

(** [stop] interrupts the server's own connections and nothing else: at every moment
    [active_connections] holds exactly the descriptors of the registered connections, each
    still open and of one thread only, so no number in it was closed and given to another
    file; and an accepted connection that has no thread yet shares its descriptor with
    none. *)
Theorem connections_exact listener s :
  server_config_valid config = true -> is_uint 32 max_active ->
  server_reachable config instance_id daemon_version broken_pipe listener s ->
  (forall d, d ∈ active_connections s <->
     exists k h, threads s !! k = Some h /\ attached (place h) = true /\ h_descriptor h = d) /\
  (forall k h, threads s !! k = Some h -> attached (place h) = true -> h_open h = true) /\
  (forall j k hj hk, threads s !! j = Some hj -> threads s !! k = Some hk ->
     h_open hj = true -> h_open hk = true -> h_descriptor hj = h_descriptor hk -> j = k) /\
  (forall d k h, held (run s) = Some d -> threads s !! k = Some h -> h_open h = true ->
     h_descriptor h <> d).
Proof.
  intros Hv Hu Hs. destruct (inv_reachable _ _ Hv Hu Hs) as [[Hok Hheld Hdist Hconn] _].
  assert (forall k h, threads s !! k = Some h -> places s !! k = Some (place h)) as Hpl
    by (intros k h Hk; by rewrite list_lookup_fmap, Hk).
  split_and!.
  - intros d. rewrite Hconn. split.
    + intros (k & p & Hk & Hat & Hf). rewrite list_lookup_fmap in Hk.
      destruct (threads s !! k) as [h|] eqn:Hh; [|done]. injection Hk as <-. by exists k, h.
    + intros (k & h & Hk & Hat & Hf). exists k, (place h). auto.
  - intros k h _ Hat. by apply attached_opened in Hat.
  - intros j k hj hk Hj Hk Hoj Hok' Heq. by eapply (Hdist j k (place hj) (place hk)); auto.
  - intros d k h Hd Hk Ho. destruct (Hheld d Hd) as [_ Hne]. by apply (Hne k (place h)); auto.
Qed.
End Steps.
End Places.
