(* ===== verification/ServerLife.v ===== *)
(** What the server promises to its owner: it uses the service as the properties of the
    service assume, every call of [dispatch] has a thread that waits for it, and the server
    is torn down only when nobody uses it. *)
From S2P Require Import Prelude OrdMap Kernel Protocol Wire CodecRequest CodecResult Codec.
From S2P Require Import CodecSpec Layout Frame FrameSpec Jobs JobSystem JobSpec JobOutcome.
From S2P Require Import Service ServiceSystem ServiceLink ServiceSpec SessionSpec Dispatch.
From S2P Require Import Quit Framing Server ServerSpec.

Section Life.
Context `{HK : KernelLaws} {RT : Runtime}.
Context (config : ServerConfig) (instance_id : Z) (daemon_version broken_pipe : bytes).

Abbreviation hstep := (handler_step config instance_id daemon_version broken_pipe).
Abbreviation rstep := (run_step config instance_id daemon_version).
Abbreviation vstep := (server_step config instance_id daemon_version broken_pipe).
Abbreviation vreach := (server_reachable config instance_id daemon_version broken_pipe).
Abbreviation sstep := (service_step (scfg_service config) instance_id daemon_version).
Abbreviation sreach := (service_reachable (scfg_service config) instance_id daemon_version).

(** ** The service inside the server *)

(** A handler calls [dispatch] when it has decoded a request, and touches the service at no
    other point. *)
Lemma handler_service i k s s' :
  hstep i k s = Some s' ->
  service s' = service s \/
  exists h frame request, threads s !! k = Some h /\ h_pc h = HDecode frame /\
    decode_request frame = ROk request /\
    s' = set_thread k (h_to (HDispatch frame (length (calls (service s)))) h)
           (set_service (set_calls (calls (service s) ++ [(request, CFence)]) (service s)) s).
Proof.
  intros Hstep. unfold handler_step in Hstep.
  destruct (threads s !! k) as [h|] eqn:Hk; [|done]. cbn -[service_step stop_step] in Hstep.
  assert (forall p, (('(s1, p') ← stop_step p s; h1 ← threads s1 !! k;
      Some (set_thread k (h_to (HStop p') h1) s1)) = Some s') -> service s' = service s) as Hstop.
  { intros p Hp. destruct (stop_step p s) as [[s1 p1]|] eqn:Hs; [|done]. cbn in Hp.
    destruct (threads s1 !! k) as [h1|]; [|done]. injection Hp as <-. cbn.
    apply (sm_service _ _ (stop_step_moved _ _ _ _ Hs)). }
  destruct (h_pc h) as [| | |frame| | | | | | |p| | | | |] eqn:Hpc;
    try (destruct p; try (left; eapply Hstop; exact Hstep));
    try (left; repeat match type of Hstep with
    | Some _ = Some _ => injection Hstep as <-
    | (match ?x with _ => _ end) = Some _ => destruct x; try discriminate Hstep
    | (?x ≫= _) = Some _ => destruct x; cbn [mbind option_bind] in Hstep; try discriminate Hstep
    end; done).
  destruct i as [|e n]; [|injection Hstep as <-; by left].
  destruct (decode_request frame) as [request|st] eqn:Hd; injection Hstep as <-; [|by left].
  right. by exists h, frame, request.
Qed.

Lemma run_service i s s' :
  rstep i s = Some s' ->
  service s' = service s \/ (run s = DService /\ sstep SDestroy (service s) = Some (service s')).
Proof.
  intros Hstep. unfold run_step in Hstep.
  assert (forall p (k : stop_pc -> run_pc),
    ('(s1, p') ← stop_step p s; Some (set_run (k p') s1)) = Some s' -> service s' = service s) as Hstop.
  { intros p k Hp. destruct (stop_step p s) as [[s1 p1]|] eqn:Hs; [|done]. injection Hp as <-. cbn.
    apply (sm_service _ _ (stop_step_moved _ _ _ _ Hs)). }
  destruct (run s) as [| | |l|a|d c n|d c|d c|d c|d c|b e|p st|p o|o|owned o|o|o|p| |owned| | |wk|] eqn:Hrun;
    cbn -[stop_step service_step] in Hstep;
    try (destruct p; try (left; eapply (Hstop _ (fun p => RFatal p st)); exact Hstep);
         try (left; eapply (Hstop _ (fun p => RStop p o)); exact Hstep);
         try (left; eapply (Hstop _ DStop); exact Hstep));
    try (left; repeat match type of Hstep with
    | Some _ = Some _ => injection Hstep as <-
    | (match ?x with _ => _ end) = Some _ => destruct x; try discriminate Hstep
    end; cbn; repeat match goal with |- context [if ?b then _ else _] => destruct b end; done).
  destruct (sstep SDestroy (service s)) as [x|] eqn:Hx; [|done]. injection Hstep as <-. by right.
Qed.

Lemma vstep_service e s s' :
  vstep e s = Some s' ->
  service s' = service s \/ exists se, sstep se (service s) = Some (service s').
Proof.
  intros Hstep. destruct e; cbn -[handler_step run_step service_step stop_step] in Hstep.
  - destruct (handler_service _ _ _ _ Hstep) as [?|(h & frame & request & _ & _ & _ & ->)]; [by left|].
    right. by exists (SDispatch request).
  - destruct (run_service _ _ _ Hstep) as [?|[_ ?]]; eauto.
  - destruct (sstep _ _) as [x|] eqn:Hx; [|done]. injection Hstep as <-. eauto.
  - destruct (sstep _ _) as [x|] eqn:Hx; [|done]. injection Hstep as <-. eauto.
  - destruct (alive s); [|done]. injection Hstep as <-. by left.
  - destruct (stoppers s !! n) as [p|]; [|done]. cbn -[stop_step] in Hstep.
    destruct (stop_step p s) as [[s1 p1]|] eqn:Hs; [|done]. injection Hstep as <-. left. cbn.
    apply (sm_service _ _ (stop_step_moved _ _ _ _ Hs)).
  - destruct (threads s !! k); [|done]. cbn in Hstep. destruct (forallb _ a); [|done].
    injection Hstep as <-. by left.
  - destruct (threads s !! k) as [h|]; [|done]. cbn in Hstep. destruct (h_shut h || _); [done|].
    injection Hstep as <-. by left.
Qed.

(** Everything proved of the service holds of the one inside the server. *)
Lemma server_service_reachable listener s : vreach listener s -> sreach (service s).
Proof.
  induction 1 as [|s e s' _ IH Hstep]; [constructor|].
  destruct (vstep_service _ _ _ Hstep) as [->|[se Hse]]; [done|by econstructor].
Qed.

(** *** Steps of the service and its calls *)

(** Calls keep their request; an answered call stays answered. *)
Lemma sstep_calls e x x' c req pc :
  sstep e x = Some x' -> calls x !! c = Some (req, pc) ->
  exists pc', calls x' !! c = Some (req, pc') /\ (finished (req, pc) = true -> pc' = pc).
Proof.
  intros Hstep Hc. destruct e; cbn -[job_step call_step] in Hstep.
  - destruct (job_step _ _ _ _ _); [|done]. injection Hstep as <-. eauto.
  - injection Hstep as <-. exists pc. split; [|done]. cbn. by apply lookup_app_l_Some.
  - destruct (calls x !! c0) as [[r0 pc0]|] eqn:H0; [|done]. cbn -[call_step] in Hstep.
    destruct (call_step _ _ _ i x r0 pc0) as [[x1 pc1]|] eqn:Hcs; [|done]. injection Hstep as <-.
    cbn. rewrite (call_step_calls _ _ _ _ _ _ _ _ _ Hcs).
    destruct (decide (c = c0)) as [->|Hne].
    + rewrite H0 in Hc. injection Hc as -> ->. exists pc1.
      rewrite list_lookup_insert_eq by (by eapply lookup_lt_Some). split; [done|].
      intros Hf. by destruct pc.
    + rewrite list_lookup_insert_ne by done. eauto.
  - destruct (forallb _ _); [|done]. injection Hstep as <-. eauto.
Qed.

(** Only [dispatch] adds a call. *)
Lemma sstep_calls_length e x x' :
  sstep e x = Some x' ->
  length (calls x') = length (calls x) \/
  exists request, e = SDispatch request /\ x' = set_calls (calls x ++ [(request, CFence)]) x.
Proof.
  intros Hstep. destruct e; cbn -[job_step call_step] in Hstep.
  - destruct (job_step _ _ _ _ _); [|done]. injection Hstep as <-. by left.
  - injection Hstep as <-. eauto.
  - destruct (calls x !! c) as [[r0 pc0]|] eqn:H0; [|done]. cbn -[call_step] in Hstep.
    destruct (call_step _ _ _ i x r0 pc0) as [[x1 pc1]|] eqn:Hcs; [|done]. injection Hstep as <-.
    left. cbn. by rewrite length_insert, (call_step_calls _ _ _ _ _ _ _ _ _ Hcs).
  - destruct (forallb _ _); [|done]. injection Hstep as <-. by left.
Qed.

(** ** Who waits for a call *)

(** Every unanswered call has its thread, waiting in [dispatch]. *)
Definition awaited (s : ServerState) : Prop :=
  forall c call, calls (service s) !! c = Some call -> finished call = false ->
    exists k h frame, threads s !! k = Some h /\ h_pc h = HDispatch frame c.

(** The other threads of the service's steps do not move. *)
Lemma awaited_service e s x :
  awaited s -> sstep e (service s) = Some x -> (forall request, e <> SDispatch request) ->
  awaited (set_service x s).
Proof.
  intros Ha Hx Hne c [req pc] Hc Hf. cbn in Hc |- *.
  destruct (sstep_calls_length _ _ _ Hx) as [Hlen|(request & -> & _)]; [|by destruct (Hne request)].
  destruct (lookup_lt_is_Some_2 (calls (service s)) c) as [[req0 pc0] H0].
  { rewrite <-Hlen. by eapply lookup_lt_Some. }
  destruct (sstep_calls _ _ _ _ _ _ Hx H0) as (pc1 & H1 & Hfin). rewrite H1 in Hc. injection Hc as -> ->.
  apply (Ha c (req, pc0) H0). destruct (finished (req, pc0)) eqn:E; [|done]. by rewrite Hfin, E in Hf.
Qed.

(** Threads keep their points, apart from those that do not wait. *)
Lemma awaited_threads s s' :
  awaited s -> service s' = service s ->
  (forall k h frame c call, threads s !! k = Some h -> h_pc h = HDispatch frame c ->
     calls (service s) !! c = Some call -> finished call = false ->
     exists h', threads s' !! k = Some h' /\ h_pc h' = HDispatch frame c) ->
  awaited s'.
Proof.
  intros Ha Hs Hk c call Hc Hf. rewrite Hs in Hc. destruct (Ha c call Hc Hf) as (k & h & frame & Hh & Hpc).
  destruct (Hk _ _ _ _ _ Hh Hpc Hc Hf) as (h' & Hh' & Hpc'). eauto.
Qed.

(** Places determine points. *)
Lemma place_pc s s' k h p :
  (place <$> threads s') !! k = (place <$> threads s) !! k -> threads s !! k = Some h ->
  h_pc h = p -> exists h', threads s' !! k = Some h' /\ h_pc h' = p.
Proof.
  rewrite !list_lookup_fmap. intros E Hk Hpc. rewrite Hk in E.
  destruct (threads s' !! k) as [h'|]; [|done]. cbn in E. exists h'. split; [done|].
  unfold place in E. congruence.
Qed.

(** A thread in [dispatch] goes on when its call was answered. *)
Lemma dispatch_returns i k s s' h frame c :
  hstep i k s = Some s' -> threads s !! k = Some h -> h_pc h = HDispatch frame c ->
  exists request response, calls (service s) !! c = Some (request, CDone response) /\
    s' = set_thread k (h_to (HEncode frame c response)
      (h_accept (status_ok (resp_status response) && resp_shutdown_after_write response) h)) s.
Proof.
  intros Hstep Hk Hpc. unfold handler_step in Hstep. rewrite Hk in Hstep. cbn in Hstep.
  rewrite Hpc in Hstep. destruct (calls (service s) !! c) as [[req pc]|]; [|done].
  destruct pc; try discriminate Hstep. injection Hstep as <-. eauto.
Qed.

Lemma awaited_handler i k s s' :
  Forall thread_ok (threads s) -> awaited s -> hstep i k s = Some s' -> awaited s'.
Proof.
  intros Hok Ha Hstep. destruct (handler_moves _ _ _ _ _ _ _ _ Hok Hstep) as (h & h' & Hk & Hm).
  assert (forall j, j <> k -> (place <$> threads s') !! j = (place <$> threads s) !! j) as Hothers.
  { intros j Hj. by rewrite (hm_places _ _ _ _ _ Hm), list_lookup_insert_ne. }
  destruct (handler_service _ _ _ _ Hstep) as [Hs|(h0 & frame & request & H0 & Hpc0 & Hd & ->)].
  - apply (awaited_threads s); try done. intros j hj frame c call Hj Hpc Hc Hf.
    destruct (decide (j = k)) as [->|Hne]; [|by eapply place_pc; [apply Hothers|..]].
    destruct (dispatch_returns _ _ _ _ _ _ _ Hstep Hj Hpc) as (request & response & Hc' & _).
    rewrite Hc in Hc'. injection Hc' as ->. done.
  - intros c call Hc Hf. cbn in Hc. apply lookup_app_Some in Hc as [Hc|[Hge Hc]].
    + destruct (Ha c call Hc Hf) as (j & hj & fr & Hj & Hpc).
      destruct (decide (j = k)) as [->|Hne]; [congruence|].
      destruct (place_pc _ _ j hj _ (Hothers j Hne) Hj Hpc) as (h1 & H1 & Hpc1). eauto.
    + apply list_lookup_singleton_Some in Hc as [Hz _].
      exists k, (h_to (HDispatch frame (length (calls (service s)))) h0), frame.
      split; [cbn; apply list_lookup_insert_eq; by eapply lookup_lt_Some|]. cbn. f_equal. lia.
Qed.

(** A step of [stop] moves nobody. *)
Lemma awaited_places s s' :
  awaited s -> service s' = service s -> (forall k p, (place <$> threads s) !! k = Some p ->
    (place <$> threads s') !! k = Some p) -> awaited s'.
Proof.
  intros Ha Hs Hp. apply (awaited_threads s); try done. intros k h frame c call Hk Hpc _ _.
  eapply place_pc; [|exact Hk|exact Hpc]. rewrite (Hp k (place h)) by (by rewrite list_lookup_fmap, Hk).
  by rewrite list_lookup_fmap, Hk.
Qed.

(** The accepting thread leaves the points of the handlers alone, and may add one. *)
Lemma run_places i s s' k p :
  rstep i s = Some s' -> (place <$> threads s) !! k = Some p -> (place <$> threads s') !! k = Some p.
Proof.
  intros Hstep Hk. unfold run_step in Hstep.
  assert (forall p0 (pc : stop_pc -> run_pc),
    ('(s1, p') ← stop_step p0 s; Some (set_run (pc p') s1)) = Some s' ->
    (place <$> threads s') !! k = Some p) as Hstop.
  { intros p0 pc Hp. destruct (stop_step p0 s) as [[s1 p1]|] eqn:Hs; [|done]. injection Hp as <-. cbn.
    by rewrite (sm_places _ _ (stop_step_moved _ _ _ _ Hs)). }
  destruct (run s) as [| | |l|a|d c n|d c|d c|d c|d c|b e|p0 st|p0 o|o|owned o|o|o|p0| |owned| | |wk|] eqn:Hrun;
    cbn -[stop_step service_step] in Hstep;
    try (destruct p0; try (eapply (Hstop _ (fun p => RFatal p st)); exact Hstep);
         try (eapply (Hstop _ (fun p => RStop p o)); exact Hstep);
         try (eapply (Hstop _ DStop); exact Hstep));
    repeat match type of Hstep with
    | Some _ = Some _ => injection Hstep as <-
    | (match ?x with _ => _ end) = Some _ => destruct x; try discriminate Hstep
    | (?x ≫= _) = Some _ => destruct x; cbn [mbind option_bind] in Hstep; try discriminate Hstep
    end; cbn; repeat match goal with |- context [if ?b then _ else _] => destruct b end;
    rewrite ?fmap_app; first [discriminate Hstep | exact Hk | by apply lookup_app_l_Some].
Qed.

Lemma awaited_step e s s' :
  Forall thread_ok (threads s) -> awaited s -> vstep e s = Some s' -> awaited s'.
Proof.
  intros Hok Ha Hstep. destruct e; cbn -[handler_step run_step service_step stop_step] in Hstep.
  - by eapply awaited_handler.
  - destruct (run_service _ _ _ Hstep) as [Hs|[Hrun Hx]].
    + eapply awaited_places; [done|done|]. intros k p. by apply (run_places i).
    + assert (calls (service s') = calls (service s)) as Hc.
      { cbn in Hx. destruct (forallb _ _); [|done]. by injection Hx as <-. }
      intros c call Hcall Hf. rewrite Hc in Hcall. destruct (Ha c call Hcall Hf) as (k & h & frame & Hk & Hpc).
      assert ((place <$> threads s) !! k = Some (place h)) as Hp by (by rewrite list_lookup_fmap, Hk).
      destruct (place_pc s s' k h _ (eq_trans (run_places _ _ _ _ _ Hstep Hp) (eq_sym Hp)) Hk Hpc)
        as (h' & Hk' & Hpc'). eauto.
  - destruct (sstep _ _) as [x|] eqn:Hx; [|done]. injection Hstep as <-. by eapply awaited_service.
  - destruct (sstep _ _) as [x|] eqn:Hx; [|done]. injection Hstep as <-. by eapply awaited_service.
  - destruct (alive s); [|done]. injection Hstep as <-. exact Ha.
  - destruct (stoppers s !! n) as [p|]; [|done]. cbn -[stop_step] in Hstep.
    destruct (stop_step p s) as [[s1 p1]|] eqn:Hs; [|done]. injection Hstep as <-.
    destruct (stop_step_moved _ _ _ _ Hs). eapply awaited_places; [done|done|].
    intros k p0. cbn. by rewrite sm_places.
  - destruct (threads s !! k) as [h|] eqn:Hk; [|done]. cbn in Hstep. destruct (forallb _ a); [|done].
    injection Hstep as <-. eapply awaited_places; [done|done|]. intros j p.
    by rewrite (places_same k h).
  - destruct (threads s !! k) as [h|] eqn:Hk; [|done]. cbn in Hstep. destruct (h_shut h || _); [done|].
    injection Hstep as <-. eapply awaited_places; [done|done|]. intros j p.
    by rewrite (places_same k h).
Qed.

Lemma awaited_reachable listener s :
  server_config_valid config = true -> is_uint 32 (scfg_maximum_active_connections config) ->
  vreach listener s -> awaited s.
Proof.
  intros Hv Hu. induction 1 as [|s e s' Hs IH Hstep]; [by intros c call Hc|].
  eapply awaited_step; [|exact IH|exact Hstep].
  by destruct (inv_reachable _ _ _ _ _ _ Hv Hu Hs) as [[Hok _ _ _] _].
Qed.

(** *** The workers of the service *)

(** Only the workers of the service are left. *)
Definition over (r : run_pc) : bool := match r with DWorkers _ | Gone => true | _ => false end.

Lemma run_over i s s' :
  rstep i s = Some s' -> over (run s') = true ->
  (run s' = DWorkers 0 /\ sstep SDestroy (service s) = Some (service s')) \/
  (service s' = service s /\ exists w, run s = DWorkers w /\
     ((run s' = DWorkers (S w) /\ workers (sys (service s)) !! w = Some WExited) \/
      (run s' = Gone /\ workers (sys (service s)) !! w = None))).
Proof.
  intros Hstep Hover. unfold run_step in Hstep.
  assert (forall p (pc : stop_pc -> run_pc), (forall p, over (pc p) = false) ->
    ('(s1, p') ← stop_step p s; Some (set_run (pc p') s1)) = Some s' -> False) as Hstop.
  { intros p pc Hpc Hp. destruct (stop_step p s) as [[s1 p1]|]; [|done]. injection Hp as <-.
    cbn in Hover. by rewrite Hpc in Hover. }
  destruct (run s) as [| | |l|a|d c n|d c|d c|d c|d c|b e|p st|p o|o|owned o|o|o|p| |owned| | |wk|] eqn:Hrun;
    cbn -[stop_step service_step] in Hstep;
    try (exfalso; destruct p; try (eapply (Hstop _ (fun p => RFatal p st)); [done|exact Hstep]);
         try (eapply (Hstop _ (fun p => RStop p o)); [done|exact Hstep]);
         try (eapply (Hstop _ DStop); [done|exact Hstep]));
    try (exfalso; repeat match type of Hstep with
    | Some _ = Some _ => injection Hstep as <-
    | (match ?x with _ => _ end) = Some _ => destruct x; try discriminate Hstep
    end; revert Hover; cbn; rewrite ?Hrun; repeat case_match; done).
  - destruct (sstep SDestroy (service s)) as [x|] eqn:Hx; [|done]. injection Hstep as <-. by left.
  - right. destruct (workers (sys (service s)) !! wk) as [pc|] eqn:Hw.
    + destruct pc; try discriminate Hstep. injection Hstep as <-. split; [done|]. exists wk. eauto.
    + injection Hstep as <-. split; [done|]. exists wk. eauto.
Qed.

(** Who steps changes no one else's place in [run]. *)
Lemma vstep_run e s s' :
  Forall thread_ok (threads s) -> vstep e s = Some s' -> (exists i, e = VRun i) \/ run s' = run s.
Proof.
  intros Hok Hstep. destruct e; cbn -[handler_step run_step service_step stop_step] in Hstep;
    [right|by eauto|right..].
  - destruct (handler_moves _ _ _ _ _ _ _ _ Hok Hstep) as (h & h' & _ & Hm). apply Hm.
  - destruct (sstep _ _); [|done]. by injection Hstep as <-.
  - destruct (sstep _ _); [|done]. by injection Hstep as <-.
  - destruct (alive s); [|done]. by injection Hstep as <-.
  - destruct (stoppers s !! n) as [p|]; [|done]. cbn -[stop_step] in Hstep.
    destruct (stop_step p s) as [[s1 p1]|] eqn:Hs; [|done]. injection Hstep as <-.
    exact (sm_run _ _ (stop_step_moved _ _ _ _ Hs)).
  - destruct (threads s !! k); [|done]. cbn -[arrival_ok] in Hstep.
    destruct (forallb _ _); [|done]. by injection Hstep as <-.
  - destruct (threads s !! k); [|done]. cbn in Hstep.
    destruct (_ || _); [done|]. by injection Hstep as <-.
Qed.

(** The registry is stopped, and these workers are joined. *)
Definition quit_at (s : ServerState) : Prop :=
  let j := sys (service s) in
  match run s with
  | DWorkers k => Jobs.stopping (reg j) = true /\ forall w, (w < k)%nat -> workers j !! w = Some WExited
  | Gone => forall w pc, workers j !! w = Some pc -> pc = WExited
  | _ => True
  end.

Lemma quit_kept s s' :
  quit_at s -> run s' = run s -> quitting (sys (service s)) (sys (service s')) -> quit_at s'.
Proof.
  unfold quit_at. intros Hq -> [H1 H2 H3]. destruct (run s); [done..| |].
  - destruct Hq as [Hs Hw]. auto.
  - intros w pc Hw. assert (exists pc0, workers (sys (service s)) !! w = Some pc0) as [pc0 H0].
    { apply lookup_lt_is_Some. rewrite <-H3. by eapply lookup_lt_Some. }
    pose proof (Hq _ _ H0) as ->. apply H2 in H0. congruence.
Qed.

Lemma quit_reachable listener s :
  server_config_valid config = true -> is_uint 32 (scfg_maximum_active_connections config) ->
  vreach listener s -> quit_at s.
Proof.
  intros Hv Hu. induction 1 as [|s e s' Hs IH Hstep]; [done|].
  destruct (inv_reachable _ _ _ _ _ _ Hv Hu Hs) as [[Hok _ _ _] _].
  pose proof (server_service_reachable _ _ Hs) as Hss.
  assert (quitting (sys (service s)) (sys (service s'))) as Hq.
  { destruct (vstep_service _ _ _ Hstep) as [->|[se Hse]]; [apply quitting_refl|].
    by eapply service_step_quitting. }
  destruct (vstep_run _ _ _ Hok Hstep) as [[i ->]|Hrun]; [|by eapply quit_kept].
  destruct (over (run s')) eqn:Hover; [|by unfold quit_at; destruct (run s')].
  cbn -[run_step] in Hstep.
  destruct (run_over _ _ _ Hstep Hover) as [[Hr Hd]|(Hsv & w & Hr & [[Hr' Hw]|[Hr' Hw]])];
    unfold quit_at in *; rewrite ?Hr, ?Hr', ?Hsv in *.
  - split; [|intros w Hw; lia]. cbn in Hd. destruct (forallb _ _); [|done]. injection Hd as <-.
    cbn. unfold stop_section. by destruct (Jobs.stopping _) eqn:E.
  - destruct IH as [Hst Hall]. split; [done|]. intros k Hk.
    destruct (decide (k = w)) as [->|Hne]; [done|]. apply Hall. lia.
  - intros k pc Hk. destruct IH as [_ Hall].
    assert (workers (sys (service s)) !! k = Some WExited) as Hx.
    { apply Hall. apply lookup_ge_None in Hw. apply lookup_lt_Some in Hk. lia. }
    congruence.
Qed.

(** No thread at such a place. *)
Lemma num_none (p : Z * bool * handler_pc -> bool) l : Forall (fun x => p x = false) l -> num p l = O.
Proof.
  unfold num. induction 1 as [|x l Hx _ IH]; [done|]. rewrite filter_cons, Hx. by case_decide.
Qed.

(** Once the records are taken and joined, every handler thread has ended. *)
Lemma taken_ended s :
  accounted config s -> taken (run s) = true -> joining (run s) = [] ->
  forall k h, threads s !! k = Some h -> h_pc h = HEnd.
Proof.
  intros Hacc Ht Hj k h Hk. destruct (at_place live (place <$> threads s) k) eqn:E.
  - pose proof (ac_retained _ _ Hacc k E) as Hin. rewrite (ac_taken _ _ Hacc Ht), Hj in Hin.
    by apply not_elem_of_nil in Hin.
  - unfold at_place in E. rewrite list_lookup_fmap, Hk in E. cbn in E. unfold live, place in E. cbn in E.
    by destruct (h_pc h).
Qed.

(** C11: The server is torn down only when nobody uses it: when [join_handlers] is over, in
    [run] or in the destructor, every handler thread has ended and closed its descriptor,
    no connection is registered, no call of [dispatch] is running, and so the service may
    be destroyed; this covers every way [run] can end, by a stop, a fatal accept or an
    exception.  When the server is gone every worker of the service has ended too. *)
Theorem teardown_safe listener s :
  server_config_valid config = true -> is_uint 32 (scfg_maximum_active_connections config) ->
  server_reachable config instance_id daemon_version broken_pipe listener s ->
  (exists o, run s = RJoin [] o) \/ (exists o, run s = RRemove o) \/ run s = DJoin [] \/
  run s = DRemove \/ run s = DService \/ (exists w, run s = DWorkers w) \/ run s = Gone ->
  (forall k h, threads s !! k = Some h -> h_pc h = HEnd) /\ active_connections s = ∅ /\
  active_handlers s = 0 /\
  (forall c call, calls (service s) !! c = Some call -> finished call = true) /\
  is_Some (service_step (scfg_service config) instance_id daemon_version SDestroy (service s)) /\
  (run s = Gone -> forall w pc, workers (sys (service s)) !! w = Some pc -> pc = WExited).
Proof.
  intros Hv Hu Hs Hrun. destruct (inv_reachable _ _ _ _ _ _ Hv Hu Hs) as [[_ _ _ Hconn] Hacc].
  assert (taken (run s) = true /\ joining (run s) = [] /\ reserved (run s) = 0) as (Ht & Hj & Hr).
  { destruct Hrun as [[o Hr]|[[o Hr]|[Hr|[Hr|[Hr|[[w Hr]|Hr]]]]]]; by rewrite Hr. }
  pose proof (taken_ended _ Hacc Ht Hj) as Hend.
  assert (forall c call, calls (service s) !! c = Some call -> finished call = true) as Hfin.
  { intros c call Hc. destruct (finished call) eqn:Hf; [done|].
    destruct (awaited_reachable _ _ Hv Hu Hs c call Hc Hf) as (k & h & frame & Hk & Hpc).
    rewrite (Hend k h Hk) in Hpc. done. }
  split; [exact Hend|]. split; [|split; [|split; [exact Hfin|split]]].
  - apply set_eq. intros d. rewrite Hconn. split; [|by intros ?%not_elem_of_empty].
    intros (k & p & Hk & Hat & _). exfalso. rewrite list_lookup_fmap in Hk.
    destruct (threads s !! k) as [h|] eqn:E; [|done]. injection Hk as <-.
    unfold attached, place in Hat. cbn in Hat. rewrite (Hend k h E), andb_false_r in Hat. done.
  - rewrite (ac_active _ _ Hacc), Hr, num_none; [done|]. apply Forall_fmap, Forall_lookup.
    intros k h Hk. cbn. unfold live, place. cbn. by rewrite (Hend k h Hk).
  - cbn. assert (forallb finished (calls (service s)) = true) as ->; [|by eexists].
    apply forallb_forall. intros call Hin. apply list_elem_of_In, list_elem_of_lookup in Hin as [c Hc].
    by eapply Hfin.
  - intros Hg. pose proof (quit_reachable _ _ Hv Hu Hs) as Hq. unfold quit_at in Hq.
    by rewrite Hg in Hq.
Qed.
End Life.
