(* ===== verification/ServerTalk.v ===== *)
(** The conversation on one connection: requests are answered once, in order, with the
    response of their own call, however the bytes arrive, whatever is thrown and whoever
    stops the server meanwhile. *)
From S2P Require Import Prelude OrdMap Kernel Protocol Wire CodecRequest CodecResult Codec.
From S2P Require Import CodecSpec Layout Frame FrameSpec Jobs JobSystem JobSpec JobOutcome.
From S2P Require Import Service ServiceSystem ServiceLink ServiceSpec SessionSpec Dispatch.
From S2P Require Import Framing Server ServerSpec ServerLife.

(** ** Streams that grow *)

Lemma stream_app a b :
  stream (a ++ b) = match (stream a).2 with
                    | Waiting => ((stream a).1 ++ (stream b).1, (stream b).2)
                    | _ => stream a
                    end.
Proof.
  induction a as [|[data| | |e] a IH]; cbn [app stream fst snd]; [by destruct (stream b)|..]; try done.
  rewrite IH. destruct (stream a) as [bs [| |]]; cbn; by rewrite ?app_assoc.
Qed.

Section Talk.
Context `{HK : KernelLaws} {RT : Runtime}.

Lemma parse_frame_more avail e payload rest more e' :
  parse_frame avail e = FrameOk payload rest ->
  parse_frame (avail ++ more) e' = FrameOk payload (rest ++ more).
Proof.
  unfold parse_frame. pose proof (zlen_nonneg more). rewrite zlen_app.
  destruct (Z.ltb_spec (zlen avail) 4) as [|Hlen]; [by destruct e; destruct (bool_decide _)|].
  replace (zlen avail + zlen more <? 4) with false by lia.
  assert (4 <= length avail)%nat as Hl by (unfold zlen in Hlen; lia).
  rewrite take_app_le, (drop_app_le avail) by done.
  set (size := frame_size (take 4 avail)).
  destruct ((size =? 0) || (kMaximumFramePayloadBytes <? size)) eqn:Hb; [done|].
  destruct (Z.ltb_spec (zlen avail - 4) size) as [|Hs]; [by destruct e|].
  replace (zlen avail + zlen more - 4 <? size) with false by lia. intros [= <- <-].
  assert (Z.to_nat size <= length (drop 4 avail))%nat as Hd
    by (rewrite length_drop; unfold zlen in *; lia).
  by rewrite take_app_le, drop_app_le.
Qed.

Lemma parse_frame_end avail e payload rest e' :
  parse_frame avail e = FrameOk payload rest -> parse_frame avail e' = FrameOk payload rest.
Proof.
  intros Hp. pose proof (parse_frame_more _ _ _ _ [] e' Hp) as H. by rewrite !app_nil_r in H.
Qed.

(** ** What was answered *)

(** The bytes [avail] begin with the frames of requests whose calls [ids] were answered by
    the bytes [out]; [rest] follows. *)
Inductive served (cs : list (Request * call_pc)) (avail : bytes) :
    list nat -> bytes -> bytes -> Prop :=
| served_nothing : served cs avail [] [] avail
| served_next ids out mid frame rest c request response encoded :
  served cs avail ids out mid ->
  parse_frame mid Waiting = FrameOk frame rest -> decode_request frame = ROk request ->
  cs !! c = Some (request, CDone response) -> encode_response response = Return (ROk encoded) ->
  served cs avail (ids ++ [c]) (out ++ frame_bytes encoded) rest.

Lemma served_more cs avail ids out rest more :
  served cs avail ids out rest -> served cs (avail ++ more) ids out (rest ++ more).
Proof.
  induction 1 as [|ids out mid frame rest c request response encoded _ IH Hp Hd Hc He]; [constructor|].
  econstructor; [exact IH|by eapply parse_frame_more|done..].
Qed.

(** Calls keep their requests and their answers. *)
Definition calls_go_on (cs cs' : list (Request * call_pc)) : Prop :=
  forall c req pc, cs !! c = Some (req, pc) ->
    exists pc', cs' !! c = Some (req, pc') /\ (finished (req, pc) = true -> pc' = pc).

Lemma answered_stays cs cs' c req resp :
  calls_go_on cs cs' -> cs !! c = Some (req, CDone resp) -> cs' !! c = Some (req, CDone resp).
Proof. intros Hcs Hc. destruct (Hcs _ _ _ Hc) as (pc' & Hc' & Hf). by rewrite Hf in Hc'. Qed.

Lemma served_calls cs cs' avail ids out rest :
  calls_go_on cs cs' -> served cs avail ids out rest -> served cs' avail ids out rest.
Proof.
  intros Hcs. induction 1; [constructor|]. econstructor; eauto using answered_stays.
Qed.

(** The end of a conversation: the beginning of one more response, ... *)
Definition cut_response (cs : list (Request * call_pc)) (tail : bytes) : Prop :=
  tail = [] \/ exists c req resp encoded, cs !! c = Some (req, CDone resp) /\
    encode_response resp = Return (ROk encoded) /\ tail `prefix_of` frame_bytes encoded.

(** ... and of one failure. *)
Definition last_failure (tail : bytes) : Prop :=
  tail = [] \/ exists status payload encoded,
    encode_protocol_error status payload = Return (ROk encoded) /\
    tail `prefix_of` frame_bytes encoded.

(** The bytes still to be read. *)
Definition listening (mid : bytes) (h : Handler) : Prop :=
  stream (h_incoming h) = (mid, (stream (h_delivered h)).2) /\ arrivals_wf (h_incoming h).

(** The next request was read as [frame]. *)
Definition has_read (mid frame : bytes) (h : Handler) : Prop :=
  exists rest, parse_frame mid Waiting = FrameOk frame rest /\ listening rest h.

(** The points after the last write. *)
Definition late (pc : handler_pc) : bool :=
  match pc with
  | HTail | HStop _ | HErase | HClose | HFlag | HRelease | HEnd => true
  | _ => false
  end.

(** Where a thread is in the conversation, after the answered requests. *)
Definition turn (cs : list (Request * call_pc)) (h : Handler) (mid tail : bytes) : Prop :=
  match h_pc h with
  | HRegister | HTop | HRead => tail = [] /\ listening mid h
  | HDecode frame => tail = [] /\ has_read mid frame h
  | HDispatch frame c =>
    tail = [] /\ has_read mid frame h /\
    exists req pc, decode_request frame = ROk req /\ cs !! c = Some (req, pc)
  | HEncode frame c resp =>
    tail = [] /\ has_read mid frame h /\
    exists req, decode_request frame = ROk req /\ cs !! c = Some (req, CDone resp)
  | HWrite c encoded =>
    tail = [] /\ exists frame req resp, has_read mid frame h /\ decode_request frame = ROk req /\
      cs !! c = Some (req, CDone resp) /\ encode_response resp = Return (ROk encoded)
  | HCatch _ | HFailure _ _ _ => cut_response cs tail
  | _ => exists t1 t2, tail = t1 ++ t2 /\ cut_response cs t1 /\ last_failure t2
  end.

(** What was answered on a connection, and where its thread is. *)
Definition spoken (cs : list (Request * call_pc)) (h : Handler) : Prop :=
  exists out mid tail,
    served cs (stream (h_delivered h)).1 (h_calls h) out mid /\
    sent (h_outgoing h) = out ++ tail /\ turn cs h mid tail.

Record talk (cs : list (Request * call_pc)) (h : Handler) : Prop := {
  tk_delivered : arrivals_wf (h_delivered h);
  tk_outgoing : capacities_wf (h_outgoing h);
  tk_spoken : spoken cs h;
}.

(** *** Where a conversation can end *)

Lemma turn_cut cs h mid tail : turn cs h mid tail -> late (h_pc h) = false -> cut_response cs tail.
Proof.
  unfold turn, late. destruct (h_pc h); intros Ht Hl; try discriminate Hl; try exact Ht; left; apply Ht.
Qed.

Lemma turn_ended cs h mid tail :
  turn cs h mid tail -> exists t1 t2, tail = t1 ++ t2 /\ cut_response cs t1 /\ last_failure t2.
Proof.
  intros Ht. destruct (late (h_pc h)) eqn:Hl; [unfold turn in Ht; by destruct (h_pc h)|].
  exists tail, []. rewrite app_nil_r. split; [done|]. split; [by eapply turn_cut|by left].
Qed.

Lemma talk_late cs h h' :
  talk cs h -> late (h_pc h') = true -> h_delivered h' = h_delivered h ->
  h_calls h' = h_calls h -> h_outgoing h' = h_outgoing h -> talk cs h'.
Proof.
  intros [H1 H2 (out & mid & tail & Hs & Hsent & Ht)] Hl Hd Hc Ho.
  split; rewrite ?Hd, ?Ho; try done. exists out, mid, tail. rewrite Hd, Hc, Ho. split_and!; try done.
  apply turn_ended in Ht. unfold turn. by destruct (h_pc h').
Qed.

(** What a failure does to a conversation: the response may be cut, nothing more is read. *)
Lemma talk_failing cs h h' :
  talk cs h -> late (h_pc h) = false ->
  match h_pc h' with HCatch _ | HFailure _ _ _ => True | _ => False end ->
  h_delivered h' = h_delivered h -> h_calls h' = h_calls h -> h_outgoing h' = h_outgoing h ->
  talk cs h'.
Proof.
  intros [H1 H2 (out & mid & tail & Hs & Hsent & Ht)] Hl Hpc Hd Hc Ho.
  split; rewrite ?Hd, ?Ho; try done. exists out, mid, tail. rewrite Hd, Hc, Ho. split_and!; try done.
  apply turn_cut in Ht; [|done]. unfold turn. by destruct (h_pc h').
Qed.

(** *** What others do to a conversation *)

Lemma cut_response_calls cs cs' tail :
  calls_go_on cs cs' -> cut_response cs tail -> cut_response cs' tail.
Proof.
  intros Hcs [->|(c & req & resp & encoded & Hc & He & Hp)]; [by left|]. right.
  exists c, req, resp, encoded. split; [by eapply answered_stays|done].
Qed.

Lemma talk_calls cs cs' h : calls_go_on cs cs' -> talk cs h -> talk cs' h.
Proof.
  intros Hcs [H1 H2 (out & mid & tail & Hs & Hsent & Ht)]. split; [done..|].
  exists out, mid, tail. split; [by eapply served_calls|]. split; [done|].
  assert (late (h_pc h) = true -> turn cs' h mid tail) as Hlate.
  { intros Hl. apply turn_ended in Ht as (t1 & t2 & -> & Hc & Ht2). unfold turn.
    destruct (h_pc h); try discriminate Hl; exists t1, t2; eauto using cut_response_calls. }
  unfold turn in Ht, Hlate |- *. destruct (h_pc h); auto.
  - destruct Ht as (? & ? & req & pc & Hd & Hc). split_and!; [done..|].
    destruct (Hcs _ _ _ Hc) as (pc' & Hc' & _). eauto.
  - destruct Ht as (? & ? & req & Hd & Hc). split_and!; [done..|]. eauto using answered_stays.
  - destruct Ht as (? & frame & req & resp & ? & Hd & Hc & He). split; [done|].
    exists frame, req, resp. eauto 10 using answered_stays.
  - by eapply cut_response_calls.
  - by eapply cut_response_calls.
Qed.

(** More may arrive, or the end: of the stream as a whole and of what is left of it. *)
Lemma stream_grows d a :
  exists more, (stream (d ++ a)).1 = (stream d).1 ++ more /\
    forall i mid, stream i = (mid, (stream d).2) ->
      stream (i ++ a) = (mid ++ more, (stream (d ++ a)).2).
Proof.
  destruct (stream d) as [bs e] eqn:Hd.
  exists (match e with Waiting => (stream a).1 | _ => [] end). rewrite stream_app, Hd.
  split; [destruct e; cbn; by rewrite ?Hd, ?app_nil_r|]. intros i mid Hi. rewrite stream_app, Hi.
  destruct e; cbn; by rewrite ?Hi, ?Hd, ?app_nil_r.
Qed.

Lemma talk_arrives cs h h' a :
  talk cs h -> arrivals_wf a -> h_pc h' = h_pc h -> h_incoming h' = h_incoming h ++ a ->
  h_delivered h' = h_delivered h ++ a -> h_calls h' = h_calls h ->
  sent (h_outgoing h') = sent (h_outgoing h) -> capacities_wf (h_outgoing h') -> talk cs h'.
Proof.
  intros [H1 H2 (out & mid & tail & Hs & Hsent & Ht)] Ha Hpc Hi Hd Hc Ho Hwf.
  split; [rewrite Hd; by apply Forall_app|done|].
  destruct (stream_grows (h_delivered h) a) as (more & Hmore & Hgrow).
  assert (forall m, listening m h -> listening (m ++ more) h') as Hlisten.
  { intros m [Hm Hw]. split; rewrite Hi; [rewrite Hd; auto|by apply Forall_app]. }
  assert (forall frame, has_read mid frame h -> has_read (mid ++ more) frame h') as Hread.
  { intros frame (rest & Hp & Hl). exists (rest ++ more). split; [by eapply parse_frame_more|auto]. }
  exists out, (mid ++ more), tail. rewrite Hd, Hmore, Hc, Ho. split; [by apply served_more|].
  split; [done|]. unfold turn in Ht |- *. rewrite Hpc. destruct (h_pc h); try done;
    try (destruct Ht as (-> & Ht); split; [done|]); auto.
  - destruct Ht as (Hr & Hx). eauto.
  - destruct Ht as (Hr & Hx). eauto.
  - destruct Ht as (frame & req & resp & Hr & Hx). exists frame, req, resp. auto.
Qed.

Lemma talk_shut cs h : talk cs h -> talk cs (shut h).
Proof.
  intros Ht. eapply (talk_arrives _ h _ [PeerClosed]); try done; [by repeat constructor|].
  unfold capacities_wf. cbn. destruct (writing _); [apply Ht|constructor].
Qed.

Lemma sending_wf broken_pipe h :
  capacities_wf (h_outgoing h) -> capacities_wf (sending broken_pipe h).
Proof.
  unfold sending, capacities_wf. destruct (h_shut h); [|done]. cbn. intros Hc.
  apply Forall_app. split; [done|]. by repeat constructor.
Qed.

Lemma sending_sent broken_pipe h : sent (sending broken_pipe h) = sent (h_outgoing h).
Proof. unfold sending. by destruct (h_shut h). Qed.

(** *** Reading *)

Lemma talk_read cs i h h' :
  talk cs h -> 0 <= h_descriptor h -> h_pc h = HRead -> handler_read i h = Some h' -> talk cs h'.
Proof.
  intros Ht Hfd Hpc Hr. pose proof Ht as [H1 H2 (out & mid & tail & Hs & Hsent & Hturn)].
  unfold turn in Hturn. rewrite Hpc in Hturn. destruct Hturn as (-> & Hstream & Hwf).
  assert (late (h_pc h) = false) as Hl by (by rewrite Hpc). destruct i as [|e n]; cbn in Hr.
  - pose proof (read_frame_spec (h_descriptor h) (Some (h_progress h)) (h_incoming h) Hwf Hfd) as Hx.
    unfold frame_answered in Hx. rewrite Hstream in Hx.
    destruct (parse_frame mid _) as [p rest|st|] eqn:Hp; [| |by rewrite Hx in Hr].
    + destruct Hx as (s' & Hx & Hs' & Hwf'). rewrite Hx in Hr. injection Hr as <-.
      split; [done..|]. exists out, mid, []. split_and!; [done|done|]. split; [done|].
      exists rest. split; [by eapply parse_frame_end|done].
    + destruct Hx as (got & s' & Hx & _). rewrite Hx in Hr. injection Hr as <-.
      destruct (_ =? _); [by eapply talk_late|]. eapply talk_failing; [exact Ht|exact Hl|done..].
  - destruct (read_frame _ _ _) as [[[r [p|]] s']| |]; try discriminate Hr.
    replace h' with (h_to (HCatch e) (h_read (h_incoming h) p h)) by (destruct r; congruence).
    eapply talk_failing; [exact Ht|exact Hl|done..].
Qed.

(** *** Writing *)

Lemma talk_write cs broken_pipe i c encoded h h' :
  talk cs h -> h_pc h = HWrite c encoded -> handler_write broken_pipe i c encoded h = Some h' ->
  talk cs h'.
Proof.
  intros [H1 H2 (out & mid & tail & Hs & Hsent & Hturn)] Hpc Hw.
  unfold turn in Hturn. rewrite Hpc in Hturn.
  destruct Hturn as (-> & frame & req & resp & (rest & Hp & Hl) & Hd & Hc & He).
  rewrite app_nil_r in Hsent. unfold handler_write in Hw.
  destruct (write_frame _ _ _) as [[st o]| |] eqn:Hf; try discriminate Hw.
  apply write_frame_prefix in Hf as (k & Hk & Hpre & Hok & Hwf); [|by apply sending_wf].
  rewrite sending_sent, Hsent in Hk.
  destruct (status_ok st) eqn:Hst.
  - rewrite (Hok eq_refl) in Hk. injection Hw as <-.
    assert (talk cs (h_to HTop (h_answered c (h_wrote o h)))) as Ht.
    { split; [done..|]. exists (out ++ frame_bytes encoded), rest, [].
      split; [by eapply served_next|]. rewrite app_nil_r. by split. }
    destruct (h_accepted_shutdown _); [by eapply talk_late|exact Ht].
  - assert (cut_response cs k) as Hcut by (right; by exists c, req, resp, encoded).
    assert (talk cs (h_to (HCatch (StdException None)) (h_wrote o h))) as Ht.
    { split; [done..|]. exists out, mid, k. by split. }
    destruct i as [|e n]; injection Hw as <-; [by eapply talk_late|].
    eapply talk_failing; [exact Ht|done..].
Qed.

Lemma talk_fail cs broken_pipe i st pl pr h h' :
  talk cs h -> h_pc h = HFailure st pl pr -> handler_fail broken_pipe i st pl pr h = Some h' ->
  talk cs h'.
Proof.
  intros Ht Hpc Hw. unfold handler_fail in Hw.
  assert (forall h0, late (h_pc (after_failure h0)) = true) as Hlate
    by (intros h0; unfold after_failure; cbn; by destruct (h_registered h0)).
  assert (talk cs (after_failure h)) as Hnone by (by eapply talk_late; [|apply Hlate|..]).
  destruct i; [|by injection Hw as <-].
  destruct (protocol_failure st pl pr) as [encoded|] eqn:Hpf; [|by injection Hw as <-].
  destruct (write_frame _ _ _) as [[r o]| |] eqn:Hf; try discriminate Hw. injection Hw as <-.
  destruct Ht as [H1 H2 (out & mid & tail & Hs & Hsent & Hturn)].
  apply write_frame_prefix in Hf as (k & Hk & Hpre & _ & Hwf); [|by apply sending_wf].
  rewrite sending_sent, Hsent in Hk. split; [done|done|]. exists out, mid, (tail ++ k).
  split; [done|]. split; [by rewrite app_assoc|].
  apply turn_cut in Hturn; [|by rewrite Hpc].
  assert (last_failure k) as Hlast.
  { right. revert Hpf. unfold protocol_failure.
    match goal with |- context [encode_protocol_error st ?p] => generalize p end. intros p.
    destruct (encode_protocol_error st p) as [[bs|?]|] eqn:He; intros [= <-].
    by exists st, p, bs. }
  specialize (Hlate (h_wrote o h)). unfold turn. destruct (h_pc (after_failure _)); try discriminate Hlate;
    by exists tail, k.
Qed.

(** What the environment may send and accept. *)
Lemma capacities_ok capacity sent :
  forallb capacity_ok capacity = true -> capacities_wf (mk_outgoing capacity sent).
Proof.
  intros Hc. apply Forall_forall. intros x Hx%list_elem_of_In. rewrite forallb_forall in Hc.
  specialize (Hc x Hx). destruct x; cbn in *; try done. lia.
Qed.

Lemma arrivals_ok a : forallb arrival_ok a = true -> arrivals_wf a.
Proof.
  intros Ha. apply Forall_forall. intros x Hx%list_elem_of_In. rewrite forallb_forall in Ha.
  specialize (Ha x Hx). destruct x as [data| | |]; cbn in *; try done.
  apply andb_prop in Ha as [Hne Hb]. split; [by apply negb_true_iff, bool_decide_eq_false in Hne|].
  apply Forall_forall. intros b Hin%list_elem_of_In. rewrite forallb_forall in Hb.
  specialize (Hb b Hin). unfold is_uint. lia.
Qed.

(** A new connection. *)
Lemma talk_new cs d capacity : forallb capacity_ok capacity = true -> talk cs (new_handler d capacity).
Proof.
  intros Hc. split; [by apply Forall_nil|by apply capacities_ok|].
  exists [], [], []. split; [constructor|]. split; [done|]. split; [done|]. split; [done|].
  by apply Forall_nil.
Qed.

(** ** Whose call it is *)

(** The call a thread is about to answer. *)
Definition in_flight (pc : handler_pc) : list nat :=
  match pc with HDispatch _ c | HEncode _ c _ | HWrite c _ => [c] | _ => [] end.

(** The calls of a connection, answered or not. *)
Definition mine (h : Handler) : list nat := h_calls h ++ in_flight (h_pc h).

(** Every call of [dispatch] belongs to one connection. *)
Record owned (n : nat) (l : list Handler) : Prop := {
  ow_once : forall k h, l !! k = Some h -> NoDup (mine h);
  ow_known : forall k h c, l !! k = Some h -> c ∈ mine h -> (c < n)%nat;
  ow_apart : forall j k hj hk c, l !! j = Some hj -> l !! k = Some hk ->
    c ∈ mine hj -> c ∈ mine hk -> j = k;
}.

Lemma prefix_in {A} (l l' : list A) x : l `prefix_of` l' -> x ∈ l -> x ∈ l'.
Proof. intros [k ->] Hx. apply elem_of_app. by left. Qed.

Lemma owned_kept n n' l l' :
  owned n l -> (n <= n')%nat ->
  (forall k h', l' !! k = Some h' ->
     mine h' = [] \/ exists h, l !! k = Some h /\ mine h' `prefix_of` mine h) ->
  owned n' l'.
Proof.
  intros [H1 H2 H3] Hn Hl. split.
  - intros k h' Hk. destruct (Hl k h' Hk) as [->|(h & Hh & [m Hm])]; [constructor|].
    specialize (H1 k h Hh). rewrite Hm in H1. by apply NoDup_app in H1 as [? _].
  - intros k h' c Hk Hc. destruct (Hl k h' Hk) as [E|(h & Hh & Hm)].
    + rewrite E in Hc. by apply not_elem_of_nil in Hc.
    + specialize (H2 k h c Hh (prefix_in _ _ _ Hm Hc)). lia.
  - intros j k hj hk c Hj Hk Hcj Hck.
    destruct (Hl j hj Hj) as [E|(h1 & Hh1 & Hm1)]; [rewrite E in Hcj; by apply not_elem_of_nil in Hcj|].
    destruct (Hl k hk Hk) as [E|(h2 & Hh2 & Hm2)]; [rewrite E in Hck; by apply not_elem_of_nil in Hck|].
    eapply H3; [exact Hh1|exact Hh2|..]; eapply prefix_in; eauto.
Qed.

(** A new call. *)
Lemma owned_call n l k h h' :
  owned n l -> l !! k = Some h -> mine h' = mine h ++ [n] -> owned (S n) (<[k:=h']> l).
Proof.
  intros [H1 H2 H3] Hk Hm.
  assert (forall j hj c, <[k:=h']> l !! j = Some hj -> c ∈ mine hj ->
    (exists h0, l !! j = Some h0 /\ c ∈ mine h0) \/ (j = k /\ c = n)) as Hold.
  { intros j hj c Hj Hc. apply list_lookup_insert_Some in Hj as [(<- & <- & _)|[_ Hj]]; [|eauto].
    rewrite Hm in Hc. apply elem_of_app in Hc as [Hc|Hc%list_elem_of_singleton]; eauto. }
  split.
  - intros j hj Hj. apply list_lookup_insert_Some in Hj as [(<- & <- & _)|[_ Hj]]; [|eauto].
    rewrite Hm. apply NoDup_app. split; [eauto|]. split; [|apply NoDup_singleton].
    intros c Hc ->%list_elem_of_singleton. specialize (H2 _ _ _ Hk Hc). lia.
  - intros j hj c Hj Hc. destruct (Hold j hj c Hj Hc) as [(h0 & H0 & Hc0)|[_ ->]]; [|lia].
    specialize (H2 _ _ _ H0 Hc0). lia.
  - intros i j hi hj c Hi Hj Hci Hcj.
    destruct (Hold i hi c Hi Hci) as [(h1 & E1 & C1)|[-> ->]],
      (Hold j hj _ Hj Hcj) as [(h2 & E2 & C2)|[-> E]]; eauto.
    + subst c. specialize (H2 _ _ _ E1 C1). lia.
    + specialize (H2 _ _ _ E2 C2). lia.
Qed.

(** ** The whole server *)

Section Conversing.
Context (config : ServerConfig) (instance_id : Z) (daemon_version broken_pipe : bytes).

Abbreviation hstep := (handler_step config instance_id daemon_version broken_pipe).
Abbreviation rstep := (run_step config instance_id daemon_version).
Abbreviation vstep := (server_step config instance_id daemon_version broken_pipe).
Abbreviation vreach := (server_reachable config instance_id daemon_version broken_pipe).
Abbreviation sstep := (service_step (scfg_service config) instance_id daemon_version).
Abbreviation ncalls s := (length (calls (service s))).

Lemma sstep_go_on e x x' : sstep e x = Some x' -> calls_go_on (calls x) (calls x').
Proof. intros Hx c req pc Hc. by eapply sstep_calls. Qed.

Lemma go_on_length cs cs' : calls_go_on cs cs' -> (length cs <= length cs')%nat.
Proof.
  intros Hcs. destruct (decide (length cs = O)) as [->|Hn]; [lia|].
  destruct (lookup_lt_is_Some_2 cs (length cs - 1)%nat) as [[req pc] Hc]; [lia|].
  destruct (Hcs _ _ _ Hc) as (pc' & Hc' & _). apply lookup_lt_Some in Hc'. lia.
Qed.

Lemma vstep_go_on e s s' : vstep e s = Some s' -> calls_go_on (calls (service s)) (calls (service s')).
Proof.
  intros Hstep. destruct (vstep_service _ _ _ _ _ _ _ Hstep) as [->|[se Hse]]; [|by eapply sstep_go_on].
  intros c req pc Hc. eauto.
Qed.

(** A handler goes on with its conversation, and takes at most one new call. *)
Definition went_on (k : nat) (h : Handler) (s s' : ServerState) : Prop :=
  exists h', threads s' !! k = Some h' /\ talk (calls (service s')) h' /\
    (mine h' `prefix_of` mine h \/ mine h' = mine h ++ [ncalls s] /\ ncalls s' = S (ncalls s)).

Lemma went_alone k h h' s s' :
  threads s !! k = Some h -> threads s' = <[k:=h']> (threads s) -> service s' = service s ->
  talk (calls (service s)) h' -> mine h' `prefix_of` mine h -> went_on k h s s'.
Proof.
  intros Hk Ht Hs Hx Hm. exists h'. rewrite Ht, Hs. split; [|by split; [|left]].
  apply list_lookup_insert_eq. by eapply lookup_lt_Some.
Qed.

(** It gives up the call it was answering, if any. *)
Lemma mine_dropped h h' : h_calls h' = h_calls h -> in_flight (h_pc h') = [] -> mine h' `prefix_of` mine h.
Proof. unfold mine. intros -> ->. rewrite app_nil_r. by apply prefix_app_r. Qed.

Lemma mine_read i h h' : handler_read i h = Some h' -> mine h' `prefix_of` mine h.
Proof.
  unfold handler_read. intros Hr. apply mine_dropped.
  all: destruct i; destruct (read_frame _ _ _) as [[[[x|st] [p|]] s]| |]; try discriminate Hr;
    injection Hr as <-; try done; cbn; by destruct (_ =? _).
Qed.

Lemma mine_write i c encoded h h' :
  h_pc h = HWrite c encoded -> handler_write broken_pipe i c encoded h = Some h' ->
  mine h' `prefix_of` mine h.
Proof.
  unfold handler_write. intros Hpc Hr. destruct (write_frame _ _ _) as [[st o]| |]; try discriminate Hr.
  destruct (status_ok st).
  - injection Hr as <-. unfold mine. rewrite Hpc. cbn. by destruct (h_accepted_shutdown h); rewrite app_nil_r.
  - apply mine_dropped; destruct i; by injection Hr as <-.
Qed.

Lemma mine_fail i st pl pr h h' : handler_fail broken_pipe i st pl pr h = Some h' -> mine h' `prefix_of` mine h.
Proof.
  unfold handler_fail, after_failure. intros Hr. apply mine_dropped; destruct i;
    destruct (protocol_failure st pl pr); try (destruct (write_frame _ _ _) as [[r o]| |]);
    try discriminate Hr; injection Hr as <-; cbn; try done; by destruct (h_registered h).
Qed.

(** [dispatch] is called. *)
Lemma talk_dispatch cs h frame req :
  talk cs h -> h_pc h = HDecode frame -> decode_request frame = ROk req ->
  talk (cs ++ [(req, CFence)]) (h_to (HDispatch frame (length cs)) h).
Proof.
  intros Ht Hpc Hd.
  assert (calls_go_on cs (cs ++ [(req, CFence)])) as Hgo.
  { intros c r0 pc Hc. exists pc. split; [by apply lookup_app_l_Some|done]. }
  destruct (talk_calls _ _ _ Hgo Ht) as [H1 H2 (out & mid & tail & Hs & Hsent & Hturn)].
  unfold turn in Hturn. rewrite Hpc in Hturn. destruct Hturn as (-> & Hr).
  split; [done..|]. exists out, mid, []. split_and!; [done|done|]. split; [done|]. split; [exact Hr|].
  exists req, CFence. split; [done|]. by rewrite lookup_app_r, Nat.sub_diag.
Qed.

(** The points between which a thread neither reads nor writes. *)
Lemma talk_to cs h h' :
  talk cs h -> h_delivered h' = h_delivered h -> h_calls h' = h_calls h ->
  h_outgoing h' = h_outgoing h -> (forall mid tail, turn cs h mid tail -> turn cs h' mid tail) ->
  talk cs h'.
Proof.
  intros [H1 H2 (out & mid & tail & Hs & Hsent & Ht)] Hd Hc Ho Hturn.
  split; rewrite ?Hd, ?Ho; try done. exists out, mid, tail. rewrite Hd, Hc, Ho. auto.
Qed.

Lemma talks_stop k h s p s' :
  threads s !! k = Some h -> talk (calls (service s)) h ->
  ('(s1, p') ← stop_step p s; h1 ← threads s1 !! k; Some (set_thread k (h_to (HStop p') h1) s1))
    = Some s' -> went_on k h s s'.
Proof.
  intros Hk Ht Hstep. destruct (stop_step p s) as [[s1 p1]|] eqn:Hs; [|done]. cbn in Hstep.
  destruct (threads s1 !! k) as [h1|] eqn:H1; [|done]. injection Hstep as <-.
  destruct (stop_step_threads _ _ _ _ _ _ Hs H1) as (h0 & H0 & Hor). rewrite Hk in H0.
  injection H0 as <-. pose proof (sm_service _ _ (stop_step_moved _ _ _ _ Hs)) as Hsv.
  exists (h_to (HStop p1) h1). split; [by eapply set_thread_at|].
  change (service (set_thread k (h_to (HStop p1) h1) s1)) with (service s1). rewrite Hsv.
  split; [|left; destruct Hor as [-> | ->]; by apply mine_dropped].
  eapply (talk_late _ h1); [|done..]. destruct Hor as [-> | ->]; [done|by apply talk_shut].
Qed.

Lemma talks_handler i k s s' h :
  threads s !! k = Some h -> thread_ok h -> talk (calls (service s)) h -> hstep i k s = Some s' ->
  went_on k h s s'.
Proof.
  intros Hk Hok Ht Hstep. pose proof Hstep as Hback. unfold handler_step in Hstep. rewrite Hk in Hstep.
  cbn -[service_step stop_step] in Hstep.
  destruct (h_pc h) as [| | |frame|frame c|frame c resp|c encoded|e|st pl pr| |p| | | | |] eqn:Hpc;
    try (by injection Hstep as <-; eapply went_alone; [exact Hk|done|done
      |by eapply talk_late|by apply mine_dropped]).
  - destruct i; injection Hstep as <-; (eapply went_alone; [exact Hk|done|done| |by apply mine_dropped]).
    + eapply talk_to; [exact Ht|done..|]. intros mid tail. unfold turn. by rewrite Hpc.
    + eapply talk_failing; [exact Ht|by rewrite Hpc|done..].
  - injection Hstep as <-. eapply went_alone; [exact Hk|done|done| |by apply mine_dropped; destruct (stopping s)].
    destruct (stopping s); [by eapply talk_late|]. eapply talk_to; [exact Ht|done..|].
    intros mid tail. unfold turn. by rewrite Hpc.
  - destruct (handler_read i h) as [h'|] eqn:Hr; [|done]. injection Hstep as <-.
    eapply went_alone; [exact Hk|done|done| |by eapply mine_read].
    eapply talk_read; [exact Ht|apply Hok|exact Hpc|exact Hr].
  - destruct i as [|e n]; [destruct (decode_request frame) as [req|st] eqn:Hd|].
    + injection Hstep as <-. eexists. split; [by eapply set_thread_at|]. split; [by apply talk_dispatch|].
      right. unfold mine. cbn. by rewrite Hpc, app_nil_r, length_app, Nat.add_comm.
    + injection Hstep as <-. eapply went_alone; [exact Hk|done|done| |by apply mine_dropped].
      eapply talk_failing; [exact Ht|by rewrite Hpc|done..].
    + injection Hstep as <-. eapply went_alone; [exact Hk|done|done| |by apply mine_dropped].
      eapply talk_failing; [exact Ht|by rewrite Hpc|done..].
  - destruct (dispatch_returns _ _ _ _ _ _ _ _ _ _ _ Hback Hk Hpc) as (req & resp & Hc & ->).
    eapply went_alone; [exact Hk|done|done| |unfold mine; cbn; by rewrite Hpc].
    eapply talk_to; [exact Ht|done..|]. intros mid tail. unfold turn. rewrite Hpc.
    intros (-> & Hr & req' & pc & Hd & Hc'). rewrite Hc in Hc'. injection Hc' as <- <-.
    split; [done|]. split; [exact Hr|]. by exists req.
  - assert (forall pc, match pc with HCatch _ | HFailure _ _ _ => True | _ => False end ->
      went_on k h s (set_thread k (h_to pc h) s)) as Hfail.
    { intros pc Hpc'. eapply went_alone; [exact Hk|done|done| |by apply mine_dropped; destruct pc].
      eapply talk_failing; [exact Ht|by rewrite Hpc|done..]. }
    destruct i as [|e n]; [|injection Hstep as <-; by apply Hfail].
    destruct (encode_response resp) as [[bs|st]|[cd what|what]] eqn:He; injection Hstep as <-;
      [|by apply Hfail..].
    eapply went_alone; [exact Hk|done|done| |unfold mine; cbn; by rewrite Hpc].
    eapply talk_to; [exact Ht|done..|]. intros mid tail. unfold turn. rewrite Hpc.
    intros (-> & Hr & req & Hd & Hc). split; [done|]. by exists frame, req, resp.
  - destruct (handler_write _ i c encoded h) as [h'|] eqn:Hr; [|done]. injection Hstep as <-.
    eapply went_alone; [exact Hk|done|done| |by eapply mine_write].
    by eapply talk_write.
  - injection Hstep as <-. eapply went_alone; [exact Hk|done|done| |by apply mine_dropped].
    eapply talk_failing; [exact Ht|by rewrite Hpc|done..].
  - destruct (handler_fail _ i st pl pr h) as [h'|] eqn:Hr; [|done]. injection Hstep as <-.
    eapply went_alone; [exact Hk|done|done| |by eapply mine_fail].
    by eapply talk_fail.
  - injection Hstep as <-. eapply went_alone; [exact Hk|done|done| |].
    + eapply talk_late; [exact Ht|cbn; by destruct (h_accepted_shutdown h)|done..].
    + apply mine_dropped; [done|cbn; by destruct (h_accepted_shutdown h)].
  - destruct p; try (eapply talks_stop; [exact Hk|exact Ht|exact Hstep]).
    injection Hstep as <-. eapply went_alone; [exact Hk|done|done| |by apply mine_dropped].
    by eapply talk_late.
  - done.
Qed.

(** *** Every step *)

(** Where every connection is, and whose calls are whose. *)
Definition conversing (s : ServerState) : Prop :=
  (forall k h, threads s !! k = Some h -> talk (calls (service s)) h) /\ owned (ncalls s) (threads s).

(** Threads that another one leaves alone, or shuts down. *)
Lemma conversing_kept s s' :
  conversing s -> calls_go_on (calls (service s)) (calls (service s')) ->
  (forall k h', threads s' !! k = Some h' ->
     (exists d capacity, h' = new_handler d capacity /\ forallb capacity_ok capacity = true) \/
     exists h, threads s !! k = Some h /\ (h' = h \/ h' = shut h)) ->
  conversing s'.
Proof.
  intros [Ht Ho] Hgo Hk. split.
  - intros k h' Hh'. destruct (Hk k h' Hh') as [(d & cap & -> & Hc)|(h & Hh & Hor)]; [by apply talk_new|].
    assert (talk (calls (service s')) h) as Hx by (by eapply talk_calls, Ht).
    destruct Hor as [-> | ->]; [done|by apply talk_shut].
  - eapply owned_kept; [exact Ho|by apply go_on_length|]. intros k h' Hh'.
    destruct (Hk k h' Hh') as [(d & cap & -> & _)|(h & Hh & Hor)]; [by left|]. right. exists h.
    split; [done|]. by destruct Hor as [-> | ->].
Qed.

(** The stepping thread, and the others. *)
Lemma conversing_handler i k s s' :
  Forall thread_ok (threads s) -> conversing s -> hstep i k s = Some s' -> conversing s'.
Proof.
  intros Hok [Ht Ho] Hstep. pose proof (vstep_go_on (VHandler k i) s s' Hstep) as Hgo.
  assert (exists h, threads s !! k = Some h) as [h Hk].
  { unfold handler_step in Hstep. destruct (threads s !! k) as [h|]; [eauto|done]. }
  rewrite Forall_lookup in Hok.
  destruct (talks_handler _ _ _ _ _ Hk (Hok _ _ Hk) (Ht _ _ Hk) Hstep) as (h' & Hk' & Ht' & Hm).
  assert (forall j hj, threads s' !! j = Some hj -> j <> k ->
    exists h0, threads s !! j = Some h0 /\ (hj = h0 \/ hj = shut h0)) as Hothers
    by (intros j hj Hj Hne; by eapply handler_others).
  split.
  - intros j hj Hj. destruct (decide (j = k)) as [->|Hne]; [congruence|].
    destruct (Hothers j hj Hj Hne) as (h0 & H0 & Hor).
    assert (talk (calls (service s')) h0) as Hx by (by eapply talk_calls, Ht).
    destruct Hor as [-> | ->]; [done|by apply talk_shut].
  - assert (owned (ncalls s') (<[k:=h']> (threads s))) as Hown.
    { destruct Hm as [Hm|[Hm ->]]; [|by eapply owned_call].
      eapply owned_kept; [exact Ho|by apply go_on_length|]. intros j hj Hj. right.
      apply list_lookup_insert_Some in Hj as [(<- & <- & _)|[_ Hj]]; eauto. }
    eapply owned_kept; [exact Hown|done|]. intros j hj Hj. right.
    destruct (decide (j = k)) as [->|Hne].
    + rewrite Hk' in Hj. injection Hj as <-. exists h'. split; [|done].
      apply list_lookup_insert_eq. by eapply lookup_lt_Some.
    + destruct (Hothers j hj Hj Hne) as (h0 & H0 & Hor). exists h0.
      rewrite list_lookup_insert_ne by done. split; [done|]. by destruct Hor as [-> | ->].
Qed.

(** The accepting thread adds connections, and may shut the others down. *)
Lemma run_threads i s s' k h' :
  rstep i s = Some s' -> threads s' !! k = Some h' ->
  (exists d capacity, h' = new_handler d capacity /\
     run s = RSpawn d capacity) \/
  exists h, threads s !! k = Some h /\ (h' = h \/ h' = shut h).
Proof.
  intros Hstep Hh. unfold run_step in Hstep.
  assert (forall p0 (pc : stop_pc -> run_pc),
    ('(s1, p') ← stop_step p0 s; Some (set_run (pc p') s1)) = Some s' ->
    exists h, threads s !! k = Some h /\ (h' = h \/ h' = shut h)) as Hstop.
  { intros p0 pc Hp. destruct (stop_step p0 s) as [[s1 p1]|] eqn:Hs; [|done]. injection Hp as <-.
    by eapply stop_step_threads. }
  destruct (run s) as [| | |l|a|d c n|d c|d c|d c|d c|b e|p0 st|p0 o|o|owned o|o|o|p0| |owned| | |wk|] eqn:Hrun;
    cbn -[stop_step service_step] in Hstep;
    try (right; destruct p0; try (eapply (Hstop _ (fun p => RFatal p st)); exact Hstep);
         try (eapply (Hstop _ (fun p => RStop p o)); exact Hstep);
         try (eapply (Hstop _ DStop); exact Hstep));
    try (try right; exists h'; split; [|by left]; repeat match type of Hstep with
    | Some _ = Some _ => injection Hstep as <-
    | (match ?x with _ => _ end) = Some _ => destruct x; try discriminate Hstep
    | (?x ≫= _) = Some _ => destruct x; cbn [mbind option_bind] in Hstep; try discriminate Hstep
    end; cbn in Hh; repeat match type of Hh with context [if ?b then _ else _] => destruct b end;
    first [discriminate Hstep | exact Hh]).
  destruct i; injection Hstep as <-;
    first [ right; exists h'; by split; [|left] | cbn in Hh; apply lookup_app_Some in Hh as [Hh|[_ Hh]];
      [right; exists h'; by split; [|left] | left; apply list_lookup_singleton_Some in Hh as [_ <-]; eauto]].
Qed.
(** What a peer that has no thread yet accepts. *)
Definition run_room (r : run_pc) : bool :=
  match r with
  | RTest (AcceptedPeer _ c) | RReap _ c _ | RCapacity _ c | RRefuse _ c | RReserve _ c
  | RSpawn _ c => forallb capacity_ok c
  | _ => true
  end.

Lemma run_room_step i s s' :
  rstep i s = Some s' -> run_room (run s) = true -> run_room (run s') = true.
Proof.
  intros Hstep Hc. unfold run_step in Hstep.
  assert (forall p0 (pc : stop_pc -> run_pc), (forall p, run_room (pc p) = true) ->
    ('(s1, p') ← stop_step p0 s; Some (set_run (pc p') s1)) = Some s' -> run_room (run s') = true) as Hstop.
  { intros p0 pc Hpc Hp. destruct (stop_step p0 s) as [[s1 p1]|]; [|done]. injection Hp as <-. apply Hpc. }
  destruct (run s) as [| | |l|a|d c n|d c|d c|d c|d c|b e|p0 st|p0 o|o|owned o|o|o|p0| |owned| | |wk|] eqn:Hrun;
    cbn -[stop_step service_step capacity_ok fresh_descriptor] in Hstep;
    try (destruct p0; try (eapply (Hstop _ (fun p => RFatal p st)); [done|exact Hstep]);
         try (eapply (Hstop _ (fun p => RStop p o)); [done|exact Hstep]);
         try (eapply (Hstop _ DStop); [done|exact Hstep]));
    try (repeat match type of Hstep with
    | Some _ = Some _ => injection Hstep as <-
    | (match ?x with _ => _ end) = Some _ => destruct x eqn:?; try discriminate Hstep
    | (?x ≫= _) = Some _ => destruct x; cbn [mbind option_bind] in Hstep; try discriminate Hstep
    end; first [done | exact Hc | cbn; by repeat match goal with |- context [if ?b then _ else _] => destruct b end]).
  all: repeat match type of Hstep with
    | Some _ = Some _ => injection Hstep as <-
    | (match ?x with _ => _ end) = Some _ => destruct x eqn:?; try discriminate Hstep
    end; try done.
  - by apply andb_prop in Heqb as [_ ?].
  - cbn. by rewrite Hrun.
Qed.

Lemma conversing_step e s s' :
  Forall thread_ok (threads s) -> conversing s -> run_room (run s) = true ->
  vstep e s = Some s' -> conversing s' /\ run_room (run s') = true.
Proof.
  intros Hok Hc Hr Hstep. pose proof (vstep_go_on _ _ _ Hstep) as Hgo.
  destruct e; cbn -[handler_step run_step service_step stop_step] in Hstep.
  - split; [by eapply conversing_handler|].
    destruct (handler_moves _ _ _ _ _ _ _ _ Hok Hstep) as (h & h' & _ & Hm).
    by rewrite (hm_run _ _ _ _ _ Hm).
  - split; [|by eapply run_room_step]. eapply conversing_kept; [exact Hc|exact Hgo|].
    intros k h' Hh. destruct (run_threads _ _ _ _ _ Hstep Hh) as [(d & c & -> & E)|?]; [left|by right].
    exists d, c. split; [done|]. by rewrite E in Hr.
  - destruct (sstep _ _) as [x|]; [|done]. injection Hstep as <-. split; [|exact Hr].
    eapply conversing_kept; [exact Hc|exact Hgo|]. eauto.
  - destruct (sstep _ _) as [x|]; [|done]. injection Hstep as <-. split; [|exact Hr].
    eapply conversing_kept; [exact Hc|exact Hgo|]. eauto.
  - destruct (alive s); [|done]. injection Hstep as <-. split; [|exact Hr].
    eapply conversing_kept; [exact Hc|exact Hgo|]. eauto.
  - destruct (stoppers s !! n) as [p|]; [|done]. cbn -[stop_step] in Hstep.
    destruct (stop_step p s) as [[s1 p1]|] eqn:Hs; [|done]. injection Hstep as <-. split.
    + eapply conversing_kept; [exact Hc|exact Hgo|]. intros k h' Hh. right. by eapply stop_step_threads.
    + cbn. by rewrite (sm_run _ _ (stop_step_moved _ _ _ _ Hs)).
  - destruct (threads s !! k) as [h|] eqn:Hk; [|done]. cbn -[arrival_ok] in Hstep.
    destruct (forallb arrival_ok a) eqn:Ha; [|done]. injection Hstep as <-. split; [|exact Hr].
    destruct Hc as [Ht Ho]. split.
    + intros j hj Hj. apply list_lookup_insert_Some in Hj as [(<- & <- & _)|[_ Hj]]; [|by apply (Ht j)].
      pose proof (Ht _ _ Hk) as Hx. eapply talk_arrives; [exact Hx|by apply arrivals_ok|done..|apply Hx].
    + eapply owned_kept; [exact Ho|done|]. intros j hj Hj. right.
      apply list_lookup_insert_Some in Hj as [(<- & <- & _)|[_ Hj]]; eauto.
  - destruct (threads s !! k) as [h|] eqn:Hk; [|done]. cbn -[capacity_ok] in Hstep.
    destruct (h_shut h || _) eqn:Ha; [done|]. injection Hstep as <-. split; [|exact Hr].
    apply orb_false_iff in Ha as [_ Ha%negb_false_iff]. destruct Hc as [Ht Ho]. split.
    + intros j hj Hj. apply list_lookup_insert_Some in Hj as [(<- & <- & _)|[_ Hj]]; [|by apply (Ht j)].
      destruct (Ht _ _ Hk) as [H1 H2 H3]. split; [done| |exact H3].
      apply Forall_app. split; [exact H2|by apply (capacities_ok _ [])].
    + eapply owned_kept; [exact Ho|done|]. intros j hj Hj. right.
      apply list_lookup_insert_Some in Hj as [(<- & <- & _)|[_ Hj]]; eauto.
Qed.

Lemma conversing_reachable listener s :
  server_config_valid config = true -> is_uint 32 (scfg_maximum_active_connections config) ->
  vreach listener s -> conversing s /\ run_room (run s) = true.
Proof.
  intros Hv Hu. induction 1 as [|s e s' Hs [IH Hr] Hstep].
  - split; [|done]. by split; [|split].
  - eapply conversing_step; [|done..|exact Hstep].
    by destruct (inv_reachable _ _ _ _ _ _ Hv Hu Hs) as [[Hok _ _ _] _].
Qed.

Lemma served_answered cs avail ids out rest c :
  served cs avail ids out rest -> c ∈ ids -> exists req resp, cs !! c = Some (req, CDone resp).
Proof.
  induction 1 as [|ids out mid frame rest c' req resp encoded _ IH _ _ Hc _];
    [by intros ?%not_elem_of_nil|].
  intros [Hin| ->%list_elem_of_singleton]%elem_of_app; eauto.
Qed.

(** C10: On every connection, in every interleaving of handlers, workers, peers and stops and
    whatever is thrown, requests are answered once, in order and with their own response:
    what the peer has been sent is exactly the frames of the responses to the first
    requests of its stream, in the order of the stream, followed by at most the beginning
    of one more response and of one failure when the connection is ending; no call of
    [dispatch] is answered twice or on two connections; and each response is one that
    answers its request. *)
Theorem server_converses listener s k h :
  server_config_valid config = true -> is_uint 32 (scfg_maximum_active_connections config) ->
  server_reachable config instance_id daemon_version broken_pipe listener s ->
  threads s !! k = Some h ->
  spoken (calls (service s)) h /\ NoDup (h_calls h) /\
  (forall j hj c, threads s !! j = Some hj -> c ∈ h_calls h -> c ∈ h_calls hj -> j = k) /\
  (forall c, c ∈ h_calls h -> exists req resp,
     calls (service s) !! c = Some (req, CDone resp) /\ answered req resp).
Proof.
  intros Hv Hu Hs Hk. destruct (conversing_reachable _ _ Hv Hu Hs) as [[Ht [Hn _ Ha]] _].
  destruct (Ht _ _ Hk) as [_ _ Hsp]. split; [exact Hsp|]. split.
  { specialize (Hn _ _ Hk). by apply NoDup_app in Hn as [? _]. }
  split.
  - intros j hj c Hj Hc Hcj. eapply Ha; [exact Hj|exact Hk|..]; apply elem_of_app; by left.
  - intros c Hc. destruct Hsp as (out & mid & tail & Hserved & _).
    destruct (served_answered _ _ _ _ _ _ Hserved Hc) as (req & resp & Hcall). exists req, resp.
    split; [done|]. pose proof (server_service_reachable _ _ _ _ _ _ Hs) as Hsv.
    by destruct (calls_fit_reachable _ _ _ _ Hsv _ _ _ Hcall) as [? _].
Qed.
End Conversing.
End Talk.
