(* ===== verification/EndToEnd.v ===== *)
(** A client and the server on one connection: a session of calls of [Client::Impl::call]
    against a handler thread of [Server].

    Each side is modelled alone, with what the other sends as a script; here the bytes
    delivered to the thread are those the client has sent, and the bytes that come back are
    those the thread has sent. *)
From S2P Require Import Prelude OrdMap Kernel Protocol Wire CodecRequest CodecResult Codec.
From S2P Require Import CodecSpec Frame FrameSpec Jobs JobSystem Posix UnixSocket.
From S2P Require Import UnixSocketSpec Client ClientSpec Service ServiceSystem Dispatch.
From S2P Require Import Server ServerSpec ServerLife ServerTalk.

(** ** What the server has answered *)

Section Answers.
Context `{HK : KernelLaws} {RT : Runtime}.

(** The frames of some payloads, one after the other. *)
Definition frames (payloads : list bytes) : bytes := concat (frame_bytes <$> payloads).

Lemma frames_app l l' : frames (l ++ l') = frames l ++ frames l'.
Proof. unfold frames. by rewrite fmap_app, concat_app. Qed.

(** The request that was read as [payload] was answered, as call [c], with the bytes [b]. *)
Definition settled_as (cs : list (Request * call_pc)) (payload : bytes) (c : nat) (b : bytes) : Prop :=
  exists request response, decode_request payload = ROk request /\
    cs !! c = Some (request, CDone response) /\ encode_response response = Return (ROk b).

(** When whole frames have arrived, their requests are what is answered, in order. *)
Lemma served_frames cs avail ids out rest payloads more :
  served cs avail ids out rest -> avail = frames payloads ++ more ->
  Forall frame_payload_ok payloads -> (length ids <= length payloads)%nat ->
  exists bs, Forall3 (settled_as cs) (take (length ids) payloads) ids bs /\ out = frames bs /\
    rest = frames (drop (length ids) payloads) ++ more.
Proof.
  intros Hserved -> Hok. remember (frames payloads ++ more) as avail eqn:Ha.
  induction Hserved as [|ids out mid frame rest c request response encoded _ IH Hp Hd Hc He]; intros Hlen.
  { exists []. split_and!; [constructor|done|exact Ha]. }
  rewrite length_app in Hlen. cbn in Hlen.
  destruct (IH ltac:(lia)) as (bs & Hbs & -> & ->). set (n := length ids) in *.
  destruct (lookup_lt_is_Some_2 payloads n) as [payload Hl]; [lia|].
  rewrite (drop_S _ _ _ Hl) in Hp. change (payload :: drop (S n) payloads) with ([payload] ++ drop (S n) payloads) in Hp.
  rewrite frames_app, <-app_assoc in Hp. unfold frames at 1 in Hp. cbn [fmap list_fmap concat] in Hp.
  rewrite app_nil_r, parse_frame_bytes in Hp by (by eapply Forall_lookup_1). injection Hp as <- <-.
  exists (bs ++ [encoded]). rewrite length_app. cbn [length].
  rewrite Nat.add_1_r. fold n. rewrite (take_S_r _ _ _ Hl).
  split_and!; [|by rewrite frames_app; unfold frames at 3; cbn; rewrite app_nil_r|done].
  apply Forall3_app; [exact Hbs|]. constructor; [by exists request, response|constructor].
Qed.
End Answers.

(** ** The client's side *)

Section Session.
Context `{HK : KernelLaws} {RT : Runtime} {P : Posix}.

(** The client makes these calls, one after the other. *)
Fixpoint call_all (rs : list Request) (this : Impl) :
    io (list (outcome CodecExn (Result Response)) * Impl) :=
  match rs with
  | [] => mret ([], this)
  | request :: rs =>
    '(result, this) ← call request this;
    '(results, this) ← call_all rs this;
    mret (result :: results, this)
  end.

(** Their requests can be encoded, as these payloads, from identifier [id] on. *)
Fixpoint encodings (id : Z) (rs : list Request) (payloads : list bytes) : Prop :=
  match rs, payloads with
  | [], [] => True
  | request :: rs, payload :: payloads =>
    request_fits (correlate id request) /\
    encode_request (correlate id request) = Return (ROk payload) /\
    encodings (next_id id) rs payloads
  | _, _ => False
  end.

(** The room they take. *)
Definition room (payloads : list bytes) : Z :=
  foldr (fun payload n => 4 + zlen payload + n) 0 payloads.

Lemma room_nonneg payloads : 0 <= room payloads.
Proof.
  unfold room. induction payloads as [|p l IH]; cbn; [lia|]. pose proof (zlen_nonneg p). lia.
Qed.

Lemma encoded_nonzero r payload : encode_request r = Return (ROk payload) -> req_request_id r <> 0.
Proof. intros He Hz. unfold encode_request in He. rewrite Hz in He. by cbn in He. Qed.

(** While the session goes on the identifiers do not wrap. *)
Lemma next_id_succ id rs payloads i :
  is_uint 64 id -> encodings (next_id id) rs payloads -> is_Some (rs !! i) -> next_id id = id + 1.
Proof.
  intros Hid He [r Hr]. destruct rs as [|request rs]; [done|]. destruct payloads as [|payload payloads]; [done|].
  destruct He as (_ & Henc & _). apply encoded_nonzero in Henc. cbn in Henc. unfold next_id, is_uint in *.
  destruct (Z.eq_dec (id + 1) (2 ^ 64)) as [E|Hne]; [by rewrite E, Z_mod_same_full in Henc|].
  apply Z.mod_small. lia.
Qed.

(** The i-th call returned what was answered to its request. *)
Definition replied (cs : list (Request * call_pc)) (request : Request) (c : nat)
    (result : outcome CodecExn (Result Response)) : Prop :=
  exists response response',
    cs !! c = Some (canonical_request request, CDone response) /\
    answered (canonical_request request) response /\
    result = Return (ROk response') /\ response_equiv response response'.

(** The payloads of a session come back decoded. *)
Lemma settled_request cs payload c b request :
  settled_as cs payload c b -> request_fits request -> encode_request request = Return (ROk payload) ->
  exists response, cs !! c = Some (canonical_request request, CDone response) /\
    encode_response response = Return (ROk b).
Proof.
  intros (request' & response & Hd & Hc & Hb) Hf He. exists response.
  destruct (encoded_request_decodes _ _ Hf He) as [_ Hd']. rewrite Hd in Hd'. by injection Hd' as ->.
Qed.

Lemma session_runs cs rs payloads ids bs F n this net later e :
  holds F n this net -> valid this = true ->
  encodings (next_request_id this) rs payloads -> Forall3 (settled_as cs) payloads ids bs ->
  (forall c req resp, cs !! c = Some (req, CDone resp) -> answered req resp) ->
  (forall c req resp, c ∈ ids -> cs !! c = Some (req, CDone resp) -> response_fits resp) ->
  roomy (room payloads) (outbound (link net)) ->
  stream (incoming (link net)) = (frames bs ++ later, e) ->
  exists results this' net',
    call_all rs this net = Done (results, this', net') /\
    sent (outbound (link net')) = sent (outbound (link net)) ++ frames payloads /\
    holds F n this' net' /\
    forall i request, rs !! i = Some request ->
      exists c result, ids !! i = Some c /\ results !! i = Some result /\
    replied cs (correlate (next_request_id this + Z.of_nat i) request) c result.
Proof.
  revert rs ids bs this net. induction payloads as [|payload payloads IH];
    intros rs ids bs this net Hh Hv He Hf Ha Hfit Hroom Hs; (destruct rs as [|request rs]; [|try done]);
    [inversion Hf; subst|done|].
  { exists [], this, net. split_and!; [done|by rewrite app_nil_r|done|]. by intros i request. }
  destruct He as (Hrf & Henc & He). apply Forall3_cons_inv_l in Hf as (c & ids' & b & bs' & -> & -> & Hset & Hf').
  destruct (settled_request _ _ _ _ _ Hset Hrf Henc) as (response & Hc & Hb).
  destruct (Ha _ _ _ Hc) as (Hid & Hm & _).
  destruct (call_answered F n request response payload b this net (frames bs' ++ later) e (room payloads))
    as (response' & net1 & Hcall & Heq & Hs1 & Hsent & Hroom1 & Hh1); try done.
  { by eapply encoded_nonzero in Henc. }
  { apply (Hfit c _ _ ltac:(by left) Hc). }
  { apply room_nonneg. }
  { rewrite Hs. by rewrite (assoc_L (++)). }
  destruct (IH rs ids' bs' (kept this) net1) as (results & this' & net' & Hrun & Hsent' & Hh' & Hall);
    try done.
  { intros c' req resp Hin. apply Hfit. by right. }
  exists (Return (ROk response') :: results), this', net'. split_and!; [| |done|].
  - cbn [call_all]. cbv [mbind io_bind mret io_ret]. by rewrite Hcall, Hrun.
  - rewrite Hsent', Hsent, <-(assoc_L (++)). done.
  - intros [|i] r Hr; cbn in Hr.
    + injection Hr as <-. exists c, (Return (ROk response')). rewrite Z.add_0_r. split_and!; [done..|].
      exists response, response'. split_and!; try done. by apply (Ha c).
    + destruct (Hall i r Hr) as (c' & result & Hc' & Hres & Hrep). exists c', result.
      split_and!; [done..|]. revert Hrep. cbn [kept next_request_id].
      rewrite (next_id_succ (next_request_id this) _ _ _ (qf_id _ Hrf) He (mk_is_Some _ _ Hr)).
      by rewrite <-Z.add_assoc, Nat2Z.inj_succ, Z.add_1_l.
Qed.
(** Encodable requests are whole frames. *)
Lemma encodings_frames id rs payloads :
  encodings id rs payloads -> Forall frame_payload_ok payloads /\ length payloads = length rs.
Proof.
  revert id rs. induction payloads as [|payload payloads IH]; intros id [|request rs]; try done.
  intros (Hf & He & Hr). destruct (IH _ _ Hr) as [H1 H2]. split; [|cbn; by rewrite H2].
  apply Forall_cons. split; [by eapply encoded_request_payload|done].
Qed.

Context (config : ServerConfig) (instance_id : Z) (daemon_version broken_pipe : bytes).

End Session.
