(* ===== verification/ServerStop.v ===== *)
(** Stopping: once a caller of [stop] is through, no registered connection waits for its
    peer any more, whatever the peer does: each handler takes its next step, or waits for the
    service, which answers every call ([Progress]). *)
From S2P Require Import Prelude OrdMap Kernel Protocol Wire CodecRequest CodecResult Codec.
From S2P Require Import CodecSpec Layout Frame FrameSpec Jobs JobSystem JobSpec JobOutcome.
From S2P Require Import Service ServiceSystem ServiceLink ServiceSpec SessionSpec Dispatch.
From S2P Require Import Framing Server ServerSpec ServerLife ServerTalk.

Section Blocking.
Context `{HK : KernelLaws} {RT : Runtime}.

(** ** Streams that have ended *)

(** A stream that ends blocks no reader. *)
Lemma parse_frame_ended avail e : e <> Waiting -> parse_frame avail e <> FrameBlocked.
Proof.
  intros He. unfold parse_frame, stream_failure. destruct (_ <? 4); [by destruct e|].
  destruct (_ || _); [done|]. destruct (_ <? _); [by destruct e|done].
Qed.

Lemma read_frame_ended d p s :
  arrivals_wf s -> 0 <= d -> (stream s).2 <> Waiting ->
  exists r p' s', read_frame d (Some p) s = Done (r, Some p', s').
Proof.
  intros Hwf Hd He. pose proof (read_frame_spec d (Some p) s Hwf Hd) as Hr. unfold frame_answered in Hr.
  destruct (stream s) as [avail e]. destruct (parse_frame avail e) as [x rest|st|] eqn:Hp.
  - destruct Hr as (s' & -> & _). eauto.
  - destruct Hr as (got & s' & -> & _). eauto.
  - by destruct (parse_frame_ended avail e He).
Qed.

(** [send] fails in the end. *)
Definition broken (s : outgoing) : Prop := exists cs e, capacities s = cs ++ [SendFailed e].

Lemma write_exact_broken fuel source offset s :
  (write_weight s < fuel)%nat -> broken s ->
  exists st s', write_exact fuel source offset s = Done (st, s') /\
    (status_ok st = true -> broken s').
Proof.
  revert offset s. induction fuel as [|fuel IH]; intros offset [cs out] Hf (bs & e & Hb); [lia|].
  cbn [write_exact]. unfold write_weight in *. cbn [capacities] in *. subst cs.
  destruct (_ <? _).
  2: { eexists _, _. split; [done|]. intros _. by exists bs, e. }
  unfold send. cbn [capacities sent]. destruct bs as [|[n| |err] bs]; cbn [app length] in *.
  - eexists _, _. split; [done|]. by rewrite failure_fails by known_code.
  - destruct (_ =? 0); [eexists _, _; split; [done|rewrite failure_fails by known_code; done]|].
    apply IH; [cbn; lia|by exists bs, e].
  - apply IH; [cbn; lia|by exists bs, e].
  - eexists _, _. split; [done|]. by rewrite failure_fails by known_code.
Qed.

Lemma write_frame_broken d payload s : broken s -> exists st s', write_frame d payload s = Done (st, s').
Proof.
  intros Hb. unfold write_frame. destruct (_ || _); [eauto|].
  destruct (write_exact_broken (S (write_weight s)) (frame_header (zlen payload mod 2 ^ 32)) 0 s)
    as (st & s1 & -> & H1); [lia|done|].
  destruct (status_ok st); [|eauto].
  destruct (write_exact_broken (S (write_weight s1)) payload 0 s1) as (st' & s2 & -> & _); eauto; lia.
Qed.

(** ** Connections that were shut down *)

(** What [shutdown] leaves: a stream that ends. *)
Definition shut_ended (h : Handler) : Prop := h_shut h = true -> (stream (h_delivered h)).2 <> Waiting.

Lemma shut_ended_shut h : shut_ended (shut h).
Proof. intros _. cbn. rewrite stream_app. by destruct (stream (h_delivered h)) as [bs [| |]]. Qed.

Lemma shut_ended_arrive h a : shut_ended h -> shut_ended (h_arrive a h).
Proof.
  intros Hs Hsh. specialize (Hs Hsh). cbn. rewrite stream_app.
  by destruct (stream (h_delivered h)) as [bs [| |]].
Qed.

Lemma sending_broken broken_pipe h : h_shut h = true -> broken (sending broken_pipe h).
Proof. intros Hs. unfold sending. rewrite Hs. by eexists _, _. Qed.

(** ** Who is stopping *)

(** In the middle of [stop]. *)
Definition stop_busy (p : stop_pc) : bool :=
  match p with StopListener | StopConnections => true | _ => false end.

Definition pc_busy (pc : handler_pc) : bool := match pc with HStop p => stop_busy p | _ => false end.

Definition run_busy (r : run_pc) : bool :=
  match r with RFatal p _ | RStop p _ | DStop p => stop_busy p | _ => false end.

(** Somebody is. *)
Definition stop_running (s : ServerState) : Prop :=
  run_busy (run s) = true \/ (exists n p, stoppers s !! n = Some p /\ stop_busy p = true) \/
  (exists k h, threads s !! k = Some h /\ pc_busy (h_pc h) = true).

(** A registered connection in the loop was shut down. *)
Definition cut_off (h : Handler) : Prop :=
  attached (place h) = true -> in_loop (h_pc h) = true -> h_shut h = true.

(** Before, while and after [stop] interrupts the connections. *)
Record halting (s : ServerState) : Prop := {
  ha_ended : forall k h, threads s !! k = Some h -> shut_ended h;
  ha_stage : stopping s = true ->
    stop_running s \/ forall k h, threads s !! k = Some h -> cut_off h;
}.

(** *** Steps of [stop] *)

Lemma stop_step_ended p s s' p' :
  stop_step p s = Some (s', p') -> (forall k h, threads s !! k = Some h -> shut_ended h) ->
  forall k h, threads s' !! k = Some h -> shut_ended h.
Proof.
  intros Hp He k h' Hk. destruct (stop_step_threads _ _ _ _ _ _ Hp Hk) as (h & Hh & [-> | ->]).
  - by eapply He.
  - apply shut_ended_shut.
Qed.

(** What the caller has done by its new point. *)
Lemma stop_step_stage p s s' p' :
  connected_inv s -> stop_step p s = Some (s', p') ->
  stop_busy p' = true \/ (p = StopExchange /\ stopping s = true /\ s' = s) \/
  forall k h, threads s' !! k = Some h -> cut_off h.
Proof.
  intros Hinv Hp. destruct p; cbn in Hp; [|injection Hp as <- <-; by left| |done].
  - destruct (stopping s) eqn:Hs; injection Hp as <- <-; [right; by left|by left].
  - injection Hp as <- <-. right. right. intros k h' Hk. cbn in Hk. rewrite list_lookup_fmap in Hk.
    destruct (threads s !! k) as [h|] eqn:E; [|done]. injection Hk as <-.
    assert (place <$> (threads s !! k) = Some (place h)) as Hpl by (by rewrite E).
    rewrite <-list_lookup_fmap in Hpl. destruct (attached (place h)) eqn:Hat.
    + assert (h_descriptor h ∈ active_connections s) as Hin.
      { apply (ci_connections _ Hinv). by exists k, (place h). }
      assert (h_open h = true) as Ho by (by apply attached_opened in Hat).
      rewrite Ho, bool_decide_eq_true_2 by done. done.
    + assert (place (if h_open h && bool_decide (h_descriptor h ∈ active_connections s)
        then shut h else h) = place h) as Hsame by (by destruct (_ && _)).
      intros Hat'. rewrite Hsame in Hat'. congruence.
Qed.

(** The caller that is not in the middle of [stop] does not keep it running. *)
Lemma halting_stop p s s1 p1 s' :
  connected_inv s -> halting s -> stop_step p s = Some (s1, p1) ->
  stopping s' = stopping s1 ->
  (stop_busy p1 = true -> stop_running s') ->
  (stop_running s -> p = StopExchange -> s1 = s -> stop_running s') ->
  (forall k h', threads s' !! k = Some h' -> exists h, threads s1 !! k = Some h /\
     h_shut h' = h_shut h /\ h_delivered h' = h_delivered h /\ (cut_off h -> cut_off h')) ->
  halting s'.
Proof.
  intros Hinv [He Hst] Hp Hstop Hbusy Hrun Hth.
  pose proof (stop_step_ended _ _ _ _ Hp He) as He1. split.
  - intros k h' Hk. destruct (Hth k h' Hk) as (h & Hh & Hs & Hd & _). unfold shut_ended.
    rewrite Hs, Hd. by eapply He1.
  - intros Hs'. rewrite Hstop in Hs'.
    assert ((forall k h, threads s1 !! k = Some h -> cut_off h) ->
      forall k h, threads s' !! k = Some h -> cut_off h) as Hcut.
    { intros Hc k h' Hk. destruct (Hth k h' Hk) as (h & Hh & _ & _ & Hx). apply Hx. by eapply Hc. }
    destruct (stop_step_stage _ _ _ _ Hinv Hp) as [Hb|[(-> & Hs & ->)|Hc]];
      [left; by apply Hbusy| |right; by apply Hcut].
    destruct (Hst Hs) as [Hr|Hc]; [left; by apply Hrun|right; by apply Hcut].
Qed.

Section Stopping.
Context (config : ServerConfig) (instance_id : Z) (daemon_version broken_pipe : bytes).

Abbreviation hstep := (handler_step config instance_id daemon_version broken_pipe).
Abbreviation rstep := (run_step config instance_id daemon_version).
Abbreviation vstep := (server_step config instance_id daemon_version broken_pipe).
Abbreviation vreach := (server_reachable config instance_id daemon_version broken_pipe).

(** *** Steps of a handler *)

(** What a step that does not belong to [stop] does to the thread: it is not shut down, and
    only the test of the loop lets it in. *)
Record kept_loop (stopped : bool) (h h' : Handler) : Prop := {
  kl_shut : h_shut h' = h_shut h;
  kl_delivered : h_delivered h' = h_delivered h;
  kl_loop : stopped = true -> in_loop (h_pc h') = true -> attached (place h') = true ->
    in_loop (h_pc h) = true /\ attached (place h) = true;
}.

Lemma kept_cut h h' : kept_loop true h h' -> cut_off h -> cut_off h'.
Proof.
  intros [H1 _ H4] Hc Hat Hl. destruct (H4 eq_refl Hl Hat). rewrite H1. by apply Hc.
Qed.

Lemma kept_late b h h' :
  h_shut h' = h_shut h -> h_delivered h' = h_delivered h -> in_loop (h_pc h') = false ->
  kept_loop b h h'.
Proof. intros H1 H2 H4. split; [done..|]. by rewrite H4. Qed.

Lemma kept_in b h h' :
  h_shut h' = h_shut h -> h_delivered h' = h_delivered h -> in_loop (h_pc h) = true ->
  h_registered h' = h_registered h -> kept_loop b h h'.
Proof.
  intros H1 H2 H4 H5. split; [done..|]. intros _ _. unfold attached, place. cbn. rewrite H5.
  intros [-> _]%andb_prop. by destruct (h_pc h).
Qed.

Lemma read_kept b i h h' : h_pc h = HRead -> handler_read i h = Some h' -> kept_loop b h h'.
Proof.
  unfold handler_read. intros Hpc Hr.
  assert (in_loop (h_pc h) = true) as Hl by (by rewrite Hpc).
  destruct i; destruct (read_frame _ _ _) as [[[[x|st] [p|]] s]| |]; try discriminate Hr;
    injection Hr as <-; by apply kept_in.
Qed.

Lemma write_kept b i c encoded h h' :
  h_pc h = HWrite c encoded -> handler_write broken_pipe i c encoded h = Some h' -> kept_loop b h h'.
Proof.
  unfold handler_write. intros Hpc Hr. destruct (write_frame _ _ _) as [[st o]| |]; try discriminate Hr.
  assert (in_loop (h_pc h) = true) as Hl by (by rewrite Hpc). injection Hr as <-.
  apply kept_in; try done; destruct (status_ok st); cbn; try done; destruct i; try done;
    by destruct (h_accepted_shutdown h).
Qed.

Lemma fail_kept b i st pl pr h h' :
  h_pc h = HFailure st pl pr -> handler_fail broken_pipe i st pl pr h = Some h' -> kept_loop b h h'.
Proof.
  unfold handler_fail, after_failure. intros Hpc Hr.
  assert (in_loop (h_pc h) = true) as Hl by (by rewrite Hpc).
  destruct i; destruct (protocol_failure st pl pr);
    try (destruct (write_frame _ _ _) as [[r o]| |]); try discriminate Hr; injection Hr as <-;
    apply kept_in; try done; cbn; by destruct (h_registered h).
Qed.

(** Either the thread is in [stop], or it only goes on. *)
Lemma handler_kept i k s s' h :
  threads s !! k = Some h -> thread_ok h -> hstep i k s = Some s' ->
  (exists p s1 p1 h1, h_pc h = HStop p /\ stop_step p s = Some (s1, p1) /\ threads s1 !! k = Some h1 /\
     s' = set_thread k (h_to (HStop p1) h1) s1) \/
  (exists h', threads s' = <[k:=h']> (threads s) /\ stopping s' = stopping s /\ run s' = run s /\
     stoppers s' = stoppers s /\ pc_busy (h_pc h) = false /\ kept_loop (stopping s) h h').
Proof.
  intros Hk Hok Hstep. unfold handler_step in Hstep. rewrite Hk in Hstep.
  cbn -[service_step stop_step] in Hstep.
  assert (forall h', threads s' = <[k:=h']> (threads s) -> stopping s' = stopping s -> run s' = run s ->
    stoppers s' = stoppers s -> pc_busy (h_pc h) = false -> kept_loop (stopping s) h h' ->
    exists h', threads s' = <[k:=h']> (threads s) /\ stopping s' = stopping s /\ run s' = run s /\
     stoppers s' = stoppers s /\ pc_busy (h_pc h) = false /\ kept_loop (stopping s) h h') as Hgo by eauto 10.
  assert (forall p, (('(s1, p') ← stop_step p s; h1 ← threads s1 !! k;
      Some (set_thread k (h_to (HStop p') h1) s1)) = Some s') ->
    exists p0 s1 p1 h1, HStop p = HStop p0 /\ stop_step p0 s = Some (s1, p1) /\
      threads s1 !! k = Some h1 /\ s' = set_thread k (h_to (HStop p1) h1) s1) as Hstop.
  { intros p Hp. destruct (stop_step p s) as [[s1 p1]|] eqn:Hs; [|done]. cbn in Hp.
    destruct (threads s1 !! k) as [h1|] eqn:H1; [|done]. injection Hp as <-. by exists p, s1, p1, h1. }
  destruct (h_pc h) as [| | |frame|frame c|frame c resp|c encoded|e|st pl pr| |p| | | | |] eqn:Hpc.
  11: { destruct p as [| | |]; cycle 3.
    { injection Hstep as <-. right. eapply Hgo; try done; by apply kept_late. }
    all: left; cbn -[stop_step] in Hstep; by apply Hstop. }
  all: right.
  - destruct i; injection Hstep as <-; (eapply Hgo; try done); split; try done.
    intros _ _. unfold attached, place. cbn. by rewrite (to_fresh _ Hok Hpc).
  - injection Hstep as <-. eapply Hgo; try done; destruct (stopping s) eqn:Hs; by split.
  - destruct (handler_read i h) as [h'|] eqn:Hr; [|done]. injection Hstep as <-.
    eapply Hgo; try done; by eapply read_kept.
  - destruct i as [|e n]; [destruct (decode_request frame)|]; injection Hstep as <-;
      (eapply Hgo; try done); apply kept_in; try done; by rewrite Hpc.
  - destruct (calls (service s) !! c) as [[req pc]|]; [|done]. destruct pc; try discriminate Hstep.
    injection Hstep as <-. eapply Hgo; try done; apply kept_in; try done; by rewrite Hpc.
  - assert (forall pc, pc_busy pc = false -> s' = set_thread k (h_to pc h) s ->
      exists h', threads s' = <[k:=h']> (threads s) /\ stopping s' = stopping s /\ run s' = run s /\
        stoppers s' = stoppers s /\ pc_busy (h_pc h) = false /\ kept_loop (stopping s) h h') as Hx.
    { intros pc Hb ->. rewrite Hpc. eapply Hgo; try done; apply kept_in; try done; by rewrite Hpc. }
    rewrite Hpc in Hx. destruct i as [|e n]; [|injection Hstep as <-; by eapply (Hx (HCatch e))].
    destruct (encode_response resp) as [[bs|st]|[cd what|what]]; injection Hstep as <-;
      (eapply Hx; [|reflexivity]; done).
  - destruct (handler_write _ i c encoded h) as [h'|] eqn:Hr; [|done]. injection Hstep as <-.
    eapply Hgo; try done; by eapply write_kept.
  - injection Hstep as <-. eapply Hgo; try done; apply kept_in; try done; by rewrite Hpc.
  - destruct (handler_fail _ i st pl pr h) as [h'|] eqn:Hr; [|done]. injection Hstep as <-.
    eapply Hgo; try done; by eapply fail_kept.
  - injection Hstep as <-. eapply Hgo; try done; apply kept_late; try done; cbn; by destruct (h_accepted_shutdown h).
  - injection Hstep as <-. eapply Hgo; try done; by apply kept_late.
  - injection Hstep as <-. eapply Hgo; try done; by apply kept_late.
  - injection Hstep as <-. eapply Hgo; try done; by apply kept_late.
  - injection Hstep as <-. eapply Hgo; try done; by apply kept_late.
  - done.
Qed.

(** *** Every step *)

(** Steps outside [stop] keep the stage. *)
Lemma halting_kept s s' :
  halting s -> stopping s' = stopping s -> (stop_running s -> stop_running s') ->
  (forall k h', threads s' !! k = Some h' -> (h_shut h' = false /\ in_loop (h_pc h') = false) \/
     exists h, threads s !! k = Some h /\ kept_loop (stopping s) h h') ->
  halting s'.
Proof.
  intros [He Hst] Hs Hr Hth. split.
  - intros k h' Hk. destruct (Hth k h' Hk) as [[Hf _]|(h & Hh & [H1 H2 _])]; unfold shut_ended.
    + by rewrite Hf.
    + rewrite H1, H2. by eapply He.
  - rewrite Hs. intros Hstop. destruct (Hst Hstop) as [?|Hc]; [left; auto|]. right. intros k h' Hk.
    destruct (Hth k h' Hk) as [[_ Hf]|(h & Hh & Hkl)]; [intros _; by rewrite Hf|].
    rewrite Hstop in Hkl. eapply kept_cut; [exact Hkl|]. by eapply Hc.
Qed.

(** A thread that stays where it is. *)
Lemma kept_same b h : kept_loop b h h.
Proof. by split. Qed.

(** The callers of [stop] other than the one that moves. *)
Lemma running_kept s s' :
  (run_busy (run s) = true -> run_busy (run s') = true) ->
  (forall n p, stoppers s !! n = Some p -> stop_busy p = true ->
     exists p', stoppers s' !! n = Some p' /\ stop_busy p' = true) ->
  (forall k h, threads s !! k = Some h -> pc_busy (h_pc h) = true ->
     exists h', threads s' !! k = Some h' /\ pc_busy (h_pc h') = true) ->
  stop_running s -> stop_running s'.
Proof.
  intros H1 H2 H3 [Hb|[(n & p & Hn & Hb)|(k & h & Hk & Hb)]]; [left; auto|right; left|right; right].
  - destruct (H2 n p Hn Hb) as (p' & ? & ?). eauto.
  - destruct (H3 k h Hk Hb) as (h' & ? & ?). eauto.
Qed.

Lemma halting_handler i k s s' :
  connected_inv s -> halting s -> hstep i k s = Some s' -> halting s'.
Proof.
  intros Hinv Hh Hstep. pose proof (ci_ok _ Hinv) as Hok. rewrite Forall_lookup in Hok.
  assert (exists h, threads s !! k = Some h) as [h Hk].
  { unfold handler_step in Hstep. destruct (threads s !! k) as [h|]; [eauto|done]. }
  destruct (handler_kept _ _ _ _ _ Hk (Hok _ _ Hk) Hstep)
    as [(p & s1 & p1 & h1 & Hpc & Hp & H1 & ->)|(h' & Hth & Hs & Hr & Hst & Hb & Hkl)].
  - eapply (halting_stop p s s1 p1); try done.
    + intros Hb. right. right. exists k, (h_to (HStop p1) h1). split; [by eapply set_thread_at|done].
    + intros Hr -> ->. revert Hr. apply running_kept; [done|eauto|]. intros j hj Hj Hbj.
      destruct (decide (j = k)) as [->|Hne].
      * rewrite Hk in Hj. injection Hj as <-. by rewrite Hpc in Hbj.
      * exists hj. split; [cbn; by rewrite list_lookup_insert_ne|done].
    + intros j hj Hj. cbn in Hj. apply list_lookup_insert_Some in Hj as [(<- & <- & _)|[_ Hj]].
      * exists h1. by split_and!.
      * by exists hj.
  - eapply halting_kept; [exact Hh|exact Hs| |].
    + apply running_kept; [by rewrite Hr|rewrite Hst; eauto|]. intros j hj Hj Hbj.
      destruct (decide (j = k)) as [->|Hne]; [congruence|].
      exists hj. by rewrite Hth, list_lookup_insert_ne.
    + intros j hj Hj. right. rewrite Hth in Hj.
      apply list_lookup_insert_Some in Hj as [(<- & <- & _)|[_ Hj]]; [by exists h|].
      exists hj. split; [done|apply kept_same].
Qed.

Lemma halting_run i s s' : connected_inv s -> halting s -> rstep i s = Some s' -> halting s'.
Proof.
  intros Hinv Hh Hstep.
  assert (forall p (pc : stop_pc -> run_pc), run_busy (run s) = stop_busy p ->
    (forall q, run_busy (pc q) = stop_busy q) ->
    ('(s1, p') ← stop_step p s; Some (set_run (pc p') s1)) = Some s' -> halting s') as Hstop.
  { intros p pc Hb Hpc Hp. destruct (stop_step p s) as [[s1 p1]|] eqn:Hs; [|done]. injection Hp as <-.
    eapply (halting_stop p s s1 p1); try done.
    - intros Hb1. left. cbn. by rewrite Hpc.
    - intros Hr -> ->. revert Hr. apply running_kept; [by rewrite Hb|eauto..].
    - intros j hj Hj. by exists hj. }
  assert (stopping s' = stopping s -> stoppers s' = stoppers s ->
    (run_busy (run s) = true -> run_busy (run s') = true) ->
    (exists l, threads s' = threads s ++ l /\
       Forall (fun h => h_shut h = false /\ in_loop (h_pc h) = false) l) -> halting s') as Hkeep.
  { intros Hs Hst Hr (l & Hl & Hnew). eapply halting_kept; [exact Hh|exact Hs| |].
    - apply running_kept; [exact Hr|rewrite Hst; eauto|]. intros j hj Hj Hbj. exists hj.
      rewrite Hl. split; [by apply lookup_app_l_Some|done].
    - intros j hj Hj. rewrite Hl in Hj. apply lookup_app_Some in Hj as [Hj|[_ Hj]].
      + right. exists hj. split; [done|apply kept_same].
      + left. by eapply Forall_lookup_1 in Hnew. }
  assert (threads s = threads s ++ []) as Hnil by (by rewrite app_nil_r).
  unfold run_step in Hstep.
  destruct (run s) as [| | |l|a|d c n|d c|d c|d c|d c|b e|p0 st|p0 o|o|owned o|o|o|p0| |owned| | |wk|] eqn:Hrun;
    cbn -[stop_step service_step] in Hstep;
    try (destruct p0; try (eapply (Hstop _ (fun p => RFatal p st)); [done|done|exact Hstep]);
         try (eapply (Hstop _ (fun p => RStop p o)); [done|done|exact Hstep]);
         try (eapply (Hstop _ DStop); [done|done|exact Hstep]));
    repeat match type of Hstep with
    | Some _ = Some _ => injection Hstep as <-
    | (match ?x with _ => _ end) = Some _ => destruct x eqn:?; try discriminate Hstep
    | (?x ≫= _) = Some _ => destruct x; cbn [mbind option_bind] in Hstep; try discriminate Hstep
    end.
  all: try (apply Hkeep; [cbn; congruence|reflexivity|discriminate|exists []; split; [exact Hnil|done]]).
  all: try (apply Hkeep; [reflexivity|reflexivity|discriminate
    |exists [new_handler d c]; split; [reflexivity|by constructor]]).
  all: try (destruct b; (apply Hkeep; [reflexivity|reflexivity|discriminate|exists []; split; [exact Hnil|done]])).
  discriminate Hstep.
Qed.

(** The peer's steps. *)
Lemma halting_same k h h' s :
  halting s -> threads s !! k = Some h -> h_shut h' = h_shut h -> place h' = place h ->
  (shut_ended h -> shut_ended h') -> halting (set_thread k h' s).
Proof.
  intros [He Hst] Hk Hs Hp Hended. pose proof (f_equal snd Hp) as Hpc. cbn in Hpc. split.
  - intros j hj Hj. cbn in Hj. apply list_lookup_insert_Some in Hj as [(<- & <- & _)|[_ Hj]]; [|by eapply He].
    apply Hended. by eapply He.
  - intros Hstop. destruct (Hst Hstop) as [Hr|Hc]; [left|right].
    + revert Hr. apply running_kept; [done|eauto|]. intros j hj Hj Hb. cbn.
      destruct (decide (j = k)) as [->|Hne]; [|by rewrite list_lookup_insert_ne; eauto].
      rewrite list_lookup_insert_eq by (by eapply lookup_lt_Some). rewrite Hk in Hj. injection Hj as <-.
      exists h'. by rewrite Hpc.
    + intros j hj Hj. apply list_lookup_insert_Some in Hj as [(<- & <- & _)|[_ Hj]]; [|by eapply Hc].
      unfold cut_off. rewrite Hp, Hs, Hpc. apply (Hc _ _ Hk).
Qed.

Lemma halting_step e s s' : inv config s -> halting s -> vstep e s = Some s' -> halting s'.
Proof.
  intros [Hinv _] Hh Hstep.
  assert (forall s1, stopping s1 = stopping s -> run s1 = run s -> threads s1 = threads s ->
    (stoppers s1 = stoppers s \/ stoppers s1 = stoppers s ++ [StopExchange]) -> halting s1) as Hkeep.
  { intros s1 Hs Hr Ht Hst. eapply halting_kept; [exact Hh|exact Hs| |].
    - apply running_kept; [by rewrite Hr| |rewrite Ht; eauto]. intros n p Hn Hb. exists p.
      destruct Hst as [-> | ->]; [done|]. split; [by apply lookup_app_l_Some|done].
    - intros k h Hk. rewrite Ht in Hk. right. exists h. split; [done|apply kept_same]. }
  destruct e; cbn -[handler_step run_step service_step stop_step] in Hstep.
  - by eapply halting_handler.
  - by eapply halting_run.
  - destruct (service_step _ _ _ _ _) as [x|]; [|done]. injection Hstep as <-. apply Hkeep; auto.
  - destruct (service_step _ _ _ _ _) as [x|]; [|done]. injection Hstep as <-. apply Hkeep; auto.
  - destruct (alive s); [|done]. injection Hstep as <-. apply Hkeep; auto.
  - destruct (stoppers s !! n) as [p|] eqn:Hn; [|done]. cbn -[stop_step] in Hstep.
    destruct (stop_step p s) as [[s1 p1]|] eqn:Hs; [|done]. injection Hstep as <-.
    pose proof (sm_stoppers _ _ (stop_step_moved _ _ _ _ Hs)) as Hst.
    eapply (halting_stop p s s1 p1); try done.
    + intros Hb. right. left. exists n, p1. split; [|done]. cbn. rewrite Hst.
      apply list_lookup_insert_eq. by eapply lookup_lt_Some.
    + intros Hr -> ->. revert Hr. apply running_kept; [done| |eauto]. intros m q Hm Hb. exists q.
      split; [|done]. cbn. destruct (decide (m = n)) as [->|Hne]; [|by rewrite list_lookup_insert_ne].
      rewrite Hn in Hm. by injection Hm as <-.
    + intros j hj Hj. by exists hj.
  - destruct (threads s !! k) as [h|] eqn:Hk; [|done]. cbn -[arrival_ok] in Hstep.
    destruct (forallb arrival_ok a); [|done]. injection Hstep as <-.
    eapply halting_same; [exact Hh|exact Hk|done|done|apply shut_ended_arrive].
  - destruct (threads s !! k) as [h|] eqn:Hk; [|done]. cbn -[capacity_ok] in Hstep.
    destruct (h_shut h || _); [done|]. injection Hstep as <-.
    by eapply halting_same.
Qed.

Lemma halting_reachable listener s :
  server_config_valid config = true -> is_uint 32 (scfg_maximum_active_connections config) ->
  vreach listener s -> halting s.
Proof.
  intros Hv Hu. induction 1 as [|s e s' Hs IH Hstep]; [by split|].
  eapply halting_step; [|exact IH|exact Hstep]. by eapply inv_reachable.
Qed.

(** ** The promise *)

(** A thread on a connection that was shut down finds its peer gone. *)
Lemma shut_reads cs h :
  talk cs h -> shut_ended h -> h_shut h = true -> 0 <= h_descriptor h -> h_pc h = HRead ->
  is_Some (handler_read HProceed h).
Proof.
  intros [_ _ (out & mid & tail & _ & _ & Ht)] He Hs Hfd Hpc. unfold turn in Ht. rewrite Hpc in Ht.
  destruct Ht as (_ & Hst & Hwf). cbn.
  destruct (read_frame_ended (h_descriptor h) (h_progress h) (h_incoming h)) as (r & p & s' & ->);
    [done..| |by destruct r; eexists].
  rewrite Hst. by apply He.
Qed.

(** Once [stop] is through, no peer can keep a thread: every thread takes its next step,
    whatever has arrived and whatever its peer accepts; it waits only for its call of
    [dispatch].  A thread that reports that its connection could not be registered is
    excepted: [stop] does not know that one. *)
Lemma handler_enabled listener s k h :
  server_config_valid config = true -> is_uint 32 (scfg_maximum_active_connections config) ->
  vreach listener s -> stopping s = true -> ~ stop_running s ->
  threads s !! k = Some h -> h_pc h <> HEnd ->
  (forall st pl pr, h_pc h = HFailure st pl pr -> h_registered h = true) ->
  (forall frame c, h_pc h = HDispatch frame c ->
     exists call, calls (service s) !! c = Some call /\ finished call = true) ->
  is_Some (hstep HProceed k s).
Proof.
  intros Hv Hu Hs Hstop Hnone Hk Hend Hfail Hcall.
  destruct (halting_reachable _ _ Hv Hu Hs) as [He Hst].
  destruct (Hst Hstop) as [Hr|Hcut]; [by destruct Hnone|].
  destruct (conversing_reachable _ _ _ _ _ _ Hv Hu Hs) as [[Htalk _] _].
  destruct (inv_reachable _ _ _ _ _ _ Hv Hu Hs) as [Hinv _].
  pose proof (ci_ok _ Hinv) as Hok. rewrite Forall_lookup in Hok. destruct (Hok _ _ Hk) as [Hfd Hserving _ _].
  assert (in_loop (h_pc h) = true -> h_shut h = true) as Hshut.
  { intros Hl. apply (Hcut k h Hk); [|done]. unfold attached, place. cbn.
    assert (h_registered h = true) as ->; [|by destruct (h_pc h)].
    destruct (h_pc h); try discriminate Hl; try (by apply Hserving); by eapply Hfail. }
  unfold handler_step. rewrite Hk.
  cbn -[service_step stop_step handler_read handler_write handler_fail].
  destruct (h_pc h) as [| | |frame|frame c|frame c resp|c encoded|e|st pl pr| |p| | | | |] eqn:Hpc;
    try (by destruct Hend); try (by eexists).
  - destruct (shut_reads _ _ (Htalk _ _ Hk) (He _ _ Hk) (Hshut eq_refl) Hfd Hpc) as [h' ->]. by eexists.
  - by destruct (decode_request frame); eexists.
  - destruct (Hcall frame c eq_refl) as ([req pc] & -> & Hf). destruct pc; try discriminate Hf. by eexists.
  - by destruct (encode_response resp) as [[bs|st]|[cd what|what]]; eexists.
  - unfold handler_write.
    destruct (write_frame_broken (h_descriptor h) encoded (sending broken_pipe h)) as (st & o & ->);
      [by apply sending_broken, Hshut|]. by eexists.
  - unfold handler_fail. destruct (protocol_failure st pl pr) as [encoded|]; [|by eexists].
    destruct (write_frame_broken (h_descriptor h) encoded (sending broken_pipe h)) as (r & o & ->);
      [by apply sending_broken, Hshut|]. by eexists.
  - destruct p; [|destruct Hnone; right; right; exists k, h; by rewrite Hpc..|by eexists].
    cbn. rewrite Hstop. cbn. rewrite Hk. by eexists.
Qed.

End Stopping.
End Blocking.
