(* ===== verification/ServerShut.v ===== *)
(** The listener: whoever stops the server first closes it, so that none is open once the
    destructor has stopped the server. *)
From S2P Require Import Prelude OrdMap Kernel Protocol Wire Codec Frame Jobs JobSystem.
From S2P Require Import Service Server ServerSpec ServerStop.

Section Shut.
Context `{RT : Runtime}.

(** Where the accepting thread is in [stop]. *)
Definition run_point (r : run_pc) : option stop_pc :=
  match r with RFatal p _ | RStop p _ | DStop p => Some p | _ => None end.

(** Somebody is about to close the listener. *)
Definition closing (s : ServerState) : Prop :=
  run_point (run s) = Some StopListener \/ (exists n, stoppers s !! n = Some StopListener) \/
  (exists k h, threads s !! k = Some h /\ h_pc h = HStop StopListener).

(** The destructor has been through [stop]. *)
Definition beyond (r : run_pc) : bool :=
  match r with
  | DStop StopExchange => false
  | DStop _ | DSwap | DJoin _ | DRemove | DService | DWorkers _ | Gone => true
  | _ => false
  end.

Record shutting (listener : Z) (s : ServerState) : Prop := {
  sh_fd : listener_fd s = listener \/ listener_fd s = -1;
  sh_closed : stopping s = true -> listener_fd s = -1 \/ closing s;
  sh_beyond : beyond (run s) = true -> stopping s = true;
  sh_quiet : alive s = false -> Forall (eq StopReturned) (stoppers s);
}.

Context (config : ServerConfig) (instance_id : Z) (daemon_version broken_pipe : bytes).
Context (listener : Z).

Abbreviation hstep := (handler_step config instance_id daemon_version broken_pipe).
Abbreviation rstep := (run_step config instance_id daemon_version).
Abbreviation vstep := (server_step config instance_id daemon_version broken_pipe).
Abbreviation vreach := (server_reachable config instance_id daemon_version broken_pipe).

Lemma closing_kept s s' :
  (run_point (run s) = Some StopListener -> run_point (run s') = Some StopListener) ->
  (forall n, stoppers s !! n = Some StopListener -> stoppers s' !! n = Some StopListener) ->
  (forall k h, threads s !! k = Some h -> h_pc h = HStop StopListener ->
     exists h', threads s' !! k = Some h' /\ h_pc h' = HStop StopListener) ->
  closing s -> closing s'.
Proof.
  intros H1 H2 H3 [Hr|[[n Hn]|(k & h & Hk & Hp)]]; [left; auto|right; left; eauto|right; right; eauto].
Qed.

(** What the end of the proof needs of the new point of [run] and of the callers. *)
Definition settled (s : ServerState) : Prop :=
  (beyond (run s) = true -> stopping s = true) /\
  (alive s = false -> Forall (eq StopReturned) (stoppers s)).

Lemma shutting_kept s s' :
  shutting listener s -> listener_fd s' = listener_fd s -> stopping s' = stopping s ->
  (closing s -> closing s') -> settled s' -> shutting listener s'.
Proof.
  intros [H1 H2 H3 H4] Hl Hs Hc [Hb Hq]. split; rewrite ?Hl; try done. rewrite Hs.
  intros Hst. destruct (H2 Hst); auto.
Qed.

Lemma shutting_stop p s s1 p1 s' :
  shutting listener s -> stop_step p s = Some (s1, p1) -> listener_fd s' = listener_fd s1 ->
  stopping s' = stopping s1 -> (p1 = StopListener -> closing s') ->
  (p <> StopListener -> closing s -> closing s') -> settled s' -> shutting listener s'.
Proof.
  intros [H1 H2 H3 H4] Hp Hl Hs Hc Hk [Hb Hq].
  destruct p; cbn in Hp; [|injection Hp as <- <-; split; rewrite ?Hl; cbn; auto| |done].
  - destruct (stopping s) eqn:Hst; injection Hp as <- <-; split; rewrite ?Hl; try done; intros _.
    + destruct (H2 eq_refl); [by left|right; by apply Hk].
    + right. by apply Hc.
  - injection Hp as <- <-. split; rewrite ?Hl; try done. rewrite Hs. cbn. intros Hst.
    destruct (H2 Hst); [by left|right; by apply Hk].
Qed.

(** The threads of [stop] are where they were, and registered ones were shut down. *)
Lemma stop_points p s s1 p1 k h :
  stop_step p s = Some (s1, p1) -> threads s !! k = Some h ->
  exists h1, threads s1 !! k = Some h1 /\ h_pc h1 = h_pc h.
Proof.
  intros Hp Hk. destruct p; cbn in Hp; [|injection Hp as <- <-; eauto| |done].
  - destruct (stopping s); injection Hp as <- <-; eauto.
  - injection Hp as <- <-. cbn. rewrite list_lookup_fmap, Hk. cbn. destruct (_ && _); eauto.
Qed.

Lemma closing_stopped p s s1 p1 : stop_step p s = Some (s1, p1) -> closing s -> closing s1.
Proof.
  intros Hp. destruct (stop_step_moved _ _ _ _ Hp). apply closing_kept; [by rewrite sm_run|by rewrite sm_stoppers|].
  intros k h Hk Hpc. destruct (stop_points _ _ _ _ _ _ Hp Hk) as (h1 & H1 & E). exists h1. by rewrite E.
Qed.

(** Only [StopListener] touches the listener. *)
Lemma handler_listener i k s s' h :
  threads s !! k = Some h -> pc_busy (h_pc h) = false -> hstep i k s = Some s' ->
  listener_fd s' = listener_fd s.
Proof.
  intros Hk Hb Hstep. unfold handler_step in Hstep. rewrite Hk in Hstep.
  cbn -[service_step stop_step] in Hstep.
  assert (forall s1 p1, stop_step StopExchange s = Some (s1, p1) -> listener_fd s1 = listener_fd s) as Hx.
  { intros s1 p1. cbn. by destruct (stopping s); intros [= <- _]. }
  destruct (h_pc h); try (destruct p; try discriminate Hb);
    repeat match type of Hstep with
    | Some _ = Some _ => injection Hstep as <-
    | (match ?x with _ => _ end) = Some _ => destruct x eqn:?; try discriminate Hstep
    | (?x ≫= _) = Some _ => destruct x as [[] |] eqn:?; cbn [mbind option_bind] in Hstep; try discriminate Hstep
    end; first [done|exact (Hx _ _ eq_refl)].
Qed.

Lemma shut_handler i k s s' :
  Forall thread_ok (threads s) -> shutting listener s -> hstep i k s = Some s' -> shutting listener s'.
Proof.
  intros Hok Hs Hstep. destruct (handler_moves _ _ _ _ _ _ _ _ Hok Hstep) as (h & h0 & Hk & Hm).
  assert (settled s') as Hset.
  { destruct Hs as [_ _ H3 H4]. destruct Hm. split; unfold alive; rewrite ?hm_run, ?hm_stoppers; auto. }
  destruct (handler_kept _ _ _ _ _ _ _ _ _ Hk (Forall_lookup_1 _ _ _ _ Hok Hk) Hstep)
    as [(p & s1 & p1 & h1 & Hpc & Hp & H1 & ->)|(h' & Hth & Hst & Hr & Hss & Hb & _)].
  - eapply (shutting_stop p s s1 p1); try done.
    + intros ->. right. right. exists k, (h_to (HStop StopListener) h1).
      split; [by eapply set_thread_at|done].
    + intros Hne Hc. destruct (closing_stopped _ _ _ _ Hp Hc) as [Hr|[Hn|(j & hj & Hj & Hpj)]];
        [by left|by right; left|right; right].
      exists j, hj. split; [|done]. cbn. rewrite list_lookup_insert_ne; [done|]. intros ->.
      destruct (stop_points _ _ _ _ _ _ Hp Hk) as (h2 & H2 & E). congruence.
  - pose proof (handler_listener _ _ _ _ _ Hk Hb Hstep) as Hl.
    eapply shutting_kept; try done. apply closing_kept; [by rewrite Hr|by rewrite Hss|].
    intros j hj Hj Hpj. exists hj. split; [|done]. rewrite Hth, list_lookup_insert_ne; [done|].
    intros ->. rewrite Hk in Hj. injection Hj as <-. by rewrite Hpj in Hb.
Qed.

(** A thread more, or none: the accepting thread leaves the others where they are. *)
Lemma shut_run i s s' : shutting listener s -> rstep i s = Some s' -> shutting listener s'.
Proof.
  intros Hs Hstep. pose proof Hs as [_ _ Hb Hq].
  assert (forall p (pc : stop_pc -> run_pc), run_point (run s) = Some p ->
    (forall q, run_point (pc q) = Some q) -> (forall q, alive (set_run (pc q) s) = alive s) ->
    (forall q, beyond (pc q) = true -> p = StopExchange \/ beyond (run s) = true) ->
    ('(s1, p') ← stop_step p s; Some (set_run (pc p') s1)) = Some s' -> shutting listener s') as Hstop.
  { intros p pc Hp Hpc Hal Hbe Hx. destruct (stop_step p s) as [[s1 p1]|] eqn:Hst; [|done].
    injection Hx as <-. destruct (stop_step_moved _ _ _ _ Hst) as [_ _ _ _ Hr _ Hss _ Hstp].
    eapply (shutting_stop p s s1 p1); try done.
    - intros ->. left. apply Hpc.
    - intros Hne Hc. destruct (closing_stopped _ _ _ _ Hst Hc) as [Hc1|Hc1]; [|by right].
      rewrite Hr, Hp in Hc1. congruence.
    - split; cbn; [intros [->|Hbs]%Hbe|].
      + cbn in Hst. destruct (stopping s) eqn:E; by injection Hst as <- _.
      + apply Hstp, Hb, Hbs.
      + rewrite Hss. intros Ha. apply Hq. rewrite <-(Hal p1). exact Ha. }
  assert (listener_fd s' = listener_fd s -> stopping s' = stopping s -> stoppers s' = stoppers s ->
    run_point (run s) <> Some StopListener -> (exists l, threads s' = threads s ++ l) ->
    (beyond (run s') = true -> beyond (run s) = true \/ stopping s = true) ->
    (alive s' = false -> Forall (eq StopReturned) (stoppers s)) -> shutting listener s') as Hkeep.
  { intros Hl Hst Hss Hp [l Hth] Hbe Hal. eapply shutting_kept; try done.
    - apply closing_kept; [done|by rewrite Hss|]. intros k h Hk Hpc. exists h. rewrite Hth.
      split; [by apply lookup_app_l_Some|done].
    - split; [|by rewrite Hss]. rewrite Hst. intros [?|?]%Hbe; auto. }
  assert (exists l, threads s = threads s ++ l) as Hnil by (exists []; by rewrite app_nil_r).
  assert (alive s = false -> Forall (eq StopReturned) (stoppers s)) as Hq0 by exact Hq.
  unfold alive in Hq0. unfold run_step in Hstep.
  destruct (run s) as [| | |l|a|d c n|d c|d c|d c|d c|b e|p0 st|p0 o|o|owned o|o|o|p0| |owned| | |wk|] eqn:Hrun;
    cbn -[stop_step service_step] in Hstep;
    try (destruct p0; try (eapply (Hstop _ (fun p => RFatal p st)); [done|done|by intros; unfold alive; cbn; rewrite Hrun|cbn; auto|exact Hstep]);
         try (eapply (Hstop _ (fun p => RStop p o)); [done|done|by intros; unfold alive; cbn; rewrite Hrun|cbn; auto|exact Hstep]);
         try (eapply (Hstop _ DStop); [done|done|by intros; unfold alive; cbn; rewrite Hrun|cbn; auto|exact Hstep]));
    repeat match type of Hstep with
    | Some _ = Some _ => injection Hstep as <-
    | (match ?x with _ => _ end) = Some _ => destruct x eqn:?; try discriminate Hstep
    | (?x ≫= _) = Some _ => destruct x; cbn [mbind option_bind] in Hstep; try discriminate Hstep
    end.
  all: try (apply Hkeep; cbn; rewrite ?Hrun; try done; eauto; repeat case_match; cbn; eauto; done).
  all: try done.
  apply Hkeep; try done. intros _. apply Forall_lookup. intros n p Hn.
  rewrite forallb_forall in Heqb. apply list_elem_of_lookup_2, list_elem_of_In, Heqb in Hn.
  by destruct p.
Qed.

Lemma shutting_step e s s' : Forall thread_ok (threads s) -> shutting listener s -> vstep e s = Some s' -> shutting listener s'.
Proof.
  intros Hok Hs Hstep.
  assert (settled s) as Hset by (split; apply Hs).
  assert (forall s1, listener_fd s1 = listener_fd s -> stopping s1 = stopping s -> run s1 = run s ->
    stoppers s1 = stoppers s -> (forall k h, threads s !! k = Some h -> exists h1,
      threads s1 !! k = Some h1 /\ h_pc h1 = h_pc h) -> shutting listener s1) as Hkeep.
  { intros s1 Hl Hst Hr Hss Hth. eapply shutting_kept; try done.
    - apply closing_kept; [by rewrite Hr|by rewrite Hss|]. intros k h Hk Hpc.
      destruct (Hth k h Hk) as (h1 & H1 & E). exists h1. by rewrite E.
    - unfold settled, alive. by rewrite Hr, Hst, Hss. }
  destruct e; cbn -[handler_step run_step service_step stop_step] in Hstep.
  - by eapply shut_handler.
  - by eapply shut_run.
  - destruct (service_step _ _ _ _ _); [|done]. injection Hstep as <-. apply Hkeep; eauto.
  - destruct (service_step _ _ _ _ _); [|done]. injection Hstep as <-. apply Hkeep; eauto.
  - destruct (alive s) eqn:Ha; [|done]. injection Hstep as <-. eapply shutting_kept; try done.
    + apply closing_kept; [done| |eauto]. intros n Hn. cbn. by apply lookup_app_l_Some.
    + destruct Hset. split; [done|]. unfold alive in *. cbn. by rewrite Ha.
  - destruct (stoppers s !! n) as [p|] eqn:Hn; [|done]. cbn -[stop_step] in Hstep.
    destruct (stop_step p s) as [[s1 p1]|] eqn:Hp; [|done]. injection Hstep as <-.
    destruct (stop_step_moved _ _ _ _ Hp) as [_ _ _ _ Hr _ Hss _ Hstp].
    eapply (shutting_stop p s s1 p1); try done.
    + intros ->. right. left. exists n. cbn. rewrite Hss. apply list_lookup_insert_eq. by eapply lookup_lt_Some.
    + intros Hne Hc. destruct (closing_stopped _ _ _ _ Hp Hc) as [?|[[m Hm]|?]]; [by left|right; left|by right; right].
      exists m. cbn. rewrite list_lookup_insert_ne; [done|]. intros ->. rewrite Hss in Hm. congruence.
    + split; cbn; [rewrite Hr; intros ?; apply Hstp, Hset; done|]. unfold alive. cbn. rewrite Hr.
      intros Ha. destruct Hset as [_ Hq]. specialize (Hq Ha). rewrite Hss.
      eapply Forall_lookup_1 in Hn; [|exact Hq]. by subst p.
  - destruct (threads s !! k) as [h|] eqn:Hk; [|done]. cbn -[arrival_ok] in Hstep.
    destruct (forallb _ _); [|done]. injection Hstep as <-. apply Hkeep; try done.
    intros j hj Hj. cbn. destruct (decide (j = k)) as [->|Hne]; [|rewrite list_lookup_insert_ne; eauto].
    rewrite list_lookup_insert_eq by (by eapply lookup_lt_Some). rewrite Hk in Hj. injection Hj as <-.
    by eexists.
  - destruct (threads s !! k) as [h|] eqn:Hk; [|done]. cbn in Hstep.
    destruct (_ || _); [done|]. injection Hstep as <-. apply Hkeep; try done.
    intros j hj Hj. cbn. destruct (decide (j = k)) as [->|Hne]; [|rewrite list_lookup_insert_ne; eauto].
    rewrite list_lookup_insert_eq by (by eapply lookup_lt_Some). rewrite Hk in Hj. injection Hj as <-.
    by eexists.
Qed.

Lemma shutting_reachable s :
  server_config_valid config = true -> is_uint 32 (scfg_maximum_active_connections config) ->
  vreach listener s -> shutting listener s.
Proof.
  intros Hv Hu. induction 1 as [|s e s' Hs IH Hstep].
  - split; cbn; try done. by left.
  - eapply shutting_step; [|exact IH|exact Hstep].
    by destruct (inv_reachable _ _ _ _ _ _ Hv Hu Hs) as [[Hok _ _ _] _].
Qed.

(** After the destructor's [stop] the listener is closed. *)
Lemma closed_beyond s :
  shutting listener s -> (forall k h, threads s !! k = Some h -> h_pc h = HEnd) ->
  run s = DRemove \/ run s = DService \/ (exists w, run s = DWorkers w) \/ run s = Gone ->
  listener_fd s = -1.
Proof.
  intros [_ H2 H3 H4] Hend Hrun.
  assert (beyond (run s) = true /\ alive s = false /\ run_point (run s) = None) as (Hb & Ha & Hp).
  { unfold alive. by destruct Hrun as [->|[->|[[w ->]| ->]]]. }
  destruct (H2 (H3 Hb)) as [?|[Hr|[[n Hn]|(k & h & Hk & Hpc)]]]; [done|congruence| |].
  - specialize (H4 Ha). eapply Forall_lookup_1 in Hn; [|exact H4]. done.
  - by rewrite (Hend _ _ Hk) in Hpc.
Qed.
End Shut.
