(* ===== verification/ServerEnd.v ===== *)
(** The server comes to its end: once it was asked to stop, the threads of the server and
    the workers of the service bring it to the end of its destructor, without any help of
    the peers. *)
From S2P Require Import Prelude OrdMap Kernel Protocol Wire CodecRequest CodecResult Codec.
From S2P Require Import CodecSpec Layout Frame FrameSpec Jobs JobSystem JobSpec JobOutcome.
From S2P Require Import Service ServiceSystem ServiceLink ServiceSpec SessionSpec Dispatch.
From S2P Require Import Progress Quit Framing Server ServerSpec ServerLife ServerTalk ServerStop ServerShut.

(** ** Sums *)

Lemma sum_insert (l : list nat) k x y :
  l !! k = Some x -> (sum_list (<[k:=y]> l) + x = sum_list l + y)%nat.
Proof.
  revert k. induction l as [|z l IH]; intros [|k] Hk; try discriminate Hk.
  - injection Hk as ->. change (y + sum_list l + x = x + sum_list l + y)%nat. lia.
  - specialize (IH k Hk).
    change (z + sum_list (<[k:=y]> l) + x = z + sum_list l + y)%nat. lia.
Qed.

Section Ending.
Context `{HK : KernelLaws} {RT : Runtime}.

(** ** How far everyone is from the end *)

Definition stop_rank (p : stop_pc) : nat :=
  match p with
  | StopExchange => 3%nat | StopListener => 2%nat | StopConnections => 1%nat | StopReturned => 0%nat
  end.

(** Of a handler, when [stopping] is set. *)
Definition thread_rank (pc : handler_pc) : nat :=
  match pc with
  | HRegister => 16%nat
  | HRead => 15%nat
  | HDecode _ => 14%nat
  | HDispatch _ _ => 13%nat
  | HEncode _ _ _ => 12%nat
  | HWrite _ _ | HCatch _ => 11%nat
  | HFailure _ _ _ | HTop => 10%nat
  | HTail => 9%nat
  | HStop p => (5 + stop_rank p)%nat
  | HErase => 4%nat
  | HClose => 3%nat
  | HFlag => 2%nat
  | HRelease => 1%nat
  | HEnd => 0%nat
  end.

(** Of the accepting thread; [n] handlers are retained. *)
Definition run_rank (n : nat) (r : run_pc) : nat :=
  match r with
  | RReap _ _ i => (43 + n + (n - i))%nat
  | RCapacity _ _ => (42 + n)%nat
  | RReserve _ _ => (41 + n)%nat
  | RSpawn _ _ => (40 + n)%nat
  | RRefuse _ _ => (31 + n)%nat
  | RStart => (30 + n)%nat
  | RListener => (26 + n)%nat
  | RAccept _ => (25 + n)%nat
  | RTest _ => (24 + n)%nat
  | RFailed _ _ => (23 + n)%nat
  | RTop => (22 + n)%nat
  | RFatal p _ => (18 + n + stop_rank p)%nat
  | RStop p _ => (14 + n + stop_rank p)%nat
  | RSwap _ => (13 + n)%nat
  | RJoin owned _ => (12 + n + length owned)%nat
  | RRemove _ => (11 + n)%nat
  | RReturned _ => (10 + n)%nat
  | DStop p => (5 + n + stop_rank p)%nat
  | DSwap => (4 + n)%nat
  | DJoin owned => (3 + length owned)%nat
  | DRemove => 2%nat
  | DService => 1%nat
  | DWorkers _ | Gone => 0%nat
  end.

Definition threads_rank (l : list (Z * bool * handler_pc)) : nat :=
  sum_list ((fun p => thread_rank p.2) <$> l).

Definition rank (s : ServerState) : nat :=
  (run_rank (length (handlers s)) (run s) + threads_rank (place <$> threads s)
  + sum_list (stop_rank <$> stoppers s))%nat.

Lemma threads_rank_insert l k p q :
  l !! k = Some p ->
  (threads_rank (<[k:=q]> l) + thread_rank p.2 = threads_rank l + thread_rank q.2)%nat.
Proof.
  intros Hk. unfold threads_rank. rewrite list_fmap_insert. apply sum_insert.
  by rewrite list_lookup_fmap, Hk.
Qed.

Lemma threads_rank_app l1 l2 : threads_rank (l1 ++ l2) = (threads_rank l1 + threads_rank l2)%nat.
Proof. unfold threads_rank. by rewrite fmap_app, sum_list_with_app. Qed.

Lemma stop_step_rank p s s' p' : stop_step p s = Some (s', p') -> (stop_rank p' < stop_rank p)%nat.
Proof.
  intros Hp. destruct p; cbn in Hp; [|injection Hp as <- <-; cbn; lia..|done].
  destruct (stopping s); injection Hp as <- <-; cbn; lia.
Qed.

(** ** Where the end is certain *)

Definition failing (pc : handler_pc) : bool := match pc with HFailure _ _ _ => true | _ => false end.

(** A peer that is refused for lack of capacity takes the few bytes that say so. *)
Definition refusal_taken (r : run_pc) : Prop :=
  match r with
  | RReap d c _ | RCapacity d c | RRefuse d c =>
    match protocol_failure capacity_status None None with
    | Some encoded => exists r, write_frame d encoded (mk_outgoing c []) = Done r
    | None => True
    end
  | _ => True
  end.

(** The server was asked to stop, and nobody writes to a connection that [stop] does not
    know: none that could not be registered, none that is refused. *)
Record ending (s : ServerState) : Prop := {
  en_stopping : stopping s = true;
  en_failing : forall k p, (place <$> threads s) !! k = Some p -> p.1.2 = false -> failing p.2 = false;
  en_refusal : refusal_taken (run s);
}.

Section Events.
Context (config : ServerConfig) (instance_id : Z) (daemon_version broken_pipe : bytes).

Abbreviation hstep := (handler_step config instance_id daemon_version broken_pipe).
Abbreviation rstep := (run_step config instance_id daemon_version).
Abbreviation vstep := (server_step config instance_id daemon_version broken_pipe).
Abbreviation vreach := (server_reachable config instance_id daemon_version broken_pipe).

(** What the kernel answers to the workers and to the calls of [dispatch], and what is
    thrown there; what [accept_same_user] reports of a listener that is closed. *)
Context (workers_do : worker_pc -> worker_input) (calls_do : call_pc -> call_input).
Context (closed_status : Status).

(** Nothing is thrown, and [accept_same_user] returns only once the listener is closed. *)
Definition run_unaided (s : ServerState) (i : run_input) : Prop :=
  match i with
  | RProceed => True
  | RAnswer (AcceptFailed status) => listener_fd s = -1 /\ status = closed_status
  | _ => False
  end.

(** What the daemon does by itself: nothing arrives and nobody makes room for more bytes. *)
Definition unaided (s : ServerState) (e : server_event) : Prop :=
  match e with
  | VHandler _ i => i = HProceed
  | VRun i => run_unaided s i
  | VWorker w i => exists pc, workers (sys (service s)) !! w = Some pc /\ i = workers_do pc
  | VCall c i => exists req pc, calls (service s) !! c = Some (req, pc) /\ i = calls_do pc
  | VStopper _ => True
  | _ => False
  end.

(** The daemon comes from one state to another by itself. *)
Inductive comes_to (s : ServerState) : ServerState -> Prop :=
| comes_refl : comes_to s s
| comes_step e s1 s2 : unaided s e -> vstep e s = Some s1 -> comes_to s1 s2 -> comes_to s s2.

Lemma comes_one e s s1 : unaided s e -> vstep e s = Some s1 -> comes_to s s1.
Proof. intros He Hs. eapply comes_step; [exact He|exact Hs|constructor]. Qed.

Lemma comes_trans s s1 s2 : comes_to s s1 -> comes_to s1 s2 -> comes_to s s2.
Proof. induction 1; [done|]. intros. eapply comes_step; eauto. Qed.

Lemma comes_reach listener s s' : vreach listener s -> comes_to s s' -> vreach listener s'.
Proof. intros Hs H. induction H as [|s e s1 s2 _ Hstep _ IH]; [done|]. apply IH. by econstructor. Qed.

(** *** A step of a handler *)

(** The point it comes to. *)
Lemma handler_goes k s s' h h' :
  stopping s = true -> threads s !! k = Some h -> threads s' !! k = Some h' ->
  hstep HProceed k s = Some s' ->
  (thread_rank (h_pc h') < thread_rank (h_pc h))%nat /\
  (failing (h_pc h') = true -> serving (h_pc h) = true /\ h_registered h' = h_registered h).
Proof.
  intros Hstop Hk Hk' Hstep. unfold handler_step in Hstep. rewrite Hk in Hstep.
  cbn -[service_step stop_step handler_read handler_write handler_fail] in Hstep.
  assert (forall h1 s1, s' = set_thread k h1 s1 -> threads s1 = threads s -> h' = h1) as Hset.
  { intros h1 s1 -> Ht. cbn in Hk'. rewrite Ht, list_lookup_insert_eq in Hk' by (by eapply lookup_lt_Some).
    congruence. }
  assert (forall p, h_pc h = HStop p -> (('(s1, p') ← stop_step p s; h1 ← threads s1 !! k;
      Some (set_thread k (h_to (HStop p') h1) s1)) = Some s') ->
    (thread_rank (h_pc h') < thread_rank (HStop p))%nat /\ failing (h_pc h') = false) as Hst.
  { intros p Hpc Hp. destruct (stop_step p s) as [[s1 p1]|] eqn:Hs; [|done]. cbn in Hp.
    destruct (threads s1 !! k) as [h1|] eqn:H1; [|done]. injection Hp as <-.
    cbn in Hk'. rewrite list_lookup_insert_eq in Hk' by (by eapply lookup_lt_Some). injection Hk' as <-.
    cbn. apply stop_step_rank in Hs. split; [lia|done]. }
  destruct (h_pc h) as [| | |frame|frame c|frame c resp|c encoded|e|st pl pr| |p| | | | |] eqn:Hpc;
    try (injection Hstep as <-; rewrite (Hset _ _ eq_refl eq_refl); cbn; split; [lia|done]).
  - injection Hstep as <-. rewrite (Hset _ _ eq_refl eq_refl), Hstop. cbn. split; [lia|done].
  - unfold handler_read in Hstep. destruct (read_frame _ _ _) as [[[[x|st] [p|]] s1]| |]; try done;
      injection Hstep as <-; rewrite (Hset _ _ eq_refl eq_refl); cbn; [split; [lia|done]|].
    destruct (_ =? _); cbn; split; done || lia.
  - destruct (decode_request frame) as [req|st]; injection Hstep as <-;
      rewrite (Hset _ _ eq_refl eq_refl); cbn; split; done || lia.
  - destruct (calls (service s) !! c) as [[req pc]|]; [|done]. destruct pc; try discriminate Hstep.
    injection Hstep as <-. rewrite (Hset _ _ eq_refl eq_refl). cbn. split; done || lia.
  - destruct (encode_response resp) as [[bs|st]|[cd what|what]]; injection Hstep as <-;
      rewrite (Hset _ _ eq_refl eq_refl); cbn; split; done || lia.
  - unfold handler_write in Hstep. destruct (write_frame _ _ _) as [[st o]| |]; try done.
    injection Hstep as <-. rewrite (Hset _ _ eq_refl eq_refl).
    destruct (status_ok st); cbn; [destruct (h_accepted_shutdown h); cbn|]; split; done || lia.
  - unfold handler_fail, after_failure in Hstep.
    destruct (protocol_failure st pl pr); [destruct (write_frame _ _ _) as [[r o]| |]; try done|];
      injection Hstep as <-; rewrite (Hset _ _ eq_refl eq_refl); cbn; destruct (h_registered h); cbn;
      split; done || lia.
  - injection Hstep as <-. rewrite (Hset _ _ eq_refl eq_refl). cbn.
    destruct (h_accepted_shutdown h); cbn; split; done || lia.
  - destruct p; try (destruct (Hst _ eq_refl Hstep) as [? Hf]; split; [done|by rewrite Hf]).
    injection Hstep as <-. rewrite (Hset _ _ eq_refl eq_refl). cbn. split; [lia|done].
  - done.
Qed.

(** *** Every step brings the end nearer *)

Definition nearer (s s' : ServerState) : Prop :=
  comes_to s s' /\ ending s' /\ (rank s' < rank s)%nat.

Lemma ending_places s s' :
  ending s -> stopping s' = true -> run s' = run s -> place <$> threads s' = place <$> threads s ->
  ending s'.
Proof. intros [H1 H2 H3] Hs Hr Hp. split; [done|by rewrite Hp|by rewrite Hr]. Qed.

Lemma nearer_handler k s s' :
  Forall thread_ok (threads s) -> ending s -> hstep HProceed k s = Some s' -> nearer s s'.
Proof.
  intros Hok He Hstep. destruct (handler_moves _ _ _ _ _ _ _ _ Hok Hstep) as (h & h' & Hk & Hm).
  destruct (handler_goes k s s' h h' (en_stopping _ He) Hk (hm_thread _ _ _ _ _ Hm) Hstep) as [Hrank Hf].
  assert ((place <$> threads s) !! k = Some (place h)) as Hp by (by rewrite list_lookup_fmap, Hk).
  split; [by eapply (comes_one (VHandler k HProceed))|]. split; [split|].
  - by apply (hm_stopping _ _ _ _ _ Hm), He.
  - intros j p Hj Hreg. rewrite (hm_places _ _ _ _ _ Hm) in Hj.
    apply list_lookup_insert_Some in Hj as [(<- & <- & _)|[_ Hj]]; [|by eapply He].
    destruct (failing (h_pc h')) eqn:E; [|done]. destruct (Hf eq_refl) as [Hsv Hr].
    rewrite Forall_lookup in Hok. pose proof (to_serving _ (Hok _ _ Hk) Hsv) as Hx. cbn in Hreg. congruence.
  - rewrite (hm_run _ _ _ _ _ Hm). apply He.
  - unfold rank. rewrite (hm_handlers _ _ _ _ _ Hm), (hm_run _ _ _ _ _ Hm), (hm_stoppers _ _ _ _ _ Hm),
      (hm_places _ _ _ _ _ Hm).
    pose proof (threads_rank_insert _ k _ (place h') Hp) as Hins. cbn in Hins. lia.
Qed.

Lemma nearer_stopper n p s s' :
  ending s -> stoppers s !! n = Some p -> vstep (VStopper n) s = Some s' -> nearer s s'.
Proof.
  intros He Hn Hstep. pose proof Hstep as Hback. cbn -[stop_step] in Hstep. rewrite Hn in Hstep.
  cbn -[stop_step] in Hstep. destruct (stop_step p s) as [[s1 p1]|] eqn:Hs; [|done]. injection Hstep as <-.
  destruct (stop_step_moved _ _ _ _ Hs).
  split; [by apply (comes_one (VStopper n))|]. split.
  - eapply ending_places; [exact He| |done|done]. by apply sm_stopping, He.
  - unfold rank. cbn [stoppers set_stoppers handlers run threads]. rewrite sm_places, sm_run, sm_handlers, sm_stoppers.
    apply stop_step_rank in Hs. rewrite list_fmap_insert.
    pose proof (sum_insert (stop_rank <$> stoppers s) n (stop_rank p) (stop_rank p1)) as Hi.
    rewrite list_lookup_fmap, Hn in Hi. specialize (Hi eq_refl). lia.
Qed.

(** What the accepting thread does by itself. *)
Definition run_nearer (s s' : ServerState) : Prop :=
  stoppers s' = stoppers s /\ stopping s' = true /\ refusal_taken (run s') /\
  exists l, place <$> threads s' = (place <$> threads s) ++ l /\
    Forall (fun p => failing p.2 = false) l /\
    (run_rank (length (handlers s')) (run s') + threads_rank l
     < run_rank (length (handlers s)) (run s))%nat.

Lemma run_nearer_stop p (pc : stop_pc -> run_pc) n s s' :
  stopping s = true -> run_rank (length (handlers s)) (run s) = (n + stop_rank p)%nat ->
  (forall p', refusal_taken (pc p') /\ run_rank (length (handlers s)) (pc p') = (n + stop_rank p')%nat) ->
  ('(s1, p') ← stop_step p s; Some (set_run (pc p') s1)) = Some s' -> run_nearer s s'.
Proof.
  intros Hstop Hn Hpc Hp. destruct (stop_step p s) as [[s1 p1]|] eqn:Hs; [|done]. injection Hp as <-.
  destruct (stop_step_moved _ _ _ _ Hs). destruct (Hpc p1) as [Hr Hrank].
  split_and!; [done|by apply sm_stopping|done|]. exists []. cbn [threads handlers run set_run].
  rewrite app_nil_r, sm_places, sm_handlers, Hrank, Hn.
  apply stop_step_rank in Hs. split_and!; [done|constructor|cbn; lia].
Qed.

Lemma run_nearer_go s s' :
  stopping s = true -> stoppers s' = stoppers s -> stopping s' = stopping s -> refusal_taken (run s') ->
  threads s' = threads s ->
  (run_rank (length (handlers s')) (run s') < run_rank (length (handlers s)) (run s))%nat ->
  run_nearer s s'.
Proof.
  intros H0 H1 H2 H3 H4 H5. split_and!; [done|by rewrite H2|done|]. exists [].
  rewrite app_nil_r, H4. split_and!; [done|constructor|cbn; lia].
Qed.

Lemma run_goes i s s' :
  run_unaided s i -> ending s -> over (run s) = false -> rstep i s = Some s' -> run_nearer s s'.
Proof.
  intros Hi [Hstop Hf Href] Hover Hstep. unfold run_step in Hstep.
  assert (forall s1, Some s1 = Some s' -> stoppers s1 = stoppers s -> stopping s1 = stopping s ->
    refusal_taken (run s1) -> threads s1 = threads s ->
    (run_rank (length (handlers s1)) (run s1) < run_rank (length (handlers s)) (run s))%nat ->
    run_nearer s s') as Hgo by (intros s1 [= <-]; by apply run_nearer_go).
  destruct (run s) as [| | |l|a|d c n|d c|d c|d c|d c|b e|p0 st|p0 o|o|owned o|o|o|p0| |owned| | |wk|] eqn:Hrun;
    cbn -[stop_step service_step] in Hstep; rewrite ?Hstop in Hstep;
    try (destruct p0;
      try (eapply (run_nearer_stop _ (fun p => RFatal p st) (18 + length (handlers s))%nat);
           [exact Hstop|by rewrite Hrun|intros p'; split; [done|reflexivity]|exact Hstep]);
      try (eapply (run_nearer_stop _ (fun p => RStop p o) (14 + length (handlers s))%nat);
           [exact Hstop|by rewrite Hrun|intros p'; split; [done|reflexivity]|exact Hstep]);
      try (eapply (run_nearer_stop _ DStop (5 + length (handlers s))%nat);
           [exact Hstop|by rewrite Hrun|intros p'; split; [done|reflexivity]|exact Hstep]));
    try (eapply Hgo; [exact Hstep|reflexivity|reflexivity|done|reflexivity|cbn; lia]).
  - destruct i; try (by destruct Hi); (eapply Hgo; [exact Hstep|reflexivity|reflexivity|done|reflexivity|cbn; lia]).
  - destruct (listener_fd s <? 0); (eapply Hgo; [exact Hstep|reflexivity|reflexivity|done|reflexivity|cbn; lia]).
  - destruct i as [|[]|]; try (by destruct Hi); try discriminate Hstep.
    eapply Hgo; [exact Hstep|reflexivity|reflexivity|done|reflexivity|cbn; lia].
  - destruct (handlers s !! n) as [k|] eqn:Hn.
    + apply lookup_lt_Some in Hn. destruct (negb (flagged s k)).
      { eapply Hgo; [exact Hstep|reflexivity|reflexivity|exact Href|reflexivity|cbn; lia]. }
      destruct (ended s k); [|done].
      eapply Hgo; [exact Hstep|reflexivity|reflexivity|cbn; by rewrite Hrun|reflexivity|].
      cbn. rewrite Hrun. cbn. rewrite length_delete by (by apply lookup_lt_is_Some). lia.
    + eapply Hgo; [exact Hstep|reflexivity|reflexivity|exact Href|reflexivity|cbn; lia].
  - destruct (_ <=? _); (eapply Hgo; [exact Hstep|reflexivity|reflexivity|first [exact Href|done]|reflexivity|cbn; lia]).
  - destruct i; try (by destruct Hi);
      (destruct (protocol_failure _ _ _); [destruct (write_frame _ _ _); try discriminate Hstep|]);
      (eapply Hgo; [exact Hstep|reflexivity|reflexivity|done|reflexivity|cbn; lia]).
  - destruct i; try (by destruct Hi); (eapply Hgo; [exact Hstep|reflexivity|reflexivity|done|reflexivity|cbn; lia]).
  - destruct i; try (by destruct Hi); injection Hstep as <-; (split_and!; [done|done|done|]);
      exists [place (new_handler d c)]; rewrite Hrun; cbn [threads set_run set_handlers set_threads handlers run];
      rewrite fmap_app, length_app; (split_and!; [done|by constructor|cbn; lia]).
  - destruct b; (eapply Hgo; [exact Hstep|reflexivity|reflexivity|done|reflexivity|cbn; lia]).
  - destruct owned as [|k owned]; [|destruct (ended s k); [|done]];
      (eapply Hgo; [exact Hstep|reflexivity|reflexivity|done|reflexivity|cbn; lia]).
  - destruct (forallb _ _); [|done].
    eapply Hgo; [exact Hstep|reflexivity|reflexivity|done|reflexivity|cbn; lia].
  - destruct owned as [|k owned]; [|destruct (ended s k); [|done]];
      (eapply Hgo; [exact Hstep|reflexivity|reflexivity|done|reflexivity|cbn; lia]).
  - destruct (service_step _ _ _ _ _) as [x|]; [|done].
    eapply Hgo; [exact Hstep|reflexivity|reflexivity|done|reflexivity|cbn; lia].
  - done.
  - done.
Qed.

Lemma nearer_run i s s' :
  run_unaided s i -> ending s -> over (run s) = false -> rstep i s = Some s' -> nearer s s'.
Proof.
  intros Hi He Hover Hstep. destruct (run_goes i s s' Hi He Hover Hstep) as (Hst & Hs & Href & l & Hp & Hl & Hrank).
  split; [by apply (comes_one (VRun i))|]. split; [split|]; [done| |done|].
  - intros k p Hk Hreg. rewrite Hp in Hk. apply lookup_app_Some in Hk as [Hk|[_ Hk]]; [by eapply He|].
    by eapply Forall_lookup_1 in Hl.
  - unfold rank. rewrite Hst, Hp, threads_rank_app. lia.
Qed.

(** *** When all the handlers have ended *)

Lemma all_ended s k :
  (forall j h, threads s !! j = Some h -> h_pc h = HEnd) -> (k < length (threads s))%nat -> ended s k = true.
Proof.
  intros Hend Hk. apply lookup_lt_is_Some in Hk as [h Hh]. unfold ended. by rewrite Hh, (Hend k h Hh).
Qed.

Lemma stop_goes p (pc : stop_pc -> run_pc) s :
  stop_rank p <> 0%nat -> exists s', ('(s1, p') ← stop_step p s; Some (set_run (pc p') s1)) = Some s'.
Proof. intros Hp. destruct (stop_step p s) as [[s1 p1]|] eqn:Hs; [by eexists|by destruct p]. Qed.

(** In the middle of [stop]. *)
Lemma run_stops s :
  run_busy (run s) = true \/ (exists st, run s = RFatal StopExchange st) \/
  (exists o, run s = RStop StopExchange o) \/ run s = DStop StopExchange ->
  is_Some (rstep RProceed s).
Proof.
  unfold run_step. intros Hs.
  destruct (run s) as [| | |l|a|d c n|d c|d c|d c|d c|b e|p0 st|p0 o|o|owned o|o|o|p0| |owned| | |wk|] eqn:Hrun;
    try (by destruct Hs as [|[[? ?]|[[? ?]|?]]]);
    (destruct (decide (stop_rank p0 = 0%nat)) as [H0|H0];
      [destruct p0; try discriminate H0; destruct Hs as [|[[? ?]|[[? ?]|?]]]; discriminate|]).
  - destruct (stop_goes p0 (fun p => RFatal p st) s H0) as [s' Hs']. exists s'. by destruct p0.
  - destruct (stop_goes p0 (fun p => RStop p o) s H0) as [s' Hs']. exists s'. by destruct p0.
  - destruct (stop_goes p0 DStop s H0) as [s' Hs']. exists s'. by destruct p0.
Qed.

(** The accepting thread waits for nobody then. *)
Lemma run_enabled s :
  accounted config s -> ending s -> (forall j h, threads s !! j = Some h -> h_pc h = HEnd) ->
  (forall n p, stoppers s !! n = Some p -> p = StopReturned) ->
  forallb finished (calls (service s)) = true -> listener_fd s = -1 \/ closing s -> over (run s) = false ->
  exists i s', run_unaided s i /\ rstep i s = Some s'.
Proof.
  intros Hacc [Hstop _ Href] Hend Hst Hfin Hcl Hgone.
  assert (forall k, k ∈ handlers s ++ joining (run s) -> ended s k = true) as Hended.
  { intros k Hk. apply all_ended; [done|]. pose proof (ac_known _ _ Hacc) as Hkn.
    rewrite Forall_forall in Hkn. by apply Hkn. }
  assert (forallb (fun p => match p with StopReturned => true | _ => false end) (stoppers s) = true) as Hret.
  { apply forallb_forall. intros p [n Hn]%list_elem_of_In%list_elem_of_lookup. by rewrite (Hst n p Hn). }
  assert (is_Some (rstep RProceed s) -> exists i s', run_unaided s i /\ rstep i s = Some s') as Hgo
    by (intros [s' H']; by exists RProceed, s').
  pose proof (run_stops s) as Hstops.
  destruct (run s) as [| | |l|a|d c n|d c|d c|d c|d c|b e|p0 st|p0 o|o|owned o|o|o|p0| |owned| | |wk|] eqn:Hrun;
    try discriminate Hgone; try (apply Hgo; unfold run_step; rewrite Hrun; by eexists);
    try (apply Hgo; destruct p0; [apply Hstops; eauto..|unfold run_step; rewrite Hrun; by eexists]);
    try (apply Hgo; unfold run_step; rewrite Hrun, ?Hstop, ?Hret; by eexists).
  - exists (RAnswer (AcceptFailed closed_status)). eexists. split; [|unfold run_step; rewrite Hrun; reflexivity].
    split; [|done]. destruct Hcl as [?|[Hr|[[n Hn]|(k & h & Hk & Hpc)]]]; [done|by rewrite Hrun in Hr| |].
    + by specialize (Hst _ _ Hn).
    + by rewrite (Hend _ _ Hk) in Hpc.
  - apply Hgo. unfold run_step. rewrite Hrun. destruct (handlers s !! n) as [k|] eqn:Hn; [|by eexists].
    rewrite (Hended k) by (apply elem_of_app; left; by eapply list_elem_of_lookup_2).
    by destruct (negb (flagged s k)); eexists.
  - apply Hgo. unfold run_step. rewrite Hrun. cbn -[protocol_failure write_frame] in Href |- *.
    destruct (protocol_failure _ _ _) as [encoded|]; [destruct Href as [r ->]|]; by eexists.
  - apply Hgo. unfold run_step. rewrite Hrun. destruct owned as [|k owned]; [by eexists|].
    rewrite (Hended k) by (apply elem_of_app; right; by left). by eexists.
  - apply Hgo. unfold run_step. rewrite Hrun. destruct owned as [|k owned]; [by eexists|].
    rewrite (Hended k) by (apply elem_of_app; right; by left). by eexists.
  - apply Hgo. unfold run_step. rewrite Hrun. cbn. rewrite Hfin. by eexists.
Qed.

(** *** The calls of the service *)

Context (Hworkers : forall pc, matched pc (workers_do pc)).
Context (Hcalls : forall pc, call_matched pc (calls_do pc)).

Lemma driven_comes c x x' :
  driven (scfg_service config) instance_id daemon_version workers_do calls_do c x x' ->
  forall s, service s = x -> comes_to s (set_service x' s).
Proof.
  induction 1 as [x|x e x1 x2 Hd Hs _ IH]; intros s <-; [destruct s; apply comes_refl|].
  assert (comes_to (set_service x1 s) (set_service x2 s)) as Hrest.
  { specialize (IH (set_service x1 s) eq_refl). by destruct s. }
  destruct e as [w i|request|n i|]; try done.
  - apply (comes_step _ (VWorker w i) (set_service x1 s)); [exact Hd| |exact Hrest].
    cbn -[service_step]. by rewrite Hs.
  - destruct Hd as (req & pc & Hc & Hi & _).
    apply (comes_step _ (VCall n i) (set_service x1 s)); [by exists req, pc| |exact Hrest].
    cbn -[service_step]. by rewrite Hs.
Qed.

(** A thread whose call is not answered yet. *)
Lemma nearer_dispatch listener k s h frame c :
  server_config_valid config = true -> is_uint 32 (scfg_maximum_active_connections config) ->
  vreach listener s -> ending s -> threads s !! k = Some h -> h_pc h = HDispatch frame c ->
  exists s', nearer s s'.
Proof.
  intros Hv Hu Hs He Hk Hpc.
  destruct (conversing_reachable _ _ _ _ _ _ Hv Hu Hs) as [[Htalk _] _].
  destruct (Htalk _ _ Hk) as [_ _ (out & mid & tail & _ & _ & Ht)]. unfold turn in Ht. rewrite Hpc in Ht.
  destruct Ht as (_ & _ & req & pc & _ & Hc).
  destruct (finishes_any _ _ _ _ _ Hworkers Hcalls c req pc (service s)
    (server_service_reachable _ _ _ _ _ _ Hs) Hc) as (x & resp & Hd & Hdone).
  pose proof (driven_comes _ _ _ Hd s eq_refl) as Hcomes.
  assert (ending (set_service x s)) as He1 by (by apply (ending_places s); [exact He|apply He|..]).
  destruct (inv_reachable _ _ _ _ _ _ Hv Hu (comes_reach _ _ _ Hs Hcomes)) as [Hinv _].
  assert (is_Some (hstep HProceed k (set_service x s))) as [s2 Hstep].
  { unfold handler_step. cbn -[service_step stop_step]. rewrite Hk. cbn -[service_step stop_step].
    rewrite Hpc, Hdone. by eexists. }
  destruct (nearer_handler _ _ _ (ci_ok _ Hinv) He1 Hstep) as (Hc2 & He2 & Hr2).
  exists s2. split; [by eapply comes_trans|]. by split.
Qed.

(** Whoever is in the middle of [stop] goes on. *)
Lemma nearer_busy s :
  Forall thread_ok (threads s) -> ending s -> stop_running s -> exists s', nearer s s'.
Proof.
  intros Hok He Hrun.
  assert (forall p, stop_busy p = true -> is_Some (stop_step p s)) as Hstop
    by (intros [] Hp; try discriminate Hp; by eexists).
  destruct Hrun as [Hb|[(n & p & Hn & Hb)|(k & h & Hk & Hb)]].
  - destruct (run_stops s) as [s' Hs']; [by left|].
    exists s'. apply (nearer_run RProceed); [done|done|by destruct (run s)|done].
  - destruct (Hstop p Hb) as [[s1 p1] Hs1]. eexists. eapply (nearer_stopper n); [exact He|exact Hn|].
    cbn -[stop_step]. rewrite Hn. cbn -[stop_step]. rewrite Hs1. reflexivity.
  - destruct (h_pc h) as [| | |frame|frame c|frame c resp|c encoded|e|st pl pr| |p| | | | |] eqn:Hpc;
      try discriminate Hb.
    destruct (Hstop p Hb) as [[s1 p1] Hs1].
    assert (exists h1, threads s1 !! k = Some h1) as [h1 H1].
    { apply lookup_lt_is_Some. pose proof (f_equal length (sm_places _ _ (stop_step_moved _ _ _ _ Hs1))) as Hl.
      rewrite !length_fmap in Hl. rewrite Hl. by eapply lookup_lt_Some. }
    eexists. apply (nearer_handler k); [exact Hok|exact He|].
    unfold handler_step. rewrite Hk. cbn -[stop_step service_step]. rewrite Hpc.
    destruct p; try discriminate Hb; rewrite Hs1; cbn -[stop_step]; rewrite H1; reflexivity.
Qed.

(** The handlers have ended, and with them the calls of [dispatch]. *)
Lemma nearer_joined listener s :
  server_config_valid config = true -> is_uint 32 (scfg_maximum_active_connections config) ->
  vreach listener s -> ending s -> over (run s) = false ->
  (forall n p, stoppers s !! n = Some p -> p = StopReturned) ->
  (forall j h, threads s !! j = Some h -> h_pc h = HEnd) -> exists s', nearer s s'.
Proof.
  intros Hv Hu Hs He Hgone Hret Hend. destruct (inv_reachable _ _ _ _ _ _ Hv Hu Hs) as [_ Hacc].
  assert (forallb finished (calls (service s)) = true) as Hfin.
  { apply forallb_forall. intros call [c Hc]%list_elem_of_In%list_elem_of_lookup.
    destruct (finished call) eqn:Hf; [done|].
    destruct (awaited_reachable _ _ _ _ _ _ Hv Hu Hs c call Hc Hf) as (k & h & frame & Hk & Hpc).
    by rewrite (Hend k h Hk) in Hpc. }
  destruct (run_enabled s Hacc He Hend Hret Hfin) as (i & s' & Hi & Hr); [|exact Hgone|].
  { apply (sh_closed listener); [|apply He].
    exact (shutting_reachable config instance_id daemon_version broken_pipe listener s Hv Hu Hs). }
  exists s'. by apply (nearer_run i).
Qed.

Lemma nearer_next listener s :
  server_config_valid config = true -> is_uint 32 (scfg_maximum_active_connections config) ->
  vreach listener s -> ending s -> over (run s) = false -> exists s', nearer s s'.
Proof.
  intros Hv Hu Hs He Hgone. destruct (inv_reachable _ _ _ _ _ _ Hv Hu Hs) as [Hinv _].
  pose proof (ci_ok _ Hinv) as Hok.
  assert (forall p, stop_rank p <> 0%nat -> is_Some (stop_step p s)) as Hstop
    by (intros []; [by eexists..|done]).
  destruct (decide (Exists (fun p => stop_rank p <> 0%nat) (stoppers s))) as [Hex|Hst].
  { apply Exists_exists in Hex as (p & [n Hn]%list_elem_of_lookup & Hp).
    destruct (Hstop p Hp) as [[s1 p1] Hs1]. eexists. eapply (nearer_stopper n); [exact He|exact Hn|].
    cbn -[stop_step]. rewrite Hn. cbn -[stop_step]. rewrite Hs1. reflexivity. }
  assert (forall n p, stoppers s !! n = Some p -> p = StopReturned) as Hret.
  { intros n p Hn. destruct (decide (stop_rank p = 0%nat)) as [H0|H0]; [by destruct p|].
    destruct Hst. apply Exists_exists. exists p. split; [by eapply list_elem_of_lookup_2|done]. }
  destruct (decide (Exists (fun h => thread_rank (h_pc h) <> 0%nat) (threads s))) as [Hex|Hth].
  2: { apply (nearer_joined listener); try done. intros j h Hj.
    destruct (decide (thread_rank (h_pc h) = 0%nat)) as [H0|H0]; [by destruct (h_pc h)|].
    destruct Hth. apply Exists_exists. exists h. split; [by eapply list_elem_of_lookup_2|done]. }
  destruct (decide (run_busy (run s) = true)) as [Hb|Hb]; [apply nearer_busy; [done..|by left]|].
  destruct (decide (Exists (fun h => pc_busy (h_pc h) = true) (threads s))) as [Hbusy|Hbusy].
  { apply Exists_exists in Hbusy as (h & [k Hk]%list_elem_of_lookup & Hh).
    apply nearer_busy; [done..|]. right. right. eauto. }
  assert (~ stop_running s) as Hnone.
  { intros [Hx|[(n & p & Hn & Hx)|(k & h & Hk & Hx)]]; [done|by rewrite (Hret n p Hn) in Hx|].
    apply Hbusy, Exists_exists. exists h. split; [by eapply list_elem_of_lookup_2|done]. }
  apply Exists_exists in Hex as (h & [k Hk]%list_elem_of_lookup & Hh).
  destruct (h_pc h) as [| | |frame|frame c|frame c resp|c encoded|e|st pl pr| |p| | | | |] eqn:Hpc;
    try (by destruct Hh); try (by eapply nearer_dispatch);
    (edestruct (handler_enabled config instance_id daemon_version broken_pipe listener s k h) as [s' Hs'];
      [exact Hv|exact Hu|exact Hs|apply He|exact Hnone|exact Hk|rewrite Hpc; try done| | |
       exists s'; by apply (nearer_handler k)]); rewrite Hpc; try done.
  intros st' pl' pr' _. destruct (h_registered h) eqn:Hr; [done|].
  pose proof (en_failing _ He k (place h)) as Hf. rewrite list_lookup_fmap, Hk in Hf.
  specialize (Hf eq_refl Hr). cbn in Hf. by rewrite Hpc in Hf.
Qed.

(** The workers of the service leave, and are joined. *)
Lemma workers_leave listener n k s :
  server_config_valid config = true -> is_uint 32 (scfg_maximum_active_connections config) ->
  vreach listener s -> run s = DWorkers k -> (length (workers (sys (service s))) - k <= n)%nat ->
  exists s', comes_to s s' /\ run s' = Gone.
Proof.
  intros Hv Hu. revert k s. induction n as [|n IH]; intros k s Hs Hr Hn;
    destruct (workers (sys (service s)) !! k) as [pc|] eqn:Hk;
    try (apply lookup_lt_Some in Hk as Hlt; lia);
    try (exists (set_run Gone s); split; [|done]; apply (comes_one (VRun RProceed)); [done|];
         cbn -[service_step]; unfold run_step; by rewrite Hr, Hk).
  pose proof (quit_reachable _ _ _ _ _ _ Hv Hu Hs) as Hq. unfold quit_at in Hq. rewrite Hr in Hq.
  destruct Hq as [Hst _]. apply lookup_lt_Some in Hk as Hlt.
  destruct (worker_quits (scfg_service config) instance_id daemon_version workers_do calls_do Hworkers 0
    (service s) k (server_service_reachable _ _ _ _ _ _ Hs) Hst Hlt) as (x & Hd & Hx).
  pose proof (driven_comes _ _ _ Hd s eq_refl) as Hc.
  pose proof (driven_quitting _ _ _ _ _ _ _ _ (server_service_reachable _ _ _ _ _ _ Hs) Hd) as Hqt.
  assert (comes_to s (set_run (DWorkers (S k)) (set_service x s))) as Hc1.
  { eapply comes_trans; [exact Hc|]. apply (comes_one (VRun RProceed)); [done|].
    cbn -[service_step]. unfold run_step. cbn. by rewrite Hr, Hx. }
  destruct (IH (S k) (set_run (DWorkers (S k)) (set_service x s)) (comes_reach _ _ _ Hs Hc1) eq_refl)
    as (s' & Hc' & Hg).
  { cbn. rewrite (qu_length _ _ Hqt). lia. }
  exists s'. split; [by eapply comes_trans|done].
Qed.

Lemma server_ends listener s :
  server_config_valid config = true -> is_uint 32 (scfg_maximum_active_connections config) ->
  server_reachable config instance_id daemon_version broken_pipe listener s -> ending s ->
  exists s', comes_to s s' /\ run s' = Gone.
Proof.
  intros Hv Hu. remember (rank s) as n eqn:Hn. revert s Hn.
  induction n as [n IH] using lt_wf_ind. intros s -> Hs He.
  destruct (over (run s)) eqn:Hover.
  { destruct (run s) eqn:Hr; try discriminate Hover.
    - by eapply workers_leave.
    - exists s. by split; [constructor|]. }
  destruct (nearer_next listener s Hv Hu Hs He Hover) as (s1 & Hc & He1 & Hr).
  destruct (IH (rank s1) Hr s1 eq_refl (comes_reach _ _ _ Hs Hc) He1) as (s' & Hc' & Hg).
  exists s'. split; [by eapply comes_trans|done].
Qed.

(** The condition under which the end is certain lasts. *)
Lemma ending_comes listener s s' :
  server_config_valid config = true -> is_uint 32 (scfg_maximum_active_connections config) ->
  vreach listener s -> ending s -> comes_to s s' -> ending s'.
Proof.
  intros Hv Hu Hs He Hc. revert Hs He. induction Hc as [|s e s1 s2 Hun Hstep _ IH]; intros Hs He; [done|].
  apply IH; [by econstructor|]. destruct (inv_reachable _ _ _ _ _ _ Hv Hu Hs) as [Hinv _].
  destruct e as [k i|i|w i|c i| |n|k a|k cs]; try done.
  - cbn in Hun. subst i. by apply (nearer_handler k s s1 (ci_ok _ Hinv) He).
  - destruct (over (run s)) eqn:Hover; [|by apply (nearer_run i s s1 Hun He Hover)].
    cbn -[run_step] in Hstep. unfold run_step in Hstep. destruct (run s) eqn:Hr; try discriminate Hover;
      [|discriminate Hstep].
    destruct He as [H1 H2 H3]. destruct (workers (sys (service s)) !! w) as [[]|]; try discriminate Hstep;
      by injection Hstep as <-.
  - cbn -[service_step] in Hstep. destruct (service_step _ _ _ _ _) as [x|]; [|done]. injection Hstep as <-.
    by apply (ending_places s); [|apply He|..].
  - cbn -[service_step] in Hstep. destruct (service_step _ _ _ _ _) as [x|]; [|done]. injection Hstep as <-.
    by apply (ending_places s); [|apply He|..].
  - destruct (stoppers s !! n) as [p|] eqn:Hn; [|cbn in Hstep; by rewrite Hn in Hstep].
    by apply (nearer_stopper n p s s1 He Hn).
Qed.

End Events.
End Ending.
