(* ===== verification/Hosted.v ===== *)
(** The server on its world: [Server::Server] ([src/lib/server/server.cpp]) and every step of
    the server together with the system calls of [src/lib/ipc/unix_socket.cpp] it makes,
    from the listener and its socket node to the descriptors of the connections.

    [Server] says what the threads do and takes the kernel's answers as inputs; here the
    answers come from [Posix].  Each step brings what the others do and which calls are
    refused meanwhile. *)
From S2P Require Import Prelude OrdMap Kernel Protocol Wire Codec Frame Jobs JobSystem.
From S2P Require Import Service Server Posix UnixSocket.

Section Hosted.
Context `{RT : Runtime} {P : Posix}.

(** ** Construction *)

(** What leaves [Server::Server]: [std::invalid_argument], [std::runtime_error], or what the
    members of [Impl] threw. *)
Inductive construct_exn :=
| Refused (w : bytes)
| ListenerFailed (w : bytes)
| ImplFailed (e : exn).

(** The tests before any resource is taken. *)
Definition server_refused (config : ServerConfig) : option bytes :=
  if negb (server_config_valid config) then Some (lit "local server configuration is invalid")
  else
    let path_status := validate_unix_socket_path (scfg_socket_path config) in
    if negb (status_ok path_status) then Some (message path_status) else None.

(** What the environment decides of [Impl]: it is not allocated or its [service] throws,
    [handlers.reserve] throws, or it is built. *)
Inductive impl_input :=
| ServiceThrows (e : exn)
| ReserveThrows (e : exn)
| ImplBuilt.

(** [BoundUnixListener]'s destructor: its members in reverse. *)
Definition destroy_listener (listener : Z * SocketNodeGuard) : sys unit :=
  _ ← destroy_guard listener.2;
  destroy_descriptor listener.1.

(** [Impl::Impl]: the guard moves to the member before the storage is reserved, and the
    descriptor is released last; the parameter is destroyed on every way out. *)
Definition construct_impl (i : impl_input) (listener : Z * SocketNodeGuard) :
    sys (construct_exn + (Z * SocketNodeGuard)) :=
  match i with
  | ServiceThrows e => _ ← destroy_listener listener; mret (inl (ImplFailed e))
  | _ =>
    '(socket_node, rest) ← move_construct_guard listener.2;
    match i with
    | ReserveThrows e =>
      _ ← destroy_guard socket_node;
      _ ← destroy_listener (listener.1, rest);
      mret (inl (ImplFailed e))
    | _ =>
      let '(listener_fd, descriptor) := release_descriptor listener.1 in
      _ ← destroy_listener (descriptor, rest);
      mret (inr (listener_fd, socket_node))
    end
  end.

(** [Server::Server]: what [listener_fd] and [socket_node] hold. *)
Definition construct (config : ServerConfig) (i : impl_input) :
    sys (construct_exn + (Z * SocketNodeGuard)) :=
  match server_refused config with
  | Some w => mret (inl (Refused w))
  | None =>
    listener ← create_unix_listener (scfg_socket_path config) (scfg_listen_backlog config);
    match listener with
    | RErr status => mret (inl (ListenerFailed (message status)))
    | ROk listener => construct_impl i listener
    end
  end.

(** ** The server's steps *)

(** The server; its [socket_node]; the [connection.descriptor] of the accept loop, -1 when
    it owns none; and the kernel. *)
Record Hosted := mk_Hosted {
  host : ServerState;
  socket_node : SocketNodeGuard;
  connection : Z;
  world : World;
}.

Definition with_ticks (ts : list tick) (w : World) : World :=
  mk_World (outside w) (fds w) ts (bad_closes w) (unlinked w).

(** The call of [stop] that concerns the listener. *)
Definition close_listener (p : stop_pc) (s : ServerState) : sys unit :=
  match p with
  | StopListener => if 0 <=? listener_fd s then sys_close (listener_fd s) else mret tt
  | _ => mret tt
  end.

Section Steps.
Context (config : ServerConfig) (instance_id : Z) (daemon_version broken_pipe : bytes).
Context (euid : Z).

(** What the loop sees of [accept_same_user]: its result, or the exception of a diagnostic
    that was not allocated.  [i] says how much a new peer takes for a start. *)
Definition accept_input (i : run_input) (r : SameUserAcceptResult) : option run_input :=
  match disposition r, i with
  | Accepted, RAnswer (AcceptedPeer _ capacity) =>
    Some (RAnswer (AcceptedPeer (accepted_descriptor r) capacity))
  | PeerRejected, RAnswer _ => Some (RAnswer RejectedPeer)
  | FatalFailure, RAnswer _ => Some (RAnswer (AcceptFailed (accept_status r)))
  | PeerRejected, RThrows e | FatalFailure, RThrows e => Some (RThrows e)
  | _, _ => None
  end.

(** The calls of [~Impl]: [stop], [socket_node.remove()] and the members' destructors. *)
Definition destructor_calls (pc : run_pc) (s : ServerState) (g : SocketNodeGuard) (owned : Z) :
    sys (SocketNodeGuard * Z) :=
  match pc with
  | DStop p => _ ← close_listener p s; mret (g, owned)
  | DRemove => g' ← remove g; _ ← destroy_guard g'; mret (empty_guard, owned)
  | _ => mret (g, owned)
  end.

(** The calls of the thread that runs and destroys the server, from [pc] to [pc'];
    the new [socket_node] and [connection.descriptor].  The descriptor dies with its
    iteration, moves into the closure of a new thread, which dies if the thread does not
    start, or is kept through the catch clause: [kept] says that what threw at [RSpawn] was
    [handlers.push_back] and not the thread. *)
Definition run_calls (kept : bool) (pc pc' : run_pc) (s : ServerState) (g : SocketNodeGuard)
    (owned : Z) : sys (SocketNodeGuard * Z) :=
  match pc, pc' with
  | RTest _, RTop | RTest _, RStop _ _ | RRefuse _ _, _ =>
    _ ← destroy_descriptor owned; mret (g, -1)
  | RSpawn _ _, RFailed _ _ =>
    if kept then mret (g, owned) else _ ← destroy_descriptor owned; mret (g, -1)
  | RSpawn _ _, _ => mret (g, -1)
  | RFatal p _, _ | RStop p _, _ => _ ← close_listener p s; mret (g, owned)
  | RRemove _, _ => g' ← remove g; _ ← destroy_descriptor owned; mret (g', -1)
  | _, _ => destructor_calls pc s g owned
  end.

(** The calls of a handler. *)
Definition handler_calls (h : Handler) (s : ServerState) : sys unit :=
  match h_pc h with
  | HClose => destroy_descriptor (h_descriptor h)
  | HStop p => close_listener p s
  | _ => mret tt
  end.

(** Where the thread waits for a peer. *)
Definition accepting (pc : run_pc) : option Z :=
  match pc with RAccept listener => Some listener | _ => None end.

(** A step that makes these calls. *)
Definition calling (s' : ServerState) (calls : sys unit) (x : Hosted) : option Hosted :=
  '(_, w) ← calls (world x);
  Some (mk_Hosted s' (socket_node x) (connection x) w).

Definition hosted_step (e : server_event) (kept : bool) (ts : list tick) (x : Hosted) : option Hosted :=
  let x := mk_Hosted (host x) (socket_node x) (connection x) (with_ticks ts (world x)) in
  let s := host x in
  let step e := server_step config instance_id daemon_version broken_pipe e s in
  match e with
  | VRun i =>
    match accepting (run s) with
    | Some listener =>
      '(r, w) ← match i with
                | RThrows _ | RAnswer _ => accept_same_user euid listener (world x)
                | RProceed => None
                end;
      i' ← accept_input i r;
      s' ← step (VRun i');
      Some (mk_Hosted s' (socket_node x) (accepted_descriptor r) w)
    | None =>
      s' ← step e;
      '(g, owned, w) ← run_calls kept (run s) (run s') s (socket_node x) (connection x) (world x);
      Some (mk_Hosted s' g owned w)
    end
  | VHandler k _ =>
    s' ← step e;
    h ← threads s !! k;
    calling s' (handler_calls h s) x
  | VStopper n =>
    s' ← step e;
    p ← stoppers s !! n;
    calling s' (close_listener p s) x
  | _ => s' ← step e; calling s' (mret tt) x
  end.

(** Construction, and any steps after it. *)
Definition hosted_initial (made : Z * SocketNodeGuard) (w : World) : Hosted :=
  mk_Hosted (server_initial config made.1) made.2 (-1) w.

Inductive hosted_reachable (start : World) : Hosted -> Prop :=
| hreach_initial made w :
    construct config ImplBuilt start = Some (inr made, w) ->
    hosted_reachable start (hosted_initial made w)
| hreach_step x e kept ts x' :
    hosted_reachable start x -> hosted_step e kept ts x = Some x' -> hosted_reachable start x'.

Fixpoint hosted_run (es : list (server_event * bool * list tick)) (x : Hosted) : option Hosted :=
  match es with
  | [] => Some x
  | (e, kept, ts) :: es' => x' ← hosted_step e kept ts x; hosted_run es' x'
  end.
End Steps.
End Hosted.
