(* ===== verification/HostedSpec.v ===== *)
(** What the server owns in the kernel: its listener, the directory of its socket node and
    the connections of its threads, each once, from its construction to its end; and that
    the kernel gives every answer [Server] expects. *)
From S2P Require Import Prelude OrdMap Kernel Protocol Wire Codec Frame Jobs JobSystem.
From S2P Require Import Service Server ServerSpec ServerLife ServerStop ServerShut.
From S2P Require Import Posix UnixSocket UnixSocketSpec Hosted.

(** ** Ownership *)

(** Besides the descriptors [F] the process has exactly [l], each once, and it has closed
    none that was not open. *)
Record owns (F : gmap Z (object * bool)) (n : nat) (l : list Z) (w : World) : Prop := {
  ow_nodup : NoDup l;
  ow_fresh d : d ∈ l -> 0 <= d /\ F !! d = None /\ is_Some (fds w !! d);
  ow_rest d : d ∉ l -> fds w !! d = F !! d;
  ow_closes : bad_closes w = n;
}.

#[export] Instance owns_proper F n : Proper ((≡ₚ) ==> eq ==> iff) (owns F n).
Proof.
  assert (forall l l' w, l ≡ₚ l' -> owns F n l w -> owns F n l' w) as Hp.
  { intros l l' w Hl [H1 H2 H3 H4]. split; [by rewrite <-Hl|..|done]; intros d; rewrite <-Hl; auto. }
  intros l l' Hl w w' ->. split; apply Hp; by symmetry.
Qed.

Lemma owns_nil F n w : owns F n [] w -> fds w = F /\ bad_closes w = n.
Proof.
  intros [_ _ H3 H4]. split; [|done]. apply map_eq. intros d. apply H3, not_elem_of_nil.
Qed.

Lemma owns_start w : owns (fds w) (bad_closes w) [] w.
Proof. split; [constructor| |done|done]. by intros d ?%not_elem_of_nil. Qed.

(** A step that leaves the descriptors alone. *)
Lemma owns_frame F n l w w' :
  owns F n l w -> fds w' = fds w -> bad_closes w' = bad_closes w -> owns F n l w'.
Proof. intros [H1 H2 H3 H4] Hf Hb. split; rewrite ?Hf, ?Hb; done. Qed.

(** A new descriptor. *)
Lemma owns_open F n l w w' d o :
  owns F n l w -> 0 <= d -> fds w !! d = None -> holding (<[d := o]> (fds w)) (bad_closes w) w' ->
  owns F n (d :: l) w'.
Proof.
  intros [H1 H2 H3 H4] H0 Hd [Hf Hb].
  assert (d ∉ l) as Hn by (intros [_ [_ [x Hx]]]%H2; congruence).
  split; rewrite ?Hf, ?Hb; try done.
  - by constructor.
  - intros e [->|He]%elem_of_cons.
    + rewrite lookup_insert_eq. split_and!; [done|by rewrite <-H3|done].
    + destruct (H2 e He) as (? & ? & ?). split_and!; try done.
      by rewrite lookup_insert_ne by (intros ->; done).
  - intros e [Hne He]%not_elem_of_cons. rewrite lookup_insert_ne by done. by apply H3.
Qed.

(** ** Closing *)

Section Closing.
Context {P : Posix}.

Lemma close_owned F n l w d :
  owns F n (d :: l) w -> exists w', sys_close d w = Some (tt, w') /\ owns F n l w' /\
    outside w' = outside w /\ forall e, e <> d -> fds w' !! e = fds w !! e.
Proof.
  intros [H1 H2 H3 H4]. apply NoDup_cons in H1 as [Hd H1].
  destruct (H2 d) as (H0 & Hfr & Hx); [by left|]. unfold sys_close.
  rewrite bool_decide_eq_true_2 by done. eexists. split; [done|]. split_and!; [|done|].
  - split; cbn; try done.
    + intros e He. destruct (H2 e) as (? & ? & ?); [by right|]. split_and!; try done.
      by rewrite lookup_delete_ne by (intros ->; done).
    + intros e He. destruct (decide (e = d)) as [->|Hne]; [by rewrite lookup_delete_eq, Hfr|].
      rewrite lookup_delete_ne by done. apply H3. by apply not_elem_of_cons.
  - intros e He. cbn. by rewrite lookup_delete_ne.
Qed.

(** The destructor of a descriptor: it may own nothing. *)
Definition owning (d : Z) : list Z := if 0 <=? d then [d] else [].

Lemma destroy_owned F n l w d :
  owns F n (owning d ++ l) w -> exists w', destroy_descriptor d w = Some (tt, w') /\ owns F n l w' /\
    outside w' = outside w /\ forall e, e ∈ l -> fds w' !! e = fds w !! e.
Proof.
  unfold owning, destroy_descriptor, reset. intros Ho. cbv [mbind sys_bind mret sys_ret].
  destruct (Z.leb_spec 0 d); [|by exists w].
  destruct (close_owned _ _ _ _ _ Ho) as (w' & -> & H1 & H2 & H3). exists w'. split_and!; try done.
  intros e He. apply H3. intros ->. destruct Ho as [[Hd _]%NoDup_cons _ _ _]. by apply Hd.
Qed.

(** [remove] leaves every descriptor alone. *)
Lemma remove_ends {EC : ErrorCodes} g w : exists w', remove g w = Some (set_node_state NodeState.Consumed g, w') /\
  fds w' = fds w /\ bad_closes w' = bad_closes w.
Proof.
  pose proof (runs_remove False (fds w) (bad_closes w) g w (conj eq_refl eq_refl)) as Hr.
  destruct (remove g w) as [[g' w']|]; [|done]. destruct Hr as [-> [? ?]]. by exists w'.
Qed.
End Closing.

(** ** Which descriptors the server has *)

Section Views.
Context `{RT : Runtime}.

(** The open connections of threads. *)
Definition open_fds (l : list (Z * bool * handler_pc)) : list Z :=
  at_fd <$> filter (fun p => opened p = true) l.

Lemma open_fds_app l1 l2 : open_fds (l1 ++ l2) = open_fds l1 ++ open_fds l2.
Proof. unfold open_fds. by rewrite filter_app, fmap_app. Qed.

Lemma open_fds_insert l k p q :
  l !! k = Some p -> at_fd q = at_fd p ->
  open_fds (<[k:=q]> l) ≡ₚ open_fds l /\ opened q = opened p \/
  opened p = true /\ opened q = false /\ open_fds l ≡ₚ at_fd p :: open_fds (<[k:=q]> l) \/
  opened p = false /\ opened q = true.
Proof.
  intros Hk Hfd. pose proof (lookup_lt_Some _ _ _ Hk) as Hlt.
  assert (forall x, open_fds [x] = if opened x then [at_fd x] else []) as Hone.
  { intros x. unfold open_fds. rewrite filter_cons, filter_nil. by destruct (opened x); case_decide. }
  set (A := open_fds (take k l)). set (D := open_fds (drop (S k) l)).
  assert (open_fds l = A ++ open_fds [p] ++ D) as ->
    by (rewrite <-(take_drop_middle l k p Hk) at 1; by rewrite (cons_middle p), !open_fds_app).
  assert (open_fds (<[k:=q]> l) = A ++ open_fds [q] ++ D) as ->
    by (rewrite insert_take_drop by done; by rewrite (cons_middle q), !open_fds_app).
  rewrite !Hone, Hfd. destruct (opened p), (opened q); [by left| |by right; right|by left].
  right; left. split_and!; [done..|]. cbn. by rewrite <-Permutation_middle.
Qed.

(** What the listener becomes in a step of [stop]. *)
Definition left_open (p : stop_pc) (s : ServerState) : Z :=
  match p with StopListener => -1 | _ => listener_fd s end.

Lemma stop_listener p s s' p' : stop_step p s = Some (s', p') -> listener_fd s' = left_open p s.
Proof.
  intros Hp. destruct p; cbn in Hp; [|by injection Hp as <- _| |done].
  - by destruct (stopping s); injection Hp as <- _.
  - by injection Hp as <- _.
Qed.

(** The connection an iteration of the accept loop ends with, or hands to a thread. *)
Definition released (r r' : run_pc) : bool :=
  match r, r' with
  | RTest _, RTop | RTest _, RStop _ _ | RRefuse _ _, _ | RSpawn _ _, _ | RRemove _, _ => true
  | _, _ => false
  end.

Definition spawned (r r' : run_pc) : list Z :=
  match r, r' with RSpawn d _, RTop => [d] | _, _ => [] end.

(** The points at which [connection.descriptor] may own a descriptor. *)
Definition carrying (r : run_pc) : bool :=
  match r with
  | RTest _ | RReap _ _ _ | RCapacity _ _ | RRefuse _ _ | RReserve _ _ | RSpawn _ _
  | RFailed _ _ | RFatal _ _ | RStop _ _ | RSwap _ | RJoin _ _ | RRemove _ => true
  | _ => false
  end.

(** [socket_node] has been destroyed. *)
Definition torn (r : run_pc) : bool := match r with DService | DWorkers _ | Gone => true | _ => false end.

Context (config : ServerConfig) (instance_id : Z) (daemon_version broken_pipe : bytes).

Abbreviation hstep := (handler_step config instance_id daemon_version broken_pipe).
Abbreviation rstep := (run_step config instance_id daemon_version).

(** What a step of the accepting thread changes of all this. *)
Record run_view (s s' : ServerState) : Prop := {
  rv_listener : listener_fd s' = match run_point (run s) with
                                 | Some p => left_open p s | None => listener_fd s end;
  rv_open : open_fds (place <$> threads s')
            ≡ₚ spawned (run s) (run s') ++ open_fds (place <$> threads s);
  rv_held d : held (run s') = Some d -> held (run s) = Some d \/ exists l, run s = RAccept l;
  rv_carrying : carrying (run s') = false -> carrying (run s) = false \/ released (run s) (run s') = true;
  rv_torn : torn (run s') = true -> torn (run s) = true \/ run s = DRemove;
  rv_released : released (run s) (run s') = true -> held (run s') = None;
  rv_spawn d c : run s = RSpawn d c -> run s' = RTop \/ exists b e, run s' = RFailed b e;
}.

Lemma run_views i s s' : rstep i s = Some s' -> run_view s s'.
Proof.
  intros Hstep.
  assert (forall p (pc : stop_pc -> run_pc), run_point (run s) = Some p ->
    (forall q, held (pc q) = None) -> (forall q, carrying (pc q) = carrying (run s)) ->
    (forall q, torn (pc q) = false) ->
    ('(s1, p') ← stop_step p s; Some (set_run (pc p') s1)) = Some s' -> run_view s s') as Hstop.
  { intros p pc Hp Hh Hc Ht Hx. destruct (stop_step p s) as [[s1 p1]|] eqn:Hst; [|done].
    injection Hx as <-. pose proof (stop_listener _ _ _ _ Hst) as Hl.
    destruct (stop_step_moved _ _ _ _ Hst). split; cbn.
    - by rewrite Hp.
    - rewrite sm_places. unfold spawned. by destruct (run s).
    - intros d. by rewrite Hh.
    - rewrite Hc. by left.
    - by rewrite Ht.
    - intros _. by rewrite Hh.
    - intros d c Hr. by rewrite Hr in Hp. }
  unfold run_step in Hstep.
  destruct (run s) as [| | |l|a|d c n|d c|d c|d c|d c|b e|p0 st|p0 o|o|owned o|o|o|p0| |owned| | |wk|] eqn:Hrun;
    cbn -[stop_step service_step] in Hstep;
    try (destruct p0; try (eapply (Hstop _ (fun p => RFatal p st)); [done|done|done|done|exact Hstep]);
         try (eapply (Hstop _ (fun p => RStop p o)); [done|done|done|done|exact Hstep]);
         try (eapply (Hstop _ DStop); [done|done|done|done|exact Hstep]));
    repeat match type of Hstep with
    | Some _ = Some _ => injection Hstep as <-
    | (match ?x with _ => _ end) = Some _ => destruct x eqn:?; try discriminate Hstep
    | (?x ≫= _) = Some _ => destruct x; cbn [mbind option_bind] in Hstep; try discriminate Hstep
    end.
  all: try (split; cbn; rewrite ?Hrun; try done; eauto; repeat case_match; cbn; eauto; done).
  all: try done.
  all: split; cbn; rewrite ?Hrun; try done; eauto.
  all: change (open_fds (place <$> threads s ++ [new_handler d c]) ≡ₚ [d] ++ open_fds (place <$> threads s)).
  all: rewrite fmap_app, open_fds_app; apply Permutation_app_comm.
Qed.

(** A handler closes its connection at [HClose] and not before. *)
Lemma handler_stays i k s s' h h' :
  threads s !! k = Some h -> thread_ok h -> hstep i k s = Some s' -> threads s' !! k = Some h' ->
  opened (place h') = match h_pc h with HClose => false | _ => opened (place h) end.
Proof.
  intros Hk Hok Hstep Hk'. unfold handler_step in Hstep. rewrite Hk in Hstep.
  cbn -[service_step stop_step] in Hstep.
  assert (forall s1 h1, threads s1 = threads s -> s' = set_thread k h1 s1 -> h' = h1) as Hset.
  { intros s1 h1 Ht ->. cbn in Hk'. rewrite Ht, list_lookup_insert_eq in Hk' by (by eapply lookup_lt_Some).
    congruence. }
  assert (opened (place h) = match h_pc h with HFlag | HRelease | HEnd => false | _ => true end) as ->
    by done.
  assert (opened (place h') = match h_pc h' with HFlag | HRelease | HEnd => false | _ => true end) as ->
    by done.
  assert (forall p, (('(s1, p') ← stop_step p s; h1 ← threads s1 !! k;
      Some (set_thread k (h_to (HStop p') h1) s1)) = Some s') -> exists q, h_pc h' = HStop q) as Hstop.
  { intros p Hp. destruct (stop_step p s) as [[s1 p1]|] eqn:Hs; [|done]. cbn in Hp.
    destruct (threads s1 !! k) as [h1|] eqn:H1; [|done]. injection Hp as <-.
    rewrite (set_thread_at _ _ _ _ H1) in Hk'. injection Hk' as <-. by eexists. }
  destruct (h_pc h) as [| | |frame|frame c|frame c resp|c encoded|e|st pl pr| |p| | | | |] eqn:Hpc;
    cbn beta iota.
  11: { destruct p; try (destruct (Hstop _ Hstep) as [q ->]; done). injection Hstep as <-.
    by rewrite (Hset s _ eq_refl eq_refl). }
  3: { destruct (handler_read i h) as [h1|] eqn:Hr; [|done]. injection Hstep as <-.
    rewrite (Hset s _ eq_refl eq_refl). destruct (read_place _ _ _ Hr Hpc Hok) as (_ & _ & _ & [Hl| ->]);
      [by destruct (h_pc h1)|done]. }
  6: { destruct (handler_write _ i c encoded h) as [h1|] eqn:Hw; [|done]. injection Hstep as <-.
    rewrite (Hset s _ eq_refl eq_refl).
    by destruct (write_place _ _ _ _ _ _ Hw Hpc Hok) as (_ & _ & _ & [->|[->|[e ->]]]). }
  7: { destruct (handler_fail _ i st pl pr h) as [h1|] eqn:Hw; [|done]. injection Hstep as <-.
    rewrite (Hset s _ eq_refl eq_refl).
    destruct (fail_place _ _ _ _ _ _ _ Hw Hpc Hok) as (_ & _ & _ & ->). by destruct (h_registered h). }
  all: repeat match type of Hstep with
    | Some _ = Some _ => injection Hstep as <-
    | (match ?x with _ => _ end) = Some _ => destruct x; try discriminate Hstep
    | (?x ≫= _) = Some _ => destruct x; cbn [mbind option_bind] in Hstep; try discriminate Hstep
    end.
  all: try discriminate Hstep; rewrite (set_thread_at k h) in Hk' by exact Hk; injection Hk' as <-; cbn; repeat case_match; done.
Qed.

(** The listener after a handler's step. *)
Lemma handler_left i k s s' h :
  threads s !! k = Some h -> thread_ok h -> hstep i k s = Some s' ->
  listener_fd s' = match h_pc h with HStop p => left_open p s | _ => listener_fd s end.
Proof.
  intros Hk Hok Hstep.
  destruct (handler_kept _ _ _ _ _ _ _ _ _ Hk Hok Hstep)
    as [(p & s1 & p1 & h1 & Hpc & Hp & H1 & ->)|(h' & Hth & Hst & Hr & Hss & Hb & _)].
  - rewrite Hpc. cbn. by eapply stop_listener.
  - rewrite (handler_listener _ _ _ _ _ _ _ _ _ Hk Hb Hstep). revert Hb. destruct (h_pc h); try done. by destruct p.
Qed.
End Views.
