(* ===== verification/HostedLife.v ===== *)
(** The server on its world from construction to its end: the descriptors it owns, and the
    answers the kernel gives it. *)
From S2P Require Import Prelude OrdMap Kernel Protocol Wire Codec Frame Jobs JobSystem.
From S2P Require Import Service Server ServerSpec ServerLife ServerStop ServerShut.
From S2P Require Import Posix UnixSocket UnixSocketSpec Hosted HostedSpec.

Section Owning.
Context `{HK : KernelLaws} {RT : Runtime} {P : Posix}.
Context (config : ServerConfig) (instance_id : Z) (daemon_version broken_pipe : bytes) (euid : Z).

Abbreviation hstep := (handler_step config instance_id daemon_version broken_pipe).
Abbreviation rstep := (run_step config instance_id daemon_version).
Abbreviation vstep := (server_step config instance_id daemon_version broken_pipe).
Abbreviation vreach := (server_reachable config instance_id daemon_version broken_pipe).
Abbreviation xstep := (hosted_step config instance_id daemon_version broken_pipe euid).
Abbreviation xreach := (hosted_reachable config instance_id daemon_version broken_pipe euid).
Abbreviation places s := (place <$> threads s).

(** The connections: the one being accepted, and those of the threads. *)
Definition streams (s : ServerState) (c : Z) : list Z := owning c ++ open_fds (places s).

Definition all_fds (s : ServerState) (g : SocketNodeGuard) (c : Z) : list Z :=
  owning (listener_fd s) ++ owning (parent_directory g) ++ streams s c.

(** The guard's descriptor is the directory whose identity it has captured. *)
Definition directory_at (g : SocketNodeGuard) (w : World) : Prop :=
  forall d, d ∈ owning (parent_directory g) -> fds w !! d = Some (ODirectory (parent_identity g), true).

Record hosted_inv (listener : Z) (F : gmap Z (object * bool)) (n : nat) (x : Hosted) : Prop := {
  hi_server : vreach listener (host x);
  hi_owns : owns F n (all_fds (host x) (socket_node x) (connection x)) (world x);
  hi_streams d : d ∈ streams (host x) (connection x) -> fds (world x) !! d = Some (OStream euid, true);
  hi_held d : held (run (host x)) = Some d -> connection x = d;
  hi_empty : carrying (run (host x)) = false -> connection x = -1;
  hi_torn : torn (run (host x)) = true -> parent_directory (socket_node x) = -1;
  hi_directory : directory_at (socket_node x) (world x);
}.

(** The part that the kernel sees. *)
Definition at_world (F : gmap Z (object * bool)) (n : nat) (s : ServerState) (g : SocketNodeGuard)
    (c : Z) (w : World) : Prop :=
  owns F n (all_fds s g c) w /\ (forall d, d ∈ streams s c -> fds w !! d = Some (OStream euid, true)) /\
  directory_at g w.

Lemma at_world_same F n s g c w s' w' :
  at_world F n s g c w -> listener_fd s' = listener_fd s ->
  open_fds (places s') ≡ₚ open_fds (places s) -> fds w' = fds w -> bad_closes w' = bad_closes w ->
  at_world F n s' g c w'.
Proof.
  intros (Ho & Hs & Hd) Hl Hop Hf Hb. unfold at_world, all_fds, streams in *. split_and!.
  - rewrite Hl, Hop. by eapply owns_frame.
  - intros d. rewrite Hop, Hf. apply Hs.
  - intros d. rewrite Hf. apply Hd.
Qed.

(** *** Closing the listener *)

Lemma close_listener_at F n p s g c w s' :
  at_world F n s g c w -> listener_fd s' = left_open p s ->
  open_fds (places s') ≡ₚ open_fds (places s) ->
  exists w', close_listener p s w = Some (tt, w') /\ outside w' = outside w /\
    at_world F n s' g c w'.
Proof.
  intros Hw Hl Hop. pose proof Hw as (Ho & Hs & Hd).
  assert (p <> StopListener -> exists w', Some (tt, w) = Some (tt, w') /\ outside w' = outside w /\
    at_world F n s' g c w') as Hkeep.
  { intros Hp. exists w. split_and!; try done. apply (at_world_same F n s g c w); try done. rewrite Hl.
    by destruct p. }
  destruct p; try (apply Hkeep; done). clear Hkeep. cbn in Hl |- *.
  unfold all_fds, owning at 1 in Ho. destruct (0 <=? listener_fd s).
  - destruct (close_owned _ _ _ _ _ Ho) as (w' & -> & H1 & H2 & H3). exists w'. split_and!; try done.
    destruct Ho as [[Hn _]%NoDup_cons _ _ _]. cbn in Hn.
    split_and!; unfold all_fds, streams in *.
    + rewrite Hl, Hop. exact H1.
    + intros d. rewrite Hop. intros Hin. rewrite H3; [by apply Hs|]. intros ->.
      apply Hn, elem_of_app. by right.
    + intros d Hin. rewrite H3; [by apply Hd|]. intros ->. apply Hn, elem_of_app. by left.
  - exists w. split_and!; try done. split_and!; unfold all_fds, streams in *; [| |done].
    + rewrite Hl, Hop. exact Ho.
    + intros d. rewrite Hop. apply Hs.
Qed.

(** *** Handlers *)

Lemma handler_at F n i k s s' g c w h :
  Forall thread_ok (threads s) -> threads s !! k = Some h -> hstep i k s = Some s' ->
  at_world F n s g c w ->
  exists w', handler_calls h s w = Some (tt, w') /\ outside w' = outside w /\
    at_world F n s' g c w'.
Proof.
  intros Hok Hk Hstep Hw. pose proof (Forall_lookup_1 _ _ _ _ Hok Hk) as Hh.
  destruct (handler_moves _ _ _ _ _ _ _ _ Hok Hstep) as (h0 & h' & Hk0 & Hm).
  rewrite Hk in Hk0. injection Hk0 as <-. destruct Hm.
  pose proof (handler_stays _ _ _ _ _ _ _ _ _ _ Hk Hh Hstep hm_thread) as Hst.
  pose proof (handler_left _ _ _ _ _ _ _ _ _ Hk Hh Hstep) as Hl.
  assert (places s !! k = Some (place h)) as Hpk by (by rewrite list_lookup_fmap, Hk).
  assert (at_fd (place h') = at_fd (place h)) as Hfd by done.
  pose proof (open_fds_insert _ _ _ _ Hpk Hfd) as Hins. rewrite <-hm_places in Hins.
  assert (h_pc h <> HClose -> open_fds (places s') ≡ₚ open_fds (places s)) as Hsame.
  { intros Hne. assert (opened (place h') = opened (place h)) as Heq by (by destruct (h_pc h)).
    rewrite Heq in Hins. destruct Hins as [[? _]|[(E1 & E2 & _)|(E1 & E2)]]; [done|congruence..]. }
  unfold handler_calls. destruct (h_pc h) eqn:Hpc;
    try (exists w; split_and!; try done; apply (at_world_same F n s g c w); try done; by apply Hsame).
  - eapply close_listener_at; [done|done|by apply Hsame].
  - clear Hsame. destruct Hins as [[_ E]|[(Ho & Ho' & Hperm)|[E _]]].
    + rewrite Hst in E. unfold opened, place in E. cbn in E. by rewrite Hpc in E.
    + pose proof Hw as (Hown & Hs & Hdir). unfold all_fds, streams in *. rewrite Hperm in Hown.
      assert (owns F n (owning (h_descriptor h) ++ owning (listener_fd s) ++
        owning (parent_directory g) ++ owning c ++ open_fds (places s')) w) as Hown1.
      { unfold owning at 1. rewrite (proj2 (Z.leb_le 0 _) (to_fd _ Hh)).
        eapply owns_proper; [|reflexivity|exact Hown]. cbn. change (at_fd (place h)) with (h_descriptor h).
        rewrite !(assoc_L (++)). apply Permutation_middle. }
      destruct (destroy_owned _ _ _ _ _ Hown1) as (w' & -> & H1 & H2 & H3). exists w'. split_and!; try done.
      split_and!; unfold all_fds, streams; [by rewrite Hl|..].
      * intros d Hd. rewrite H3; [|apply elem_of_app; right; apply elem_of_app; by right].
        apply Hs. apply elem_of_app in Hd. rewrite Hperm. apply elem_of_app.
        destruct Hd; [by left|right]. apply elem_of_cons. by right.
      * intros d Hd. rewrite H3; [by apply Hdir|]. apply elem_of_app. right. apply elem_of_app. by left.
    + unfold opened, place in E. cbn in E. by rewrite Hpc in E.
Qed.

(** *** The accepting thread *)

(** What its point says of the connection it carries and of the guard. *)
Record bearing (r : run_pc) (g : SocketNodeGuard) (c : Z) : Prop := {
  be_held d : held r = Some d -> c = d;
  be_empty : carrying r = false -> c = -1;
  be_torn : torn r = true -> parent_directory g = -1;
}.

(** The connection ends with its iteration. *)
Lemma release_at F n s s' g c w :
  at_world F n s g c w -> listener_fd s' = listener_fd s ->
  open_fds (places s') ≡ₚ open_fds (places s) ->
  exists w', destroy_descriptor c w = Some (tt, w') /\ outside w' = outside w /\
    at_world F n s' g (-1) w'.
Proof.
  intros (Ho & Hs & Hdir) Hl Hop. unfold all_fds, streams in *.
  assert (owns F n (owning c ++ owning (listener_fd s) ++ owning (parent_directory g) ++
    open_fds (places s)) w) as Ho1.
  { eapply owns_proper; [|reflexivity|exact Ho].
    by rewrite (Permutation_app_swap_app (owning c)), (Permutation_app_swap_app (owning c)). }
  destruct (destroy_owned _ _ _ _ _ Ho1) as (w' & -> & H1 & H2 & H3). exists w'. split_and!; try done.
  split_and!; unfold all_fds, streams; [by rewrite Hl, Hop|..].
  - intros d. rewrite Hop. intros Hd. rewrite H3; [apply Hs, elem_of_app; by right|].
    apply elem_of_app. right. apply elem_of_app. by right.
  - intros d Hd. rewrite H3; [by apply Hdir|]. apply elem_of_app. right. apply elem_of_app. by left.
Qed.

(** [remove] leaves the world of descriptors alone. *)
Lemma remove_at F n s g c w :
  at_world F n s g c w ->
  exists w', remove g w = Some (set_node_state NodeState.Consumed g, w') /\
    at_world F n s (set_node_state NodeState.Consumed g) c w'.
Proof.
  intros (Ho & Hs & Hdir). destruct (remove_ends g w) as (w' & -> & Hf & Hb). exists w'. split; [done|].
  split_and!; [by eapply owns_frame|..]; intros d Hd; rewrite Hf; auto.
Qed.

(** The destructor of the guard closes its directory. *)
Lemma destroy_guard_at F n s g c w :
  at_world F n s g c w ->
  exists w', destroy_guard g w = Some (tt, w') /\ at_world F n s empty_guard c w'.
Proof.
  intros Hw. unfold destroy_guard. cbv [mbind sys_bind].
  destruct (remove_at _ _ _ _ _ _ Hw) as (w1 & -> & (Ho & Hs & _)).
  assert (owns F n (owning (parent_directory g) ++ owning (listener_fd s) ++ streams s c) w1) as Ho1.
  { eapply owns_proper; [|reflexivity|exact Ho]. unfold all_fds. cbn. apply Permutation_app_swap_app. }
  destruct (destroy_owned _ _ _ _ _ Ho1) as (w' & E & H1 & H2 & H3). exists w'. split; [exact E|].
  split_and!; [exact H1| |by intros d ?%not_elem_of_nil].
  intros d Hd. rewrite H3; [by apply Hs|]. apply elem_of_app. by right.
Qed.

Lemma run_calls_at kept F n s s' g c w :
  run_view s s' -> bearing (run s) g c -> (forall l, run s <> RAccept l) ->
  (forall d, held (run s) = Some d -> 0 <= d) -> at_world F n s g c w ->
  exists g' c' w', run_calls kept (run s) (run s') s g c w = Some (g', c', w') /\
    at_world F n s' g' c' w' /\ bearing (run s') g' c'.
Proof.
  intros [Hl Hop Hhe Hca Hto Hre Hsp] [B1 B2 B3] Hacc Hpos Hw.
  assert (forall d, held (run s') = Some d -> c = d) as B1'.
  { intros d Hd. destruct (Hhe d Hd) as [?|[l Hr]]; [auto|by destruct (Hacc l)]. }
  assert (run_calls kept (run s) (run s') s g c w = Some (g, c, w) -> run_point (run s) = None ->
    spawned (run s) (run s') = [] -> released (run s) (run s') = false -> run s <> DRemove ->
    exists g' c' w', run_calls kept (run s) (run s') s g c w = Some (g', c', w') /\
      at_world F n s' g' c' w' /\ bearing (run s') g' c') as Hkeep.
  { intros E Hp Hs Hr Hd. exists g, c, w. rewrite Hp in Hl. rewrite Hs in Hop. split_and!; [done| |].
    - by apply (at_world_same F n s g c w).
    - split; [done| |]; [intros Hx; destruct (Hca Hx); [auto|congruence]|].
      intros Hx. by destruct (Hto Hx); auto. }
  assert (forall p, run_point (run s) = Some p -> spawned (run s) (run s') = [] ->
    released (run s) (run s') = false -> run s <> DRemove ->
    exists g' c' w', (_ ← close_listener p s; mret (g, c)) w = Some (g', c', w') /\
      at_world F n s' g' c' w' /\ bearing (run s') g' c') as Hstop.
  { intros p Hp Hs Hr Hd. rewrite Hp in Hl. rewrite Hs in Hop.
    destruct (close_listener_at F n p s g c w s' Hw Hl Hop) as (w' & E & _ & Hw').
    exists g, c, w'. cbv [mbind sys_bind mret sys_ret]. rewrite E. split_and!; [done|done|].
    split; [done| |]; [intros Hx; destruct (Hca Hx); [auto|congruence]|].
    intros Hx. by destruct (Hto Hx); auto. }
  assert (run_point (run s) = None -> spawned (run s) (run s') = [] ->
    released (run s) (run s') = true -> torn (run s) = false -> run s <> DRemove ->
    exists g' c' w', (_ ← destroy_descriptor c; mret (g, -1)) w = Some (g', c', w') /\
      at_world F n s' g' c' w' /\ bearing (run s') g' c') as Hend.
  { intros Hp Hs Hx%Hre Ht Hd. rewrite Hp in Hl. rewrite Hs in Hop.
    destruct (release_at F n s s' g c w Hw Hl Hop) as (w' & E & _ & Hw').
    exists g, (-1), w'. cbv [mbind sys_bind mret sys_ret]. rewrite E. split_and!; [done|done|].
    split; [by rewrite Hx|done|]. intros Hy. destruct (Hto Hy); congruence. }
  destruct (run s) as [| | |l|a|d cp i|d cp|d cp|d cp|d cp|b e|p0 st|p0 o|o|lst o|o|o|p0| |lst| | |wk|] eqn:Hrun;
    try (by apply Hkeep); try (by apply Hstop).
  - destruct (run s') eqn:Hrun'; try (by apply Hkeep); by apply Hend.
  - by apply Hend.
  - assert (c = d) as -> by (by apply B1). cbn in Hl.
    destruct (Hsp d cp eq_refl) as [Hr'|(b & e & Hr')]; rewrite Hr' in *.
    2: { destruct kept eqn:Hkept; [|by apply Hend]. exists g, d, w. split_and!; [done| |by split].
      by apply (at_world_same F n s g d w). }
    exists g, (-1), w. split_and!; [done| |by split]. destruct Hw as (Ho & Hs & Hdir).
    assert (streams s d ≡ₚ streams s' (-1)) as Hst.
    { unfold streams. rewrite Hop. cbn [spawned owning app]. unfold owning.
      by rewrite (proj2 (Z.leb_le 0 d) (Hpos d eq_refl)). }
    split_and!; unfold all_fds; [by rewrite Hl, <-Hst| |done]. intros e. rewrite <-Hst. apply Hs.
  - cbn [run_calls destructor_calls]. cbv [mbind sys_bind mret sys_ret].
    destruct (remove_at _ _ _ _ _ _ Hw) as (w1 & -> & Hw1).
    destruct (release_at F n s s' _ c w1 Hw1 Hl Hop) as (w' & -> & _ & Hw').
    eexists _, _, _. split_and!; [done|exact Hw'|]. split; [by rewrite Hre|done|].
    intros Hy. by destruct (Hto Hy).
  - cbn [run_calls destructor_calls]. cbv [mbind sys_bind mret sys_ret].
    destruct (remove_at _ _ _ _ _ _ Hw) as (w1 & -> & Hw1).
    destruct (destroy_guard_at _ _ _ _ _ _ Hw1) as (w' & -> & Hw').
    eexists _, _, _. split_and!; [done|by apply (at_world_same F n s empty_guard c w')|].
    split; [|intros; by apply B2|done]. intros d Hd. destruct (Hhe d Hd) as [?|[l ?]]; done.
Qed.

(** *** Accepting *)

(** The kernel gives a new connection a descriptor that the server does not use. *)
Lemma accept_fresh F n s g c w d :
  at_world F n s g c w -> 0 <= d -> fds w !! d = None -> fresh_descriptor d s = true.
Proof.
  intros (Ho & _) H0 Hd.
  assert (d ∉ all_fds s g c) as Hn by (intros [_ [_ [o Ho']]]%(ow_fresh _ _ _ _ Ho); congruence).
  unfold all_fds, streams in Hn. rewrite !not_elem_of_app in Hn. destruct Hn as (Hl & _ & _ & Hop).
  unfold fresh_descriptor. rewrite !andb_true_iff. split_and!; [lia| |].
  - apply negb_true_iff, Z.eqb_neq. intros ->. apply Hl. unfold owning.
    rewrite (proj2 (Z.leb_le 0 _) H0). by left.
  - apply forallb_forall. intros h Hh%list_elem_of_In. apply negb_true_iff, andb_false_iff.
    destruct (h_open h) eqn:Hopen; [right|by left]. apply Z.eqb_neq. intros E. apply Hop.
    apply list_elem_of_fmap. exists (place h). split; [by subst d|].
    apply list_elem_of_filter. split; [exact Hopen|]. apply list_elem_of_fmap. eauto.
Qed.

Lemma accept_at F n i i' s s' g w l r w1 :
  run s = RAccept l -> at_world F n s g (-1) w -> accept_same_user euid l w = Some (r, w1) ->
  accept_input i r = Some i' -> rstep i' s = Some s' ->
  at_world F n s' g (accepted_descriptor r) w1 /\ bearing (run s') g (accepted_descriptor r).
Proof.
  intros Hrun Hw Ha Hi Hstep.
  pose proof (runs_accept_same_user (fds w) (bad_closes w) euid l w (conj eq_refl eq_refl)) as Hp.
  rewrite Ha in Hp. unfold accept_post in Hp. unfold accept_input in Hi.
  unfold run_step in Hstep. rewrite Hrun in Hstep. destruct (disposition r).
  - destruct i as [|[d0 cp| |st]|e]; try discriminate Hi. injection Hi as <-.
    destruct Hp as (_ & H0 & Hd & Hh). destruct (_ && _); [|done]. injection Hstep as <-. cbn.
    destruct Hw as (Ho & Hs & Hdir). split; [|split; [by intros d [= <-]|done|done]].
    assert (streams (set_run (RTest (AcceptedPeer (accepted_descriptor r) cp)) s) (accepted_descriptor r)
      = accepted_descriptor r :: streams s (-1)) as Hst.
    { unfold streams, owning. by rewrite (proj2 (Z.leb_le 0 _) H0). }
    assert (forall e, fds w !! e <> None -> fds w1 !! e = fds w !! e) as Hold.
    { intros e He. destruct Hh as [Hf _]. rewrite Hf, lookup_insert_ne; [done|]. congruence. }
    split_and!; unfold all_fds; rewrite ?Hst.
    + eapply owns_proper; [|reflexivity|eapply owns_open; [exact Ho|exact H0|exact Hd|exact Hh]].
      cbn. unfold all_fds. rewrite <-!Permutation_middle. done.
    + intros d [->|Hin]%elem_of_cons; [destruct Hh as [-> _]; by rewrite lookup_insert_eq|].
      rewrite Hold; [by apply Hs|]. by rewrite Hs.
    + intros d Hin. rewrite Hold; [by apply Hdir|]. by rewrite Hdir.
  - destruct Hp as (Hd & _ & Hf & Hb). rewrite Hd. destruct i as [|a|e]; try discriminate Hi; injection Hi as <-;
      injection Hstep as <-; (split; [by apply (at_world_same F n s g (-1) w)|by split]).
  - destruct Hp as (Hd & _ & Hf & Hb). rewrite Hd. destruct i as [|a|e]; try discriminate Hi; injection Hi as <-;
      injection Hstep as <-; (split; [by apply (at_world_same F n s g (-1) w)|by split]).
Qed.

(** ** Every step *)

Hypothesis Hvalid : server_config_valid config = true.
Hypothesis Hmax : is_uint 32 (scfg_maximum_active_connections config).

Lemma inv_make listener F n s g c w :
  vreach listener s -> at_world F n s g c w -> bearing (run s) g c ->
  hosted_inv listener F n (mk_Hosted s g c w).
Proof. intros Hs (Ho & Hst & Hd) [B1 B2 B3]. by split. Qed.

Lemma inv_world listener F n x ts :
  hosted_inv listener F n x -> at_world F n (host x) (socket_node x) (connection x) (with_ticks ts (world x)).
Proof. intros Hx. split_and!; [eapply owns_frame; [apply Hx|done..]|apply Hx|apply Hx]. Qed.

Lemma inv_bearing listener F n x :
  hosted_inv listener F n x -> bearing (run (host x)) (socket_node x) (connection x).
Proof. intros Hx. by split; apply Hx. Qed.

(** Whether the step waits for the kernel to accept a connection. *)
Definition accepts (e : server_event) (s : ServerState) : bool :=
  match e with VRun _ => match accepting (run s) with Some _ => true | None => false end | _ => false end.

(** Every other step of the server is one on the world: its calls return. *)
Lemma hosted_follows listener F n x e kept ts s' :
  hosted_inv listener F n x -> vstep e (host x) = Some s' -> accepts e (host x) = false ->
  exists x', xstep e kept ts x = Some x' /\ host x' = s' /\ hosted_inv listener F n x'.
Proof.
  intros Hx Hstep Hacc. pose proof (inv_world _ _ _ _ ts Hx) as Hw. pose proof (inv_bearing _ _ _ _ Hx) as Hb.
  assert (vreach listener s') as Hs' by (econstructor; [apply Hx|exact Hstep]).
  destruct (inv_reachable _ _ _ _ _ _ Hvalid Hmax (hi_server _ _ _ _ Hx)) as [[Hok Hheld _ _] _].
  assert (forall r, r = run s' -> run s' = run (host x) -> bearing r (socket_node x) (connection x)) as Hb'
    by (intros r -> ->; done).
  assert (forall w', at_world F n s' (socket_node x) (connection x) w' -> run s' = run (host x) ->
    exists x', Some (mk_Hosted s' (socket_node x) (connection x) w') = Some x' /\ host x' = s' /\
      hosted_inv listener F n x') as Hdone.
  { intros w' Hw' Hr. eexists. split; [done|]. split; [done|]. apply inv_make; [done|done|by apply Hb']. }
  destruct x as [s g c w]. cbn [host socket_node connection world] in *.
  unfold hosted_step. cbn [host socket_node connection world] in *.
  pose proof Hstep as Hst. destruct e as [k i|i|k i|k i| |k|k a|k cp];
    [| |cbn -[server_step]; rewrite Hstep..];
    cbn -[handler_step run_step service_step stop_step arrival_ok] in Hst.
  - destruct (handler_moves _ _ _ _ _ _ _ _ Hok Hst) as (h & h' & Hk & Hm).
    destruct (handler_at F n i k s s' g c _ h Hok Hk Hst Hw) as (w' & E & _ & Hw').
    rewrite Hstep. cbn. rewrite Hk. cbn. unfold calling. cbn. rewrite E. apply Hdone; [done|apply Hm].
  - cbn in Hacc. destruct (accepting (run s)) eqn:Ha; [done|]. rewrite Hstep. cbn -[run_calls].
    destruct (run_calls_at kept F n s s' g c (with_ticks ts w)) as (g' & c' & w' & -> & Hw' & Hbe);
      [by eapply run_views|done|by intros l Hl; rewrite Hl in Ha|intros d Hd; by apply Hheld|done|].
    eexists. split; [done|]. split; [done|]. by apply inv_make.
  - destruct (service_step _ _ _ _ _); [|done]. injection Hst as <-. by apply Hdone.
  - destruct (service_step _ _ _ _ _); [|done]. injection Hst as <-. by apply Hdone.
  - destruct (alive s); [|done]. injection Hst as <-. by apply Hdone.
  - destruct (stoppers s !! k) as [p|] eqn:Hk; [|done]. cbn -[stop_step] in Hst.
    destruct (stop_step p s) as [[s1 p1]|] eqn:Hp; [|done]. injection Hst as <-.
    pose proof (stop_listener _ _ _ _ Hp) as Hl. destruct (stop_step_moved _ _ _ _ Hp).
    destruct (close_listener_at F n p s g c _ (set_stoppers (<[k:=p1]> (stoppers s1)) s1) Hw Hl)
      as (w' & E & _ & Hw'); [cbn; by rewrite sm_places|].
    cbn. unfold calling. cbn. rewrite E. by apply Hdone.
  - destruct (threads s !! k) as [h|] eqn:Hk; [|done]. cbn -[forallb] in Hst.
    destruct (forallb _ a); [|done]. injection Hst as <-. apply Hdone; [|done].
    apply (at_world_same F n s g c (with_ticks ts w)); try done. by rewrite (places_same _ h).
  - destruct (threads s !! k) as [h|] eqn:Hk; [|done]. cbn -[forallb] in Hst.
    destruct (h_shut h || _); [done|]. injection Hst as <-. apply Hdone; [|done].
    apply (at_world_same F n s g c (with_ticks ts w)); try done. by rewrite (places_same _ h).
Qed.

(** What is accepted is what the server expects. *)
Lemma hosted_accepts listener F n x l ts i i' r w1 s' :
  hosted_inv listener F n x -> run (host x) = RAccept l ->
  accept_same_user euid l (with_ticks ts (world x)) = Some (r, w1) -> accept_input i r = Some i' ->
  vstep (VRun i') (host x) = Some s' ->
  hosted_inv listener F n (mk_Hosted s' (socket_node x) (accepted_descriptor r) w1).
Proof.
  intros Hx Hrun Ha Hi Hstep. pose proof (inv_world _ _ _ _ ts Hx) as Hw.
  assert (connection x = -1) as Hc by (apply (hi_empty _ _ _ _ Hx); by rewrite Hrun). rewrite Hc in Hw.
  destruct (accept_at F n i i' (host x) s' (socket_node x) _ l r w1 Hrun Hw Ha Hi Hstep) as [H1 H2].
  apply inv_make; [|done|done]. econstructor; [apply Hx|exact Hstep].
Qed.

(** A step on the world is one of the server. *)
Lemma hosted_server_step x e kept ts x' :
  xstep e kept ts x = Some x' -> exists e', vstep e' (host x) = Some (host x').
Proof.
  intros Hstep. unfold hosted_step in Hstep. cbn -[server_step run_calls handler_calls close_listener] in Hstep.
  destruct e as [k i|i|k i|k i| |k|k a|k cp];
    [|destruct (accepting (run (host x)))|..];
    repeat match type of Hstep with
    | (?v ≫= _) = Some _ =>
      lazymatch v with
      | context [server_step] => destruct v eqn:?
      | _ => destruct v as [?|]
      end; cbn [mbind option_bind] in Hstep; [|discriminate Hstep]
    | (let '(_, _) := ?v in _) = Some _ => destruct v
    | Some _ = Some _ => injection Hstep as <-
    end.
  all: try (eexists; cbn -[server_step]; eassumption).
  all: unfold calling in Hstep; match type of Hstep with (?v ≫= _) = _ => destruct v as [[[] ?]|] end;
    [|discriminate Hstep]; injection Hstep as <-; eexists; eassumption.
Qed.

Lemma hosted_inv_step listener F n x e kept ts x' :
  hosted_inv listener F n x -> xstep e kept ts x = Some x' -> hosted_inv listener F n x'.
Proof.
  intros Hx Hstep. destruct (accepts e (host x)) eqn:Ha.
  - unfold accepts in Ha. destruct e as [|i| | | | | |]; try done.
    destruct (accepting (run (host x))) as [l|] eqn:Hl; [|done].
    unfold hosted_step in Hstep. cbn -[server_step] in Hstep. rewrite Hl in Hstep.
    assert (run (host x) = RAccept l) as Hrun by (destruct (run (host x)); try done; by injection Hl as ->).
    destruct (match i with RProceed => None | _ => _ end) as [[r w1]|] eqn:Hacc; [|done].
    cbn -[server_step] in Hstep. destruct (accept_input i r) as [i'|] eqn:Hi; [|done].
    cbn -[server_step] in Hstep. destruct (vstep (VRun i') (host x)) as [s'|] eqn:Hs; [|done].
    injection Hstep as <-. eapply hosted_accepts; try done. by destruct i.
  - assert (exists s', vstep e (host x) = Some s') as [s' Hs].
    { unfold hosted_step in Hstep. cbn -[server_step] in Hstep. unfold accepts in Ha.
      destruct e as [k i|i| | | | | |]; try destruct (accepting (run (host x))); try done;
        match type of Hstep with (?v ≫= _) = _ => destruct v as [s'|] eqn:E; [by exists s'|done] end. }
    destruct (hosted_follows _ _ _ _ _ kept ts _ Hx Hs Ha) as (x1 & H1 & _ & H2). congruence.
Qed.
End Owning.

(** ** Construction *)

Section Constructing.
Context `{HK : KernelLaws} {RT : Runtime} {P : Posix}.
Context (config : ServerConfig).

Lemma destroy_guard_owned F n l g w :
  owns F n (owning (parent_directory g) ++ l) w ->
  exists w', destroy_guard g w = Some (tt, w') /\ owns F n l w'.
Proof.
  intros Ho. unfold destroy_guard. cbv [mbind sys_bind].
  destruct (remove_ends g w) as (w1 & -> & Hf & Hb).
  destruct (destroy_owned F n l w1 (parent_directory g)) as (w' & E & H1 & _); [by eapply owns_frame|].
  by exists w'.
Qed.

Lemma destroy_listener_owned F n l made w :
  owns F n (owning (parent_directory made.2) ++ owning made.1 ++ l) w ->
  exists w', destroy_listener made w = Some (tt, w') /\ owns F n l w'.
Proof.
  intros Ho. unfold destroy_listener. cbv [mbind sys_bind].
  destruct (destroy_guard_owned _ _ _ _ _ Ho) as (w1 & -> & H1).
  destruct (destroy_owned _ _ _ _ _ H1) as (w' & E & H2 & _). by exists w'.
Qed.

(** Moving the guard into the member. *)
Lemma move_into_member g w : exists rest,
  move_construct_guard g w = Some (g, rest, w) /\ parent_directory rest = -1 /\
  node_state rest <> NodeState.Armed /\ destroy_listener (-1, rest) w = Some (tt, w).
Proof. eexists. by destruct g. Qed.

(** A created listener is owned. *)
Lemma listening_owned backlog F n parent leaf fd g w w0 :
  listening backlog F n parent leaf (fd, g) w -> fds w0 = F -> bad_closes w0 = n ->
  0 <= fd /\ directory_at g w /\ owns F n (owning (parent_directory g) ++ owning fd ++ []) w.
Proof.
  intros (H0 & H0' & Hfr & Hfr' & Hne & _ & _ & _ & Hw) <- <-. split; [done|].
  unfold directory_at, owning. split.
  { rewrite (proj2 (Z.leb_le 0 _) H0'). intros d ->%list_elem_of_singleton. destruct Hw as [-> _].
    by rewrite lookup_insert_ne, lookup_insert_eq. }
  rewrite (proj2 (Z.leb_le 0 _) H0), (proj2 (Z.leb_le 0 _) H0').
  eapply owns_proper; [apply perm_swap|reflexivity|]. cbn.
  eapply (owns_open _ _ _ (set_fds (<[parent_directory g := (ODirectory (parent_identity g), true)]> (fds w0)) w0));
    [|done| |exact Hw].
  - eapply owns_open; [apply owns_start|done|done|]. by split.
  - cbn. by rewrite lookup_insert_ne.
Qed.

(** The constructor always comes to an end. *)
Lemma construct_ends i w : exists r w',
  construct config i w = Some (r, w') /\
  match r with
  | inl _ => fds w' = fds w /\ bad_closes w' = bad_closes w
  | inr (fd, g) => server_refused config = None /\ i = ImplBuilt /\ 0 <= fd /\ directory_at g w' /\
      owns (fds w) (bad_closes w) (owning (parent_directory g) ++ owning fd ++ []) w'
  end.
Proof.
  unfold construct. destruct (server_refused config) as [what|]; [by eexists (inl _), w|].
  pose proof (runs_create_unix_listener False (fds w) (bad_closes w) (scfg_socket_path config)
    (scfg_listen_backlog config) w (conj eq_refl eq_refl)) as Hc.
  cbv [mbind sys_bind]. destruct (create_unix_listener _ _ w) as [[[[fd g]|st] w1]|]; [| |done].
  2: { destruct Hc as [_ [? ?]]. eexists (inl _), w1. by split. }
  destruct Hc as (parent & leaf & _ & _ & Hl). destruct (listening_owned _ _ _ _ _ _ _ _ w Hl) as (H0 & Hdir & Ho); [done..|].
  destruct (destroy_listener_owned _ _ _ (fd, g) _ Ho) as (w2 & Hd & Ho2). apply owns_nil in Ho2.
  unfold construct_impl. destruct i as [e|e|].
  - cbv [mbind sys_bind]. rewrite Hd. by eexists (inl _), w2.
  - destruct (move_into_member g w1) as (rest & Hm & Hrd & _ & Hr). cbv [mbind sys_bind]. cbn [fst snd]. rewrite Hm.
    cbn beta iota. destruct (destroy_guard_owned _ _ _ _ _ Ho) as (w3 & -> & Ho3).
    destruct (destroy_listener_owned (fds w) (bad_closes w) [] (fd, rest) w3) as (w4 & -> & Ho4);
      [cbn; by rewrite Hrd|].
    apply owns_nil in Ho4. by eexists (inl _), w4.
  - destruct (move_into_member g w1) as (rest & Hm & Hrd & _ & Hr). cbv [mbind sys_bind]. cbn [fst snd]. rewrite Hm.
    cbn beta iota. cbn [release_descriptor]. rewrite Hr. by eexists (inr _), w1.
Qed.

Lemma refused_valid : server_refused config = None -> server_config_valid config = true.
Proof. unfold server_refused. by destruct (server_config_valid config). Qed.

Context (instance_id : Z) (daemon_version broken_pipe : bytes) (euid : Z).

Abbreviation vreach := (server_reachable config instance_id daemon_version broken_pipe).
Abbreviation vstep := (server_step config instance_id daemon_version broken_pipe).
Abbreviation xstep := (hosted_step config instance_id daemon_version broken_pipe euid).
Abbreviation xreach := (hosted_reachable config instance_id daemon_version broken_pipe euid).

Lemma hosted_inv_initial start made w :
  construct config ImplBuilt start = Some (inr made, w) ->
  server_refused config = None /\ 0 <= made.1 /\
  hosted_inv config instance_id daemon_version broken_pipe euid made.1 (fds start) (bad_closes start)
    (hosted_initial config made w).
Proof.
  destruct made as [fd g]. intros Hc. destruct (construct_ends ImplBuilt start) as (r & w' & Hc' & Hr).
  rewrite Hc in Hc'. injection Hc' as <- <-. destruct Hr as (Href & _ & H0 & Hdir & Ho).
  split_and!; [done|done|]. split; cbn; try done; [constructor| |by intros d ?%not_elem_of_nil].
  unfold all_fds, streams. cbn. eapply owns_proper; [|reflexivity|exact Ho].
  apply Permutation_app_swap_app.
Qed.

Lemma hosted_inv_reachable start x :
  is_uint 32 (scfg_maximum_active_connections config) -> xreach start x ->
  server_config_valid config = true /\ exists listener,
    hosted_inv config instance_id daemon_version broken_pipe euid listener (fds start) (bad_closes start) x.
Proof.
  intros Hu. induction 1 as [made w Hc|x e kept ts x' _ [Hv [l IH]] Hstep].
  - destruct (hosted_inv_initial _ _ _ Hc) as (Href & _ & Hi). split; [by apply refused_valid|by eexists].
  - split; [done|]. exists l. by eapply hosted_inv_step.
Qed.

(** Past [socket_node] in the destructor everything was given back. *)
Lemma torn_released start x :
  is_uint 32 (scfg_maximum_active_connections config) -> xreach start x ->
  torn (run (host x)) = true ->
  fds (world x) = fds start /\ bad_closes (world x) = bad_closes start.
Proof.
  intros Hu Hx. destruct (hosted_inv_reachable _ _ Hu Hx) as (Hv & l & Hi).
  destruct (inv_reachable _ _ _ _ _ _ Hv Hu (hi_server _ _ _ _ _ _ _ _ _ Hi)) as [[Hok Hh Hd Hc] Hacc].
  intros Ht. apply owns_nil. pose proof (hi_owns _ _ _ _ _ _ _ _ _ Hi) as Ho.
  assert (run (host x) = DService \/ (exists w, run (host x) = DWorkers w) \/ run (host x) = Gone) as Hr
    by (destruct (run (host x)); eauto; done).
  assert (forall k h, threads (host x) !! k = Some h -> h_pc h = HEnd) as Hend.
  { eapply taken_ended; [exact Hacc|..]; by destruct Hr as [->|[[w ->]| ->]]. }
  pose proof (shutting_reachable _ _ _ _ _ _ Hv Hu (hi_server _ _ _ _ _ _ _ _ _ Hi)) as Hsh.
  unfold all_fds, streams in Ho.
  rewrite (closed_beyond _ _ Hsh Hend (or_intror Hr)), (hi_torn _ _ _ _ _ _ _ _ _ Hi Ht) in Ho.
  rewrite (hi_empty _ _ _ _ _ _ _ _ _ Hi) in Ho by (by destruct Hr as [->|[[w ->]| ->]]).
  assert (open_fds (place <$> threads (host x)) = []) as Hn; [|by rewrite Hn in Ho].
  apply elem_of_nil_inv. intros d (p & -> & [Hp (h & -> & [k Hk]%list_elem_of_lookup)%list_elem_of_fmap]
    %list_elem_of_filter)%list_elem_of_fmap. unfold opened, place in Hp. cbn in Hp.
  by rewrite (Hend _ _ Hk) in Hp.
Qed.


(** C19: The server with its system calls refines the server alone and is not held back by it:
    each of its steps is a step of [Server], so whatever holds of every run of the server
    holds on the world; each step of [Server] outside [accept_same_user] can be taken on
    the world, its system calls return whatever the others do; and when
    [accept_same_user] returns, the server goes on with exactly the peer, the rejection or
    the failure it returned: the descriptor of a new connection is never one the server
    still uses. *)
Theorem server_runs_on_world start x :
  is_uint 32 (scfg_maximum_active_connections config) -> xreach start x ->
  (exists listener, vreach listener (host x)) /\
  (forall e kept ts x', xstep e kept ts x = Some x' -> exists e', vstep e' (host x) = Some (host x')) /\
  (forall e kept ts s', vstep e (host x) = Some s' -> accepts e (host x) = false ->
     exists x', xstep e kept ts x = Some x' /\ host x' = s') /\
  (forall l kept ts r w capacity, run (host x) = RAccept l ->
     accept_same_user euid l (with_ticks ts (world x)) = Some (r, w) ->
     forallb capacity_ok capacity = true ->
     exists x', xstep (VRun (RAnswer (AcceptedPeer 0 capacity))) kept ts x = Some x' /\ world x' = w /\
       run (host x') = RTest match disposition r with
                             | Accepted => AcceptedPeer (accepted_descriptor r) capacity
                             | PeerRejected => RejectedPeer
                             | FatalFailure => AcceptFailed (accept_status r)
                             end).
Proof.
  intros Hu Hx. destruct (hosted_inv_reachable _ _ Hu Hx) as (Hv & l & Hi). split_and!.
  - exists l. apply Hi.
  - intros e kept ts x' Hstep. by eapply hosted_server_step.
  - intros e kept ts s' Hs Ha.
    destruct (hosted_follows _ _ _ _ _ Hv Hu _ _ _ _ _ kept ts _ Hi Hs Ha) as (x' & H1 & H2 & _).
    by exists x'.
  - intros ln kept ts r w capacity Hrun Ha Hcap.
    pose proof (runs_accept_same_user (fds (world x)) (bad_closes (world x)) euid ln
      (with_ticks ts (world x)) (conj eq_refl eq_refl)) as Hp. rewrite Ha in Hp. unfold accept_post in Hp.
    unfold hosted_step. cbn -[accept_same_user server_step]. rewrite Hrun. cbn -[accept_same_user server_step].
    rewrite Ha. cbn -[server_step]. unfold accept_input. destruct (disposition r) eqn:Hd; cbn -[run_step];
      unfold run_step; rewrite Hrun; [|by eexists..].
    destruct Hp as (_ & H0 & Hfd & _).
    rewrite (accept_fresh euid (fds start) (bad_closes start) (host x) (socket_node x) (connection x) (world x)
      (accepted_descriptor r)), Hcap; [| |done|done].
    + cbn. by eexists.
    + split_and!; apply Hi.
Qed.
End Constructing.
