(* ===== verification/HostedFiles.v ===== *)
(** The server's socket node from its creation to its removal: while other processes leave
    it alone, it is there exactly as long as the server serves. *)
From S2P Require Import Prelude OrdMap Kernel Protocol Wire Codec Frame Jobs JobSystem.
From S2P Require Import Service Server ServerSpec ServerLife ServerStop ServerShut.
From S2P Require Import Posix UnixSocket UnixSocketSpec Hosted HostedSpec HostedLife.

(** ** One entry of the file system *)

Section Entry.
Context (key : identity * bytes) (parent : bytes).

(** Others leave the entry alone, and what the parent's path resolves to. *)
Definition gentle (t : tick) : Prop :=
  forall o, entries (others t o) !! key = entries o !! key /\
    resolved (others t o) !! parent = resolved o !! parent.

(** No call is refused. *)
Definition unrefused (t : tick) : Prop := refused t = None.

Record here (e r : option node) (w : World) : Prop := {
  he_entry : entries (outside w) !! key = e;
  he_parent : resolved (outside w) !! parent = r;
  he_ticks : Forall gentle (ticks w);
}.

Lemma here_acted e r w : here e r w -> here e r (acted w).
Proof.
  intros [He Hr Ht]. unfold acted. destruct (ticks w) as [|t ts] eqn:Hts; [by split; rewrite ?Hts|].
  apply Forall_cons in Ht as [Hg Ht]. destruct (Hg (outside w)) as [H1 H2].
  split; cbn; [by rewrite H1|by rewrite H2|done].
Qed.

(** Computations that leave the entry alone. *)
Definition keeps {A} (m : sys A) : Prop :=
  forall e r w a w', here e r w -> m w = Some (a, w') -> here e r w'.

Lemma keeps_ret {A} (a : A) : keeps (mret a).
Proof. by intros e r w b w' Hw [= _ <-]. Qed.

Lemma keeps_bind {A B} (m : sys A) (k : A -> sys B) :
  keeps m -> (forall a, keeps (k a)) -> keeps (m ≫= k).
Proof.
  intros Hm Hk e r w b w' Hw. cbv [mbind sys_bind]. destruct (m w) as [[a w1]|] eqn:E; [|done].
  apply Hk. by eapply Hm.
Qed.

Lemma keeps_call {A} (act : World -> option (answer A * World)) : keeps act -> keeps (syscall act).
Proof.
  intros Ha e r w a w' Hw%here_acted. destruct (syscall_cases act w) as [[x ->]| ->].
  - by intros [= _ <-].
  - by apply Ha.
Qed.

Lemma keeps_retry {A} `{Posix} (call : sys (answer A)) : keeps call -> keeps (retry call).
Proof.
  intros Hc. assert (forall fuel, keeps (retry_fuel fuel call)) as Hf; [|by intros e r w; apply Hf].
  induction fuel as [|fuel IH]; [done|]. cbn [retry_fuel]. apply keeps_bind; [done|].
  intros [x|x]; [destruct (_ =? _); [done|]|]; apply keeps_ret.
Qed.

(** An act that changes neither files nor schedule. *)
Lemma keeps_act {A} (act : World -> option (A * World)) :
  (forall w a w', act w = Some (a, w') -> ticks w' = ticks w /\
     entries (outside w') = entries (outside w) /\ resolved (outside w') = resolved (outside w)) ->
  keeps act.
Proof. intros Ha e r w a w' [H1 H2 H3] (E1 & E2 & E3)%Ha. by split; rewrite ?E1, ?E2, ?E3. Qed.

Section Calls.
Context `{EC : ErrorCodes} {P : Posix}.

Lemma keeps_close d : keeps (sys_close d).
Proof. apply keeps_act. unfold sys_close. intros w a w'. by case_bool_decide; intros [= _ <-]. Qed.

Lemma keeps_destroy d : keeps (destroy_descriptor d).
Proof.
  apply keeps_bind; [|intros a; apply keeps_ret]. apply keeps_bind; [|intros a; apply keeps_ret].
  destruct (0 <=? d); [apply keeps_close|apply keeps_ret].
Qed.

Lemma keeps_accept l flag : keeps (sys_accept l flag).
Proof.
  apply keeps_call, keeps_act. intros w a w'. destruct (fds w !! l) as [[[]]|]; try by intros [= _ <-].
  destruct (pending (outside w)); by intros [= _ <-].
Qed.

Lemma keeps_accept_stream l : keeps (accept_stream l).
Proof.
  apply keeps_bind; [apply keeps_retry, keeps_accept|]. intros [e|fd]; [|apply keeps_ret].
  destruct (_ && _); [apply keeps_ret|]. apply keeps_bind; [apply keeps_retry, keeps_accept|].
  intros [x|fd]; [apply keeps_ret|]. apply keeps_bind.
  - apply keeps_bind; [|intros [x|x]; [apply keeps_ret|]].
    + apply keeps_retry, keeps_call, keeps_act. intros w a w'.
      destruct (fds w !! fd) as [[]|]; by intros [= _ <-].
    + apply keeps_bind; [|intros; apply keeps_ret]. apply keeps_retry, keeps_call, keeps_act.
      intros w a w'. destruct (fds w !! fd) as [[]|]; by intros [= _ <-].
  - intros st. destruct (status_ok st); [apply keeps_ret|].
    apply keeps_bind; [apply keeps_destroy|intros; apply keeps_ret].
Qed.

Lemma keeps_accept_same_user euid l : keeps (accept_same_user euid l).
Proof.
  apply keeps_bind; [apply keeps_accept_stream|]. intros [fd|st]; [|apply keeps_ret].
  apply keeps_bind; [apply keeps_ret|]. intros [fd'|st]; [|apply keeps_ret].
  apply keeps_bind.
  - apply keeps_bind; [|intros; apply keeps_ret]. apply keeps_call, keeps_act. intros w a w'.
    destruct (fds w !! fd') as [[[]]|]; by intros [= _ <-].
  - intros [[] st]; [apply keeps_ret|..];
      (apply keeps_bind; [apply keeps_destroy|intros; apply keeps_ret]).
Qed.
End Calls.
End Entry.

(** ** Removing the node *)

Section Removing.
Context `{EC : ErrorCodes} {P : Posix}.

Lemma syscall_unrefused {A} (act : World -> option (answer A * World)) w :
  Forall unrefused (ticks w) -> syscall act w = act (acted w) /\ Forall unrefused (ticks (acted w)).
Proof.
  unfold syscall, acted. destruct (ticks w) as [|t ts] eqn:Ht; [by rewrite Ht|].
  intros [-> Hu]%Forall_cons. done.
Qed.

Lemma remove_spent g w :
  node_state g <> NodeState.Armed -> remove g w = Some (set_node_state NodeState.Consumed g, w).
Proof. intros Hn. unfold remove. by rewrite (bool_decide_eq_false_2 _ Hn). Qed.

(** An armed guard whose calls succeed removes the entry it has captured. *)
Lemma gentle_remove g w b :
  let key := (parent_identity g, leaf_name g) in
  let directory := Some (parent_identity g, Directory) in
  node_state g = NodeState.Armed -> 0 <= parent_directory g ->
  fds w !! parent_directory g = Some (ODirectory (parent_identity g), b) ->
  here key (parent_path g) (Some (node_identity g, SocketNode)) directory w ->
  Forall unrefused (ticks w) ->
  exists w', remove g w = Some (set_node_state NodeState.Consumed g, w') /\
    here key (parent_path g) None directory w'.
Proof.
  intros key directory Ha H0 Hd Hw Hu. unfold remove, same_identity. rewrite (bool_decide_eq_true_2 _ Ha).
  replace (parent_directory g <? 0) with false by lia. cbn [negb orb].
  cbv [mbind sys_bind mret sys_ret]. unfold sys_fstat at 1.
  destruct (syscall_unrefused (fun w => match fds w !! parent_directory g with
    | Some (ODirectory id, _) => Some (inr (id, Directory), w)
    | Some _ => Some (inr ((0, parent_directory g), SocketNode), w)
    | None => Some (inl EBADF, w) end) w Hu) as [-> Hu1].
  pose proof (here_acted _ _ _ _ _ Hw) as Hw1. destruct (acted_same w) as (Hf1 & _).
  rewrite Hf1, Hd. cbn beta iota. rewrite bool_decide_eq_true_2 by done. cbn [negb].
  unfold parent_path_matches, same_identity, sys_stat. cbv [mbind sys_bind mret sys_ret].
  destruct (syscall_unrefused (fun w => match resolved (outside w) !! parent_path g with
    | Some n => Some (inr n, w) | None => Some (inl ENOENT, w) end) (acted w) Hu1) as [-> Hu2].
  pose proof (here_acted _ _ _ _ _ Hw1) as Hw2. destruct (acted_same (acted w)) as (Hf2 & _).
  rewrite (he_parent _ _ _ _ _ Hw2). unfold directory at 1. rewrite !bool_decide_eq_true_2 by done.
  cbn [andb negb]. unfold sys_fstatat. set (w2 := acted (acted w)) in *.
  match goal with |- context [syscall ?act w2] => destruct (syscall_unrefused act w2 Hu2) as [-> Hu3] end.
  pose proof (here_acted _ _ _ _ _ Hw2) as Hw3. destruct (acted_same w2) as (Hf3 & _).
  rewrite Hf3, Hf2, Hf1, Hd. fold key. rewrite (he_entry _ _ _ _ _ Hw3).
  rewrite bool_decide_eq_true_2 by done. cbn [negb]. unfold sys_unlinkat. set (w3 := acted w2) in *.
  match goal with |- context [syscall ?act w3] => destruct (syscall_unrefused act w3 Hu3) as [-> Hu4] end.
  pose proof (here_acted _ _ _ _ _ Hw3) as [_ Hp4 Ht4]. destruct (acted_same w3) as (Hf4 & _).
  rewrite Hf4, Hf3, Hf2, Hf1, Hd. eexists. split; [done|]. split; cbn; [|done|done].
  apply lookup_delete_eq.
Qed.
End Removing.

(** ** The life of the node *)

Section Life.
Context `{HK : KernelLaws} {RT : Runtime} {P : Posix}.
Context (config : ServerConfig) (instance_id : Z) (daemon_version broken_pipe : bytes) (euid : Z).

Abbreviation hstep := (handler_step config instance_id daemon_version broken_pipe).
Abbreviation rstep := (run_step config instance_id daemon_version).
Abbreviation vstep := (server_step config instance_id daemon_version broken_pipe).
Abbreviation xstep := (hosted_step config instance_id daemon_version broken_pipe euid).

(** At [socket_node.remove()]. *)
Definition removing (r : run_pc) : bool := match r with RRemove _ | DRemove => true | _ => false end.

Lemma stop_node p s s1 p1 : stop_step p s = Some (s1, p1) -> socket_node_owned s1 = socket_node_owned s.
Proof. destruct p; cbn; [destruct (stopping s)|..]; by intros [= <- _]. Qed.

Lemma handler_node i k s s' : hstep i k s = Some s' -> socket_node_owned s' = socket_node_owned s.
Proof.
  intros Hstep. unfold handler_step in Hstep. destruct (threads s !! k) as [h|]; [|done].
  cbn -[service_step stop_step] in Hstep.
  destruct (h_pc h); try (destruct p);
    repeat match type of Hstep with
    | Some _ = Some _ => injection Hstep as <-
    | (match ?x with _ => _ end) = Some _ => destruct x; try discriminate Hstep
    | (stop_step ?p ?s ≫= _) = Some _ =>
      destruct (stop_step p s) as [[? ?]|] eqn:?; cbn [mbind option_bind] in Hstep; try discriminate Hstep
    | (?x ≫= _) = Some _ => destruct x; cbn [mbind option_bind] in Hstep; try discriminate Hstep
    end; first [done|cbn; by eapply stop_node].
Qed.

Lemma run_node i s s' :
  rstep i s = Some s' ->
  socket_node_owned s' = if removing (run s) then false else socket_node_owned s.
Proof.
  intros Hstep. unfold run_step in Hstep. destruct (run s) as [| | |l|a|d cp j|d cp|d cp|d cp|d cp|b e|p st|p o|o|lst o|o|o|p| |lst| | |wk|];
    cbn -[service_step stop_step] in Hstep; try (destruct p);
    repeat match type of Hstep with
    | Some _ = Some _ => injection Hstep as <-
    | (match ?x with _ => _ end) = Some _ => destruct x; try discriminate Hstep
    | (stop_step ?p ?s ≫= _) = Some _ =>
      destruct (stop_step p s) as [[? ?]|] eqn:?; cbn [mbind option_bind] in Hstep; try discriminate Hstep
    | (?x ≫= _) = Some _ => destruct x; cbn [mbind option_bind] in Hstep; try discriminate Hstep
    end; cbn; first [done|by eapply stop_node|by destruct b].
Qed.

(** Only [remove] settles what becomes of the node. *)
Lemma vstep_node e s s' :
  vstep e s = Some s' ->
  socket_node_owned s' = match e with
                         | VRun _ => if removing (run s) then false else socket_node_owned s
                         | _ => socket_node_owned s
                         end.
Proof.
  intros Hs. destruct e; cbn -[handler_step run_step service_step stop_step arrival_ok] in Hs.
  - by eapply handler_node.
  - by eapply run_node.
  - destruct (service_step _ _ _ _ _); [|done]. by injection Hs as <-.
  - destruct (service_step _ _ _ _ _); [|done]. by injection Hs as <-.
  - destruct (alive _); [|done]. by injection Hs as <-.
  - destruct (stoppers s !! n) as [p|]; [|done]. cbn -[stop_step] in Hs.
    destruct (stop_step p s) as [[s1 p1]|] eqn:Hp; [|done]. injection Hs as <-. cbn. by eapply stop_node.
  - destruct (threads s !! k); [|done]. cbn -[arrival_ok] in Hs. destruct (forallb _ _); [|done].
    by injection Hs as <-.
  - destruct (threads s !! k); [|done]. cbn in Hs. destruct (_ || _); [done|]. by injection Hs as <-.
Qed.

(** The calls of the accepting thread elsewhere. *)
Lemma run_calls_keeps kept key parent r r' s g c :
  removing r = false ->
  keeps key parent (run_calls kept r r' s g c) /\
  forall w g' c' w', run_calls kept r r' s g c w = Some (g', c', w') -> g' = g.
Proof.
  assert (keeps key parent (mret (g, c)) /\
    forall w g' c' w', (mret (g, c) : sys (SocketNodeGuard * Z)) w = Some (g', c', w') -> g' = g) as Hret.
  { split; [apply keeps_ret|]. by intros w g' c' w' [= <- _ _]. }
  assert (forall (m : sys unit) (b : Z), keeps key parent m ->
    keeps key parent (_ ← m; mret (g, b)) /\
    forall w g' c' w', (_ ← m; mret (g, b)) w = Some (g', c', w') -> g' = g) as Hbind.
  { intros m b Hm. split; [by apply keeps_bind; [|intros; apply keeps_ret]|].
    intros w g' c' w'. cbv [mbind sys_bind mret sys_ret]. destruct (m w) as [[? ?]|]; [|done].
    by intros [= <- _ _]. }
  assert (forall p, keeps key parent (close_listener p s)) as Hclose.
  { intros []; try apply keeps_ret. cbn. destruct (0 <=? _); [apply keeps_close|apply keeps_ret]. }
  intros Hr. destruct r; try discriminate Hr; cbn [run_calls destructor_calls]; try exact Hret;
    try (apply Hbind, Hclose); try (apply Hbind, keeps_destroy);
    destruct r'; try exact Hret; try (apply Hbind, keeps_destroy);
    try (destruct kept; [exact Hret|apply Hbind, keeps_destroy]).
  all: split; [apply keeps_ret|]; by intros ? ? ? ? [= <- _ _].
Qed.

Lemma calling_files s' m x x' :
  (forall key parent, keeps key parent m) -> calling s' m x = Some x' ->
  (forall key parent e r, here key parent e r (world x) -> here key parent e r (world x')) /\
  socket_node x' = socket_node x /\ host x' = s'.
Proof.
  intros Hm. unfold calling. destruct (m (world x)) as [[[] w]|] eqn:E; [|done]. intros [= <-].
  split; [|done]. intros key parent e r Hw. by eapply Hm.
Qed.

(** A step leaves the files alone, or removes the node. *)
Lemma xstep_files x e kept ts x' :
  xstep e kept ts x = Some x' ->
  (forall key parent n r, here key parent n r (with_ticks ts (world x)) ->
     here key parent n r (world x')) /\
    socket_node x' = socket_node x /\ socket_node_owned (host x') = socket_node_owned (host x) \/
  removing (run (host x)) = true /\ socket_node_owned (host x') = false /\
    exists c', run_calls kept (run (host x)) (run (host x')) (host x) (socket_node x) (connection x)
      (with_ticks ts (world x)) = Some (socket_node x', c', world x').
Proof.
  intros Hstep. unfold hosted_step in Hstep.
  cbn -[server_step run_calls handler_calls close_listener] in Hstep.
  assert (forall s' m, (forall key parent, keeps key parent m) -> socket_node_owned s' = socket_node_owned (host x) ->
    calling s' m (mk_Hosted (host x) (socket_node x) (connection x) (with_ticks ts (world x))) = Some x' ->
    (forall key parent n r, here key parent n r (with_ticks ts (world x)) ->
       here key parent n r (world x')) /\
    socket_node x' = socket_node x /\ socket_node_owned (host x') = socket_node_owned (host x)) as Hcall.
  { intros s' m Hm Ho Hc. destruct (calling_files _ _ _ _ Hm Hc) as (H1 & H2 & ->). done. }
  assert (forall p s key parent, keeps key parent (close_listener p s)) as Hclose.
  { intros [] s key parent; try apply keeps_ret. cbn. destruct (0 <=? _); [apply keeps_close|apply keeps_ret]. }
  assert (forall s', vstep e (host x) = Some s' -> (forall i, e <> VRun i) ->
    socket_node_owned s' = socket_node_owned (host x)) as Hnode.
  { intros s' Hs%vstep_node Hi. rewrite Hs. destruct e; try done. by destruct (Hi i). }
  destruct e as [k i|i|k i|k i| |k|k a|k cp];
    [left|destruct (accepting (run (host x))) as [l|] eqn:Hl|left..].
  2: { left. destruct (match i with RProceed => None | _ => _ end) as [[r w1]|] eqn:Ha; [|done].
    cbn -[server_step] in Hstep. destruct (accept_input i r) as [i'|]; [|done].
    cbn -[server_step] in Hstep. destruct (vstep (VRun i') (host x)) as [s'|] eqn:Hs; [|done].
    injection Hstep as <-. cbn. apply run_node in Hs.
    replace (removing (run (host x))) with false in Hs by (by destruct (run (host x))).
    split_and!; [|done|done]. intros key parent n rs Hw. apply (keeps_accept_same_user key parent euid l n rs _ r _ Hw).
    by destruct i. }
  2: { destruct (vstep _ _) as [s'|] eqn:Hs; [|done]. cbn -[run_calls] in Hstep.
    destruct (run_calls _ _ _ _ _ _ _) as [[[g' c'] w']|] eqn:Hc; [|done]. injection Hstep as <-. cbn.
    apply run_node in Hs. destruct (removing (run (host x))) eqn:Hr; [right|left].
    - split_and!; [done|done|]. by exists c'.
    - pose proof (fun key parent => run_calls_keeps kept key parent (run (host x)) (run s') (host x)
        (socket_node x) (connection x) Hr) as Hk. split_and!; [|by eapply (Hk ((0, 0), []) [])|done].
      intros key parent n r Hw. by eapply Hk. }
  all: destruct (vstep _ _) as [s'|] eqn:Hs; [|done]; specialize (Hnode s' eq_refl ltac:(done));
    cbn -[server_step] in Hstep.
  2-4,6-7: injection Hstep as <-; cbn; auto.
  - destruct (threads (host x) !! k) as [h|]; [|done]. eapply Hcall; [|done|exact Hstep].
    intros key parent. unfold handler_calls. destruct (h_pc h); auto using keeps_ret, keeps_destroy.
  - destruct (stoppers (host x) !! k) as [p|]; [|done]. eapply Hcall; [|done|exact Hstep]. auto.
Qed.

(** ** While others leave it alone *)

(** The steps of a server whose node others leave alone; where the node is removed the
    kernel does not refuse the calls. *)
Inductive left_alone (key : identity * bytes) (parent : bytes) (x0 : Hosted) : Hosted -> Prop :=
| alone_start : left_alone key parent x0 x0
| alone_step x e kept ts x' :
    left_alone key parent x0 x -> Forall (gentle key parent) ts ->
    (removing (run (host x)) = true -> Forall unrefused ts) -> xstep e kept ts x = Some x' ->
    left_alone key parent x0 x'.

(** The guard's key, and the directory its path leads to. *)
Definition key_of (g : SocketNodeGuard) : identity * bytes := (parent_identity g, leaf_name g).

Abbreviation here_of g e w :=
  (here (key_of g) (parent_path g) e (Some (parent_identity g, Directory)) w).

Record node_at (g : SocketNodeGuard) (x : Hosted) : Prop := {
  na_there : socket_node_owned (host x) = true ->
    socket_node x = g /\ here_of g (Some (node_identity g, SocketNode)) (with_ticks [] (world x));
  na_gone : socket_node_owned (host x) = false ->
    node_state (socket_node x) <> NodeState.Armed /\ here_of g None (with_ticks [] (world x));
}.

Lemma here_with key parent e r ts w :
  Forall (gentle key parent) ts -> here key parent e r (with_ticks [] w) ->
  here key parent e r (with_ticks ts w).
Proof. intros Ht [H1 H2 _]. by split. Qed.

Lemma here_without key parent e r w : here key parent e r w -> here key parent e r (with_ticks [] w).
Proof. intros [H1 H2 _]. split; [done|done|constructor]. Qed.

(** What a removal leaves. *)
Lemma removes kept g g1 x e ts s' g' c' w' :
  node_state g = NodeState.Armed -> Forall (gentle (key_of g) (parent_path g)) ts ->
  Forall unrefused ts -> removing (run (host x)) = true -> socket_node x = g1 ->
  (g1 = g /\ 0 <= parent_directory g /\ directory_at g (world x) \/ node_state g1 <> NodeState.Armed) ->
  here_of g e (with_ticks [] (world x)) -> (node_state g1 <> NodeState.Armed -> e = None) ->
  (g1 = g -> e = Some (node_identity g, SocketNode)) ->
  run_calls kept (run (host x)) (run s') (host x) g1 (connection x) (with_ticks ts (world x)) = Some (g', c', w') ->
  node_state g' <> NodeState.Armed /\ here_of g None (with_ticks [] w').
Proof.
  intros Ha Hg Hu Hr Hx Hg1 Hw Hnone Hsome Hc.
  assert (exists w1, remove g1 (with_ticks ts (world x)) = Some (set_node_state NodeState.Consumed g1, w1) /\
    here_of g None w1) as (w1 & Hrem & Hw1).
  { destruct Hg1 as [(-> & H0 & Hd)|Hn].
    - rewrite Hsome in Hw by done. eapply gentle_remove; try done; [|by apply here_with].
      apply Hd. unfold owning. rewrite (proj2 (Z.leb_le 0 _) H0). by left.
    - rewrite remove_spent by done. rewrite Hnone in Hw by done. eexists. split; [done|].
      by apply here_with. }
  destruct (run (host x)); try discriminate Hr; cbn [run_calls destructor_calls] in Hc;
    cbv [mbind sys_bind mret sys_ret] in Hc; rewrite Hrem in Hc.
  - destruct (destroy_descriptor (connection x) w1) as [[[] w2]|] eqn:Hd; [|done]. injection Hc as <- <- <-.
    split; [done|]. eapply here_without, keeps_destroy; [exact Hw1|exact Hd].
  - unfold destroy_guard in Hc. cbv [mbind sys_bind] in Hc. rewrite remove_spent in Hc by done.
    destruct (destroy_descriptor _ w1) as [[[] w2]|] eqn:Hd; [|done]. injection Hc as <- <- <-.
    split; [done|]. eapply here_without, keeps_destroy; [exact Hw1|exact Hd].
Qed.

Lemma node_at_step start g x e kept ts x' :
  is_uint 32 (scfg_maximum_active_connections config) ->
  hosted_reachable config instance_id daemon_version broken_pipe euid start x ->
  node_state g = NodeState.Armed -> 0 <= parent_directory g -> node_at g x ->
  Forall (gentle (key_of g) (parent_path g)) ts ->
  (removing (run (host x)) = true -> Forall unrefused ts) -> xstep e kept ts x = Some x' -> node_at g x'.
Proof.
  intros Hu Hx Ha H0 [Hthere Hgone] Hg Hrm Hstep.
  destruct (hosted_inv_reachable _ _ _ _ _ _ _ Hu Hx) as (_ & l & Hi).
  destruct (xstep_files _ _ _ _ _ Hstep)
    as [(Hk & Hn & Ho)|(Hr & Ho & c' & Hc)].
  - split; rewrite Ho, Hn; intros Hb; [destruct (Hthere Hb) as [Hs Hw]|destruct (Hgone Hb) as [Hs Hw]];
      (split; [done|]); by apply here_without, Hk, here_with.
  - split; rewrite Ho; [done|]. intros _. destruct (socket_node_owned (host x)) eqn:Hb.
    + destruct (Hthere eq_refl) as [Hs Hw].
      eapply (removes kept g g x); try done; [by apply Hrm|left|by rewrite Hs in Hc].
      split_and!; [done|done|]. rewrite <-Hs. apply Hi.
    + destruct (Hgone eq_refl) as [Hs Hw].
      eapply (removes kept g (socket_node x) x); try done; [by apply Hrm|by right|].
      intros E. by rewrite E in Hs.
Qed.

(** Past [socket_node] in the destructor the node is settled. *)
Lemma node_torn listener s :
  server_config_valid config = true -> is_uint 32 (scfg_maximum_active_connections config) ->
  server_reachable config instance_id daemon_version broken_pipe listener s ->
  torn (run s) = true -> socket_node_owned s = false.
Proof.
  intros Hv Hu. induction 1 as [|s e s' Hs IH Hstep]; [done|]. intros Ht.
  destruct (inv_reachable _ _ _ _ _ _ Hv Hu Hs) as [[Hok _ _ _] _].
  pose proof (vstep_node _ _ _ Hstep) as Hn.
  destruct (vstep_run _ _ _ _ _ _ _ Hok Hstep) as [[i ->]|Hr].
  - cbn -[run_step] in Hstep. apply run_views in Hstep. rewrite Hn.
    destruct (rv_torn _ _ Hstep Ht) as [Ht'|Hr]; [|by rewrite Hr].
    rewrite IH by done. by destruct (removing _).
  - rewrite Hr in Ht. rewrite Hn. destruct e; auto. rewrite IH by done. by destruct (removing _).
Qed.

(** Construction in a calm world. *)
Lemma calm_construct i O F n u r w :
  construct config i (calm O F n u) = Some (r, w) ->
  match r with
  | inl _ => outside w = O
  | inr (fd, g) => calm_made (scfg_listen_backlog config) O F n u fd g w
  end.
Proof.
  unfold construct. destruct (server_refused config); [by intros [= <- <-]|]. cbv [mbind sys_bind].
  destruct (create_unix_listener _ _ _) as [[cr w1]|] eqn:Hc; [|done].
  apply calm_create in Hc. destruct cr as [[fd g]|st]; [|by intros [= <- <-]].
  pose proof Hc as (Harm & H0 & H0' & Hne & Hf & Hd & Hp & He & ->).
  set (F1 := <[fd := (OListener (scfg_listen_backlog config), true)]>
    (<[parent_directory g := (ODirectory (parent_identity g), true)]> F)) in *.
  assert (F1 !! parent_directory g = Some (ODirectory (parent_identity g), true)) as Hg
    by (unfold F1; by rewrite lookup_insert_ne, lookup_insert_eq).
  destruct (calm_destroy_guard (set_entries (<[(parent_identity g, leaf_name g) :=
    (node_identity g, SocketNode)]> (entries O)) O) F1 n u g true Harm H0' Hg Hp (lookup_insert_eq _ _ _))
    as [u' Hdg].
  assert (entries O = delete (parent_identity g, leaf_name g) (<[(parent_identity g, leaf_name g) :=
    (node_identity g, SocketNode)]> (entries O))) as HO by (by rewrite delete_insert_id).
  assert (forall d w1 a w2, destroy_descriptor d w1 = Some (a, w2) -> outside w2 = outside w1) as Hdes.
  { intros d w1 a w2. unfold destroy_descriptor, reset. cbv [mbind sys_bind mret sys_ret].
    destruct (0 <=? d); [unfold sys_close; case_bool_decide|]; by intros [= _ <-]. }
  unfold construct_impl. destruct i as [e|e|].
  - unfold destroy_listener. cbv [mbind sys_bind mret sys_ret]. cbn [fst snd]. rewrite Hdg.
    destruct (destroy_descriptor fd _) as [[[] w2]|] eqn:Hd2; [|done]. intros [= <- <-].
    rewrite (Hdes _ _ _ _ Hd2). cbn. by rewrite <-HO; destruct O.
  - destruct (move_into_member g (calm (set_entries (<[(parent_identity g, leaf_name g) :=
      (node_identity g, SocketNode)]> (entries O)) O) F1 n u)) as (rest & Hm & _ & Hs & _).
    cbv [mbind sys_bind mret sys_ret]. cbn [fst snd]. rewrite Hm, Hdg. unfold destroy_listener.
    unfold destroy_guard. cbv [mbind sys_bind mret sys_ret]. cbn [fst snd]. rewrite remove_spent by done.
    destruct (destroy_descriptor _ (calm _ _ _ _)) as [[[] w3]|] eqn:Hd3; [|done].
    destruct (destroy_descriptor fd w3) as [[[] w2]|] eqn:Hd2; [|done]. intros [= <- <-].
    rewrite (Hdes _ _ _ _ Hd2), (Hdes _ _ _ _ Hd3). cbn. by rewrite <-HO; destruct O.
  - destruct (move_into_member g (calm (set_entries (<[(parent_identity g, leaf_name g) :=
      (node_identity g, SocketNode)]> (entries O)) O) F1 n u)) as (rest & Hm & _ & _ & Hr).
    cbv [mbind sys_bind mret sys_ret]. cbn [fst snd]. rewrite Hm. cbn [release_descriptor]. rewrite Hr.
    by intros [= <- <-].
Qed.

End Life.
