(* ===== verification/HostedShut.v ===== *)
(** The listener on the world: once [stop] has closed it its descriptor stays closed, and
    [accept_same_user] reports that to the accepting thread. *)
From S2P Require Import Prelude OrdMap Kernel Protocol Wire Codec Frame Jobs JobSystem.
From S2P Require Import Service Server ServerSpec ServerLife ServerStop ServerShut.
From S2P Require Import Posix UnixSocket UnixSocketSpec Hosted HostedSpec HostedLife.

(** ** A descriptor that is closed *)

Section Closed.
Context `{RT : Runtime} {P : Posix}.
Context (fd : Z).

(** Computations that do not open it again. *)
Definition leaves {A} (m : sys A) : Prop :=
  forall w a w', fds w !! fd = None -> m w = Some (a, w') -> fds w' !! fd = None.

Lemma leaves_ret {A} (a : A) : leaves (mret a).
Proof. by intros w b w' Hw [= _ <-]. Qed.

Lemma leaves_bind {A B} (m : sys A) (k : A -> sys B) :
  leaves m -> (forall a, leaves (k a)) -> leaves (m ≫= k).
Proof.
  intros Hm Hk w b w' Hw. cbv [mbind sys_bind]. destruct (m w) as [[a w1]|] eqn:E; [|done].
  apply Hk. by eapply Hm.
Qed.

Lemma leaves_close d : leaves (sys_close d).
Proof.
  intros w a w' Hw. unfold sys_close. case_bool_decide; intros [= _ <-]; [|done].
  cbn. apply lookup_delete_None. by right.
Qed.

Lemma leaves_destroy d : leaves (destroy_descriptor d).
Proof.
  apply leaves_bind; [|intros; apply leaves_ret]. apply leaves_bind; [|intros; apply leaves_ret].
  destruct (0 <=? d); [apply leaves_close|apply leaves_ret].
Qed.

Lemma leaves_remove g : leaves (remove g).
Proof.
  intros w a w' Hw. destruct (remove_ends g w) as (w1 & -> & Hf & _). intros [= _ <-]. by rewrite Hf.
Qed.

Lemma leaves_destroy_guard g : leaves (destroy_guard g).
Proof. apply leaves_bind; [apply leaves_remove|intros; apply leaves_destroy]. Qed.

Lemma leaves_close_listener p s : leaves (close_listener p s).
Proof.
  destruct p; try apply leaves_ret. cbn. destruct (0 <=? _); [apply leaves_close|apply leaves_ret].
Qed.

(** Whoever is at [StopListener] closes it. *)
Lemma closes_listener s w a w' :
  0 <= fd -> listener_fd s = fd -> close_listener StopListener s w = Some (a, w') -> fds w' !! fd = None.
Proof.
  intros H0 Hl. cbn. rewrite Hl, (proj2 (Z.leb_le 0 fd) H0). unfold sys_close.
  case_bool_decide as Hs; intros [= _ <-]; [apply lookup_delete_eq|]. by apply eq_None_not_Some.
Qed.

(** [accept] on it fails, whatever interferes. *)
Lemma accept_fails b w :
  fds w !! fd = None ->
  exists e w', sys_accept fd b w = Some (inl e, w') /\ fds w' = fds w.
Proof.
  intros Hw. unfold sys_accept. match goal with |- context [syscall ?act w] =>
    destruct (syscall_cases act w) as [[e ->]| ->] end.
  - exists e, (acted w). by destruct (acted_same w).
  - destruct (acted_same w) as (-> & _). rewrite Hw. exists EBADF, (acted w). by destruct (acted_same w).
Qed.

Lemma retry_fails b fuel w r w' :
  fds w !! fd = None -> retry_fuel fuel (sys_accept fd b) w = Some (r, w') ->
  (exists e, r = inl e) /\ fds w' = fds w.
Proof.
  revert w. induction fuel as [|fuel IH]; intros w Hw; [done|]. cbn [retry_fuel].
  cbv [mbind sys_bind mret sys_ret].
  destruct (accept_fails b w Hw) as (e & w1 & -> & Hf). destruct (e =? EINTR).
  - intros Hr. destruct (IH w1 ltac:(by rewrite Hf) Hr) as [He Hf1]. split; [done|congruence].
  - intros [= <- <-]. by split; [eexists|].
Qed.

Lemma accept_closed euid w r w' :
  fds w !! fd = None -> accept_same_user euid fd w = Some (r, w') -> fds w' = fds w.
Proof.
  intros Hw. unfold accept_same_user, accept_stream, retry. cbv [mbind sys_bind mret sys_ret].
  destruct (retry_fuel _ _ w) as [[a w1]|] eqn:E1; [|done].
  destruct (retry_fails _ _ _ _ _ Hw E1) as [[e ->] Hf1]. destruct (_ && _); [by intros [= _ <-]|].
  destruct (retry_fuel _ _ w1) as [[a w2]|] eqn:E2; [|done].
  destruct (retry_fails _ _ w1 _ _ ltac:(by rewrite Hf1) E2) as [[e2 ->] Hf2]. cbn.
  intros [= _ <-]. congruence.
Qed.
End Closed.

(** What it reports while nobody interferes. *)
Definition closed_status `{EC : ErrorCodes} {P : Posix} : Status :=
  errno_status (lit "local accept failed") EBADF.

Lemma accept_reports `{EC : ErrorCodes} {P : Posix} fd euid w :
  ticks w = [] -> fds w !! fd = None ->
  accept_same_user euid fd w = Some (mk_SameUserAcceptResult FatalFailure (-1) closed_status, w).
Proof.
  intros Ht Hw. pose proof errno_distinct as Hd.
  assert (EBADF <> EINTR /\ EBADF <> ENOSYS /\ EBADF <> EINVAL) as (H1 & H2 & H3)
    by (split_and!; intros E; [discriminate (NoDup_lookup _ 6 0 EBADF Hd eq_refl (f_equal Some (eq_sym E)))
      |discriminate (NoDup_lookup _ 6 4 EBADF Hd eq_refl (f_equal Some (eq_sym E)))
      |discriminate (NoDup_lookup _ 6 2 EBADF Hd eq_refl (f_equal Some (eq_sym E)))]).
  unfold accept_same_user, accept_stream, retry. cbv [mbind sys_bind mret sys_ret]. rewrite Ht.
  cbn [length retry_fuel]. cbv [mbind sys_bind mret sys_ret].
  unfold sys_accept, syscall. rewrite Ht, Hw.
  rewrite (proj2 (Z.eqb_neq _ _) H1). rewrite (proj2 (Z.eqb_neq _ _) H2), (proj2 (Z.eqb_neq _ _) H3). done.
Qed.

(** ** The steps of the server *)

Section Steps.
Context `{HK : KernelLaws} {RT : Runtime} {P : Posix}.
Context (config : ServerConfig) (instance_id : Z) (daemon_version broken_pipe : bytes) (euid : Z).

Abbreviation hstep := (handler_step config instance_id daemon_version broken_pipe).
Abbreviation rstep := (run_step config instance_id daemon_version).
Abbreviation vstep := (server_step config instance_id daemon_version broken_pipe).
Abbreviation vreach := (server_reachable config instance_id daemon_version broken_pipe).
Abbreviation xstep := (hosted_step config instance_id daemon_version broken_pipe euid).
Abbreviation xreach := (hosted_reachable config instance_id daemon_version broken_pipe euid).

(** The step that closes the listener. *)
Definition closes (e : server_event) (s : ServerState) : Prop :=
  match e with
  | VRun _ => run_point (run s) = Some StopListener
  | VHandler k _ => exists h, threads s !! k = Some h /\ h_pc h = HStop StopListener
  | VStopper n => stoppers s !! n = Some StopListener
  | _ => False
  end.

Lemma stop_touches p s s1 p1 :
  stop_step p s = Some (s1, p1) -> listener_fd s1 = listener_fd s \/ p = StopListener.
Proof. destruct p; cbn; [destruct (stopping s)|..]; intros [= <- _]; auto. Qed.

Lemma run_listener i s s' :
  rstep i s = Some s' -> listener_fd s' = listener_fd s \/ run_point (run s) = Some StopListener.
Proof.
  intros Hstep. unfold run_step in Hstep.
  destruct (run s) as [| | |l|a|d cp j|d cp|d cp|d cp|d cp|b e|p st|p o|o|lst o|o|o|p| |lst| | |wk|];
    cbn -[service_step stop_step] in Hstep; try (destruct p); try (by right); left;
    repeat match type of Hstep with
    | Some _ = Some _ => injection Hstep as <-
    | (match ?x with _ => _ end) = Some _ => destruct x; try discriminate Hstep
    | (stop_step ?p ?s ≫= _) = Some _ =>
      destruct (stop_step p s) as [[? ?]|] eqn:?; cbn [mbind option_bind] in Hstep; try discriminate Hstep
    | (?x ≫= _) = Some _ => destruct x; cbn [mbind option_bind] in Hstep; try discriminate Hstep
    end; cbn; first [done|by destruct b|by edestruct stop_touches].
Qed.

Lemma vstep_listener e s s' :
  Forall thread_ok (threads s) -> vstep e s = Some s' -> listener_fd s' = listener_fd s \/ closes e s.
Proof.
  intros Hok Hs. destruct e; cbn -[handler_step run_step service_step stop_step arrival_ok] in Hs.
  - destruct (handler_moves _ _ _ _ _ _ _ _ Hok Hs) as (h & h' & Hk & _).
    destruct (pc_busy (h_pc h)) eqn:Hb; [|left; by eapply handler_listener].
    unfold handler_step in Hs. rewrite Hk in Hs. cbn -[service_step stop_step] in Hs.
    destruct (h_pc h) as [| | |fr|fr c|fr c rs|c en|ex|st pl pr| |p| | | | |] eqn:Hpc; try discriminate Hb.
    destruct p; try discriminate Hb; [right; by exists h|left].
    cbn in Hs. rewrite list_lookup_fmap, Hk in Hs. cbn in Hs. by injection Hs as <-.
  - by apply run_listener in Hs.
  - destruct (service_step _ _ _ _ _); [|done]. injection Hs as <-. by left.
  - destruct (service_step _ _ _ _ _); [|done]. injection Hs as <-. by left.
  - destruct (alive _); [|done]. injection Hs as <-. by left.
  - destruct (stoppers s !! n) as [p|] eqn:Hn; [|done]. cbn -[stop_step] in Hs.
    destruct (stop_step p s) as [[s1 p1]|] eqn:Hp; [|done]. injection Hs as <-.
    apply stop_touches in Hp as [?| ->]; [by left|by right].
  - destruct (threads s !! k); [|done]. cbn -[arrival_ok] in Hs. destruct (forallb _ _); [|done].
    injection Hs as <-. by left.
  - destruct (threads s !! k); [|done]. cbn in Hs. destruct (_ || _); [done|]. injection Hs as <-. by left.
Qed.

(** The listener that is waited on is the server's. *)
Lemma accepts_listener listener s l :
  server_config_valid config = true -> is_uint 32 (scfg_maximum_active_connections config) ->
  vreach listener s -> run s = RAccept l -> l = listener.
Proof.
  intros Hv Hu Hs. revert l. induction Hs as [|s e s' Hs IH Hstep]; intros l Hl; [done|].
  destruct (inv_reachable _ _ _ _ _ _ Hv Hu Hs) as [[Hok _ _ _] _].
  destruct (vstep_run _ _ _ _ _ _ _ Hok Hstep) as [[i ->]|Hr]; [|apply IH; congruence].
  pose proof (sh_fd _ _ (shutting_reachable _ _ _ _ _ _ Hv Hu Hs)) as Hfd.
  cbn -[run_step] in Hstep. unfold run_step in Hstep.
  destruct (run s) as [| | |l0|a|d cp j|d cp|d cp|d cp|d cp|b ex|p st|p o|o|lst o|o|o|p| |lst| | |wk|] eqn:Hrun;
    cbn -[service_step stop_step] in Hstep; try (destruct p);
    repeat match type of Hstep with
    | Some _ = Some _ => injection Hstep as <-
    | (match ?x with _ => _ end) = Some _ => destruct x eqn:?; try discriminate Hstep
    | (stop_step ?p ?s ≫= _) = Some _ =>
      destruct (stop_step p s) as [[? ?]|]; cbn [mbind option_bind] in Hstep; try discriminate Hstep
    | (?x ≫= _) = Some _ => destruct x; cbn [mbind option_bind] in Hstep; try discriminate Hstep
    end; cbn in Hl; repeat case_match; try congruence.
  injection Hl as <-. destruct Hfd as [?|Hfd]; [done|]. by rewrite Hfd in *.
Qed.

(** *** The calls *)

Lemma leaves_run_calls fd kept r r' s g c : leaves fd (run_calls kept r r' s g c).
Proof.
  assert (forall (m : sys unit) (b : SocketNodeGuard * Z), leaves fd m -> leaves fd (_ ← m; mret b)) as Hb
    by (intros m b Hm; apply leaves_bind; [done|intros; apply leaves_ret]).
  destruct r; cbn [run_calls destructor_calls]; try apply leaves_ret;
    try (apply Hb; first [apply leaves_close_listener|apply leaves_destroy]);
    try (apply leaves_bind; [apply leaves_remove|intros; apply Hb; first [apply leaves_destroy|apply leaves_destroy_guard]]);
    destruct r'; try apply leaves_ret; try (apply Hb, leaves_destroy);
    (destruct kept; [apply leaves_ret|apply Hb, leaves_destroy]).
Qed.

Lemma leaves_handler_calls fd h s : leaves fd (handler_calls h s).
Proof.
  unfold handler_calls. destruct (h_pc h); try apply leaves_ret;
    [apply leaves_close_listener|apply leaves_destroy].
Qed.

Lemma leaves_calling fd s' m x x' :
  leaves fd m -> calling s' m x = Some x' -> host x' = s' /\
  (fds (world x) !! fd = None -> fds (world x') !! fd = None).
Proof.
  intros Hm. unfold calling. destruct (m (world x)) as [[[] w]|] eqn:E; [|done]. intros [= <-].
  split; [done|]. cbn. intros Hw. by eapply Hm.
Qed.

(** What is closed stays closed, or it is a connection that is accepted. *)
Lemma xstep_leaves fd v kept ts x x' :
  (forall l, run (host x) = RAccept l -> l = fd) -> fds (world x) !! fd = None ->
  xstep v kept ts x = Some x' -> fds (world x') !! fd = None.
Proof.
  intros Hl Hw Hstep. unfold hosted_step in Hstep.
  cbn -[server_step run_calls handler_calls close_listener] in Hstep.
  assert (forall s' m, leaves fd m ->
    calling s' m (mk_Hosted (host x) (socket_node x) (connection x) (with_ticks ts (world x))) = Some x' ->
    fds (world x') !! fd = None) as Hcall.
  { intros s' m Hm Hc. by eapply (leaves_calling fd s' m). }
  destruct v as [k i|i|k i|k i| |k|k a|k cp];
    [|destruct (accepting (run (host x))) as [l|] eqn:Hacc|..].
  2: { destruct (match i with RProceed => None | _ => _ end) as [[r w]|] eqn:Ha; [|done].
    cbn -[server_step] in Hstep. destruct (accept_input i r) as [i'|]; [|done].
    cbn -[server_step] in Hstep. destruct (vstep (VRun i') (host x)) as [s'|]; [|done].
    injection Hstep as <-. cbn.
    assert (l = fd) as -> by (apply Hl; destruct (run (host x)); try done; by injection Hacc as ->).
    rewrite (accept_closed fd euid (with_ticks ts (world x)) r w); [done|done|by destruct i]. }
  2: { destruct (vstep _ _) as [s'|]; [|done]. cbn -[run_calls] in Hstep.
    destruct (run_calls _ _ _ _ _ _ _) as [[[g' c'] w']|] eqn:Hc; [|done]. injection Hstep as <-. cbn.
    eapply leaves_run_calls; [|exact Hc]. exact Hw. }
  all: destruct (vstep _ _) as [s'|]; [|done]; cbn -[server_step] in Hstep.
  2-4,6-7: injection Hstep as <-; exact Hw.
  - destruct (threads (host x) !! k) as [h|]; [|done]. eapply Hcall, Hstep. apply leaves_handler_calls.
  - destruct (stoppers (host x) !! k) as [p|]; [|done]. eapply Hcall, Hstep. apply leaves_close_listener.
Qed.

(** Only it touches the listener. *)
Lemma xstep_listener v kept ts x x' :
  Forall thread_ok (threads (host x)) -> xstep v kept ts x = Some x' ->
  listener_fd (host x') = listener_fd (host x) \/ closes v (host x).
Proof.
  intros Hok Hstep. unfold hosted_step in Hstep.
  cbn -[server_step run_calls handler_calls close_listener] in Hstep.
  assert (forall s' m y, calling s' m y = Some x' -> host x' = s') as Hcall.
  { intros s' m y. unfold calling. by destruct (m (world y)) as [[[] w]|]; [intros [= <-]|]. }
  destruct v as [k i|i|k i|k i| |k|k a|k cp];
    [|destruct (accepting (run (host x))) as [l|] eqn:Hacc|..].
  2: { destruct (match i with RProceed => None | _ => _ end) as [[r w]|]; [|done].
    cbn -[server_step] in Hstep. destruct (accept_input i r) as [i'|]; [|done].
    cbn -[server_step] in Hstep. destruct (vstep (VRun i') (host x)) as [s'|] eqn:Hs; [|done].
    injection Hstep as <-. exact (vstep_listener _ _ _ Hok Hs). }
  2: { destruct (vstep _ _) as [s'|] eqn:Hs; [|done]. cbn -[run_calls] in Hstep.
    destruct (run_calls _ _ _ _ _ _ _) as [[[g' c'] w']|]; [|done]. injection Hstep as <-.
    exact (vstep_listener _ _ _ Hok Hs). }
  all: destruct (vstep _ _) as [s'|] eqn:Hs; [|done]; apply (vstep_listener _ _ _ Hok) in Hs;
    cbn -[server_step] in Hstep.
  2-4,6-7: by injection Hstep as <-.
  - destruct (threads (host x) !! k) as [h|]; [|done]. by rewrite (Hcall _ _ _ Hstep).
  - destruct (stoppers (host x) !! k) as [p|]; [|done]. by rewrite (Hcall _ _ _ Hstep).
Qed.

(** The step that closes the listener does so. *)
Lemma xstep_closes fd v kept ts x x' :
  0 <= fd -> listener_fd (host x) = fd -> closes v (host x) -> xstep v kept ts x = Some x' ->
  fds (world x') !! fd = None.
Proof.
  intros H0 Hl Hc Hstep. unfold hosted_step in Hstep.
  cbn -[server_step run_calls handler_calls close_listener] in Hstep.
  assert (forall s', calling s' (close_listener StopListener (host x))
      (mk_Hosted (host x) (socket_node x) (connection x) (with_ticks ts (world x))) = Some x' ->
    fds (world x') !! fd = None) as Hcall.
  { intros s'. unfold calling. destruct (close_listener _ _ _) as [[[] w]|] eqn:E; [|done].
    intros [= <-]. exact (closes_listener fd _ _ _ _ H0 Hl E). }
  destruct v as [k i|i|k i|k i| |k|k a|k cp]; cbn in Hc; try done.
  - destruct Hc as (h & Hk & Hpc). destruct (vstep _ _) as [s'|]; [|done]. cbn -[handler_calls] in Hstep.
    rewrite Hk in Hstep. cbn -[handler_calls] in Hstep. unfold handler_calls in Hstep. rewrite Hpc in Hstep.
    exact (Hcall _ Hstep).
  - replace (accepting (run (host x))) with (@None Z) in Hstep by (by destruct (run (host x))).
    destruct (vstep _ _) as [s'|]; [|done]. cbn -[run_calls] in Hstep.
    destruct (run_calls _ _ _ _ _ _ _) as [[[g' c'] w']|] eqn:Hrc; [|done]. injection Hstep as <-. cbn.
    destruct (run (host x)) eqn:Hr; try discriminate Hc; cbn in Hc; injection Hc as ->;
      cbn [run_calls destructor_calls] in Hrc; cbv [mbind sys_bind mret sys_ret] in Hrc;
      destruct (close_listener _ _ _) as [[[] w]|] eqn:E; try done; injection Hrc as _ _ <-;
      exact (closes_listener fd _ _ _ _ H0 Hl E).
  - destruct (vstep _ _) as [s'|]; [|done]. cbn -[close_listener] in Hstep. rewrite Hc in Hstep.
    exact (Hcall _ Hstep).
Qed.
End Steps.

(** ** The listener through the life of the server *)

Section Life.
Context `{HK : KernelLaws} {RT : Runtime} {P : Posix}.
Context (config : ServerConfig) (instance_id : Z) (daemon_version broken_pipe : bytes) (euid : Z).
Abbreviation vstep := (server_step config instance_id daemon_version broken_pipe).
Abbreviation xstep := (hosted_step config instance_id daemon_version broken_pipe euid).
Abbreviation xreach := (hosted_reachable config instance_id daemon_version broken_pipe euid).
Abbreviation xinv := (hosted_inv config instance_id daemon_version broken_pipe euid).

Lemma listener_reachable start x :
  is_uint 32 (scfg_maximum_active_connections config) -> xreach start x ->
  exists listener, xinv listener (fds start) (bad_closes start) x /\ 0 <= listener /\
    (listener_fd (host x) = -1 -> fds (world x) !! listener = None).
Proof.
  intros Hu Hx. induction Hx as [made w Hc|x e kept ts x' Hx (l & Hi & H0 & Hcl) Hstep].
  - destruct (hosted_inv_initial config instance_id daemon_version broken_pipe euid _ _ _ Hc) as (_ & H0 & Hi).
    exists made.1. split_and!; [exact Hi|exact H0|]. cbn. lia.
  - destruct (hosted_inv_reachable _ _ _ _ _ _ _ Hu Hx) as (Hv & _).
    pose proof (hosted_inv_step _ _ _ _ _ Hv Hu _ _ _ _ _ _ _ _ Hi Hstep) as Hi'.
    exists l. split_and!; [exact Hi'|exact H0|]. intros Hl'.
    pose proof (hi_server _ _ _ _ _ _ _ _ _ Hi) as Hs.
    destruct (inv_reachable _ _ _ _ _ _ Hv Hu Hs) as [[Hok _ _ _] _].
    destruct (sh_fd _ _ (shutting_reachable _ _ _ _ _ _ Hv Hu Hs)) as [Hfd|Hfd].
    + destruct (xstep_listener _ _ _ _ _ _ _ _ _ _ Hok Hstep) as [E|Hc]; [lia|].
      by eapply xstep_closes.
    + eapply xstep_leaves; [|by apply Hcl|exact Hstep]. intros k Hk.
      by eapply accepts_listener.
Qed.

(** Once [stop] has closed the listener the accepting thread gets the error of a closed
    descriptor, whatever was left to accept. *)
Lemma closed_accepts start x kept l status :
  is_uint 32 (scfg_maximum_active_connections config) -> xreach start x ->
  run (host x) = RAccept l -> listener_fd (host x) = -1 ->
  exists x', xstep (VRun (RAnswer (AcceptFailed status))) kept [] x = Some x' /\
    vstep (VRun (RAnswer (AcceptFailed closed_status))) (host x) = Some (host x').
Proof.
  intros Hu Hx Hrun Hl. destruct (listener_reachable _ _ Hu Hx) as (fd & Hi & _ & Hcl).
  destruct (hosted_inv_reachable _ _ _ _ _ _ _ Hu Hx) as (Hv & _).
  assert (l = fd) as -> by (eapply accepts_listener; [exact Hv|exact Hu|apply Hi|exact Hrun]).
  unfold hosted_step. cbn -[accept_same_user server_step]. rewrite Hrun. cbn -[accept_same_user server_step].
  rewrite (accept_reports fd euid (with_ticks [] (world x)) eq_refl (Hcl Hl)).
  cbn -[run_step]. unfold run_step. rewrite Hrun. cbn. by eexists.
Qed.
End Life.
