(* ===== verification/Daemon.v ===== *)
(** The daemon process ([src/apps/photospiderd/main.cpp]): the main thread, the thread that
    waits for signals, the server between them, and the managed signals.

    A step is what the main thread or the waiter does between two points at which the other
    one, another process or the server can act.  A signal sent to the process stays pending
    while every thread blocks it and ends the process otherwise (the default action); a
    thread inherits the mask of the one that starts it.  Only the three managed signals are
    modelled, with their default actions.

    [sigwait] takes a pending signal of its set, of the thread or of the process; which one
    is the system's choice. *)
From S2P Require Import Prelude OrdMap Kernel Protocol Wire Codec Frame Jobs JobSystem.
From S2P Require Import Posix UnixSocket Service Server Hosted DaemonMain.

(** ** Signals *)

Inductive signal := SIGINT | SIGTERM | SIGUSR1.

#[export] Instance signal_eq_dec : EqDecision signal.
Proof. solve_decision. Defined.

(** A [sigset_t], of the managed signals. *)
Definition sigset : Type := signal -> bool.

Definition sigemptyset : sigset := fun (_ : signal) => false.
Definition sigaddset (s : signal) (w : sigset) : sigset := fun (x : signal) => bool_decide (x = s) || w x.
Definition sigdelset (s : signal) (w : sigset) : sigset :=
  fun (x : signal) => negb (bool_decide (x = s)) && w x.

(** The set [SignalMaskGuard] builds and blocks. *)
Definition signals : sigset := sigaddset SIGUSR1 (sigaddset SIGTERM (sigaddset SIGINT sigemptyset)).

(** [pthread_sigmask(SIG_BLOCK, ...)]. *)
Definition blocking (w m : sigset) : sigset := fun (x : signal) => w x || m x.

(** A signal of one set that is not in the other. *)
Definition unblocked (pending m : sigset) : option signal :=
  List.find (fun s => pending s && negb (m s)) [SIGINT; SIGTERM; SIGUSR1].

(** ** Program points *)

(** How [run] and what follows it ended: a status, or an exception being unwound. *)
Abbreviation unwinding := (Status + main_exn)%type.

(** The main thread. *)
Inductive main_pc :=
| MParse
| MMask                                              (* [SignalMaskGuard] is constructed *)
| MServer                                            (* [Server] *)
| MWaiter                                            (* [SignalStopWaiter] *)
| MRun                                               (* in [Server::run] *)
| MComplete (r : unwinding)                          (* [finish], [finish_noexcept] *)
| MWake (r : unwinding)
| MJoin (r : unwinding)
| MCheck (status : Status)
| MDestroy (r : unwinding)                           (* in [~Server] *)
| MPending (status : Status)                         (* [SignalMaskGuard::restore] *)
| MDrain (status : Status)
| MRestore (status : Status)
| MReport (status : Status)
| MUnwind (e : main_exn)                             (* [~SignalMaskGuard] *)
| MCatch (e : main_exn)
| MExit (code : Z)
| MAborted                                           (* [std::terminate] *)
| MKilled (s : signal).                              (* by a signal *)

(** The waiter. *)
Inductive waiter_pc :=
| WaiterNone                                         (* not started *)
| WaiterWaits                                        (* in [sigwait] *)
| WaiterGot (s : signal)
| WaiterRequests                                     (* about to call [request_stop] *)
| WaiterStops (n : nat)                              (* in it, as caller [n] of [stop] *)
| WaiterEnded.

Section Process.
Context `{RT : Runtime} {P : Posix}.

(** ** State *)

Record Daemon := mk_Daemon {
  d_main : main_pc;
  d_waiter : waiter_pc;
  complete_ : bool;
  error_ : Z;
  mask : sigset;                                     (* of the main thread *)
  inherited : sigset;                                (* of the threads it started *)
  previous_mask_ : sigset;
  active_ : bool;
  process_pending : sigset;
  waiter_pending : sigset;                           (* directed to the waiter *)
  options : Options;
  server : option ServerState;
  output : bytes;                                    (* [std::cout] *)
  errors : bytes;                                    (* [std::cerr] *)
}.

Definition d_goto (x : main_pc) (d : Daemon) : Daemon :=
  mk_Daemon x (d_waiter d) (complete_ d) (error_ d) (mask d) (inherited d) (previous_mask_ d)
    (active_ d) (process_pending d) (waiter_pending d) (options d) (server d) (output d) (errors d).
Definition set_waiter (x : waiter_pc) (d : Daemon) : Daemon :=
  mk_Daemon (d_main d) x (complete_ d) (error_ d) (mask d) (inherited d) (previous_mask_ d)
    (active_ d) (process_pending d) (waiter_pending d) (options d) (server d) (output d) (errors d).
Definition set_complete (d : Daemon) : Daemon :=
  mk_Daemon (d_main d) (d_waiter d) true (error_ d) (mask d) (inherited d) (previous_mask_ d)
    (active_ d) (process_pending d) (waiter_pending d) (options d) (server d) (output d) (errors d).
Definition set_error (x : Z) (d : Daemon) : Daemon :=
  mk_Daemon (d_main d) (d_waiter d) (complete_ d) x (mask d) (inherited d) (previous_mask_ d)
    (active_ d) (process_pending d) (waiter_pending d) (options d) (server d) (output d) (errors d).
Definition set_guard (m p : sigset) (a : bool) (d : Daemon) : Daemon :=
  mk_Daemon (d_main d) (d_waiter d) (complete_ d) (error_ d) m (inherited d) p a
    (process_pending d) (waiter_pending d) (options d) (server d) (output d) (errors d).
Definition set_pending (p w : sigset) (d : Daemon) : Daemon :=
  mk_Daemon (d_main d) (d_waiter d) (complete_ d) (error_ d) (mask d) (inherited d)
    (previous_mask_ d) (active_ d) p w (options d) (server d) (output d) (errors d).
Definition set_options (x : Options) (d : Daemon) : Daemon :=
  mk_Daemon (d_main d) (d_waiter d) (complete_ d) (error_ d) (mask d) (inherited d)
    (previous_mask_ d) (active_ d) (process_pending d) (waiter_pending d) x (server d) (output d)
    (errors d).
Definition set_server (x : option ServerState) (m : sigset) (d : Daemon) : Daemon :=
  mk_Daemon (d_main d) (d_waiter d) (complete_ d) (error_ d) (mask d) m (previous_mask_ d)
    (active_ d) (process_pending d) (waiter_pending d) (options d) x (output d) (errors d).
Definition print (out err : bytes) (d : Daemon) : Daemon :=
  mk_Daemon (d_main d) (d_waiter d) (complete_ d) (error_ d) (mask d) (inherited d)
    (previous_mask_ d) (active_ d) (process_pending d) (waiter_pending d) (options d) (server d)
    (output d ++ out) (errors d ++ err).

Definition newline : bytes := [10].

(** The text of [print_help]. *)
Definition help_text : bytes :=
  lit "Usage: photospiderd --socket PATH [options]" ++ newline
  ++ newline
  ++ lit "Options:" ++ newline
  ++ lit "  --socket PATH          Unix-domain socket path (required)" ++ newline
  ++ lit "  --max-concurrency N    Global execution worker count (default 1)" ++ newline
  ++ lit "  --max-jobs N           Retained ephemeral execution bound (default 1024)" ++ newline
  ++ lit "  --max-sessions N       Retained Session bound (default 128)" ++ newline
  ++ lit "  --max-connections N    Active connection bound (default 64)" ++ newline
  ++ lit "  --gpu                   Enable the optional local GPU lane" ++ newline
  ++ lit "  --help                  Show this help" ++ newline.

Definition print_help (d : Daemon) : Daemon := print help_text [] d.

Section Steps.
Context (arguments : list bytes) (ESRCH : Z).
Context (instance_id : Z) (daemon_version broken_pipe : bytes).

(** [what()] of a [system_error] and of a [bad_alloc]. *)
Context (system_error_what : Z -> bytes -> bytes) (bad_alloc_what : bytes).

(** The configuration [main] builds. *)
Definition server_config (o : Options) : ServerConfig :=
  mk_ServerConfig (socket_path o)
    (mk_ServiceConfig (opt_maximum_concurrency o) (opt_maximum_jobs o) (opt_maximum_sessions o)
       (opt_gpu_enabled o))
    32 (opt_maximum_connections o).

(** ** Masks *)

(** A thread is there that does not block the signal. *)
Definition deliverable (s : signal) (d : Daemon) : bool :=
  negb (mask d s) || match server d with Some _ => negb (inherited d s) | None => false end.

(** The previous mask again: a pending signal it does not block is delivered. *)
Definition unmask (pc : main_pc) (d : Daemon) : Daemon :=
  d_goto (match unblocked (process_pending d) (previous_mask_ d) with
          | Some s => MKilled s
          | None => pc
          end)
    (set_guard (previous_mask_ d) (previous_mask_ d) false d).

(** ** The main thread *)

(** What the environment decides at a step of the main thread. *)
Inductive main_input :=
| Works
| Raises (w : bytes)                                 (* a [std::exception] *)
| Bound (listener : Z)                               (* [Server] is constructed *)
| Wakes (result : Z)                                 (* of [pthread_kill] *)
| Takes (s : signal).                                (* of [sigwait] *)

(** What leaves [run] as the handlers of [main] see it; nothing catches the others. *)
Definition run_exception (e : exn) : option main_exn :=
  match e with
  | BadAlloc => Some (OtherStdException bad_alloc_what)
  | StdException w => Some (OtherStdException (default [] w))
  | NonStandard => None
  end.

(** [pthread_kill(..., SIGUSR1)]. *)
Definition wake (result : Z) (d : Daemon) : Daemon :=
  match d_waiter d with
  | WaiterNone | WaiterEnded => d
  | _ => if result =? 0
         then set_pending (process_pending d) (sigaddset SIGUSR1 (waiter_pending d)) d
         else d
  end.

(** [SignalMaskGuard::SignalMaskGuard]. *)
Definition block_signals (i : main_input) (d : Daemon) : option Daemon :=
  match i with
  | Works => Some (d_goto MServer (set_guard (blocking signals (mask d)) (mask d) true d))
  | Raises w => Some (d_goto (MCatch (OtherStdException w)) d)
  | _ => None
  end.

(** [Server::Server], as [main] calls it. *)
Definition construct_server (i : main_input) (d : Daemon) : option Daemon :=
  match server_refused (server_config (options d)) with
  | Some w => Some (d_goto (MUnwind (StdInvalidArgument w)) d)
  | None =>
    match i with
    | Bound listener =>
      Some (d_goto MWaiter
              (set_server (Some (server_initial (server_config (options d)) listener)) (mask d) d))
    | Raises w => Some (d_goto (MUnwind (OtherStdException w)) d)
    | _ => None
    end
  end.

(** [SignalStopWaiter::SignalStopWaiter]; if it throws, [run] is never called. *)
Definition start_waiter (i : main_input) (d : Daemon) : option Daemon :=
  match i with
  | Works => Some (d_goto MRun (set_waiter WaiterWaits d))
  | Raises w =>
    s ← server d;
    s' ← run_step (server_config (options d)) instance_id daemon_version
           (RThrows (StdException (Some w))) s;
    Some (d_goto (MDestroy (inr (OtherStdException w))) (set_server (Some s') (inherited d) d))
  | _ => None
  end.

(** [SignalStopWaiter::finish]. *)
Definition finish (i : main_input) (status : Status) (d : Daemon) : option Daemon :=
  match d_main d with
  | MComplete _ => Some (d_goto (MWake (inl status)) (set_complete d))
  | MWake _ =>
    match i with
    | Wakes result =>
      let d := wake result d in
      Some (d_goto (MJoin (inl status))
              (if negb (result =? 0) && negb (result =? ESRCH) then set_error result d else d))
    | _ => None
    end
  | MJoin _ => match d_waiter d with WaiterEnded => Some (d_goto (MCheck status) d) | _ => None end
  | MCheck _ =>
    Some (d_goto
            (MDestroy (if error_ d =? 0 then inl status
                       else inr (OtherStdException
                                   (system_error_what (error_ d) (lit "daemon signal wait failed"))))) d)
  | _ => None
  end.

(** [SignalStopWaiter::finish_noexcept], on unwinding. *)
Definition finish_noexcept (i : main_input) (e : main_exn) (d : Daemon) : option Daemon :=
  match d_main d with
  | MComplete _ => Some (d_goto (MWake (inr e)) (set_complete d))
  | MWake _ =>
    match i with Wakes result => Some (d_goto (MJoin (inr e)) (wake result d)) | _ => None end
  | MJoin _ =>
    match d_waiter d with WaiterEnded => Some (d_goto (MDestroy (inr e)) d) | _ => None end
  | _ => None
  end.

(** [SignalMaskGuard::restore]. *)
Definition restore (i : main_input) (status : Status) (d : Daemon) : option Daemon :=
  match i with
  | Raises w => Some (d_goto (MUnwind (OtherStdException w)) d)
  | _ =>
    match d_main d, i with
    | MPending _, Works =>
      Some (d_goto (match unblocked (process_pending d) sigemptyset with
                    | Some _ => MDrain status
                    | None => MRestore status
                    end) d)
    | MDrain _, Takes s =>
      if process_pending d s
      then Some (d_goto (MPending status)
                   (set_pending (sigdelset s (process_pending d)) (waiter_pending d) d))
      else None
    | MRestore _, Works => Some (unmask (MReport status) d)
    | _, _ => None
    end
  end.

(** [SignalMaskGuard::restore_noexcept]. *)
Definition restore_noexcept (i : main_input) (e : main_exn) (d : Daemon) : option Daemon :=
  match i with
  | Works => Some (unmask (MCatch e) d)
  | Raises _ => Some (d_goto (MCatch e) (set_guard (mask d) (previous_mask_ d) false d))
  | _ => None
  end.

(** The end of the try block. *)
Definition report (status : Status) (d : Daemon) : Daemon :=
  if status_ok status then d_goto (MExit 0) d
  else d_goto (MExit 1) (print [] (message status ++ newline) d).

(** The catch clauses. *)
Definition catch_clause (e : main_exn) (d : Daemon) : Daemon :=
  match e with
  | StdInvalidArgument w => d_goto (MExit 2) (print_help (print [] (w ++ newline) d))
  | StdOutOfRange w | OtherStdException w => d_goto (MExit 1) (print [] (w ++ newline) d)
  end.

(** [main]. *)
Definition main_step (i : main_input) (d : Daemon) : option Daemon :=
  match d_main d with
  | MParse =>
    match parse_options arguments with
    | Throw e => Some (d_goto (MCatch e) d)
    | Return o =>
      Some (set_options o
              (if opt_help o then d_goto (MExit 0) (print_help d) else d_goto MMask d))
    end
  | MMask => block_signals i d
  | MServer => construct_server i d
  | MWaiter => start_waiter i d
  | MRun =>
    s ← server d;
    match run s with
    | RReturned (inl status) => Some (d_goto (MComplete (inl status)) d)
    | RReturned (inr e) =>
      Some (d_goto (match run_exception e with Some e => MComplete (inr e) | None => MAborted end) d)
    | _ => None
    end
  | MComplete (inl status) | MWake (inl status) | MJoin (inl status) | MCheck status =>
    finish i status d
  | MComplete (inr e) | MWake (inr e) | MJoin (inr e) => finish_noexcept i e d
  | MDestroy r =>
    s ← server d;
    match run s with
    | Gone => Some (d_goto (match r with inl status => MPending status | inr e => MUnwind e end)
                      (set_server None (inherited d) d))
    | _ => None
    end
  | MPending status | MDrain status | MRestore status => restore i status d
  | MReport status => Some (report status d)
  | MUnwind e => restore_noexcept i e d
  | MCatch e => Some (catch_clause e d)
  | MExit _ | MAborted | MKilled _ => None
  end.

(** ** The waiter *)

Inductive waiter_input :=
| WGoes
| WTakes (directed : bool) (s : signal)
| WFails (error : Z).

(** The server takes a step on behalf of a thread. *)
Definition on_server (e : server_event) (d : Daemon) : option Daemon :=
  s ← server d;
  s' ← server_step (server_config (options d)) instance_id daemon_version broken_pipe e s;
  Some (set_server (Some s') (inherited d) d).

(** The thread has ended: a signal directed to it is lost. *)
Definition waiter_ends (d : Daemon) : Daemon :=
  set_waiter WaiterEnded (set_pending (process_pending d) sigemptyset d).

(** [wait_loop], and the call of [request_stop] in it. *)
Definition waiter_step (i : waiter_input) (d : Daemon) : option Daemon :=
  match d_waiter d with
  | WaiterNone | WaiterEnded => None
  | WaiterWaits =>
    match i with
    | WTakes true s =>
      if waiter_pending d s
      then Some (set_waiter (WaiterGot s)
                   (set_pending (process_pending d) (sigdelset s (waiter_pending d)) d))
      else None
    | WTakes false s =>
      if process_pending d s
      then Some (set_waiter (WaiterGot s)
                   (set_pending (sigdelset s (process_pending d)) (waiter_pending d) d))
      else None
    | WFails error =>
      if error =? 0 then None else Some (set_waiter WaiterRequests (set_error error d))
    | WGoes => None
    end
  | WaiterGot SIGINT | WaiterGot SIGTERM => Some (set_waiter WaiterRequests d)
  | WaiterGot SIGUSR1 => Some (if complete_ d then waiter_ends d else set_waiter WaiterWaits d)
  | WaiterRequests =>
    s ← server d;
    d' ← on_server VRequestStop d;
    Some (set_waiter (WaiterStops (length (stoppers s))) d')
  | WaiterStops n =>
    s ← server d;
    match stoppers s !! n with
    | Some StopReturned => Some (waiter_ends d)
    | _ => on_server (VStopper n) d
    end
  end.

(** ** The process *)

Inductive daemon_event :=
| DMain (i : main_input)
| DWaiter (i : waiter_input)
| DServer (e : server_event)                         (* another thread, or a peer *)
| DSignal (s : signal).                              (* is sent to the process *)

(** Who takes the steps of the server: [run] and [~Server] are the main thread's,
    [request_stop] is the waiter's. *)
Definition server_acts (e : server_event) (d : Daemon) : bool :=
  match e with
  | VRun i =>
    match d_main d, run <$> server d with
    | MRun, Some (RReturned _) => false
    | MRun, Some RStart => match i with RThrows _ => false | _ => true end
    | MRun, _ | MDestroy _, _ => true
    | _, _ => false
    end
  | VRequestStop | VStopper _ => false
  | _ => true
  end.

(** The process is still there. *)
Definition running (d : Daemon) : bool :=
  match d_main d with MExit _ | MAborted | MKilled _ => false | _ => true end.

Definition daemon_step (e : daemon_event) (d : Daemon) : option Daemon :=
  if negb (running d) then None
  else
    match e with
    | DMain i => main_step i d
    | DWaiter i => waiter_step i d
    | DServer e => if server_acts e d then on_server e d else None
    | DSignal s =>
      Some (if deliverable s d then d_goto (MKilled s) d
            else set_pending (sigaddset s (process_pending d)) (waiter_pending d) d)
    end.

(** A process that starts with a mask and pending signals. *)
Definition daemon_initial (original pending : sigset) : Daemon :=
  mk_Daemon MParse WaiterNone false 0 original sigemptyset sigemptyset false pending sigemptyset
    default_options None [] [].

Inductive daemon_reachable (original pending : sigset) : Daemon -> Prop :=
| dreach_initial : daemon_reachable original pending (daemon_initial original pending)
| dreach_step d e d' :
    daemon_reachable original pending d -> daemon_step e d = Some d' ->
    daemon_reachable original pending d'.

Fixpoint daemon_run (es : list daemon_event) (d : Daemon) : option Daemon :=
  match es with
  | [] => Some d
  | e :: es' => d' ← daemon_step e d; daemon_run es' d'
  end.
End Steps.
End Process.
