(* ===== verification/DaemonSpec.v ===== *)
(** The daemon process: the managed signals never interrupt a living server, the waiter uses
    the server only while it lives, and the exit code says what happened. *)
From S2P Require Import Prelude OrdMap Kernel Protocol Wire Codec Frame Jobs JobSystem.
From S2P Require Import Posix UnixSocket Service Server ServerSpec Hosted DaemonMain Daemon.

(** The cases of an equation that says what a step comes to. *)
Ltac step_cases H :=
  repeat match type of H with
  | Some _ = Some _ => injection H as <-
  | None = Some _ => discriminate H
  | (match ?x with _ => _ end) = Some _ => destruct x eqn:?; try discriminate H
  | (?x ≫= _) = Some _ => destruct x eqn:?; cbn [mbind option_bind] in H; try discriminate H
  end.

(** A step of the main thread, and all its cases; and those of a step of the waiter. *)
Ltac unfold_main :=
  unfold main_step, block_signals, construct_server, start_waiter, finish, finish_noexcept, restore,
    restore_noexcept, report, catch_clause.

Ltac main_cases H :=
  unfold main_step, block_signals, construct_server, start_waiter, finish, finish_noexcept, restore,
    restore_noexcept, report, catch_clause in H;
  match type of H with context [match d_main ?d with _ => _ end] => destruct (d_main d) eqn:Hpc end;
  step_cases H.

Ltac waiter_cases H :=
  unfold waiter_step in H;
  match type of H with context [match d_waiter ?d with _ => _ end] => destruct (d_waiter d) eqn:Hpc end;
  step_cases H.

Section DaemonSpec.
Context `{RT : Runtime} {P : Posix}.
Context (arguments : list bytes) (ESRCH : Z).
Context (instance_id : Z) (daemon_version broken_pipe : bytes).
Context (system_error_what : Z -> bytes -> bytes) (bad_alloc_what : bytes).

Abbreviation mstep :=
  (main_step arguments ESRCH instance_id daemon_version system_error_what bad_alloc_what).
Abbreviation wstep := (waiter_step instance_id daemon_version broken_pipe).
Abbreviation dstep :=
  (daemon_step arguments ESRCH instance_id daemon_version broken_pipe system_error_what bad_alloc_what).
Abbreviation dreach :=
  (daemon_reachable arguments ESRCH instance_id daemon_version broken_pipe system_error_what
     bad_alloc_what).
Abbreviation vreach o :=
  (server_reachable (server_config o) instance_id daemon_version broken_pipe).
Abbreviation vstep o := (server_step (server_config o) instance_id daemon_version broken_pipe).

Lemma on_server_inv e d d' :
  on_server instance_id daemon_version broken_pipe e d = Some d' ->
  exists s s', server d = Some s /\ vstep (options d) e s = Some s' /\
    d' = set_server (Some s') (inherited d) d.
Proof.
  unfold on_server. destruct (server d) as [s|]; [|done]. cbn -[server_step].
  destruct (server_step _ _ _ _ e s) as [s'|] eqn:Hs; [|done]. cbn. intros [= <-]. eauto.
Qed.

(** ** Masks *)

(** The guard holds the managed signals. *)
Definition held (original : sigset) (d : Daemon) : Prop :=
  active_ d = true /\ mask d = blocking signals original /\ previous_mask_ d = original.

Definition guard_at (original : sigset) (d : Daemon) : Prop :=
  match d_main d with
  | MParse | MMask | MReport _ =>
    active_ d = false /\ mask d = original /\ server d = None
  | MServer | MPending _ | MRestore _ | MUnwind _ => held original d /\ server d = None
  | MDrain _ => held original d /\ server d = None /\ exists s, process_pending d s = true
  | MWaiter | MRun | MComplete _ | MWake _ | MJoin _ | MCheck _ | MDestroy _ | MAborted =>
    held original d /\ is_Some (server d) /\ inherited d = blocking signals original
  | MCatch _ =>
    active_ d = false /\ server d = None /\ (mask d = original \/ mask d = blocking signals original)
  | MExit c =>
    active_ d = false /\ server d = None /\
    (mask d = original \/ (c <> 0 /\ mask d = blocking signals original))
  | MKilled s => active_ d = false /\ server d = None /\ original s = false
  end.

Lemma signals_all s : signals s = true.
Proof. by destruct s. Qed.

(** Nothing is delivered while every thread blocks it. *)
Lemma blocked_all original d s :
  mask d = blocking signals original -> (server d = None \/ inherited d = blocking signals original) ->
  deliverable s d = false.
Proof.
  unfold deliverable, blocking. intros -> Hi. rewrite signals_all. cbn.
  destruct (server d); [|done]. destruct Hi as [[=]| ->]. by rewrite signals_all.
Qed.

Lemma unblocked_some pending m s : unblocked pending m = Some s -> pending s = true /\ m s = false.
Proof.
  unfold unblocked. intros [_ Hf]%find_some. apply andb_true_iff in Hf as [H1 H2].
  by apply negb_true_iff in H2.
Qed.

Lemma guard_unmask original pc d :
  held original d -> server d = None ->
  guard_at original (d_goto pc (set_guard (previous_mask_ d) (previous_mask_ d) false d)) ->
  guard_at original (unmask pc d).
Proof.
  intros (_ & _ & Hp) Hs Hg. unfold unmask.
  destruct (unblocked (process_pending d) (previous_mask_ d)) as [s|] eqn:Hu; [|exact Hg].
  apply unblocked_some in Hu as [_ Hu]. rewrite Hp in Hu. by split_and!.
Qed.

Lemma wake_keeps r d :
  d_main (wake r d) = d_main d /\ active_ (wake r d) = active_ d /\ mask (wake r d) = mask d /\
  previous_mask_ (wake r d) = previous_mask_ d /\ server (wake r d) = server d /\
  inherited (wake r d) = inherited d /\ d_waiter (wake r d) = d_waiter d /\
  process_pending (wake r d) = process_pending d /\ options (wake r d) = options d /\
  output (wake r d) = output d /\ errors (wake r d) = errors d /\
  complete_ (wake r d) = complete_ d.
Proof. unfold wake. destruct (d_waiter d) eqn:Hw, (r =? 0); cbn; rewrite ?Hw; by split_and!. Qed.

Ltac guarded :=
  unfold guard_at, held in *; cbn -[wake] in *; destruct_and?; split_and?;
  first [by eauto | by right; eauto | congruence].

Lemma guard_wake original r d :
  held original d /\ is_Some (server d) /\ inherited d = blocking signals original ->
  held original (wake r d) /\ is_Some (server (wake r d)) /\
  inherited (wake r d) = blocking signals original.
Proof.
  destruct (wake_keeps r d) as (H1 & H2 & H3 & H4 & H5 & H6 & _). unfold held.
  by rewrite H2, H3, H4, H5, H6.
Qed.

Lemma guard_main original i d d' :
  guard_at original d -> mstep i d = Some d' -> guard_at original d'.
Proof.
  intros Hg Hstep. unfold guard_at in Hg. main_cases Hstep;
    try (apply guard_unmask; [apply Hg..|]); try guarded.
  - destruct (opt_help a); guarded.
  - destruct (run_exception bad_alloc_what e); guarded.
  - apply (guard_wake _ result) in Hg. destruct (_ && _); guarded.
  - apply (guard_wake _ result) in Hg. guarded.
  - destruct r; guarded.
  - destruct (unblocked (process_pending d) sigemptyset) as [s|] eqn:Hu; [|guarded].
    apply unblocked_some in Hu as [Hu _]. guarded.
  - destruct (status_ok status); [guarded|]. destruct Hg as (H1 & H2 & H3). by split_and!; [..|left].
  - destruct e; destruct Hg as (H1 & H2 & [H3|H3]); (split_and!; [done|done|]); by (left + right).
Qed.

(** What the other steps keep. *)
Lemma guard_kept original d d' :
  guard_at original d -> d_main d' = d_main d -> active_ d' = active_ d -> mask d' = mask d ->
  previous_mask_ d' = previous_mask_ d -> inherited d' = inherited d ->
  (is_Some (server d) -> is_Some (server d')) -> (server d = None -> server d' = None) ->
  (server d = None -> forall s, process_pending d s = true -> process_pending d' s = true) ->
  guard_at original d'.
Proof.
  unfold guard_at, held. intros Hg -> -> -> -> -> Hs Hn Hp.
  destruct (d_main d); try (destruct_and?; split_and?; by auto).
  destruct Hg as (? & H2 & s & H3). split; [tauto|]. split; [auto|eauto].
Qed.

(** The waiter is there only beside a server. *)
Definition no_waiter (w : waiter_pc) : bool :=
  match w with WaiterNone | WaiterEnded => true | _ => false end.

Lemma guard_waiter original i d d' :
  (server d = None -> no_waiter (d_waiter d) = true) ->
  guard_at original d -> wstep i d = Some d' -> guard_at original d'.
Proof.
  intros Hw Hg Hstep.
  assert (server d <> None) as Hs.
  { intros E. specialize (Hw E). unfold waiter_step in Hstep. by destruct (d_waiter d). }
  assert (forall e d1, on_server instance_id daemon_version broken_pipe e d = Some d1 ->
    guard_at original d1) as Hon.
  { intros e d1 (s1 & s2 & _ & _ & ->)%on_server_inv. by eapply guard_kept. }
  waiter_cases Hstep; try (by eapply Hon); try (by eapply guard_kept).
  - destruct (complete_ d); by eapply guard_kept.
  - eapply guard_kept; [eapply Hon; eassumption|..]; try done.
Qed.

Lemma guard_signal original s d :
  guard_at original d -> running d = true ->
  guard_at original (if deliverable s d then d_goto (MKilled s) d
                     else set_pending (sigaddset s (process_pending d)) (waiter_pending d) d).
Proof.
  intros Hg Hr. destruct (deliverable s d) eqn:Hd.
  - assert (forall m, mask d = m -> server d = None -> m s = false) as Hm.
    { intros m <- Hs. unfold deliverable in Hd. rewrite Hs, orb_false_r in Hd. by apply negb_true_iff. }
    assert (~ (mask d = blocking signals original /\
               (server d = None \/ inherited d = blocking signals original))) as Hb.
    { intros [H1 H2]. rewrite (blocked_all _ _ s H1 H2) in Hd. discriminate Hd. }
    unfold guard_at, held, running in *. cbn in *.
    destruct (d_main d); try discriminate Hr;
      try (destruct_and?; first [by destruct Hb; auto | by split_and?; auto]).
    destruct Hg as (H1 & H2 & [H3|H3]); [by auto|]. destruct Hb. auto.
  - eapply guard_kept; [exact Hg|..]; try done. cbn. intros _ x Hx. unfold sigaddset.
    rewrite Hx. apply orb_true_r.
Qed.

(** ** What is told, and by which exit code *)

Definition quiet (d : Daemon) : Prop := output d = [] /\ errors d = [].

Definition parsed (d : Daemon) : Prop :=
  parse_options arguments = Return (options d) /\ opt_help (options d) = false.

(** What may be thrown after the command line is parsed. *)
Definition thrown (o : Options) (e : main_exn) : Prop :=
  match e with
  | StdInvalidArgument w => server_refused (server_config o) = Some w
  | StdOutOfRange _ => False
  | OtherStdException _ => True
  end.

(** Nothing that reads as a usage error. *)
Definition ordinary (r : unwinding) : Prop :=
  match r with inr (StdInvalidArgument _) | inr (StdOutOfRange _) => False | _ => True end.

Definition usage (w : bytes) (code : Z) (d : Daemon) : Prop :=
  code = 2 /\ output d = help_text /\ errors d = w ++ newline.
Definition failed (code : Z) (d : Daemon) : Prop :=
  code = 1 /\ output d = [] /\ exists w, errors d = w ++ newline.

(** The end of the process and what it has printed. *)
Definition tells (code : Z) (d : Daemon) : Prop :=
  match parse_options arguments with
  | Throw (StdInvalidArgument w) => usage w code d
  | Throw (StdOutOfRange w) | Throw (OtherStdException w) =>
    code = 1 /\ output d = [] /\ errors d = w ++ newline
  | Return o =>
    if opt_help o then code = 0 /\ output d = help_text /\ errors d = []
    else
      match server_refused (server_config o) with
      | Some w => usage w code d \/ failed code d
      | None => (code = 0 /\ quiet d) \/ failed code d
      end
  end.

Definition tells_at (d : Daemon) : Prop :=
  match d_main d with
  | MParse | MAborted | MKilled _ => quiet d
  | MMask | MServer => quiet d /\ parsed d
  | MWaiter | MRun | MCheck _ | MPending _ | MDrain _ | MRestore _ | MReport _ =>
    quiet d /\ parsed d /\ server_refused (server_config (options d)) = None
  | MComplete r | MWake r | MJoin r | MDestroy r =>
    quiet d /\ parsed d /\ server_refused (server_config (options d)) = None /\ ordinary r
  | MUnwind e => quiet d /\ parsed d /\ thrown (options d) e
  | MCatch e => quiet d /\ (parse_options arguments = Throw e \/ (parsed d /\ thrown (options d) e))
  | MExit c => tells c d
  end.

Lemma tells_unmask pc d : quiet d -> tells_at (d_goto pc d) -> tells_at (unmask pc d).
Proof.
  intros Hq Ht. unfold unmask. by destruct (unblocked (process_pending d) (previous_mask_ d)).
Qed.

Lemma tells_kept d d' :
  tells_at d -> d_main d' = d_main d -> options d' = options d -> output d' = output d ->
  errors d' = errors d -> tells_at d'.
Proof.
  unfold tells_at, tells, quiet, parsed, usage, failed. by intros Ht -> -> -> ->.
Qed.

Ltac told :=
  unfold tells_at, parsed in *; cbn -[wake server_refused tells] in *; destruct_and?;
  split_and?; by eauto.

(** What the catch clauses print. *)
Lemma tells_catch e d :
  quiet d -> (parse_options arguments = Throw e \/ (parsed d /\ thrown (options d) e)) ->
  match e with
  | StdInvalidArgument w => tells 2 (d_goto (MExit 2) (print_help (print [] (w ++ newline) d)))
  | StdOutOfRange w | OtherStdException w => tells 1 (d_goto (MExit 1) (print [] (w ++ newline) d))
  end.
Proof.
  intros [Ho He] Hp. unfold tells, quiet, usage, failed, print_help, print.
  cbn -[server_refused]. rewrite Ho, He. cbn -[server_refused].
  destruct Hp as [-> | [[-> Hh] Ht]]; [by destruct e; rewrite ?app_nil_r|]. rewrite Hh.
  destruct e as [w|w|w]; cbn -[server_refused] in Ht; [rewrite Ht; left|done|].
  - by rewrite app_nil_r.
  - destruct (server_refused _); right; eauto.
Qed.

Lemma tells_wake v r d :
  quiet d /\ parsed d /\ server_refused (server_config (options d)) = None /\ ordinary v ->
  quiet (wake r d) /\ parsed (wake r d) /\
  server_refused (server_config (options (wake r d))) = None /\ ordinary v.
Proof.
  destruct (wake_keeps r d) as (_ & _ & _ & _ & _ & _ & _ & _ & H1 & H2 & H3 & _).
  unfold quiet, parsed. by rewrite H1, H2, H3.
Qed.

Lemma tells_main i d d' : tells_at d -> mstep i d = Some d' -> tells_at d'.
Proof.
  intros Ht Hstep. unfold tells_at in Ht. main_cases Hstep;
    try (apply tells_unmask; [by destruct_and?|]); try told.
  - destruct (opt_help a) eqn:Hh; [|told]. unfold tells_at. cbn -[tells]. unfold tells.
    rewrite Heqo, Hh. destruct Ht as [Ho He]. cbn. rewrite Ho, He. by rewrite app_nil_l.
  - destruct (run_exception bad_alloc_what e) as [e1|] eqn:He; [|told].
    assert (ordinary (inr e1)) by (by destruct e; try discriminate He; injection He as <-). told.
  - apply (tells_wake _ result) in Ht. destruct (_ && _); told.
  - apply (tells_wake _ result) in Ht. told.
  - destruct (error_ d =? 0); told.
  - destruct r as [st|[w|w|w]]; told.
  - destruct (unblocked (process_pending d) sigemptyset); told.
  - destruct Ht as ([Ho He] & [Hp Hh] & Hs). unfold tells_at.
    destruct (status_ok status); cbn -[tells]; unfold tells; cbn -[server_refused];
      rewrite Hp, Hh; cbn -[server_refused]; rewrite Hs; [by left|right].
    unfold failed. cbn. rewrite Ho, He. eauto.
  - destruct Ht as [Hq Ht]. pose proof (tells_catch _ _ Hq Ht) as H'. by destruct e.
Qed.

Lemma tells_waiter i d d' : tells_at d -> wstep i d = Some d' -> tells_at d'.
Proof.
  intros Ht Hstep.
  assert (forall e d1, on_server instance_id daemon_version broken_pipe e d = Some d1 ->
    tells_at d1) as Hon.
  { intros e d1 (s1 & s2 & _ & _ & ->)%on_server_inv. by eapply tells_kept. }
  waiter_cases Hstep; try (by eapply Hon); try (by eapply tells_kept).
  - destruct (complete_ d); by eapply tells_kept.
  - eapply tells_kept; [eapply Hon; eassumption|..]; done.
Qed.

Lemma tells_signal s d :
  tells_at d -> running d = true ->
  tells_at (if deliverable s d then d_goto (MKilled s) d
            else set_pending (sigaddset s (process_pending d)) (waiter_pending d) d).
Proof.
  intros Ht Hr. destruct (deliverable s d); [|by eapply tells_kept].
  unfold tells_at, running in *. cbn. destruct (d_main d); try discriminate Hr; by destruct_and?.
Qed.

End DaemonSpec.
