(* ===== verification/DaemonLife.v ===== *)
(** The waiter and the main thread share the server: who uses it, and when. *)
From S2P Require Import Prelude OrdMap Kernel Protocol Wire Codec Frame Jobs JobSystem.
From S2P Require Import Posix UnixSocket Service Server ServerSpec Hosted DaemonMain.
From S2P Require Import DaemonMainSpec Daemon DaemonSpec.

Section DaemonLife.
Context `{RT : Runtime} {P : Posix}.
Context (arguments : list bytes) (ESRCH : Z).
Context (instance_id : Z) (daemon_version broken_pipe : bytes).
Context (system_error_what : Z -> bytes -> bytes) (bad_alloc_what : bytes).

Abbreviation mstep :=
  (main_step arguments ESRCH instance_id daemon_version system_error_what bad_alloc_what).
Abbreviation wstep := (waiter_step instance_id daemon_version broken_pipe).
Abbreviation dstep :=
  (daemon_step arguments ESRCH instance_id daemon_version broken_pipe system_error_what bad_alloc_what).
Abbreviation dreach :=
  (daemon_reachable arguments ESRCH instance_id daemon_version broken_pipe system_error_what
     bad_alloc_what).
Abbreviation vreach o :=
  (server_reachable (server_config o) instance_id daemon_version broken_pipe).
Abbreviation vstep o := (server_step (server_config o) instance_id daemon_version broken_pipe).
Abbreviation onserver := (on_server instance_id daemon_version broken_pipe).

(** ** Steps of the server *)

(** [run] is over. *)
Definition leaving (r : run_pc) : bool :=
  match r with
  | RReturned _ | DStop _ | DSwap | DJoin _ | DRemove | DService | DWorkers _ | Gone => true
  | _ => false
  end.

Lemma run_step_leaving config i s s' :
  run_step config instance_id daemon_version i s = Some s' ->
  stoppers s' = stoppers s /\
  (leaving (run s) = true -> leaving (run s') = true) /\
  (leaving (run s) = false -> leaving (run s') = true -> exists o, run s' = RReturned o).
Proof.
  intros Hstep. unfold run_step in Hstep.
  assert (forall p (pc : stop_pc -> run_pc) b, (forall p', leaving (pc p') = b) ->
    ('(s1, p') ← stop_step p s; Some (set_run (pc p') s1)) = Some s' ->
    stoppers s' = stoppers s /\ leaving (run s') = b) as Hstop.
  { intros p pc b Hb Hp. destruct (stop_step p s) as [[s1 p1]|] eqn:Hs; [|done]. injection Hp as <-.
    split; [exact (sm_stoppers _ _ (stop_step_moved _ _ _ _ Hs))|apply Hb]. }
  destruct (run s) as [| | |l|a|d c n|d c|d c|d c|d c|b e|p0 st|p0 o|o|owned o|o|o|p0| |owned| | |wk|] eqn:Hrun;
    cbn -[stop_step service_step] in Hstep;
    try (destruct p0;
      try (eapply (Hstop _ (fun p => RFatal p st) false) in Hstep; [|done]; destruct Hstep as [-> ->]; by split_and!);
      try (eapply (Hstop _ (fun p => RStop p o) false) in Hstep; [|done]; destruct Hstep as [-> ->]; by split_and!);
      try (eapply (Hstop _ DStop true) in Hstep; [|done]; destruct Hstep as [-> ->]; by split_and!));
    repeat match type of Hstep with
    | Some _ = Some _ => injection Hstep as <-
    | (match ?x with _ => _ end) = Some _ => destruct x; try discriminate Hstep
    | (?x ≫= _) = Some _ => destruct x; cbn [mbind option_bind] in Hstep; try discriminate Hstep
    end; cbn; repeat match goal with |- context [if ?b then _ else _] => destruct b end; cbn;
    try discriminate Hstep; split_and!;
    first [done | by eauto | by rewrite Hrun].
Qed.

Lemma server_step_off config e s s' :
  inv config s -> server_step config instance_id daemon_version broken_pipe e s = Some s' ->
  (match e with VRun _ => True | _ => run s' = run s end) /\
  (match e with VRequestStop | VStopper _ => True | _ => stoppers s' = stoppers s end).
Proof.
  intros [Hc _] Hstep. destruct e; cbn -[handler_step run_step service_step stop_step] in Hstep.
  - destruct (handler_moves _ _ _ _ _ _ _ _ (ci_ok _ Hc) Hstep) as (h & h' & _ & Hm).
    split; apply Hm.
  - split; [done|]. by apply run_step_leaving in Hstep as [? _].
  - destruct (service_step _ _ _ _ _); [|done]. by injection Hstep as <-.
  - destruct (service_step _ _ _ _ _); [|done]. by injection Hstep as <-.
  - split; [|done]. destruct (alive s); [|done]. by injection Hstep as <-.
  - split; [|done]. destruct (stoppers s !! n) as [p|]; [|done]. cbn -[stop_step] in Hstep.
    destruct (stop_step p s) as [[s1 p1]|] eqn:Hs; [|done]. injection Hstep as <-.
    exact (sm_run _ _ (stop_step_moved _ _ _ _ Hs)).
  - destruct (threads s !! k); [|done]. cbn -[arrival_ok] in Hstep.
    destruct (forallb _ _); [|done]. by injection Hstep as <-.
  - destruct (threads s !! k); [|done]. cbn in Hstep.
    destruct (_ || _); [done|]. by injection Hstep as <-.
Qed.

(** ** The waiter and the main thread *)

(** Where the waiter may be. *)
Definition waiter_at (m : main_pc) (w : waiter_pc) : bool :=
  match m, w with
  | (MParse | MMask | MServer | MWaiter), WaiterNone => true
  | (MParse | MMask | MServer | MWaiter), _ => false
  | (MRun | MComplete _ | MWake _ | MJoin _ | MAborted), WaiterNone => false
  | (MRun | MComplete _ | MWake _ | MJoin _ | MAborted), _ => true
  | MCheck _, WaiterEnded => true
  | MCheck _, _ => false
  | _, _ => no_waiter w
  end.

(** Its calls of [stop]. *)
Definition stoppers_at (w : waiter_pc) (l : list stop_pc) : Prop :=
  match w with
  | WaiterStops n => n = O /\ exists p, l = [p]
  | WaiterEnded => l = [] \/ l = [StopReturned]
  | _ => l = []
  end.

(** How [run] ended, as the main thread goes on with it. *)
Definition ended_with (r : unwinding) (pc : run_pc) : Prop :=
  match r with
  | inl status => pc = RReturned (inl status)
  | inr e => exists e', pc = RReturned (inr e') /\ run_exception bad_alloc_what e' = Some e
  end.

Definition run_at (m : main_pc) (pc : run_pc) : Prop :=
  match m with
  | MWaiter => pc = RStart
  | MRun => leaving pc = false \/ exists o, pc = RReturned o
  | MComplete r | MWake r | MJoin r => ended_with r pc
  | MCheck status => pc = RReturned (inl status)
  | MDestroy _ => leaving pc = true
  | MAborted => pc = RReturned (inr NonStandard)
  | _ => False
  end.

Record life_at (d : Daemon) : Prop := {
  la_waiter : waiter_at (d_main d) (d_waiter d) = true;
  la_stoppers : forall s, server d = Some s -> stoppers_at (d_waiter d) (stoppers s);
  la_run : forall s, server d = Some s -> run_at (d_main d) (run s);
  la_reach : forall s, server d = Some s -> exists l, vreach (options d) l s;
}.

(** A configuration the server is constructed with. *)
Lemma refused_none o :
  server_refused (server_config o) = None -> server_config_valid (server_config o) = true.
Proof. unfold server_refused. by destruct (server_config_valid _). Qed.

Lemma parsed_uint d :
  parsed arguments d -> is_uint 32 (scfg_maximum_active_connections (server_config (options d))).
Proof.
  intros [Hp _]. apply parse_options_bounds in Hp. unfold bounds_ok in Hp. rewrite !Forall_cons in Hp.
  destruct Hp as (_ & _ & _ & Hn & _). unfold is_uint, uint32_limit in *. cbn. lia.
Qed.

(** While the server is there, its own invariant holds. *)
Lemma tells_config d s original :
  guard_at original d -> tells_at arguments d -> server d = Some s ->
  d_main d <> MAborted ->
  server_config_valid (server_config (options d)) = true /\
  is_uint 32 (scfg_maximum_active_connections (server_config (options d))).
Proof.
  intros Hg Ht Hs Ha. unfold guard_at in Hg. unfold tells_at in Ht.
  destruct (d_main d); try (by destruct Ha); destruct_and?; try congruence;
    (split; [by apply refused_none|by apply parsed_uint]).
Qed.
Lemma life_none d :
  waiter_at (d_main d) (d_waiter d) = true -> server d = None -> life_at d.
Proof. intros Hw Hs. split; [done|..]; intros s E; by rewrite Hs in E. Qed.

(** The server's state stays as it is. *)
Lemma life_same d d' :
  life_at d -> server d' = server d -> options d' = options d ->
  waiter_at (d_main d') (d_waiter d') = true ->
  (forall l, stoppers_at (d_waiter d) l -> stoppers_at (d_waiter d') l) ->
  (forall s, server d = Some s -> run_at (d_main d) (run s) -> run_at (d_main d') (run s)) ->
  life_at d'.
Proof.
  intros [H1 H2 H3 H4] Hs Ho Hw Hst Hr. split; [done|..]; intros s E; rewrite Hs in E; try rewrite Ho; eauto.
Qed.

Lemma unmask_keeps pc d :
  (d_main (unmask pc d) = pc \/ exists s, d_main (unmask pc d) = MKilled s) /\
  d_waiter (unmask pc d) = d_waiter d /\ server (unmask pc d) = server d.
Proof.
  unfold unmask. destruct (unblocked (process_pending d) (previous_mask_ d)); cbn; eauto.
Qed.

Lemma life_unmask pc d :
  server d = None -> no_waiter (d_waiter d) = true -> waiter_at pc (d_waiter d) = true ->
  life_at (unmask pc d).
Proof.
  intros Hs Hn Hw. destruct (unmask_keeps pc d) as (Hpc & Hw' & Hs'). apply life_none; [|congruence].
  rewrite Hw'. by destruct Hpc as [-> | [s ->]].
Qed.

Lemma life_wake d v r :
  life_at d -> d_main d = MWake v -> life_at (d_goto (MJoin v) (wake r d)).
Proof.
  intros Hl Hpc. destruct (wake_keeps r d) as (_ & _ & _ & _ & Hs & _ & Hw' & _ & Ho & _).
  pose proof (la_waiter _ Hl) as Hw. rewrite Hpc in Hw.
  eapply life_same; [exact Hl|exact Hs|exact Ho|cbn; by rewrite Hw'|cbn; by rewrite Hw'|by rewrite Hpc].
Qed.

Lemma life_main original i d d' :
  guard_at original d -> life_at d -> mstep i d = Some d' -> life_at d'.
Proof.
  intros Hg Hl Hstep. pose proof Hl as [Hw Hst Hr Hreach]. unfold guard_at in Hg.
  main_cases Hstep; cbn in Hw; destruct_and?;
    try (by apply life_none; [cbn; destruct (d_waiter d)|]);
    try (by apply life_unmask; [|exact Hw..]).
  - destruct (opt_help a); (apply life_none; [cbn; by destruct (d_waiter d)|done]).
  - destruct (d_waiter d) eqn:Hd; try discriminate Hw. split; cbn; rewrite ?Hd; [done|..];
      intros s Hs; injection Hs as <-; try done. exists listener. constructor.
  - destruct (d_waiter d) eqn:Hd; try discriminate Hw. eapply life_same; [exact Hl|done|done|done| |].
    + by rewrite Hd.
    + rewrite Hpc. cbn. intros s _ ->. by left.
  - destruct (d_waiter d) eqn:Hd; try discriminate Hw. rename s into s1, s0 into s2.
    specialize (Hr _ eq_refl). specialize (Hst _ eq_refl). destruct (Hreach _ eq_refl) as [l Hl1].
    cbn in Hr, Hst.
    assert (vstep (options d) (VRun (RThrows (StdException (Some w)))) s1 = Some s2) as Hv by done.
    destruct (run_step_leaving _ _ _ _ Heqo0) as (Hs2 & _).
    unfold run_step in Heqo0. rewrite Hr in Heqo0. injection Heqo0 as <-.
    split; cbn -[server_step]; rewrite ?Hd; [done|..]; intros s Hs; injection Hs as <-; try done.
    exists l. by econstructor.
  - eapply life_same; [exact Hl|done|done|exact Hw|done|]. intros s2 E _. cbn. congruence.
  - destruct (run_exception bad_alloc_what e) eqn:He;
      (eapply life_same; [exact Hl|done|done|exact Hw|done|]); cbn; intros s2 E _.
    + assert (s2 = s) as -> by congruence. eauto.
    + assert (s2 = s) as -> by congruence. by destruct e.
  - eapply life_same; [exact Hl|done|done|exact Hw|done|]. by rewrite Hpc.
  - eapply life_same; [exact Hl|done|done|exact Hw|done|]. by rewrite Hpc.
  - assert (life_at (d_goto (MJoin (inl s)) (wake result d))) as Hj by (by apply life_wake).
    destruct (_ && _); by destruct Hj.
  - by apply life_wake.
  - eapply life_same; [exact Hl|done|done|cbn; by rewrite Heqw|done|]. by rewrite Hpc.
  - eapply life_same; [exact Hl|done|done|cbn; by rewrite Heqw|done|]. rewrite Hpc. cbn.
    by intros s1 _ (e & -> & _).
  - destruct (d_waiter d) eqn:Hd; try discriminate Hw.
    eapply life_same; [exact Hl|done|done|cbn; by rewrite Hd|done|]. rewrite Hpc. cbn. by intros s1 _ ->.
  - destruct r; by apply life_none.
  - destruct (unblocked (process_pending d) sigemptyset); by apply life_none.
  - destruct (status_ok status); by apply life_none.
  - destruct e; by apply life_none.
Qed.

(** A step of the server that is not the waiter's. *)
Lemma life_server original e d d' :
  guard_at original d -> tells_at arguments d -> life_at d -> running d = true ->
  server_acts e d = true -> onserver e d = Some d' -> life_at d'.
Proof.
  intros Hg Ht [Hw Hst Hr Hreach] Hrun Hacts (s & s' & Hs & Hstep & ->)%on_server_inv.
  destruct (Hreach _ Hs) as [l Hl]. specialize (Hst _ Hs). specialize (Hr _ Hs).
  assert (d_main d <> MAborted) as Ha by (unfold running in Hrun; by destruct (d_main d)).
  destruct (tells_config d s original Hg Ht Hs Ha) as [Hv Hu].
  destruct (inv_reachable _ _ _ _ _ _ Hv Hu Hl) as [Hc Hacc].
  destruct (server_step_off _ _ _ _ (conj Hc Hacc) Hstep) as [Hr' Hst'].
  split; cbn; [done|..]; intros s2 Hs2; injection Hs2 as <-.
  - destruct e; try discriminate Hacts; by rewrite Hst'.
  - destruct e; try discriminate Hacts; try (by rewrite Hr'). cbn in Hstep.
    destruct (run_step_leaving _ _ _ _ Hstep) as (_ & H1 & H2).
    unfold server_acts in Hacts. rewrite Hs in Hacts.
    destruct (d_main d); try discriminate Hacts; cbn in Hr |- *.
    + destruct Hr as [Hr|[o Hr]]; [|by cbn in Hacts; rewrite Hr in Hacts].
      destruct (leaving (run s')) eqn:E; auto.
    + auto.
  - exists l. by econstructor.
Qed.

Lemma waiter_stays m w w' :
  waiter_at m w = true -> no_waiter w = false -> w' <> WaiterNone -> waiter_at m w' = true.
Proof. by destruct m, w; try discriminate; destruct w'. Qed.

Lemma life_waiter original i d d' :
  guard_at original d -> tells_at arguments d -> life_at d -> running d = true ->
  wstep i d = Some d' -> life_at d'.
Proof.
  intros Hg Ht Hl Hrun Hstep. pose proof Hl as [Hw Hst Hr Hreach].
  assert (forall w, w <> WaiterNone -> no_waiter (d_waiter d) = false ->
    waiter_at (d_main d) w = true) as Hstay by (intros; by eapply waiter_stays).
  assert (forall d1 d2, d_main d1 = d_main d -> options d1 = options d -> server d1 = server d ->
    waiter_at (d_main d) (d_waiter d1) = true ->
    (forall s, server d = Some s -> stoppers_at (d_waiter d1) (stoppers s)) -> d2 = d1 -> life_at d2) as Hset.
  { intros d1 d2 H1 H2 H3 H4 H5 ->. split; rewrite ?H1, ?H2, ?H3; auto. }
  assert (forall e s1 s2, server d = Some s1 -> vstep (options d) e s1 = Some s2 ->
    match e with VRequestStop | VStopper _ => True | _ => False end -> run s2 = run s1) as Hkeep.
  { intros e s1 s2 Hs Hv He. assert (d_main d <> MAborted) as Ha by (unfold running in Hrun; by destruct (d_main d)).
    destruct (tells_config d s1 original Hg Ht Hs Ha) as [Hc Hu]. destruct (Hreach _ Hs) as [l Hl1].
    pose proof (server_step_off _ _ _ _ (inv_reachable _ _ _ _ _ _ Hc Hu Hl1) Hv) as [Hx _].
    by destruct e. }
  assert (forall n, d_waiter d = WaiterStops n -> onserver (VStopper n) d = Some d' -> life_at d') as Hon.
  { intros n Hn (s1 & s2 & Hs & Hv & ->)%on_server_inv. specialize (Hr _ Hs). specialize (Hst _ Hs).
    destruct (Hreach _ Hs) as [l Hl1]. specialize (Hkeep _ _ _ Hs Hv I).
    rewrite Hn in Hst. destruct Hst as [-> [p Hp]].
    split; cbn -[server_step]; [done|..]; intros s3 Hs3; injection Hs3 as <-.
    - rewrite Hn. split; [done|]. cbn -[stop_step] in Hv. rewrite Hp in Hv. cbn -[stop_step] in Hv.
      destruct (stop_step p s1) as [[s3 p3]|] eqn:Hs3; [|done]. injection Hv as <-. cbn.
      rewrite (sm_stoppers _ _ (stop_step_moved _ _ _ _ Hs3)), Hp. eauto.
    - by rewrite Hkeep.
    - exists l. by econstructor. }
  waiter_cases Hstep; cbn in Hst; try (by eapply Hon);
    try (eapply Hset; [..|reflexivity]; cbn; [done..|by apply Hstay|exact Hst]).
  - destruct (complete_ d); (eapply Hset; [..|reflexivity]; cbn; [done..|by apply Hstay|]); [auto|exact Hst].
  - apply on_server_inv in Heqo0 as (s1 & s2 & Hs & Hv & ->).
    assert (s1 = s) as -> by congruence. specialize (Hst _ eq_refl). specialize (Hr _ eq_refl).
    destruct (Hreach _ eq_refl) as [l Hl1]. specialize (Hkeep _ _ _ eq_refl Hv I).
    split; cbn -[server_step]; [by apply Hstay|..]; intros s3 Hs3; injection Hs3 as <-.
    + cbn in Hv. destruct (alive s); [|done]. injection Hv as <-. cbn. rewrite Hst. eauto.
    + by rewrite Hkeep.
    + exists l. by econstructor.
  - eapply Hset; [..|reflexivity]; cbn; [done..|by apply Hstay|]. intros s1 Hs1.
    destruct (Hst _ Hs1) as [-> [p Hp]]. assert (s1 = s) as -> by congruence.
    rewrite Hp in *. injection Heqo0 as ->. by right.
Qed.

(** ** Everything together *)

Record daemon_inv (original : sigset) (d : Daemon) : Prop := {
  di_guard : guard_at original d;
  di_tells : tells_at arguments d;
  di_life : life_at d;
}.

Lemma daemon_inv_step original e d d' :
  daemon_inv original d -> dstep e d = Some d' -> daemon_inv original d'.
Proof.
  intros [Hg Ht Hl] Hstep. unfold daemon_step in Hstep.
  destruct (running d) eqn:Hrun; [|done]. cbn [negb] in Hstep. destruct e as [i|i|e|s].
  - split; [by eapply guard_main|by eapply tells_main|by eapply life_main].
  - split; [|by eapply tells_waiter|by eapply life_waiter].
    eapply (guard_waiter ESRCH _ _ _ system_error_what); [|exact Hg|exact Hstep]. intros Hs. pose proof (la_waiter _ Hl) as Hw.
    unfold guard_at in Hg. rewrite Hs in Hg.
    destruct (d_main d); try (by destruct (d_waiter d)); destruct Hg as (_ & [x Hx] & _); discriminate Hx.
  - destruct (server_acts e d) eqn:Ha; [|done].
    pose proof (life_server _ _ _ _ Hg Ht Hl Hrun Ha Hstep).
    apply on_server_inv in Hstep as (s1 & s2 & Hs & _ & ->).
    split; [by eapply (guard_kept ESRCH daemon_version system_error_what); [exact Hg|..]; rewrite ?Hs|by eapply tells_kept|done].
  - injection Hstep as <-. split; [by apply (guard_signal ESRCH daemon_version system_error_what)|by apply tells_signal|].
    destruct (deliverable s d) eqn:Hd; [|by destruct Hl].
    pose proof (guard_signal ESRCH daemon_version system_error_what _ s _ Hg Hrun) as Hk. rewrite Hd in Hk. destruct Hk as (_ & Hs & _).
    apply life_none; [|done]. cbn in *. pose proof (la_waiter _ Hl) as Hw. unfold guard_at in Hg.
    rewrite Hs in Hg. unfold running in Hrun.
    destruct (d_main d); try discriminate Hrun; try (by destruct (d_waiter d));
      destruct Hg as (_ & [x Hx] & _); discriminate Hx.
Qed.

Lemma daemon_inv_reachable original pending d : dreach original pending d -> daemon_inv original d.
Proof.
  induction 1 as [|d e d' _ IH Hstep]; [|by eapply daemon_inv_step].
  split; [done|done|]. by apply life_none.
Qed.

(** The server of a running process, with its own invariant. *)
Lemma dinv_server original d s :
  daemon_inv original d -> running d = true -> server d = Some s ->
  server_config_valid (server_config (options d)) = true /\
  is_uint 32 (scfg_maximum_active_connections (server_config (options d))) /\
  (exists l, vreach (options d) l s) /\ inv (server_config (options d)) s.
Proof.
  intros [Hg Ht Hl] Hrun Hs.
  assert (d_main d <> MAborted) as Hab by (unfold running in Hrun; by destruct (d_main d)).
  destruct (tells_config d s original Hg Ht Hs Hab) as [Hc Hu].
  destruct (la_reach _ Hl _ Hs) as [l Hl1].
  pose proof (inv_reachable _ _ _ _ _ _ Hc Hu Hl1). eauto.
Qed.

(** C16: The managed signals never end the process while the server is there: every thread
    blocks them from before the construction of the server to after its destruction.  A
    signal kills the process only when the mask it was started with lets it through and no
    server exists; [restore] calls [sigwait] only when a signal is pending, so it never
    blocks, and a process that exits with 0 has its original mask again. *)
Theorem signals_contained original pending d :
  daemon_reachable arguments ESRCH instance_id daemon_version broken_pipe system_error_what
    bad_alloc_what original pending d ->
  (forall x, is_Some (server d) -> deliverable x d = false) /\
  (forall x, d_main d = MKilled x -> original x = false /\ server d = None) /\
  (forall status, d_main d = MDrain status -> exists x, process_pending d x = true) /\
  (d_main d = MExit 0 -> mask d = original).
Proof.
  intros [Hg _ _]%daemon_inv_reachable. unfold guard_at in Hg. split_and!.
  - intros x [s Hs]. rewrite Hs in Hg. destruct (d_main d); destruct_and?; try discriminate;
      match goal with H : held _ _ |- _ => destruct H as (_ & Hm & _) end;
      (apply (blocked_all original); [exact Hm|by right]).
  - intros x Hx. rewrite Hx in Hg. tauto.
  - intros status Hx. rewrite Hx in Hg. tauto.
  - intros Hx. rewrite Hx in Hg. destruct Hg as (_ & _ & [Hm|[[] _]]); done.
Qed.

Lemma alive_not_leaving s : alive s = true <-> leaving (run s) = false \/ exists o, run s = RReturned o.
Proof.
  unfold alive. destruct (run s); cbn; split; try done; try (by auto); try (by eauto);
    by intros [?|[? [=]]].
Qed.

(** C15: The waiter never touches a server that is being destroyed: the server in the process
    is one the model of the server reaches with the parsed options, whoever is about to
    call [request_stop] or in it finds the server alive and can go on, and when the
    destructor runs the waiter has ended and its call of [stop] has returned. *)
Theorem server_outlives_waiter original pending d s :
  daemon_reachable arguments ESRCH instance_id daemon_version broken_pipe system_error_what
    bad_alloc_what original pending d ->
  server d = Some s ->
  (exists l, server_reachable (server_config (options d)) instance_id daemon_version broken_pipe l s) /\
  ((d_waiter d = WaiterRequests \/ exists n, d_waiter d = WaiterStops n) ->
   alive s = true /\ is_Some (waiter_step instance_id daemon_version broken_pipe WGoes d)) /\
  (alive s = false -> no_waiter (d_waiter d) = true /\ Forall (fun p => p = StopReturned) (stoppers s)).
Proof.
  intros [Hg _ [Hw Hst Hr Hreach]]%daemon_inv_reachable Hs.
  specialize (Hst _ Hs). specialize (Hr _ Hs). split; [by apply Hreach|]. split.
  - intros Huse.
    assert (no_waiter (d_waiter d) = false) as Hn by (by destruct Huse as [->|[n ->]]).
    assert (alive s = true) as Ha.
    { apply alive_not_leaving. destruct (d_main d); cbn in Hr, Hw; try done; try (by eauto);
        try (destruct r as [st|e]; [by eauto|by destruct Hr as (e' & -> & _); eauto]);
        by destruct (d_waiter d). }
    split; [done|]. unfold waiter_step, on_server. rewrite Hs. destruct Huse as [->|[n E]].
    + cbn. rewrite Ha. by eexists.
    + rewrite E in *. destruct Hst as [-> [p Hp]]. cbn -[server_step lookup]. rewrite Hp.
      assert (p = StopReturned \/ p <> StopReturned) as [->|Hne]
        by (destruct p; first [by left | by right]); [by eexists|].
      assert (is_Some (stop_step p s)) as [[s1 p1] Hs1]
        by (destruct p; cbn; [by destruct (stopping s); eexists|by eexists..|done]).
      assert (is_Some (vstep (options d) (VStopper 0) s)) as [s2 Hv].
      { cbn -[stop_step]. rewrite Hp. cbn -[stop_step]. rewrite Hs1. by eexists. }
      destruct p; try (by destruct Hne); cbn -[server_step]; rewrite Hv; by eexists.
  - intros Ha. assert (no_waiter (d_waiter d) = true) as Hn.
    { assert (alive s <> true) as Hna by (by rewrite Ha). rewrite alive_not_leaving in Hna.
      destruct (d_main d); cbn in Hr, Hw; try done; destruct Hna; try (by eauto);
        try (destruct r as [st|e]; [by eauto|by destruct Hr as (e' & -> & _); eauto]).
      rewrite Hr. by left. }
    split; [done|]. destruct (d_waiter d); try discriminate Hn; cbn in Hst;
      [by rewrite Hst|destruct Hst as [-> | ->]; [done|by repeat constructor]].
Qed.

End DaemonLife.
