(* ===== verification/DaemonAsk.v ===== *)
(** The waiter and the stop: it ends before [complete_] is set only after it has asked the
    server to stop. *)
From S2P Require Import Prelude OrdMap Kernel Protocol Wire Codec Frame Jobs JobSystem.
From S2P Require Import JobSpec Dispatch Progress Posix UnixSocket Service Server ServerSpec ServerEnd.
From S2P Require Import DaemonMain DaemonMainSpec Daemon DaemonSpec DaemonLife.

Section DaemonAsk.
Context `{HK : KernelLaws} {RT : Runtime} {P : Posix}.
Context (arguments : list bytes) (ESRCH : Z).
Context (instance_id : Z) (daemon_version broken_pipe : bytes).
Context (system_error_what : Z -> bytes -> bytes) (bad_alloc_what : bytes).

Abbreviation mstep :=
  (main_step arguments ESRCH instance_id daemon_version system_error_what bad_alloc_what).
Abbreviation wstep := (waiter_step instance_id daemon_version broken_pipe).
Abbreviation dstep :=
  (daemon_step arguments ESRCH instance_id daemon_version broken_pipe system_error_what bad_alloc_what).
Abbreviation dreach :=
  (daemon_reachable arguments ESRCH instance_id daemon_version broken_pipe system_error_what
     bad_alloc_what).
Abbreviation vreach o :=
  (server_reachable (server_config o) instance_id daemon_version broken_pipe).
Abbreviation vstep o := (server_step (server_config o) instance_id daemon_version broken_pipe).
Abbreviation onserver := (on_server instance_id daemon_version broken_pipe).
Abbreviation dinv := (daemon_inv arguments instance_id daemon_version broken_pipe bad_alloc_what).

(** ** The waiter ends early only after a stop *)

Lemma stop_step_sets p s s' p' :
  stop_step p s = Some (s', p') -> p = StopExchange \/ stopping s = true -> stopping s' = true.
Proof.
  intros Hp [-> | Hs]; [|by apply (sm_stopping _ _ (stop_step_moved _ _ _ _ Hp))].
  cbn in Hp. destruct (stopping s) eqn:E; by injection Hp as <- <-.
Qed.

Lemma run_step_stopping config i s s' :
  run_step config instance_id daemon_version i s = Some s' -> stopping s = true -> stopping s' = true.
Proof.
  intros Hstep Hs. unfold run_step in Hstep.
  assert (forall p (pc : stop_pc -> run_pc),
    ('(s1, p') ← stop_step p s; Some (set_run (pc p') s1)) = Some s' -> stopping s' = true) as Hstop.
  { intros p pc Hp. destruct (stop_step p s) as [[s1 p1]|] eqn:Hs1; [|done]. injection Hp as <-.
    apply (stop_step_sets _ _ _ _ Hs1). by right. }
  destruct (run s) as [| | |l|a|d c n|d c|d c|d c|d c|b e|p0 st|p0 o|o|owned o|o|o|p0| |owned| | |wk|] eqn:Hrun;
    cbn -[stop_step service_step] in Hstep;
    try (destruct p0; try (by apply (Hstop _ (fun p => RFatal p st)) in Hstep);
      try (by apply (Hstop _ (fun p => RStop p o)) in Hstep); try (by apply (Hstop _ DStop) in Hstep));
    repeat match type of Hstep with
    | Some _ = Some _ => injection Hstep as <-
    | (match ?x with _ => _ end) = Some _ => destruct x eqn:?; try discriminate Hstep
    | (?x ≫= _) = Some _ => destruct x; cbn [mbind option_bind] in Hstep; try discriminate Hstep
    end; try discriminate Hstep; try exact Hs; cbn; repeat case_match; try done.
Qed.

Lemma server_step_stopping config e s s' :
  inv config s -> server_step config instance_id daemon_version broken_pipe e s = Some s' ->
  stopping s = true -> stopping s' = true.
Proof.
  intros [Hc _] Hstep Hs. destruct e; cbn -[handler_step run_step service_step stop_step] in Hstep.
  - destruct (handler_moves _ _ _ _ _ _ _ _ (ci_ok _ Hc) Hstep) as (h & h' & _ & Hm). by apply Hm.
  - by eapply run_step_stopping.
  - destruct (service_step _ _ _ _ _); [|done]. by injection Hstep as <-.
  - destruct (service_step _ _ _ _ _); [|done]. by injection Hstep as <-.
  - destruct (alive s); [|done]. by injection Hstep as <-.
  - destruct (stoppers s !! n) as [p|]; [|done]. cbn -[stop_step] in Hstep.
    destruct (stop_step p s) as [[s1 p1]|] eqn:Hs1; [|done]. injection Hstep as <-.
    apply (stop_step_sets _ _ _ _ Hs1). by right.
  - destruct (threads s !! k); [|done]. cbn -[arrival_ok] in Hstep.
    destruct (forallb _ _); [|done]. by injection Hstep as <-.
  - destruct (threads s !! k); [|done]. cbn in Hstep.
    destruct (_ || _); [done|]. by injection Hstep as <-.
Qed.

(** The main thread has not set [complete_]. *)
Definition incomplete (m : main_pc) : bool :=
  match m with MParse | MMask | MServer | MWaiter | MRun | MComplete _ => true | _ => false end.

(** The waiter has asked for the stop. *)
Definition has_asked (w : waiter_pc) (complete : bool) (s : ServerState) : Prop :=
  match w with
  | WaiterStops n => (exists p, stoppers s !! n = Some p /\ p <> StopExchange) -> stopping s = true
  | WaiterEnded => complete = false -> stopping s = true
  | _ => True
  end.

Record asked_at (d : Daemon) : Prop := {
  aa_complete : incomplete (d_main d) = true -> complete_ d = false;
  aa_asked : forall s, server d = Some s -> has_asked (d_waiter d) (complete_ d) s;
}.

Lemma asked_same d d' :
  asked_at d -> (incomplete (d_main d') = true -> incomplete (d_main d) = true) ->
  complete_ d' = complete_ d -> d_waiter d' = d_waiter d ->
  (server d' = server d \/ server d' = None) -> asked_at d'.
Proof.
  intros [H1 H2] Hm Hc Hw Hs. split; rewrite ?Hc, ?Hw; [auto|]. intros s E.
  destruct Hs as [Hs|Hs]; rewrite Hs in E; [auto|discriminate E].
Qed.

Lemma asked_none d : incomplete (d_main d) = false -> server d = None -> asked_at d.
Proof. intros Hm Hs. split; [by rewrite Hm|]. intros s E. by rewrite Hs in E. Qed.

Lemma asked_complete m d : incomplete m = false -> asked_at d -> asked_at (d_goto m (set_complete d)).
Proof.
  intros Hm Ha. split; cbn; [by rewrite Hm|]. intros s Hs. pose proof (aa_asked _ Ha _ Hs) as Hx.
  by destruct (d_waiter d).
Qed.

Lemma asked_wake v r d : asked_at d -> asked_at (d_goto (MJoin v) (wake r d)).
Proof.
  intros Ha. destruct (wake_keeps r d) as (_ & _ & _ & _ & Hs & _ & Hw' & _ & _ & _ & _ & Hc).
  eapply asked_same; [exact Ha|done|exact Hc|exact Hw'|by left].
Qed.

Lemma asked_main original i d d' : dinv original d -> asked_at d -> mstep i d = Some d' -> asked_at d'.
Proof.
  intros [Hg _ [Hw _ _ _]] Ha Hstep. unfold guard_at in Hg.
  main_cases Hstep; try (eapply asked_same; [exact Ha|cbn; rewrite Hpc; by auto|by auto..]).
  - destruct (opt_help a); (eapply asked_same; [exact Ha|cbn; rewrite Hpc; by auto|by auto..]).
  - destruct Ha as [Hc _]. rewrite Hpc in Hc. split; cbn; [auto|]. by destruct (d_waiter d).
  - destruct Ha as [Hc _]. rewrite Hpc in Hc. by split.
  - split; [done|]. cbn. by destruct (d_waiter d).
  - by apply asked_complete.
  - by apply asked_complete.
  - assert (asked_at (d_goto (MJoin (inl s)) (wake result d))) as Hj by (by apply asked_wake).
    destruct (_ && _); by destruct Hj.
  - by apply asked_wake.
  - destruct r; (eapply asked_same; [exact Ha|done|done|done|by right]).
  - destruct (unblocked (process_pending d) sigemptyset);
      (eapply asked_same; [exact Ha|done|done|done|by left]).
  - destruct (unmask_keeps (MReport status) d) as ([Hm|[s Hm]] & _ & Hs);
      (apply asked_none; [by rewrite Hm|rewrite Hs; tauto]).
  - destruct (status_ok status); (eapply asked_same; [exact Ha|done|done|done|by left]).
  - destruct (unmask_keeps (MCatch e) d) as ([Hm|[s Hm]] & _ & Hs);
      (apply asked_none; [by rewrite Hm|rewrite Hs; tauto]).
  - destruct e; (eapply asked_same; [exact Ha|done|done|done|by left]).
Qed.

Lemma asked_waiter original i d d' : dinv original d -> asked_at d -> wstep i d = Some d' -> asked_at d'.
Proof.
  intros [_ _ [_ Hst _ _]] [Hc Ha] Hstep.
  assert (forall n, d_waiter d = WaiterStops n -> onserver (VStopper n) d = Some d' -> asked_at d') as Hon.
  { intros n Hn (s1 & s2 & Hs & Hv & ->)%on_server_inv. specialize (Ha _ Hs). specialize (Hst _ Hs).
    split; [exact Hc|]. cbn -[server_step]. intros s3 Hs3. injection Hs3 as <-. rewrite Hn in *.
    destruct Hst as [-> [p Hp]]. cbn -[stop_step lookup] in Hv |- *. rewrite Hp in Hv. cbn -[stop_step] in Hv.
    destruct (stop_step p s1) as [[s3 p3]|] eqn:Hs3; [|done]. injection Hv as <-. cbn. intros _.
    apply (stop_step_sets _ _ _ _ Hs3). destruct p; [by left|right; apply Ha; rewrite Hp; eexists; by split..]. }
  waiter_cases Hstep; try (by eapply Hon); try (by split; [exact Hc|]).
  - destruct (complete_ d) eqn:E; (split; [by cbn; rewrite E|]); [|done]. cbn. by rewrite E.
  - apply on_server_inv in Heqo0 as (s1 & s2 & Hs & Hv & ->). split; [exact Hc|]. cbn.
    intros s3 Hs3. injection Hs3 as <-. cbn in Hv. destruct (alive s1); [|done]. injection Hv as <-. cbn.
    intros (p & Hp & Hne). assert (s1 = s) as -> by congruence.
    rewrite lookup_app_r, Nat.sub_diag in Hp by done. by injection Hp as <-.
  - split; [exact Hc|]. cbn. intros s1 Hs1 _. assert (s1 = s) as -> by congruence.
    apply (Ha _ eq_refl). rewrite Heqo0. by exists StopReturned.
Qed.

Lemma asked_reachable original pending d : dreach original pending d -> asked_at d.
Proof.
  induction 1 as [|d e d' Hd IH Hstep]; [by split|].
  pose proof (daemon_inv_reachable _ _ _ _ _ _ _ _ _ _ Hd) as Hinv. unfold daemon_step in Hstep.
  destruct (running d) eqn:Hrun; [|done]. cbn [negb] in Hstep. destruct e as [i|i|e|s].
  - by eapply asked_main.
  - by eapply asked_waiter.
  - destruct (server_acts e d) eqn:Ha; [|done].
    apply on_server_inv in Hstep as (s1 & s2 & Hs & Hv & ->).
    destruct (dinv_server _ _ _ _ system_error_what _ _ _ _ Hinv Hrun Hs) as (_ & _ & _ & Hsi).
    destruct (server_step_off _ _ _ _ _ _ _ Hsi Hv) as [_ Hst].
    assert (stoppers s2 = stoppers s1) as Hst2 by (by destruct e).
    destruct IH as [H1 H2]. split; [exact H1|]. cbn. intros s3 Hs3. injection Hs3 as <-.
    specialize (H2 _ Hs). pose proof (server_step_stopping _ _ _ _ Hsi Hv) as Hmono. unfold has_asked in *.
    destruct (d_waiter d); rewrite ?Hst2; auto.
  - injection Hstep as <-. destruct (deliverable s d); [|by destruct IH].
    destruct IH as [H1 H2]. by split.
Qed.
End DaemonAsk.
