(* ===== verification/DaemonEnd.v ===== *)
(** The daemon stops when it is told to: a stop signal, or a stop of the server from within,
    brings the process to its end without any help of the peers. *)
From S2P Require Import Prelude OrdMap Kernel Protocol Wire Codec Frame Jobs JobSystem.
From S2P Require Import JobSpec Dispatch Progress Posix UnixSocket Service Server ServerSpec ServerEnd.
From S2P Require Import DaemonMain DaemonMainSpec Daemon DaemonSpec DaemonLife DaemonAsk.

Section DaemonEnd.
Context `{HK : KernelLaws} {RT : Runtime} {P : Posix}.
Context (arguments : list bytes) (ESRCH : Z).
Context (instance_id : Z) (daemon_version broken_pipe : bytes).
Context (system_error_what : Z -> bytes -> bytes) (bad_alloc_what : bytes).

Abbreviation mstep :=
  (main_step arguments ESRCH instance_id daemon_version system_error_what bad_alloc_what).
Abbreviation wstep := (waiter_step instance_id daemon_version broken_pipe).
Abbreviation dstep :=
  (daemon_step arguments ESRCH instance_id daemon_version broken_pipe system_error_what bad_alloc_what).
Abbreviation dreach :=
  (daemon_reachable arguments ESRCH instance_id daemon_version broken_pipe system_error_what
     bad_alloc_what).
Abbreviation vreach o :=
  (server_reachable (server_config o) instance_id daemon_version broken_pipe).
Abbreviation vstep o := (server_step (server_config o) instance_id daemon_version broken_pipe).
Abbreviation onserver := (on_server instance_id daemon_version broken_pipe).
Abbreviation dinv := (daemon_inv arguments instance_id daemon_version broken_pipe bad_alloc_what).

(** ** What the process does by itself *)

Section Events.
Context (workers_do : worker_pc -> worker_input) (calls_do : call_pc -> call_input).
Context (closed_status : Status).

Abbreviation comes o :=
  (comes_to (server_config o) instance_id daemon_version broken_pipe workers_do calls_do closed_status).

(** Nothing fails, no signal arrives, and the server is left to itself. *)
Definition d_unaided (d : Daemon) (e : daemon_event) : Prop :=
  match e with
  | DMain i => i = Works \/ i = Wakes 0 \/ exists x, i = Takes x
  | DWaiter i => i = WGoes \/ exists b x, i = WTakes b x
  | DServer e => exists s, server d = Some s /\ unaided workers_do calls_do closed_status s e
  | DSignal _ => False
  end.

Inductive d_comes (d : Daemon) : Daemon -> Prop :=
| d_comes_refl : d_comes d d
| d_comes_step e d1 d2 : d_unaided d e -> dstep e d = Some d1 -> d_comes d1 d2 -> d_comes d d2.

Lemma d_comes_trans d d1 d2 : d_comes d d1 -> d_comes d1 d2 -> d_comes d d2.
Proof. induction 1; [done|]. intros. eapply d_comes_step; eauto. Qed.

Lemma d_comes_reach original pending d d' :
  dreach original pending d -> d_comes d d' -> dreach original pending d'.
Proof. intros Hd H. induction H as [|d e d1 d2 _ Hstep _ IH]; [done|]. apply IH. by econstructor. Qed.

Lemma d_main_step i d d1 :
  running d = true -> i = Works \/ i = Wakes 0 \/ (exists x, i = Takes x) -> mstep i d = Some d1 ->
  d_comes d d1.
Proof.
  intros Hr Hi Hs. eapply (d_comes_step _ (DMain i)); [done| |constructor].
  unfold daemon_step. by rewrite Hr.
Qed.

Lemma d_waiter_step i d d1 :
  running d = true -> i = WGoes \/ (exists b x, i = WTakes b x) -> wstep i d = Some d1 ->
  d_comes d d1.
Proof.
  intros Hr Hi Hs. eapply (d_comes_step _ (DWaiter i)); [done| |constructor].
  unfold daemon_step. by rewrite Hr.
Qed.

(** *** Until the stop is asked *)

(** The stop is asked for, or on its way. *)
Definition stop_coming (d : Daemon) (s : ServerState) : Prop :=
  stopping s = true \/
  (exists x, (x = SIGINT \/ x = SIGTERM) /\ (process_pending d x = true \/ d_waiter d = WaiterGot x)) \/
  d_waiter d = WaiterRequests \/ (exists n, d_waiter d = WaiterStops n).

Lemma ending_set s : ending (set_stopping s) -> stopping s = true -> ending s.
Proof. by intros [_ H2 H3] H1. Qed.

(** The server as [stop] leaves it; what matters else is as before. *)
Record asked (m : main_pc) (s : ServerState) (d' : Daemon) (s' : ServerState) : Prop := {
  as_main : d_main d' = m;
  as_server : server d' = Some s';
  as_stopping : stopping s' = true;
  as_run : run s' = run s;
  as_places : place <$> threads s' = place <$> threads s;
}.

Lemma asked_ending m s d' s' : ending (set_stopping s) -> asked m s d' s' -> ending s'.
Proof. intros He [_ _ H3 H4 H5]. by apply (ending_places (set_stopping s)). Qed.

Lemma asks_stops original pending d s n :
  dreach original pending d -> running d = true -> server d = Some s -> d_waiter d = WaiterStops n ->
  exists d' s', d_comes d d' /\ asked (d_main d) s d' s'.
Proof.
  intros Hd Hrun Hs Hw. destruct (daemon_inv_reachable _ _ _ _ _ _ _ _ _ _ Hd) as [_ _ [_ Hst _ _]].
  specialize (Hst _ Hs). rewrite Hw in Hst. destruct Hst as [-> [p Hp]].
  pose proof (aa_asked _ (asked_reachable _ _ _ _ _ _ _ _ _ _ Hd) _ Hs) as Ha. rewrite Hw in Ha.
  destruct (stopping s) eqn:Hstop; [exists d, s; split; [constructor|by split]|].
  assert (p = StopExchange) as ->.
  { destruct p; [done|..]; (assert (stopping s = true); [|congruence]); apply Ha; rewrite Hp;
      eexists; by split. }
  set (s1 := set_stoppers [StopListener] (set_stopping s)).
  assert (vstep (options d) (VStopper 0) s = Some s1) as Hv.
  { cbn. rewrite Hp. cbn. rewrite Hstop. cbn. by rewrite Hp. }
  exists (set_server (Some s1) (inherited d) d), s1. split; [|by split].
  apply (d_waiter_step WGoes); [done|by left|]. unfold waiter_step, on_server. rewrite Hw, Hs.
  cbn -[server_step lookup]. rewrite Hp. cbn -[server_step]. by rewrite Hv.
Qed.

(** The call of [request_stop] begins. *)
Lemma requests original pending d s :
  dreach original pending d -> running d = true -> server d = Some s -> d_waiter d = WaiterRequests ->
  exists d', d_comes d d' /\ d_main d' = d_main d /\ options d' = options d /\
    server d' = Some (set_stoppers (stoppers s ++ [StopExchange]) s) /\
    d_waiter d' = WaiterStops (length (stoppers s)).
Proof.
  intros Hd Hrun Hs Hw. destruct (daemon_inv_reachable _ _ _ _ _ _ _ _ _ _ Hd) as [_ _ [Hwa Hst Hr _]].
  specialize (Hr _ Hs). rewrite Hw in Hwa.
  assert (alive s = true) as Ha.
  { apply alive_not_leaving. destruct (d_main d); cbn in Hr, Hwa; try done; try (by eauto);
      (destruct r as [st|e]; [by eauto|by destruct Hr as (e' & -> & _); eauto]). }
  set (s1 := set_stoppers (stoppers s ++ [StopExchange]) s).
  exists (set_waiter (WaiterStops (length (stoppers s))) (set_server (Some s1) (inherited d) d)).
  split; [|done]. apply (d_waiter_step WGoes); [done|by left|]. unfold waiter_step, on_server.
  rewrite Hw, Hs. cbn. by rewrite Ha.
Qed.

Lemma asks_requests original pending d s :
  dreach original pending d -> running d = true -> server d = Some s -> d_waiter d = WaiterRequests ->
  exists d' s', d_comes d d' /\ asked (d_main d) s d' s'.
Proof.
  intros Hd Hrun Hs Hw.
  destruct (requests original pending d s Hd Hrun Hs Hw) as (d1 & Hc & H1 & _ & H3 & H4).
  destruct (asks_stops original pending d1 (set_stoppers (stoppers s ++ [StopExchange]) s)
    (length (stoppers s))) as (d2 & s2 & Hc2 & [A1 A2 A3 A4 A5]);
    [by eapply d_comes_reach|unfold running; by rewrite H1|done..|].
  exists d2, s2. split; [by eapply d_comes_trans|]. split; try done. congruence.
Qed.

Lemma asks_got original pending d s x :
  dreach original pending d -> running d = true -> server d = Some s -> d_waiter d = WaiterGot x ->
  x = SIGINT \/ x = SIGTERM -> exists d' s', d_comes d d' /\ asked (d_main d) s d' s'.
Proof.
  intros Hd Hrun Hs Hw Hx.
  assert (d_comes d (set_waiter WaiterRequests d)) as Hc.
  { apply (d_waiter_step WGoes); [done|by left|]. unfold waiter_step. rewrite Hw. by destruct Hx as [-> | ->]. }
  destruct (asks_requests original pending (set_waiter WaiterRequests d) s) as (d2 & s2 & Hc2 & Ha);
    [by eapply d_comes_reach|done..|].
  exists d2, s2. split; [by eapply d_comes_trans|exact Ha].
Qed.

Lemma asks_waits original pending d s x :
  dreach original pending d -> running d = true -> server d = Some s -> d_waiter d = WaiterWaits ->
  x = SIGINT \/ x = SIGTERM -> process_pending d x = true ->
  exists d' s', d_comes d d' /\ asked (d_main d) s d' s'.
Proof.
  intros Hd Hrun Hs Hw Hx Hp.
  set (d1 := set_waiter (WaiterGot x)
               (set_pending (sigdelset x (process_pending d)) (waiter_pending d) d)).
  assert (d_comes d d1) as Hc.
  { apply (d_waiter_step (WTakes false x)); [done|by right; eauto|]. unfold waiter_step. by rewrite Hw, Hp. }
  destruct (asks_got original pending d1 s x) as (d2 & s2 & Hc2 & Ha);
    [by eapply d_comes_reach|done..|].
  exists d2, s2. split; [by eapply d_comes_trans|exact Ha].
Qed.

Lemma asks_all original pending d s :
  dreach original pending d -> d_main d = MRun -> server d = Some s -> stop_coming d s ->
  exists d' s', d_comes d d' /\ asked MRun s d' s'.
Proof.
  intros Hd Hm Hs Hcoming. assert (running d = true) as Hrun by (unfold running; by rewrite Hm).
  rewrite <-Hm. destruct Hcoming as [Hst|[(x & Hx & [Hp|Hg])|[Hq|[n Hn]]]].
  - exists d, s. split; [constructor|by split].
  - pose proof (asked_reachable _ _ _ _ _ _ _ _ _ _ Hd) as [Hc Ha]. specialize (Ha _ Hs).
    rewrite Hm in Hc. specialize (Hc eq_refl).
    destruct (daemon_inv_reachable _ _ _ _ _ _ _ _ _ _ Hd) as [_ _ [Hwa _ _ _]]. rewrite Hm in Hwa.
    destruct (d_waiter d) as [| |y| |n|] eqn:Hw; try discriminate Hwa.
    + by eapply asks_waits.
    + destruct (decide (y = SIGUSR1)) as [->|Hy];
        [|eapply asks_got; [exact Hd|exact Hrun|exact Hs|exact Hw|destruct y; auto; by destruct Hy]].
      assert (d_comes d (set_waiter WaiterWaits d)) as Hc1.
      { apply (d_waiter_step WGoes); [done|by left|]. unfold waiter_step. by rewrite Hw, Hc. }
      destruct (asks_waits original pending (set_waiter WaiterWaits d) s x) as (d2 & s2 & Hc2 & H2);
        [by eapply d_comes_reach|done..|].
      exists d2, s2. split; [by eapply d_comes_trans|exact H2].
    + by eapply asks_requests.
    + by eapply asks_stops.
    + assert (stopping s = true) by (by apply Ha). exists d, s. split; [constructor|by split].
  - by eapply asks_got.
  - by eapply asks_requests.
  - by eapply asks_stops.
Qed.

(** *** The server goes to its end *)

Lemma d_server_step e d s s1 :
  running d = true -> server d = Some s -> unaided workers_do calls_do closed_status s e ->
  server_acts e d = true -> vstep (options d) e s = Some s1 ->
  d_comes d (set_server (Some s1) (inherited d) d).
Proof.
  intros Hr Hs Hu Ha Hv. eapply (d_comes_step _ (DServer e)); [by exists s| |constructor].
  unfold daemon_step, on_server. rewrite Hr, Ha, Hs. cbn -[server_step]. by rewrite Hv.
Qed.

(** A caller of [stop] that goes on is the waiter. *)
Lemma d_stopper_step original pending n d s s1 :
  dreach original pending d -> running d = true -> server d = Some s ->
  vstep (options d) (VStopper n) s = Some s1 ->
  no_waiter (d_waiter d) = false /\ d_comes d (set_server (Some s1) (inherited d) d).
Proof.
  intros Hd Hr Hs Hv. destruct (daemon_inv_reachable _ _ _ _ _ _ _ _ _ _ Hd) as [_ _ [_ Hst _ _]].
  specialize (Hst _ Hs). pose proof Hv as Hv'. cbn -[stop_step] in Hv'.
  destruct (stoppers s !! n) as [p|] eqn:Hn; [|done]. cbn -[stop_step] in Hv'.
  destruct (d_waiter d) as [| |y| |m|] eqn:Hw; cbn in Hst; try (by rewrite Hst in Hn).
  - destruct Hst as [-> [q Hq]]. rewrite Hq in Hn. destruct n; [|done]. injection Hn as ->.
    split; [done|]. apply (d_waiter_step WGoes); [done|by left|]. unfold waiter_step, on_server.
    rewrite Hw, Hs. cbn -[server_step lookup]. rewrite Hq. cbn -[server_step]. rewrite Hv. by destruct p.
  - destruct Hst as [Hst|Hst]; rewrite Hst in Hn; [done|]. destruct n; [|done]. by injection Hn as <-.
Qed.

(** [run] to its return. *)
Lemma run_returns original pending o s s' :
  comes o s s' -> run s' = Gone -> forall d,
  dreach original pending d -> options d = o -> d_main d = MRun -> server d = Some s ->
  exists d' s1, d_comes d d' /\ d_main d' = MRun /\ options d' = o /\ server d' = Some s1 /\
    (exists r, run s1 = RReturned r) /\ comes o s s1.
Proof.
  intros Hc Hg. induction Hc as [s|s e s1 s2 Hu Hv _ IH]; intros d Hd Ho Hm Hs.
  - destruct (daemon_inv_reachable _ _ _ _ _ _ _ _ _ _ Hd) as [_ _ [_ _ Hr _]].
    specialize (Hr _ Hs). rewrite Hm, Hg in Hr. by destruct Hr as [?|[? ?]].
  - assert (running d = true) as Hrun by (unfold running; by rewrite Hm).
    assert ((exists r, run s = RReturned r) \/ d_comes d (set_server (Some s1) (inherited d) d)) as [Hret|Hgo].
    { rewrite <-Ho in Hv. destruct e as [k i|i|w i|c i| |n|k a|k cs]; try done;
        try (right; by eapply d_server_step).
      - destruct (run s) eqn:Hrn; try (left; by eexists);
          (right; eapply d_server_step; [exact Hrun|exact Hs|exact Hu| |exact Hv]);
          unfold server_acts; rewrite Hm, Hs; cbn; rewrite Hrn; try done.
        by destruct i.
      - right. by eapply d_stopper_step. }
    + exists d, s. split_and!; [constructor|done..|constructor].
    + destruct (IH Hg (set_server (Some s1) (inherited d) d)) as (d2 & s3 & H1 & H2 & H3 & H4 & H5 & H6);
        [by eapply d_comes_reach|done..|].
      exists d2, s3. split_and!; [by eapply d_comes_trans|done..|by eapply comes_step].
Qed.

(** The destructor to its end. *)
Lemma destroys original pending o r s s' :
  comes o s s' -> forall d,
  dreach original pending d -> options d = o -> d_main d = MDestroy r -> server d = Some s ->
  d_comes d (set_server (Some s') (inherited d) d).
Proof.
  intros Hc. induction Hc as [s|s e s1 s2 Hu Hv _ IH]; intros d Hd Ho Hm Hs.
  - assert (set_server (Some s) (inherited d) d = d) as -> by (destruct d; cbn in *; by subst). constructor.
  - assert (running d = true) as Hrun by (unfold running; by rewrite Hm).
    assert (d_comes d (set_server (Some s1) (inherited d) d)) as Hgo.
    { rewrite <-Ho in Hv. destruct e as [k i|i|w i|c i| |n|k a|k cs]; try done;
        try (by eapply d_server_step).
      - eapply d_server_step; [exact Hrun|exact Hs|exact Hu| |exact Hv]. unfold server_acts. by rewrite Hm.
      - by eapply d_stopper_step. }
    eapply d_comes_trans; [exact Hgo|].
    by apply (IH (set_server (Some s1) (inherited d) d)); [eapply d_comes_reach|..].
Qed.

(** *** The waiter is joined *)

(** The waiter has ended and left the server as it was, perhaps stopped. *)
Record joined (d : Daemon) (s : ServerState) (d' : Daemon) (s' : ServerState) : Prop := {
  jo_main : d_main d' = d_main d;
  jo_waiter : d_waiter d' = WaiterEnded;
  jo_options : options d' = options d;
  jo_server : server d' = Some s';
  jo_stopping : stopping s = true -> stopping s' = true;
  jo_run : run s' = run s;
  jo_places : place <$> threads s' = place <$> threads s;
}.

Lemma joins_stops original pending n d s :
  dreach original pending d -> running d = true -> server d = Some s -> d_waiter d = WaiterStops n ->
  exists d' s', d_comes d d' /\ joined d s d' s'.
Proof.
  intros Hd Hrun Hs Hw. destruct (daemon_inv_reachable _ _ _ _ _ _ _ _ _ _ Hd) as [_ _ [_ Hst _ _]].
  specialize (Hst _ Hs). rewrite Hw in Hst. destruct Hst as [-> [p Hp]].
  remember (stop_rank p) as k eqn:Hk. revert d s p Hd Hrun Hs Hw Hp Hk.
  induction k as [k IH] using lt_wf_ind. intros d s p Hd Hrun Hs Hw Hp ->.
  destruct (stop_step p s) as [[s1 p1]|] eqn:Hstep.
  - destruct (stop_step_moved _ _ _ _ Hstep) as [H1 _ _ _ H2 _ H3 _ H4].
    set (s2 := set_stoppers (<[O:=p1]> (stoppers s1)) s1).
    assert (vstep (options d) (VStopper 0) s = Some s2) as Hv.
    { cbn -[stop_step lookup]. rewrite Hp. cbn -[stop_step]. by rewrite Hstep. }
    destruct (d_stopper_step _ _ _ _ _ _ Hd Hrun Hs Hv) as [_ Hc].
    destruct (IH _ (stop_step_rank _ _ _ _ Hstep) (set_server (Some s2) (inherited d) d) s2 p1)
      as (d3 & s3 & Hc3 & [J1 J2 J3 J4 J5 J6 J7]); try done.
    + by eapply d_comes_reach.
    + cbn. by rewrite H3, Hp.
    + exists d3, s3. split; [by eapply d_comes_trans|]. split; try done.
      * intros Hx. by apply J5, H4.
      * by rewrite J6.
      * by rewrite J7.
  - exists (waiter_ends d), s. split; [|by split].
    apply (d_waiter_step WGoes); [done|by left|]. unfold waiter_step. rewrite Hw, Hs. cbn -[lookup].
    rewrite Hp. assert (p = StopReturned) as -> by (destruct p; cbn in Hstep; by destruct (stopping s)). done.
Qed.

Lemma joined_trans d d1 s s1 d' s' :
  d_main d1 = d_main d -> options d1 = options d -> stopping s1 = stopping s -> run s1 = run s ->
  threads s1 = threads s -> joined d1 s1 d' s' -> joined d s d' s'.
Proof.
  intros H1 H2 H3 H4 H5 [J1 J2 J3 J4 J5 J6 J7]. split; try congruence.
  by rewrite <-H3.
Qed.

Lemma joins_requests original pending d s :
  dreach original pending d -> running d = true -> server d = Some s -> d_waiter d = WaiterRequests ->
  exists d' s', d_comes d d' /\ joined d s d' s'.
Proof.
  intros Hd Hrun Hs Hw.
  destruct (requests original pending d s Hd Hrun Hs Hw) as (d1 & Hc & H1 & H2 & H3 & H4).
  destruct (joins_stops original pending (length (stoppers s)) d1 (set_stoppers (stoppers s ++ [StopExchange]) s))
    as (d2 & s2 & Hc2 & Hj); [by eapply d_comes_reach|unfold running; by rewrite H1|done..|].
  exists d2, s2. split; [by eapply d_comes_trans|]. by eapply joined_trans; [..|exact Hj].
Qed.

(** Whatever it has taken, once [complete_] is set. *)
Lemma joins_got original pending d s x :
  dreach original pending d -> running d = true -> server d = Some s -> d_waiter d = WaiterGot x ->
  complete_ d = true -> exists d' s', d_comes d d' /\ joined d s d' s'.
Proof.
  intros Hd Hrun Hs Hw Hc. destruct (decide (x = SIGUSR1)) as [->|Hx].
  - exists (waiter_ends d), s. split; [|by split].
    apply (d_waiter_step WGoes); [done|by left|]. unfold waiter_step. by rewrite Hw, Hc.
  - assert (d_comes d (set_waiter WaiterRequests d)) as Hc1.
    { apply (d_waiter_step WGoes); [done|by left|]. unfold waiter_step. rewrite Hw. by destruct x. }
    destruct (joins_requests original pending (set_waiter WaiterRequests d) s) as (d2 & s2 & Hc2 & Hj);
      [by eapply d_comes_reach|done..|].
    exists d2, s2. split; [by eapply d_comes_trans|]. by eapply joined_trans; [..|exact Hj].
Qed.

(** No wake-up is lost: the directed signal is there when the waiter still waits. *)
Lemma joins_all original pending d s :
  dreach original pending d -> running d = true -> server d = Some s -> complete_ d = true ->
  d_waiter d <> WaiterNone -> (d_waiter d = WaiterWaits -> waiter_pending d SIGUSR1 = true) ->
  exists d' s', d_comes d d' /\ joined d s d' s'.
Proof.
  intros Hd Hrun Hs Hc Hn Hp. destruct (d_waiter d) as [| |y| |n|] eqn:Hw; [done|..].
  - specialize (Hp eq_refl).
    set (d1 := set_waiter (WaiterGot SIGUSR1)
                 (set_pending (process_pending d) (sigdelset SIGUSR1 (waiter_pending d)) d)).
    assert (d_comes d d1) as Hc1.
    { apply (d_waiter_step (WTakes true SIGUSR1)); [done|by right; eauto|]. unfold waiter_step.
      by rewrite Hw, Hp. }
    destruct (joins_got original pending d1 s SIGUSR1) as (d2 & s2 & Hc2 & Hj);
      [by eapply d_comes_reach|done..|].
    exists d2, s2. split; [by eapply d_comes_trans|]. by eapply joined_trans; [..|exact Hj].
  - by eapply joins_got.
  - by eapply joins_requests.
  - by eapply joins_stops.
  - exists d, s. split; [constructor|by split].
Qed.

(** *** The signals are drained and the process exits *)

Definition pending_count (w : sigset) : nat := length (List.filter w [SIGINT; SIGTERM; SIGUSR1]).

Lemma pending_count_del w x : w x = true -> (pending_count (sigdelset x w) < pending_count w)%nat.
Proof.
  unfold pending_count, sigdelset. intros Hx. cbn.
  destruct x; cbn; rewrite Hx; repeat case_bool_decide; try done; cbn; destruct (w SIGINT), (w SIGTERM), (w SIGUSR1); cbn; lia.
Qed.

Lemma unblocked_none w m x : unblocked w m = None -> w x = true -> m x = true.
Proof.
  unfold unblocked. cbn. intros Hn Hx.
  destruct x; rewrite Hx in Hn; destruct (m SIGINT), (m SIGTERM), (m SIGUSR1), (w SIGINT), (w SIGTERM);
    cbn in Hn; done.
Qed.

Definition exit_status (status : Status) : Z := if status_ok status then 0 else 1.

Lemma d_reports d status :
  d_main d = MReport status -> exists d', d_comes d d' /\ d_main d' = MExit (exit_status status).
Proof.
  intros Hm. unfold exit_status.
  assert (running d = true) as Hrun by (unfold running; by rewrite Hm).
  eexists. split; [apply (d_main_step Works); [done|by left|unfold_main; rewrite Hm; reflexivity]|].
  by destruct (status_ok status).
Qed.

(** With nothing more sent to it, [restore] ends, and no signal is left to kill. *)
Lemma d_drains d status :
  d_main d = MPending status -> exists d', d_comes d d' /\ d_main d' = MExit (exit_status status).
Proof.
  remember (pending_count (process_pending d)) as n eqn:Hn. revert d Hn.
  induction n as [n IH] using lt_wf_ind. intros d -> Hm.
  assert (running d = true) as Hrun by (unfold running; by rewrite Hm).
  destruct (unblocked (process_pending d) sigemptyset) as [x|] eqn:Hu.
  - apply unblocked_some in Hu as Hx. destruct Hx as [Hx _].
    set (d1 := d_goto (MDrain status) d).
    set (d2 := d_goto (MPending status)
                 (set_pending (sigdelset x (process_pending d)) (waiter_pending d) d1)).
    assert (d_comes d d1) as H1.
    { apply (d_main_step Works); [done|by left|]. unfold_main. by rewrite Hm, Hu. }
    assert (d_comes d1 d2) as H2.
    { apply (d_main_step (Takes x)); [done|by right; right; eauto|]. cbn. by rewrite Hx. }
    destruct (IH _ (pending_count_del _ _ Hx) d2 eq_refl eq_refl) as (d3 & H3 & He).
    exists d3. split; [|done]. by eapply d_comes_trans; [|eapply d_comes_trans].
  - set (d1 := d_goto (MRestore status) d).
    assert (d_comes d d1) as H1.
    { apply (d_main_step Works); [done|by left|]. unfold_main. by rewrite Hm, Hu. }
    assert (d_comes d1 (unmask (MReport status) d1)) as H2 by (by apply (d_main_step Works); [|left|]).
    assert (d_main (unmask (MReport status) d1) = MReport status) as Hr.
    { unfold unmask. destruct (unblocked (process_pending d1) (previous_mask_ d1)) as [x|] eqn:Hb; [|done].
      apply unblocked_some in Hb as [Hx _]. by apply (unblocked_none _ _ x Hu) in Hx. }
    destruct (d_reports _ _ Hr) as (d3 & H3 & He).
    exists d3. split; [|done]. by eapply d_comes_trans; [|eapply d_comes_trans].
Qed.

Lemma d_catches d e : d_main d = MCatch e -> exists d', d_comes d d' /\ running d' = false.
Proof.
  intros Hm. assert (running d = true) as Hrun by (unfold running; by rewrite Hm).
  destruct e as [w|w|w]; (eexists; split;
    [apply (d_main_step Works); [done|by left|unfold_main; rewrite Hm; reflexivity]|done]).
Qed.

Lemma d_unwinds d e : d_main d = MUnwind e -> exists d', d_comes d d' /\ running d' = false.
Proof.
  intros Hm. assert (running d = true) as Hrun by (unfold running; by rewrite Hm).
  assert (d_comes d (unmask (MCatch e) d)) as H1.
  { apply (d_main_step Works); [done|by left|]. unfold_main. by rewrite Hm. }
  destruct (unmask_keeps (MCatch e) d) as ([Hc|[x Hk]] & _).
  - destruct (d_catches _ _ Hc) as (d2 & H2 & He). exists d2. split; [by eapply d_comes_trans|done].
  - exists (unmask (MCatch e) d). split; [done|]. unfold running. by rewrite Hk.
Qed.

(** *** From one end to the other *)

(** No new error of [sigwait] or [pthread_kill]. *)
Lemma d_comes_error d d' : d_comes d d' -> error_ d' = error_ d.
Proof.
  induction 1 as [|d e d1 d2 Hu Hstep _ IH]; [done|]. rewrite IH. clear IH.
  unfold daemon_step in Hstep. destruct (running d); [|done]. cbn [negb] in Hstep.
  assert (forall e d1, onserver e d = Some d1 -> error_ d1 = error_ d) as Hon
    by (by intros e0 d0 (s1 & s2 & _ & _ & ->)%on_server_inv).
  destruct e as [i|i|e|x]; cbn in Hu.
  - assert (forall pc, error_ (unmask pc d) = error_ d) as Hun by done.
    assert (forall r, error_ (wake r d) = error_ d) as Hwk
      by (intros r; unfold wake; by destruct (d_waiter d), (r =? 0)).
    assert (forall r, i = Wakes r -> r = 0) as Hr by (intros r ->; by destruct Hu as [?|[[= ->]|[? ?]]]).
    main_cases Hstep; try done; try (by destruct (opt_help _)); try (by destruct (status_ok _)).
    + rewrite (Hr result eq_refl). cbn -[wake]. apply Hwk.
    + apply Hwk.
    + by destruct e.
  - assert (forall x, i <> WFails x) as Hw by (intros x ->; by destruct Hu as [?|(? & ? & ?)]).
    waiter_cases Hstep; try done; try (by eapply Hon); try (by destruct (Hw error)).
    + by destruct (complete_ d).
    + cbn. by eapply Hon.
  - destruct (server_acts e d); [|done]. by eapply Hon.
  - done.
Qed.

Context (Hworkers : forall pc, matched pc (workers_do pc)).
Context (Hcalls : forall pc, call_matched pc (calls_do pc)).

(** From [join] to the end of the destructor. *)
Lemma d_destroys original pending d s r :
  dreach original pending d -> d_main d = MDestroy r -> server d = Some s -> ending s ->
  exists d', d_comes d d' /\
    d_main d' = match r with inl status => MPending status | inr e => MUnwind e end.
Proof.
  intros Hd Hm Hs He. assert (running d = true) as Hrun by (unfold running; by rewrite Hm).
  pose proof (daemon_inv_reachable _ _ _ _ _ _ _ _ _ _ Hd) as Hinv.
  destruct (dinv_server _ _ _ _ system_error_what _ _ _ _ Hinv Hrun Hs) as (Hv & Hu & [l Hl] & _).
  destruct (server_ends _ _ _ _ workers_do calls_do closed_status Hworkers Hcalls l s Hv Hu Hl He) as (s' & Hc & Hg).
  pose proof (destroys original pending _ r s s' Hc d Hd eq_refl Hm Hs) as Hc1.
  eexists. split; [eapply d_comes_trans; [exact Hc1|]|].
  - apply (d_main_step Works); [done|by left|]. unfold_main. cbn. rewrite Hm. cbn. by rewrite Hg.
  - by destruct r.
Qed.

(** What the main thread unwinds or returns with. *)
Definition outcome_of (o : Status + exn) : option unwinding :=
  match o with
  | inl status => Some (inl status)
  | inr e => inr <$> run_exception bad_alloc_what e
  end.

Lemma d_wakes d s o r :
  d_main d = MRun -> server d = Some s -> run s = RReturned o -> outcome_of o = Some r ->
  d_comes d (d_goto (MJoin r) (wake 0 (d_goto (MWake r) (set_complete d)))).
Proof.
  intros Hm Hs Ho Hr. assert (running d = true) as Hrun by (unfold running; by rewrite Hm).
  eapply d_comes_trans; [|eapply d_comes_trans].
  - apply (d_main_step Works); [done|by left|]. unfold_main. rewrite Hm, Hs. cbn. rewrite Ho.
    instantiate (1 := d_goto (MComplete r) d). destruct o as [st|e]; [by injection Hr as <-|].
    cbn in Hr. destruct (run_exception bad_alloc_what e); [|done]. by injection Hr as <-.
  - apply (d_main_step Works); [done|by left|]. by destruct r.
  - apply (d_main_step (Wakes 0)); [done|by right; left|]. by destruct r.
Qed.

(** From the return of [run] to the end of the waiter. *)
Lemma d_joins original pending d s o r :
  dreach original pending d -> d_main d = MRun -> server d = Some s -> run s = RReturned o -> ending s ->
  outcome_of o = Some r ->
  exists d' s', d_comes d d' /\ d_main d' = MJoin r /\ d_waiter d' = WaiterEnded /\
    server d' = Some s' /\ ending s'.
Proof.
  intros Hd Hm Hs Ho He Hr. pose proof (d_wakes _ _ _ _ Hm Hs Ho Hr) as Hc.
  set (d1 := d_goto (MWake r) (set_complete d)) in *.
  pose proof (d_comes_reach _ _ _ _ Hd Hc) as Hd2.
  destruct (wake_keeps 0 d1) as (_ & _ & _ & _ & Hs1 & _ & Hw1 & _ & Ho1 & _ & _ & Hcm).
  destruct (daemon_inv_reachable _ _ _ _ _ _ _ _ _ _ Hd) as [_ _ [Hwa _ _ _]]. rewrite Hm in Hwa.
  destruct (joins_all original pending (d_goto (MJoin r) (wake 0 d1)) s)
    as (d3 & s3 & Hc3 & [J1 J2 J3 J4 J5 J6 J7]); [exact Hd2|done| |exact Hcm| | |].
  - change (server (wake 0 d1) = Some s). by rewrite Hs1.
  - change (d_waiter (wake 0 d1) <> WaiterNone). rewrite Hw1. cbn. by destruct (d_waiter d).
  - change (d_waiter (wake 0 d1) = WaiterWaits -> waiter_pending (wake 0 d1) SIGUSR1 = true).
    rewrite Hw1. intros Hx. unfold wake. by rewrite Hx.
  - exists d3, s3. split_and!; [by eapply d_comes_trans|done..|].
    apply (ending_places s); [done|apply J5, He|done..].
Qed.

Lemma d_leaves original pending d s r :
  dreach original pending d -> d_main d = MJoin r -> d_waiter d = WaiterEnded -> server d = Some s ->
  ending s ->
  exists d', d_comes d d' /\ running d' = false /\
    (error_ d = 0 -> forall status, r = inl status -> d_main d' = MExit (exit_status status)).
Proof.
  intros Hd Hm Hw Hs He. assert (running d = true) as Hrun by (unfold running; by rewrite Hm).
  assert (exists r', d_comes d (d_goto (MDestroy r') d) /\
    (error_ d = 0 -> forall status, r = inl status -> r' = inl status)) as (r' & Hc & Hr').
  { destruct r as [st|e].
    - eexists. split; [eapply d_comes_trans|].
      + apply (d_main_step Works); [done|by left|]. unfold_main. rewrite Hm, Hw. reflexivity.
      + by apply (d_main_step Works); [|left|].
      + intros Herr ? [= ->]. cbn. by rewrite Herr.
    - exists (inr e). split; [|by intros _ ? [=]].
      apply (d_main_step Works); [done|by left|]. unfold_main. by rewrite Hm, Hw. }
  destruct (d_destroys original pending (d_goto (MDestroy r') d) s r') as (d1 & Hc1 & Hm1);
    [by eapply d_comes_reach|done..|].
  pose proof (d_comes_trans _ _ _ Hc Hc1) as Hall. destruct r' as [st|e].
  - destruct (d_drains _ _ Hm1) as (d2 & Hc2 & Hm2). exists d2. split; [by eapply d_comes_trans|].
    split; [unfold running; by rewrite Hm2|]. intros Herr status ->.
    specialize (Hr' Herr _ eq_refl). by injection Hr' as ->.
  - destruct (d_unwinds _ _ Hm1) as (d2 & Hc2 & Hm2). exists d2. split; [by eapply d_comes_trans|].
    split; [done|]. intros Herr status ->. by specialize (Hr' Herr _ eq_refl).
Qed.

(** From the return of [run] to the end. *)
Lemma d_returns original pending d s o :
  dreach original pending d -> d_main d = MRun -> server d = Some s -> run s = RReturned o -> ending s ->
  exists d', d_comes d d' /\ running d' = false /\
    (error_ d = 0 -> forall status, o = inl status -> d_main d' = MExit (exit_status status)).
Proof.
  intros Hd Hm Hs Ho He. destruct (outcome_of o) as [r|] eqn:Hr.
  - destruct (d_joins _ _ _ _ _ _ Hd Hm Hs Ho He Hr) as (d1 & s1 & Hc1 & Hm1 & Hw1 & Hs1 & He1).
    destruct (d_leaves original pending d1 s1 r) as (d2 & Hc2 & Hr2 & Hx); [by eapply d_comes_reach|done..|].
    exists d2. split; [by eapply d_comes_trans|]. split; [done|]. intros Herr status ->.
    injection Hr as <-. apply Hx; [|done]. by rewrite (d_comes_error _ _ Hc1).
  - destruct o as [|e]; [done|]. exists (d_goto MAborted d). split; [|split; [done|by intros _ ? [=]]].
    apply (d_main_step Works); [unfold running; by rewrite Hm|by left|].
    unfold_main. rewrite Hm, Hs. cbn. rewrite Ho. cbn in Hr.
    by destruct (run_exception bad_alloc_what e).
Qed.

(** A stop brings the whole process down.  From every reachable state in which the server
    is there and runs or is about to, once a stop is asked for by a peer
    ([daemon.shutdown]), pending as SIGINT or SIGTERM, or taken by the waiter, the process
    comes to its end by its own steps, with nothing more from any peer and no further
    signal: [run] returns, the waiter is woken and joined, the server is destroyed, the
    pending signals are drained, and the exit code is 0 or 1 as the status of [run] says,
    unless [sigwait] had failed.  Excepted are the two writes that [stop] cannot interrupt. *)
Theorem daemon_stops original pending d s :
  daemon_reachable arguments ESRCH instance_id daemon_version broken_pipe system_error_what
    bad_alloc_what original pending d ->
  (d_main d = MWaiter \/ d_main d = MRun) -> server d = Some s -> ending (set_stopping s) ->
  stop_coming d s ->
  exists d1 s1 o d', d_comes d d1 /\ server d1 = Some s1 /\ run s1 = RReturned o /\
    d_comes d1 d' /\ running d' = false /\
    (error_ d = 0 -> forall status, o = inl status -> d_main d' = MExit (exit_status status)).
Proof.
  intros Hd Hm Hs He Hcoming.
  assert (exists d0, d_comes d d0 /\ d_main d0 = MRun /\ server d0 = Some s /\ stop_coming d0 s)
    as (d0 & Hc0 & Hm0 & Hs0 & Hcoming0).
  { destruct Hm as [Hm|Hm]; [|exists d; split; [constructor|done]].
    destruct (daemon_inv_reachable _ _ _ _ _ _ _ _ _ _ Hd) as [_ _ [Hwa _ _ _]]. rewrite Hm in Hwa.
    exists (d_goto MRun (set_waiter WaiterWaits d)). split_and!; [|done..|].
    - apply (d_main_step Works); [unfold running; by rewrite Hm|by left|]. unfold_main. by rewrite Hm.
    - destruct Hcoming as [?|[(x & Hx & [Hp|Hg])|[Hq|[n Hn]]]]; [by left|right; left; eauto|..];
        exfalso; [rewrite Hg in Hwa|rewrite Hq in Hwa|rewrite Hn in Hwa]; discriminate Hwa. }
  pose proof (d_comes_reach _ _ _ _ Hd Hc0) as Hd0.
  destruct (asks_all _ _ _ _ Hd0 Hm0 Hs0 Hcoming0) as (d2 & s2 & Hc2 & Hask).
  pose proof (asked_ending _ _ _ _ He Hask) as He2. destruct Hask as [Hm2 Hs2 _ _ _].
  pose proof (d_comes_reach _ _ _ _ Hd0 Hc2) as Hd2.
  assert (running d2 = true) as Hrun2 by (unfold running; by rewrite Hm2).
  destruct (dinv_server _ _ _ _ system_error_what _ _ _ _ (daemon_inv_reachable _ _ _ _ _ _ _ _ _ _ Hd2)
    Hrun2 Hs2) as (Hv & Hu & [l Hl] & _).
  destruct (server_ends _ _ _ _ workers_do calls_do closed_status Hworkers Hcalls l s2 Hv Hu Hl He2) as (s' & Hc & Hg).
  destruct (run_returns original pending _ _ _ Hc Hg d2 Hd2 eq_refl Hm2 Hs2)
    as (d3 & s3 & Hc3 & Hm3 & _ & Hs3 & [o Ho] & Hcs).
  pose proof (ending_comes _ _ _ _ _ _ _ _ _ _ Hv Hu Hl He2 Hcs) as He3.
  destruct (d_returns original pending d3 s3 o) as (d' & Hc' & Hend & Hx); [by eapply d_comes_reach|done..|].
  pose proof (d_comes_trans _ _ _ Hc0 (d_comes_trans _ _ _ Hc2 Hc3)) as Hall.
  exists d3, s3, o, d'. split_and!; try done. intros Herr. apply Hx. by rewrite (d_comes_error _ _ Hall).
Qed.
End Events.
End DaemonEnd.
