(* ===== verification/Deployment.v ===== *)
(** The whole daemon: the process of [Daemon] ([src/apps/photospiderd/main.cpp]) with the
    server of [Hosted] ([src/lib/server/server.cpp]) on the kernel of [Posix].

    [Daemon] takes the construction of the server and the kernel's answers as inputs; here
    they come from the constructor and from the system calls. *)
From S2P Require Import Prelude OrdMap Kernel Protocol Wire Codec Frame Jobs JobSystem.
From S2P Require Import Service Server Posix UnixSocket Hosted DaemonMain Daemon.

Section Deployment.
Context `{RT : Runtime} {P : Posix}.

(** The world while there is no server, or the server and its world. *)
Inductive site := Idle (w : World) | Serving (x : Hosted).

Record Deployed := mk_Deployed { process : Daemon; site_of : site }.

Section Steps.
Context (arguments : list bytes) (ESRCH : Z).
Context (instance_id : Z) (daemon_version broken_pipe : bytes).
Context (system_error_what : Z -> bytes -> bytes) (bad_alloc_what : bytes).
Context (euid : Z).

Abbreviation dstep :=
  (daemon_step arguments ESRCH instance_id daemon_version broken_pipe system_error_what bad_alloc_what).

(** [what()] of what leaves the constructor; an exception that is no [std::exception] is not
    among them. *)
Definition construct_what (e : construct_exn) : option bytes :=
  match e with
  | Refused w | ListenerFailed w => Some w
  | ImplFailed e =>
    match run_exception bad_alloc_what e with
    | Some (StdInvalidArgument w) | Some (StdOutOfRange w) | Some (OtherStdException w) => Some w
    | None => None
    end
  end.

(** What the server does in a step of the process. *)
Definition server_move (e : daemon_event) (d : Daemon) : option server_event :=
  match e with
  | DServer v => Some v
  | DMain (Raises w) =>
    match d_main d with MWaiter => Some (VRun (RThrows (StdException (Some w)))) | _ => None end
  | DWaiter _ =>
    match d_waiter d with
    | WaiterRequests => Some VRequestStop
    | WaiterStops n =>
      s ← server d;
      match stoppers s !! n with Some StopReturned => None | _ => Some (VStopper n) end
    | _ => None
    end
  | _ => None
  end.

(** The step as the process sees it: with what was accepted. *)
Definition seen (v : server_event) (x x' : Hosted) : server_event :=
  match v, accepting (run (host x)) with
  | VRun _, Some _ =>
    match run (host x') with
    | RTest a => VRun (RAnswer a)
    | RReturned (inr e) => VRun (RThrows e)
    | _ => v
    end
  | _, _ => v
  end.

(** One step: [i] and [kept] are what the environment decides of the construction and of a
    thread that does not start, [ts] what the others do and which calls are refused. *)
Definition deployed_step (e : daemon_event) (i : impl_input) (kept : bool) (ts : list tick)
    (p : Deployed) : option Deployed :=
  let d := process p in
  let config := server_config (options d) in
  match site_of p with
  | Idle w =>
    match d_main d, e with
    | MServer, DMain _ =>
      '(made, w') ← construct config i (with_ticks ts w);
      match made with
      | inl exn =>
        what ← construct_what exn;
        d' ← dstep (DMain (Raises what)) d;
        Some (mk_Deployed d' (Idle w'))
      | inr made =>
        d' ← dstep (DMain (Bound made.1)) d;
        Some (mk_Deployed d' (Serving (hosted_initial config made w')))
      end
    | _, _ => d' ← dstep e d; Some (mk_Deployed d' (Idle w))
    end
  | Serving x =>
    match server_move e d with
    | Some v =>
      x' ← hosted_step config instance_id daemon_version broken_pipe euid v kept ts x;
      d' ← dstep (match e with DServer _ => DServer (seen v x x') | _ => e end) d;
      Some (mk_Deployed d' (Serving x'))
    | None =>
      d' ← dstep e d;
      Some (mk_Deployed d' (match server d' with Some _ => Serving x | None => Idle (world x) end))
    end
  end.

(** The runs of a process in which the others do what is [allowed] in each step. *)
Inductive deployed_reachable (allowed : site -> list tick -> Prop) (original pending : sigset)
    (start : World) : Deployed -> Prop :=
| preach_initial :
    deployed_reachable allowed original pending start
      (mk_Deployed (daemon_initial original pending) (Idle start))
| preach_step p e i kept ts p' :
    deployed_reachable allowed original pending start p -> allowed (site_of p) ts ->
    deployed_step e i kept ts p = Some p' -> deployed_reachable allowed original pending start p'.

Fixpoint deployed_run (es : list (daemon_event * impl_input * bool * list tick)) (p : Deployed) :
    option Deployed :=
  match es with
  | [] => Some p
  | (e, i, kept, ts) :: es' => p' ← deployed_step e i kept ts p; deployed_run es' p'
  end.
End Steps.
End Deployment.
