(* ===== verification/DeploymentSpec.v ===== *)
(** The whole daemon is the process of [Daemon], and its world does not hold it back. *)
From S2P Require Import Prelude OrdMap Kernel Protocol Wire Codec Frame Jobs JobSystem.
From S2P Require Import Service Server ServerSpec Posix UnixSocket UnixSocketSpec.
From S2P Require Import Hosted HostedSpec HostedLife HostedFiles DaemonMain DaemonMainSpec.
From S2P Require Import Daemon DaemonSpec DaemonLife Deployment.

Section DeploymentSpec.
Context `{HK : KernelLaws} {RT : Runtime} {P : Posix}.
Context (arguments : list bytes) (ESRCH : Z).
Context (instance_id : Z) (daemon_version broken_pipe : bytes).
Context (system_error_what : Z -> bytes -> bytes) (bad_alloc_what : bytes).
Context (euid : Z).

Abbreviation dstep :=
  (daemon_step arguments ESRCH instance_id daemon_version broken_pipe system_error_what bad_alloc_what).
Abbreviation dreach :=
  (daemon_reachable arguments ESRCH instance_id daemon_version broken_pipe system_error_what
     bad_alloc_what).
Abbreviation dinv := (daemon_inv arguments instance_id daemon_version broken_pipe bad_alloc_what).
Abbreviation vstep o := (server_step (server_config o) instance_id daemon_version broken_pipe).
Abbreviation xstep o := (hosted_step (server_config o) instance_id daemon_version broken_pipe euid).
Abbreviation xreach o :=
  (hosted_reachable (server_config o) instance_id daemon_version broken_pipe euid).
Abbreviation pstep :=
  (deployed_step arguments ESRCH instance_id daemon_version broken_pipe system_error_what bad_alloc_what
     euid).
Abbreviation preach :=
  (deployed_reachable arguments ESRCH instance_id daemon_version broken_pipe system_error_what
     bad_alloc_what euid).

(** *** A step of the server, as the process sees it *)

Lemma seen_step o v kept ts x x' :
  xstep o v kept ts x = Some x' -> vstep o (seen v x x') (host x) = Some (host x').
Proof.
  intros Hstep. unfold hosted_step in Hstep.
  cbn -[server_step run_calls handler_calls close_listener] in Hstep.
  destruct v as [k i|i|k i|k i| |k|k a|k cp];
    [|unfold seen; destruct (accepting (run (host x))) as [l|] eqn:Hacc|..].
  2: { assert (run (host x) = RAccept l) as Hrun by (destruct (run (host x)); try done; by injection Hacc as ->).
    destruct (match i with RProceed => None | _ => _ end) as [[r w]|]; [|done]. cbn -[server_step] in Hstep.
    destruct (accept_input i r) as [i'|]; [|done]. cbn -[server_step] in Hstep.
    destruct (vstep o (VRun i') (host x)) as [s'|] eqn:Hs; [|done]. injection Hstep as <-. cbn [host].
    pose proof Hs as Hs'. cbn in Hs'. unfold run_step in Hs'. rewrite Hrun in Hs'.
    destruct i' as [|[| |]|]; try discriminate Hs'; [destruct (_ && _); [|discriminate Hs']|..];
      injection Hs' as <-; exact Hs. }
  2: { destruct (vstep o (VRun i) (host x)) as [s'|] eqn:Hs; [|done]. cbn -[run_calls] in Hstep.
    destruct (run_calls _ _ _ _ _ _ _) as [[[g c] w]|]; [|done]. by injection Hstep as <-. }
  all: unfold seen; cbn -[server_step]; destruct (vstep o _ (host x)) as [s'|] eqn:Hs; [|done];
    cbn -[server_step] in Hstep.
  all: try (injection Hstep as <-; done).
  - destruct (threads (host x) !! k) as [h|]; [|done]. cbn in Hstep. unfold calling in Hstep.
    destruct (handler_calls h (host x) _) as [[[] w]|]; [|done]. by injection Hstep as <-.
  - destruct (stoppers (host x) !! k) as [q|]; [|done]. cbn in Hstep. unfold calling in Hstep.
    destruct (close_listener q (host x) _) as [[[] w]|]; [|done]. by injection Hstep as <-.
Qed.

(** Whose step it is. *)
Lemma seen_other v x x' :
  match v with VRun _ => False | _ => True end -> seen v x x' = v.
Proof. by destruct v. Qed.

(** *** The process *)

(** While there is a server its options stay. *)
Lemma dstep_options e d d' : d_main d <> MParse -> dstep e d = Some d' -> options d' = options d.
Proof.
  intros Hp Hstep. unfold daemon_step in Hstep. destruct (running d); [|done]. cbn [negb] in Hstep.
  destruct e as [i|i|e|x].
  - main_cases Hstep; try done; try (by unfold unmask; destruct (unblocked _ _)).
    + by destruct (wake_keeps result d) as (_ & _ & _ & _ & _ & _ & _ & _ & Ho & _); destruct (_ && _).
    + by destruct (wake_keeps result d) as (_ & _ & _ & _ & _ & _ & _ & _ & Ho & _).
    + by destruct (status_ok _).
    + by destruct e.
  - waiter_cases Hstep; try done; try (by destruct (complete_ d));
      by apply on_server_inv in Hstep as (? & ? & _ & _ & ->) ||
         (apply on_server_inv in Heqo0 as (? & ? & _ & _ & ->)).
  - destruct (server_acts e d); [|done]. by apply on_server_inv in Hstep as (? & ? & _ & _ & ->).
  - injection Hstep as <-. by destruct (deliverable x d).
Qed.

(** What the server does in a step is a step of the server. *)
Lemma dstep_moves e v d d' s :
  server d = Some s -> server_move e d = Some v -> dstep e d = Some d' ->
  exists s', vstep (options d) v s = Some s' /\ server d' = Some s'.
Proof.
  intros Hs Hv Hstep. unfold daemon_step in Hstep. destruct (running d); [|done]. cbn [negb] in Hstep.
  assert (forall e1 d1, on_server instance_id daemon_version broken_pipe e1 d = Some d1 ->
    exists s', vstep (options d) e1 s = Some s' /\ server d1 = Some s') as Hon.
  { intros e1 d1 (s1 & s2 & Hs1 & Hv1 & ->)%on_server_inv. exists s2. split; [congruence|done]. }
  destruct e as [i|i|e|x]; cbn in Hv; [| | |done].
  - destruct i as [|w| | |]; try discriminate Hv. unfold main_step in Hstep.
    destruct (d_main d); try discriminate Hv. injection Hv as <-. cbn -[run_step] in Hstep.
    rewrite Hs in Hstep. cbn -[run_step] in Hstep.
    destruct (run_step _ _ _ _ s) as [s'|] eqn:Hr; [|done]. injection Hstep as <-. by exists s'.
  - unfold waiter_step in Hstep. destruct (d_waiter d) eqn:Hw; try discriminate Hv.
    + injection Hv as <-. rewrite Hs in Hstep. cbn [mbind option_bind] in Hstep.
      destruct (on_server _ _ _ _ d) as [d1|] eqn:Ho; [|done]. injection Hstep as <-.
      destruct (Hon _ _ Ho) as (s' & H1 & H2). by exists s'.
    + rewrite Hs in Hstep, Hv. cbn [mbind option_bind] in Hstep, Hv.
      destruct (stoppers s !! n) as [[]|]; try discriminate Hv; injection Hv as <-; by apply Hon.
  - injection Hv as <-. destruct (server_acts e d); [|done]. by apply Hon.
Qed.

(** In the other steps it stays, or it is gone. *)
Lemma dstep_stays original e d d' s :
  dinv original d -> server d = Some s -> server_move e d = None -> dstep e d = Some d' ->
  server d' = Some s \/ (server d' = None /\ run s = Gone).
Proof.
  intros [Hg _ _] Hs Hv Hstep. unfold daemon_step in Hstep. destruct (running d); [|done]. cbn [negb] in Hstep.
  unfold guard_at in Hg. destruct e as [i|i|e|x]; cbn in Hv; [| |done|].
  - main_cases Hstep; rewrite Hs in Hg; try (destruct_and?; discriminate);
      try (by left); try (by rewrite Hpc in Hv); try (left; cbn; congruence).
    + left. destruct (wake_keeps result d) as (_ & _ & _ & _ & Hw & _).
      destruct (_ && _); cbn; rewrite Hw; congruence.
    + left. destruct (wake_keeps result d) as (_ & _ & _ & _ & Hw & _). cbn. rewrite Hw. congruence.
    + right. split; [done|congruence].
  - waiter_cases Hstep; try (by left); cbn in Hv; try discriminate Hv; try (left; cbn; congruence).
    all: try (by match goal with E : stoppers _ !! _ = _ |- _ => rewrite E in Hv end).
    left. by destruct (complete_ d).
  - injection Hstep as <-. left. by destruct (deliverable x d).
Qed.

(** A step of the daemon while it serves. *)
Lemma serving_step original e i kept ts d x p' :
  dinv original d -> server d = Some (host x) ->
  pstep e i kept ts (mk_Deployed d (Serving x)) = Some p' ->
  (exists e', dstep e' d = Some (process p')) /\ options (process p') = options d /\
  match site_of p' with
  | Serving x' => server (process p') = Some (host x') /\
      (x' = x \/ exists v, xstep (options d) v kept ts x = Some x')
  | Idle w => server (process p') = None /\ w = world x /\ run (host x) = Gone
  end.
Proof.
  intros Hd Hs Hstep.
  assert (d_main d <> MParse) as Hparse.
  { intros E. pose proof (di_guard _ _ _ _ _ _ _ Hd) as Hg. unfold guard_at in Hg. rewrite E, Hs in Hg.
    by destruct Hg as (_ & _ & ?). }
  unfold deployed_step in Hstep. cbn -[daemon_step hosted_step server_move] in Hstep.
  destruct (server_move e d) as [v|] eqn:Hv.
  - destruct (xstep (options d) v kept ts x) as [x'|] eqn:Hx; [|done]. cbn -[daemon_step] in Hstep.
    destruct (dstep _ d) as [d'|] eqn:Hd'; [|done]. injection Hstep as <-. cbn.
    pose proof (seen_step _ _ _ _ _ _ Hx) as Hseen. split; [by eexists|].
    split; [by eapply dstep_options|]. split; [|eauto].
    assert (server_move (match e with DServer _ => DServer (seen v x x') | _ => e end) d
      = Some (seen v x x')) as Hv'.
    { destruct e as [m|m|e|y]; [| |done|done]; rewrite Hv; f_equal; symmetry.
      - destruct m as [|w| | |]; try discriminate Hv. cbn in Hv. destruct (d_main d) eqn:Hm; try discriminate Hv.
        injection Hv as <-. unfold seen. pose proof (la_run _ _ _ _ _ (di_life _ _ _ _ _ _ _ Hd) _ Hs) as Hr.
        rewrite Hm in Hr. cbn in Hr. by rewrite Hr.
      - apply seen_other. cbn in Hv. destruct (d_waiter d); try discriminate Hv; [by injection Hv as <-|].
        rewrite Hs in Hv. cbn in Hv.
        destruct (stoppers (host x) !! n) as [[]|]; try discriminate Hv; by injection Hv as <-. }
    destruct (dstep_moves _ _ _ _ _ Hs Hv' Hd') as (s' & H1 & H2). congruence.
  - destruct (dstep e d) as [d'|] eqn:Hd'; [|done]. injection Hstep as <-. cbn.
    split; [by eexists|]. split; [by eapply dstep_options|].
    destruct (dstep_stays _ _ _ _ _ Hd Hs Hv Hd') as [->|[-> Hgone]]; [|done]. split; [done|by left].
Qed.

(** *** Before and after the server *)

(** Only the constructor brings a server. *)
Lemma dstep_idle e d d' :
  server d = None -> (d_main d = MServer -> forall i, e <> DMain i) -> dstep e d = Some d' ->
  server d' = None.
Proof.
  intros Hs He Hstep. unfold daemon_step in Hstep. destruct (running d); [|done]. cbn [negb] in Hstep.
  destruct e as [i|i|e|x].
  - main_cases Hstep; try done; try congruence; try (by destruct (He eq_refl _ eq_refl));
      try (by unfold unmask; destruct (unblocked _ _)).
    + by destruct (opt_help _).
    + destruct (wake_keeps result d) as (_ & _ & _ & _ & Hw & _).
      destruct (_ && _); cbn; rewrite Hw; congruence.
    + destruct (wake_keeps result d) as (_ & _ & _ & _ & Hw & _). cbn. rewrite Hw. congruence.
    + by destruct (status_ok _).
    + by destruct e.
  - waiter_cases Hstep; try done; try congruence.
    all: try (apply on_server_inv in Hstep as (s1 & s2 & Hs1 & _ & ->); congruence).
    by destruct (complete_ d).
  - destruct (server_acts e d); [|done]. apply on_server_inv in Hstep as (s1 & s2 & Hs1 & _ & ->). congruence.
  - injection Hstep as <-. by destruct (deliverable x d).
Qed.

Lemma dstep_running e d d' : dstep e d = Some d' -> running d = true.
Proof. unfold daemon_step. by destruct (running d). Qed.

(** What becomes of the constructor's result. *)
Lemma dstep_constructed r d d' :
  d_main d = MServer -> dstep (DMain r) d = Some d' ->
  match r with
  | Bound l => server_refused (server_config (options d)) = None ->
      server d' = Some (server_initial (server_config (options d)) l) /\ options d' = options d
  | Raises _ => server d = None -> server d' = None
  | _ => True
  end.
Proof.
  intros Hm Hd'. unfold daemon_step in Hd'. destruct (running d); [|done]. cbn in Hd'.
  unfold main_step in Hd'. rewrite Hm in Hd'. unfold construct_server in Hd'. destruct r; try done.
  - by destruct (server_refused _); injection Hd' as <-.
  - intros Hr. rewrite Hr in Hd'. by injection Hd' as <-.
Qed.

(** A step of the daemon without a server. *)
Lemma idle_step e i kept ts d w p' :
  server d = None -> pstep e i kept ts (mk_Deployed d (Idle w)) = Some p' ->
  (exists e', dstep e' d = Some (process p')) /\
  (site_of p' = Idle w /\ server (process p') = None \/
   exists r w', construct (server_config (options d)) i (with_ticks ts w) = Some (r, w') /\
     match r with
     | inl _ => site_of p' = Idle w' /\ server (process p') = None
     | inr made => i = ImplBuilt /\ site_of p' = Serving (hosted_initial (server_config (options d)) made w') /\
         server (process p') = Some (server_initial (server_config (options d)) made.1) /\
         options (process p') = options d
     end).
Proof.
  intros Hs Hstep. unfold deployed_step in Hstep. cbn -[daemon_step construct] in Hstep.
  assert (d_main d = MServer /\ (exists m, e = DMain m) \/ (d_main d = MServer -> forall m, e <> DMain m))
    as [[Hm [m ->]]|Hne].
  { destruct (d_main d); try (by right); destruct e; [left; eauto|right; by intros..]. }
  2: { assert ((d' ← dstep e d; Some (mk_Deployed d' (Idle w))) = Some p') as Hx.
    { destruct (d_main d); try exact Hstep. destruct e; try exact Hstep. by destruct (Hne eq_refl i0). }
    destruct (dstep e d) as [d'|] eqn:Hd'; [|done]. injection Hx as <-. split; [by eexists|]. left.
    split; [done|]. by eapply dstep_idle. }
  rewrite Hm in Hstep.
  destruct (construct_ends (server_config (options d)) i (with_ticks ts w)) as (r & w' & Hc & Hr).
  rewrite Hc in Hstep. cbn -[daemon_step construct_what] in Hstep. destruct r as [ex|[fd g]].
  - destruct (construct_what _ ex) as [what|]; [|done]. cbn -[daemon_step] in Hstep.
    destruct (dstep _ d) as [d'|] eqn:Hd'; [|done]. injection Hstep as <-. split; [by eexists|].
    right. exists (inl ex), w'. split; [done|]. split; [done|]. by apply (dstep_constructed _ _ _ Hm Hd').
  - destruct Hr as (Href & -> & _).
    destruct (dstep _ d) as [d'|] eqn:Hd'; [|done]. injection Hstep as <-. split; [by eexists|].
    right. exists (inr (fd, g)), w'. split; [done|]. destruct (dstep_constructed _ _ _ Hm Hd' Href). by split_and!.
Qed.

(** *** The whole *)

Record deployed_inv (original pending : sigset) (start : World) (p : Deployed) : Prop := {
  pi_process : dreach original pending (process p);
  pi_site : match site_of p with
            | Idle w => server (process p) = None /\ fds w = fds start /\
                bad_closes w = bad_closes start
            | Serving x => server (process p) = Some (host x) /\
                exists w0, fds w0 = fds start /\ bad_closes w0 = bad_closes start /\
                  xreach (options (process p)) w0 x
            end;
}.

Lemma deployed_inv_step original pending start e i kept ts p p' :
  deployed_inv original pending start p -> pstep e i kept ts p = Some p' ->
  deployed_inv original pending start p'.
Proof.
  destruct p as [d [w|x]]; intros [Hd Hsite] Hstep; cbn in Hd, Hsite.
  - destruct Hsite as (Hs & Hf & Hb).
    destruct (idle_step _ _ _ _ _ _ _ Hs Hstep) as ((e' & He') & [[Hp Hn]|(r & w' & Hc & Hr)]).
    { split; [by econstructor|]. rewrite Hp. by split_and!. }
    split; [by econstructor|].
    destruct (construct_ends (server_config (options d)) i (with_ticks ts w)) as (r1 & w1 & Hc1 & Hr1).
    rewrite Hc in Hc1. injection Hc1 as <- <-. destruct r as [ex|[fd g]].
    + destruct Hr as [-> Hn]. destruct Hr1 as [Hf' Hb']. cbn in Hf', Hb'. rewrite Hf', Hb'. by split_and!.
    + destruct Hr as (-> & -> & Hn & ->). split; [done|]. exists (with_ticks ts w).
      split_and!; [done|done|]. by constructor.
  - destruct Hsite as (Hs & w0 & Hf & Hb & Hx).
    pose proof (daemon_inv_reachable _ _ _ _ _ _ _ _ _ _ Hd) as Hinv.
    destruct (serving_step _ _ _ _ _ _ _ _ Hinv Hs Hstep) as ((e' & He') & Ho & Hsite).
    split; [by econstructor|]. destruct (site_of p') as [w|x'].
    + destruct Hsite as (Hn & -> & Hgone). split; [done|].
      destruct (dinv_server _ _ _ _ system_error_what _ _ _ _ Hinv (dstep_running _ _ _ He') Hs)
        as (_ & Hu & _).
      destruct (torn_released _ _ _ _ _ _ _ Hu Hx) as [-> ->]; [by rewrite Hgone|done].
    + destruct Hsite as [Hs' Hx']. split; [done|]. exists w0. rewrite Ho. split_and!; [done|done|].
      destruct Hx' as [-> | (v & Hv)]; [done|by econstructor].
Qed.

Lemma deployed_inv_reachable allowed original pending start p :
  preach allowed original pending start p -> deployed_inv original pending start p.
Proof.
  induction 1 as [|p e i kept ts p' _ IH _ Hstep]; [|by eapply deployed_inv_step].
  split; cbn; [constructor|done].
Qed.

(** *** The process is not held back by its world *)

(** Where the world answers: the construction, and [accept_same_user]. *)
Definition asks_world (e : daemon_event) (p : Deployed) : bool :=
  match site_of p with
  | Idle _ => match d_main (process p), e with MServer, DMain _ => true | _, _ => false end
  | Serving x =>
    match server_move e (process p) with Some v => accepts v (host x) | None => false end
  end.

Lemma seen_same v x x' : accepts v (host x) = false -> seen v x x' = v.
Proof. destruct v; try done. cbn. by destruct (accepting _). Qed.

Lemma deployed_follows original pending start p e kept i ts d' :
  deployed_inv original pending start p -> dstep e (process p) = Some d' -> asks_world e p = false ->
  exists p', pstep e i kept ts p = Some p' /\ process p' = d'.
Proof.
  destruct p as [d [w|x]]; intros [Hd Hsite] Hstep Hask; unfold asks_world in Hask;
    unfold deployed_step; cbn -[daemon_step hosted_step server_move construct] in *.
  - assert (exists p', (d1 ← dstep e d; Some (mk_Deployed d1 (Idle w))) = Some p' /\ process p' = d')
      as Hi by (rewrite Hstep; by eexists).
    destruct (d_main d); try exact Hi. by destruct e.
  - destruct Hsite as (Hs & w0 & _ & _ & Hx). destruct (server_move e d) as [v|] eqn:Hv.
    2: { rewrite Hstep. by eexists. }
    pose proof (daemon_inv_reachable _ _ _ _ _ _ _ _ _ _ Hd) as Hinv.
    destruct (dinv_server _ _ _ _ system_error_what _ _ _ _ Hinv (dstep_running _ _ _ Hstep) Hs)
      as (_ & Hu & _).
    destruct (dstep_moves _ _ _ _ _ Hs Hv Hstep) as (s' & Hs' & _).
    destruct (hosted_inv_reachable _ _ _ _ _ _ _ Hu Hx) as (Hval & l & Hi).
    destruct (hosted_follows _ _ _ _ _ Hval Hu _ _ _ _ _ kept ts _ Hi Hs' Hask) as (x' & -> & _).
    cbn -[daemon_step]. rewrite (seen_same _ _ _ Hask).
    replace (match e with DServer _ => DServer v | _ => e end) with e
      by (destruct e; try done; by injection Hv as ->).
    rewrite Hstep. by eexists.
Qed.

(** An exception that the handlers of [main] see. *)
Definition reported (i : impl_input) : Prop :=
  match i with
  | ServiceThrows e | ReserveThrows e => is_Some (run_exception bad_alloc_what e)
  | ImplBuilt => True
  end.

Lemma construct_reported config i w ex w' :
  construct config i w = Some (inl ex, w') -> reported i -> is_Some (construct_what bad_alloc_what ex).
Proof.
  unfold construct. destruct (server_refused config); [intros [= <- _]; by eexists|]. cbv [mbind sys_bind].
  destruct (create_unix_listener _ _ w) as [[[listener|st] w1]|]; [| |done].
  2: { intros [= <- _]. by eexists. }
  unfold construct_impl. cbv [mbind sys_bind mret sys_ret].
  assert (forall e, is_Some (run_exception bad_alloc_what e) ->
    is_Some (construct_what bad_alloc_what (ImplFailed e))) as Hx.
  { intros e [m Hm]. unfold construct_what. rewrite Hm. destruct m; by eexists. }
  destruct i as [e|e|].
  - destruct (destroy_listener listener w1) as [[? ?]|]; [|done]. intros [= <- _]. apply Hx.
  - destruct (move_construct_guard _ w1) as [[[? rest] w2]|]; [|done].
    destruct (destroy_guard _ w2) as [[? w3]|]; [|done].
    destruct (destroy_listener _ w3) as [[? ?]|]; [|done]. intros [= <- _]. apply Hx.
  - destruct (move_construct_guard _ w1) as [[[? rest] w2]|]; [|done]. cbn.
    by destruct (destroy_listener _ w2) as [[? ?]|].
Qed.

(** The construction comes to an end, and [main] goes on with what came of it. *)
Lemma deployed_constructs original pending start p i kept ts :
  deployed_inv original pending start p -> d_main (process p) = MServer -> reported i ->
  exists m p', pstep (DMain m) i kept ts p = Some p'.
Proof.
  destruct p as [d [w|x]]; intros [Hd Hsite] Hm Hi; cbn in *.
  2: { pose proof (daemon_inv_reachable _ _ _ _ _ _ _ _ _ _ Hd) as [Hg _ _].
    unfold guard_at in Hg. rewrite Hm in Hg. destruct Hg as [_ Hg], Hsite as [Hs _]. congruence. }
  exists Works. unfold deployed_step. cbn -[daemon_step construct]. rewrite Hm.
  destruct (construct_ends (server_config (options d)) i (with_ticks ts w)) as (r & w' & Hc & _).
  rewrite Hc. cbn -[daemon_step construct_what]. destruct r as [ex|made].
  - destruct (construct_reported _ _ _ _ _ Hc Hi) as [what ->]. cbn.
    unfold daemon_step, running, main_step. rewrite Hm. cbn. unfold construct_server.
    destruct (server_refused _); by eexists.
  - unfold daemon_step, running, main_step. rewrite Hm. cbn. unfold construct_server.
    destruct (server_refused _); by eexists.
Qed.
End DeploymentSpec.
