(* ===== verification/DeploymentFiles.v ===== *)
(** The whole daemon on its world: what it can do there, and what it leaves of itself, its
    descriptors and, entry by entry, the files. *)
From S2P Require Import Prelude OrdMap Kernel Protocol Wire Codec Frame Jobs JobSystem.
From S2P Require Import Service Server ServerSpec Posix UnixSocket UnixSocketSpec.
From S2P Require Import Hosted HostedSpec HostedLife HostedFiles DaemonMain DaemonMainSpec.
From S2P Require Import Daemon DaemonSpec DaemonLife Deployment DeploymentSpec.

(** ** Another entry than the guard's *)

Section Apart.
Context `{EC : ErrorCodes} {P : Posix}.

(** [remove] unlinks nothing under another name or in another directory. *)
Lemma keeps_remove key parent g : key_of g <> key -> keeps key parent (remove g).
Proof.
  intros Hne e r w a w' Hw. unfold remove. destruct (_ || _); [by intros [= _ <-]|].
  cbv [mbind sys_bind mret sys_ret]. pose proof (here_acted _ _ _ _ _ Hw) as Hw1.
  destruct (fstat_observes (parent_directory g) w) as (f & -> & Hf).
  destruct f as [|[id []]]; try (by intros [= _ <-]).
  unfold same_identity at 1. case_bool_decide as Hid; cbn [negb]; [|by intros [= _ <-]]. subst id.
  destruct (Hf _ eq_refl) as [b Hd].
  destruct (stat_observes (parent_path g) (parent_identity g) (acted w)) as [[] ->]; cbn [negb];
    [|by intros [= _ <-]; apply here_acted].
  destruct (fstatat_observes (parent_directory g) (leaf_name g) (acted (acted w))) as (c & -> & _).
  do 2 apply here_acted in Hw1. set (w3 := acted (acted (acted w))) in *.
  destruct c as [|[id []]]; try (by intros [= _ <-]).
  destruct (negb _); [by intros [= _ <-]|].
  assert (fds w3 = fds w) as Hfds.
  { unfold w3. by destruct (acted_same (acted (acted w))) as (-> & _), (acted_same (acted w)) as (-> & _),
      (acted_same w) as (-> & _). }
  unfold sys_unlinkat. match goal with |- context [syscall ?act w3] =>
    destruct (syscall_cases act w3) as [[x ->]| ->] end; [by intros [= _ <-]; apply here_acted|].
  apply here_acted in Hw1 as [H1 H2 H3]. destruct (acted_same w3) as (-> & _). rewrite Hfds, Hd.
  intros [= _ <-]. split; cbn; [|done|done]. by rewrite lookup_delete_ne.
Qed.
End Apart.

(** ** One entry through the life of the server *)

Section DeploymentFiles.
Context `{HK : KernelLaws} {RT : Runtime} {P : Posix}.
Context (key : identity * bytes).

(** Nobody interferes with the construction; from then on others leave the entry alone and
    the directory of the node where its path leads, and where the server removes the node the
    kernel refuses no call. *)
Definition undisturbed (place : site) (ts : list tick) : Prop :=
  match place with
  | Idle _ => ts = []
  | Serving x =>
    Forall (gentle key (parent_path (socket_node x))) ts /\
    (removing (run (host x)) = true -> Forall unrefused ts)
  end.

Abbreviation file w := (entries (outside w) !! key).

(** The entry while there is a server: [e], or the server's node where there was none. *)
Definition served_file (e : option node) (x : Hosted) : Prop :=
  let g := socket_node x in
  if socket_node_owned (host x) then
    node_state g = NodeState.Armed /\ 0 <= parent_directory g /\
    resolved (outside (world x)) !! parent_path g = Some (parent_identity g, Directory) /\
    (key_of g = key /\ e = None /\ file (world x) = Some (node_identity g, SocketNode) \/
     key_of g <> key /\ file (world x) = e)
  else node_state g <> NodeState.Armed /\ file (world x) = e.

Section Server.
Context (config : ServerConfig) (instance_id : Z) (daemon_version broken_pipe : bytes) (euid : Z).
Abbreviation xstep := (hosted_step config instance_id daemon_version broken_pipe euid).
Abbreviation xreach := (hosted_reachable config instance_id daemon_version broken_pipe euid).

Lemma here_now parent ts w :
  Forall (gentle key parent) ts ->
  here key parent (file w) (resolved (outside w) !! parent) (with_ticks ts w).
Proof. by split. Qed.

(** The removal gives the entry back. *)
Lemma remove_file start e ts x w :
  is_uint 32 (scfg_maximum_active_connections config) -> xreach start x -> served_file e x ->
  undisturbed (Serving x) ts -> removing (run (host x)) = true ->
  remove (socket_node x) (with_ticks ts (world x))
    = Some (set_node_state NodeState.Consumed (socket_node x), w) ->
  exists r, here key (parent_path (socket_node x)) e r w.
Proof.
  intros Hu Hx Hf [Hg Hr] Hrm Hrem. specialize (Hr Hrm). pose proof (here_now _ _ (world x) Hg) as Hw.
  unfold served_file in Hf. destruct (socket_node_owned (host x)).
  - destruct Hf as (Ha & H0 & Hp & [(Hk & -> & Hn)|[Hk <-]]).
    + destruct (hosted_inv_reachable _ _ _ _ _ _ _ Hu Hx) as (_ & l & Hi).
      destruct (gentle_remove (socket_node x) (with_ticks ts (world x)) true) as (w1 & Hrem' & Hw1);
        [done|done| | |done|].
      * apply (hi_directory _ _ _ _ _ _ _ _ _ Hi). unfold owning. rewrite (proj2 (Z.leb_le 0 _) H0). by left.
      * fold (key_of (socket_node x)). by rewrite Hk, <-Hn, <-Hp.
      * fold (key_of (socket_node x)) in Hw1. rewrite Hk in Hw1.
        rewrite Hrem' in Hrem. injection Hrem as <-. by eexists.
    + eexists. by eapply keeps_remove.
  - destruct Hf as [Hn <-]. rewrite remove_spent in Hrem by done. injection Hrem as <-. by eexists.
Qed.

Lemma served_file_step start e x v kept ts x' :
  is_uint 32 (scfg_maximum_active_connections config) -> xreach start x -> served_file e x ->
  undisturbed (Serving x) ts -> xstep v kept ts x = Some x' -> served_file e x'.
Proof.
  intros Hu Hx Hf Ht Hstep. pose proof Ht as [Hg _].
  destruct (xstep_files _ _ _ _ _ _ _ _ _ _ Hstep) as [(Hk & Hn & Ho)|(Hr & Ho & c' & Hc)].
  - destruct (Hk _ _ _ _ (here_now _ _ (world x) Hg)) as [H1 H2 _].
    unfold served_file. by rewrite Ho, Hn, H1, H2.
  - unfold served_file. rewrite Ho.
    destruct (remove_ends (socket_node x) (with_ticks ts (world x))) as (w1 & Hrem & _).
    destruct (remove_file _ _ _ _ _ Hu Hx Hf Ht Hr Hrem) as [r Hw].
    destruct (run (host x)); try discriminate Hr; cbn [run_calls destructor_calls] in Hc;
      cbv [mbind sys_bind mret sys_ret] in Hc; rewrite Hrem in Hc.
    + destruct (destroy_descriptor (connection x) w1) as [[[] w2]|] eqn:Hd; [|done]. injection Hc as Hs _ Hw2.
      rewrite <-Hs, <-Hw2. split; [done|]. by destruct (keeps_destroy _ _ _ _ _ _ _ _ Hw Hd).
    + unfold destroy_guard in Hc. cbv [mbind sys_bind] in Hc. rewrite remove_spent in Hc by done.
      destruct (destroy_descriptor _ w1) as [[[] w2]|] eqn:Hd; [|done]. injection Hc as Hs _ Hw2.
      rewrite <-Hs, <-Hw2. split; [done|]. by destruct (keeps_destroy _ _ _ _ _ _ _ _ Hw Hd).
Qed.

(** The constructor leaves the entry as it was, or puts the node there. *)
Lemma construct_file i w r w' :
  ticks w = [] -> construct config i w = Some (r, w') ->
  match r with
  | inl _ => file w' = file w
  | inr made => served_file (file w) (hosted_initial config made w')
  end.
Proof.
  intros Ht Hc. destruct w as [O F ts n u]. cbn in Ht. subst ts.
  pose proof (calm_construct _ _ _ _ _ _ _ _ Hc) as Hr. destruct r as [ex|[fd g]]; [by rewrite Hr|].
  destruct Hr as (Ha & _ & H0 & _ & _ & _ & Hp & He & ->). cbn. split_and!; try done.
  destruct (decide (key_of g = key)) as [<-|Hne]; [left|right]; (split; [done|]).
  - split; [exact He|]. apply lookup_insert_eq.
  - by rewrite lookup_insert_ne.
Qed.

(** When the server is gone the entry is what it was. *)
Lemma served_file_gone start e x :
  is_uint 32 (scfg_maximum_active_connections config) -> xreach start x -> served_file e x ->
  run (host x) = Gone -> file (world x) = e.
Proof.
  intros Hu Hx Hf Hg. destruct (hosted_inv_reachable _ _ _ _ _ _ _ Hu Hx) as (Hv & l & Hi).
  unfold served_file in Hf. rewrite (node_torn _ _ _ _ _ _ Hv Hu (hi_server _ _ _ _ _ _ _ _ _ Hi)) in Hf;
    [apply Hf|by rewrite Hg].
Qed.
End Server.
End DeploymentFiles.

(** ** The whole daemon *)

Section Whole.
Context `{HK : KernelLaws} {RT : Runtime} {P : Posix}.
Context (arguments : list bytes) (ESRCH : Z).
Context (instance_id : Z) (daemon_version broken_pipe : bytes).
Context (system_error_what : Z -> bytes -> bytes) (bad_alloc_what : bytes).
Context (euid : Z) (original pending : sigset) (start : World).

Abbreviation dreach :=
  (daemon_reachable arguments ESRCH instance_id daemon_version broken_pipe system_error_what
     bad_alloc_what original pending).
Abbreviation dstep :=
  (daemon_step arguments ESRCH instance_id daemon_version broken_pipe system_error_what bad_alloc_what).
Abbreviation pstep :=
  (deployed_step arguments ESRCH instance_id daemon_version broken_pipe system_error_what bad_alloc_what
     euid).
Abbreviation preach allowed :=
  (deployed_reachable arguments ESRCH instance_id daemon_version broken_pipe system_error_what
     bad_alloc_what euid allowed original pending start).
Abbreviation pinv :=
  (deployed_inv arguments ESRCH instance_id daemon_version broken_pipe system_error_what
     bad_alloc_what euid original pending start).

Lemma inv_uint p x :
  pinv p -> running (process p) = true -> site_of p = Serving x ->
  is_uint 32 (scfg_maximum_active_connections (server_config (options (process p)))).
Proof.
  intros [Hd Hsite] Hr Hs. rewrite Hs in Hsite. destruct Hsite as (Hs' & _).
  pose proof (daemon_inv_reachable _ _ _ _ _ _ _ _ _ _ Hd) as Hinv.
  by destruct (dinv_server _ _ _ _ system_error_what _ _ _ _ Hinv Hr Hs') as (_ & Hu & _).
Qed.

(** The entry in any state of the daemon. *)
Lemma file_reachable key p :
  preach (undisturbed key) p ->
  match site_of p with
  | Idle w => entries (outside w) !! key = entries (outside start) !! key
  | Serving x => served_file key (entries (outside start) !! key) x
  end.
Proof.
  intros Hp. induction Hp as [|p e i kept ts p' Hp IH Ht Hstep]; [done|].
  pose proof (deployed_inv_reachable _ _ _ _ _ _ _ _ _ _ _ _ _ Hp) as Hinv.
  destruct p as [d [w|x]]; pose proof Hinv as [Hd Hsite]; cbn in IH, Ht, Hd, Hsite.
  - destruct (idle_step _ _ _ _ _ _ _ _ _ _ _ _ _ _ _ (proj1 Hsite) Hstep)
      as (_ & [[-> _]|(r & w' & Hc & Hr)]); [done|].
    subst ts. pose proof (construct_file key _ _ (with_ticks [] w) _ _ eq_refl Hc) as Hf.
    cbn in Hf. rewrite IH in Hf. destruct r; [by destruct Hr as [-> _]|by destruct Hr as (_ & -> & _)].
  - destruct Hsite as (Hs & w0 & _ & _ & Hx).
    pose proof (daemon_inv_reachable _ _ _ _ _ _ _ _ _ _ Hd) as Hdi.
    destruct (serving_step _ _ _ _ _ _ _ _ _ _ _ _ _ _ _ _ Hdi Hs Hstep) as ((e' & He') & Ho & Hsite).
    pose proof (inv_uint _ x Hinv (dstep_running _ _ _ _ _ _ _ _ _ _ He') eq_refl) as Hu.
    destruct (site_of p') as [w|x'].
    + destruct Hsite as (_ & -> & Hgone). eapply (served_file_gone _ (server_config (options d))); [exact Hu|exact Hx|exact IH|exact Hgone].
    + destruct Hsite as (_ & [-> | (v & Hv)]); [done|].
      eapply served_file_step; [exact Hu|exact Hx|exact IH|exact Ht|exact Hv].
Qed.


End Whole.
