(* ===== verification/DeploymentEnd.v ===== *)
(** The end of the whole daemon: once a stop is asked, the process on its world comes to its
    exit by itself. *)
From S2P Require Import Prelude OrdMap Kernel Protocol Wire Codec Frame Jobs JobSystem.
From S2P Require Import JobSpec Dispatch Progress Service Server ServerSpec ServerEnd.
From S2P Require Import Posix UnixSocket UnixSocketSpec Hosted HostedSpec HostedLife HostedFiles HostedShut.
From S2P Require Import DaemonMain DaemonMainSpec Daemon DaemonSpec DaemonLife DaemonAsk DaemonEnd.
From S2P Require Import Deployment DeploymentSpec DeploymentFiles.

Section DeploymentEnd.
Context `{HK : KernelLaws} {RT : Runtime} {P : Posix}.
Context (arguments : list bytes) (ESRCH : Z).
Context (instance_id : Z) (daemon_version broken_pipe : bytes).
Context (system_error_what : Z -> bytes -> bytes) (bad_alloc_what : bytes).
Context (euid : Z) (original pending : sigset) (start : World).
Context (workers_do : worker_pc -> worker_input) (calls_do : call_pc -> call_input).

Abbreviation dstep :=
  (daemon_step arguments ESRCH instance_id daemon_version broken_pipe system_error_what bad_alloc_what).
Abbreviation d_comes :=
  (d_comes arguments ESRCH instance_id daemon_version broken_pipe system_error_what bad_alloc_what
     workers_do calls_do closed_status).
Abbreviation pstep :=
  (deployed_step arguments ESRCH instance_id daemon_version broken_pipe system_error_what bad_alloc_what
     euid).
Abbreviation preach allowed :=
  (deployed_reachable arguments ESRCH instance_id daemon_version broken_pipe system_error_what
     bad_alloc_what euid allowed original pending start).
Abbreviation pinv :=
  (deployed_inv arguments ESRCH instance_id daemon_version broken_pipe system_error_what
     bad_alloc_what euid original pending start).

(** What the daemon does by itself while nobody interferes and no call is refused. *)
Inductive p_comes (p : Deployed) : Deployed -> Prop :=
| p_comes_refl : p_comes p p
| p_comes_step e p1 p2 :
    d_unaided workers_do calls_do closed_status (process p) e ->
    pstep e ImplBuilt false [] p = Some p1 -> p_comes p1 p2 -> p_comes p p2.

(** The construction is over. *)
Definition past (m : main_pc) : bool :=
  match m with MParse | MMask | MServer => false | _ => true end.

Lemma dstep_past e d d' : past (d_main d) = true -> dstep e d = Some d' -> past (d_main d') = true.
Proof.
  intros Hp Hstep. unfold daemon_step in Hstep. destruct (running d); [|done]. cbn [negb] in Hstep.
  destruct e as [i|i|e|x].
  - main_cases Hstep; try done; try (by destruct (opt_help _)); try (by unfold unmask; destruct (unblocked _ _)).
    all: repeat case_match; done.
  - waiter_cases Hstep; try done; try (by destruct (complete_ d));
      match goal with H : on_server _ _ _ _ _ = Some _ |- _ =>
        apply on_server_inv in H as (? & ? & _ & _ & ->) end; done.
  - destruct (server_acts e d); [|done]. by apply on_server_inv in Hstep as (? & ? & _ & _ & ->).
  - injection Hstep as <-. by destruct (deliverable x d).
Qed.

(** A step of the server's own threads that waits for a peer finds the listener closed. *)
Lemma follows_accept d x i d' :
  pinv (mk_Deployed d (Serving x)) -> accepts (VRun i) (host x) = true ->
  unaided workers_do calls_do closed_status (host x) (VRun i) ->
  dstep (DServer (VRun i)) d = Some d' ->
  exists p', pstep (DServer (VRun i)) ImplBuilt false [] (mk_Deployed d (Serving x)) = Some p' /\
    process p' = d'.
Proof.
  intros [Hd (Hs & w0 & _ & _ & Hx)] Hacc Hun Hstep. cbn in Hd, Hs, Hx.
  pose proof (daemon_inv_reachable _ _ _ _ _ _ _ _ _ _ Hd) as Hinv.
  destruct (dinv_server _ _ _ _ system_error_what _ _ _ _ Hinv (dstep_running _ _ _ _ _ _ _ _ _ _ Hstep) Hs)
    as (_ & Hu & _).
  assert (exists l, run (host x) = RAccept l) as [l Hrun]
    by (cbn in Hacc; destruct (run (host x)); try discriminate Hacc; by eexists).
  assert (i = RAnswer (AcceptFailed closed_status) /\ listener_fd (host x) = -1) as [-> Hl].
  { cbn in Hun. destruct i as [|a|]; [|by destruct a as [? ?| |st]; try done; destruct Hun as [? ->]|done].
    assert (server_move (DServer (VRun RProceed)) d = Some (VRun RProceed)) as Hmv by done.
    destruct (dstep_moves _ _ _ _ _ _ _ _ _ _ _ _ Hs Hmv Hstep) as (s' & Hv & _).
    cbn -[run_step] in Hv. unfold run_step in Hv. by rewrite Hrun in Hv. }
  destruct (closed_accepts _ _ _ _ _ _ _ false _ closed_status Hu Hx Hrun Hl) as (x' & Hx' & Hv).
  unfold deployed_step. cbn -[daemon_step hosted_step]. rewrite Hx'. cbn -[daemon_step].
  rewrite Hrun. cbn -[daemon_step].
  cbn -[run_step] in Hv. unfold run_step in Hv. rewrite Hrun in Hv. injection Hv as <-. cbn -[daemon_step].
  rewrite Hstep. by eexists.
Qed.

Lemma follows_unaided p e d' :
  pinv p -> past (d_main (process p)) = true ->
  d_unaided workers_do calls_do closed_status (process p) e -> dstep e (process p) = Some d' ->
  exists p', pstep e ImplBuilt false [] p = Some p' /\ process p' = d'.
Proof.
  intros Hp Hpast Hun Hstep. destruct (asks_world e p) eqn:Hask; [|by eapply deployed_follows].
  unfold asks_world in Hask. destruct p as [d [w|x]]; cbn in Hask, Hpast, Hun, Hstep.
  { destruct (d_main d); try discriminate Hask; done. }
  destruct (server_move e d) as [v|] eqn:Hv; [|done].
  destruct v as [|i| | | | | |]; try discriminate Hask.
  assert (e = DServer (VRun i)) as ->.
  { destruct e as [m|m|v|y]; cbn in Hv; [| |congruence|done].
    - destruct m; try done. cbn in Hun. by destruct Hun as [|[|[? ?]]].
    - destruct (d_waiter d); try done. destruct (server d) as [s|]; [|done]. cbn in Hv.
      by destruct (stoppers s !! n) as [[]|]. }
  destruct Hun as (s & Hs & Hun). pose proof Hp as [_ [Hs' _]]. cbn in Hs'.
  assert (s = host x) as -> by congruence. by eapply follows_accept.
Qed.

(** What the process comes to, the whole daemon comes to. *)
Lemma p_comes_along p d' :
  pinv p -> past (d_main (process p)) = true -> d_comes (process p) d' ->
  exists p', p_comes p p' /\ process p' = d' /\ pinv p' /\ past (d_main d') = true.
Proof.
  intros Hp Hpast Hc. remember (process p) as d eqn:Hd. revert p Hd Hp Hpast.
  induction Hc as [d|d e d1 d2 Hu Hs _ IH]; intros p -> Hp Hpast.
  - exists p. split_and!; [constructor|done..].
  - destruct (follows_unaided p e d1 Hp Hpast Hu Hs) as (p1 & Hs1 & <-).
    destruct (IH p1 eq_refl) as (p2 & Hc2 & H2 & H3 & H4).
    + eapply deployed_inv_step; [exact Hp|exact Hs1].
    + by eapply dstep_past.
    + exists p2. split; [|done]. by econstructor.
Qed.

Lemma p_comes_trans p p1 p2 : p_comes p p1 -> p_comes p1 p2 -> p_comes p p2.
Proof. induction 1; [done|]. intros. econstructor; eauto. Qed.

(** Nobody disturbs any entry meanwhile. *)
Lemma p_comes_reach key p p' : preach (undisturbed key) p -> p_comes p p' -> preach (undisturbed key) p'.
Proof.
  intros Hp Hc. induction Hc as [|p e p1 p2 _ Hs _ IH]; [done|]. apply IH.
  econstructor; [exact Hp| |exact Hs]. unfold undisturbed. by destruct (site_of p); [|split].
Qed.

Context (Hworkers : forall pc, matched pc (workers_do pc)).
Context (Hcalls : forall pc, call_matched pc (calls_do pc)).

End DeploymentEnd.
