(* ===== verification/RefKernel.v ===== *)
(** A concrete kernel and runtime that satisfy everything the development assumes
    ([KernelLaws], [RuntimeLaws]): the hypotheses have a model, in which the
    properties are exercised on concrete inputs.  The kernel keeps a value's members
    as they were given; the runtime's graph is its document and its cancellation
    source a flag. *)
From S2P Require Import Prelude OrdMap Kernel Protocol.

#[export] Instance ref_codes : ErrorCodes := {|
  Ok := 0; InvalidArgument := 1; NotFound := 2; ResourceExhausted := 3; Cancelled := 4;
  Internal := 5;
|}.

#[export] Instance ref_codes_laws : ErrorCodesLaws ref_codes.
Proof.
  split; cbn.
  - repeat (apply NoDup_cons; split; [rewrite ?not_elem_of_cons; set_solver by lia|]).
    constructor.
  - repeat constructor; lia.
  - lia.
Qed.

Record ref_value := mk_ref_value {
  rv_descriptor : ValueDescriptor;
  rv_region : list RegionDimension;
  rv_layout : StridedLayout;
  rv_facets : list ValueFacet;
  rv_bytes : bytes;
}.

Definition u64b (n : Z) : bool := (0 <=? n) && (n <? 2 ^ 64).
Definition u32b (n : Z) : bool := (0 <=? n) && (n <? 2 ^ 32).
Definition i64b (n : Z) : bool := (- 2 ^ 63 <=? n) && (n <? 2 ^ 63).

(** Element types 1 (UInt8), 2 (Float32) and 3 (Float64), one rank, members of their
    declared types. *)
Definition ref_valid (v : ref_value) : bool :=
  let d := rv_descriptor v in
  (1 <=? element_type d) && (element_type d <=? 3) && (1 <=? zlen (shape d))
  && forallb u64b (shape d)
  && (length (rv_region v) =? length (shape d))%nat
  && forallb (fun d => u64b (dim_offset d) && u64b (dim_extent d)) (rv_region v)
  && u64b (byte_offset (rv_layout v))
  && (length (byte_strides (rv_layout v)) =? length (shape d))%nat
  && forallb i64b (byte_strides (rv_layout v))
  && forallb (fun f => u32b (facet_version f)) (rv_facets v).

Definition ref_create (d : ValueDescriptor) (region : list RegionDimension)
    (layout : StridedLayout) (data : bytes) (facets : list ValueFacet) : Result ref_value :=
  let v := mk_ref_value d region layout facets data in
  if ref_valid v then ROk v else RErr (failure InvalidArgument (lit "invalid value")).

#[export] Instance ref_kernel : Kernel := {|
  InputDeclaration := unit;
  RuntimeBinding := unit;
  default_schema_version := 1;
  ElementType_UInt8 := 1;
  ElementType_Float32 := 2;
  ElementType_Float64 := 3;
  Backend_Cpu := 0;
  Backend_Gpu := 1;
  Value := ref_value;
  Value_valid := ref_valid;
  Value_descriptor := rv_descriptor;
  Value_region := rv_region;
  Value_layout := rv_layout;
  Value_facets := rv_facets;
  Value_bytes := rv_bytes;
  Region_invalid := fun _ => None;
  Value_create := ref_create;
|}.

Lemma u64b_spec n : u64b n = true <-> is_uint 64 n.
Proof. unfold u64b, is_uint. lia. Qed.
Lemma u32b_spec n : u32b n = true <-> is_uint 32 n.
Proof. unfold u32b, is_uint. lia. Qed.
Lemma i64b_spec n : i64b n = true <-> is_int64 n.
Proof. unfold i64b, is_int64. lia. Qed.

Lemma forallb_Forall_impl {A} (f : A -> bool) (P : A -> Prop) l :
  (forall x, f x = true -> P x) -> forallb f l = true -> Forall P l.
Proof.
  intros Hf. induction l as [|x l IH]; cbn; [constructor|].
  intros [Hx Hl]%andb_true_iff. constructor; auto.
Qed.

#[export] Instance ref_kernel_laws : KernelLaws ref_kernel.
Proof.
  split.
  - apply _.
  - cbn. lia.
  - unfold is_uint. cbn. lia.
  - unfold is_uint. cbn. lia.
  - intros v Hv _. cbn in Hv. unfold ref_valid in Hv. rewrite !andb_true_iff in Hv.
    destruct Hv as [[[[[[[[[Ht1 Ht2] Hr] Hs] Hd] Hg] Ho] Hn] Hst] Hf].
    split; cbn; try (apply Nat.eqb_eq; assumption); try lia.
    + by eapply forallb_Forall_impl, Hs; intros ?; apply u64b_spec.
    + eapply forallb_Forall_impl, Hg. intros d [H1 H2]%andb_true_iff.
      by rewrite !u64b_spec in *.
    + by apply u64b_spec.
    + by eapply forallb_Forall_impl, Hst; intros ?; apply i64b_spec.
    + by eapply forallb_Forall_impl, Hf; intros ?; apply u32b_spec.
  - intros v Hv Hw. split; [done|]. cbn in Hv. cbn.
    eexists. split.
    + unfold ref_create. unfold ref_valid in *. cbn in *. by rewrite Hv.
    + split_and!; [exact Hv|split; [apply Hw|constructor]|done].
Qed.

#[export] Instance ref_runtime : @Runtime ref_kernel := {|
  GraphContext := WorkflowDocument;
  make_graph := fun d => d;
  ExecutionPlan := WorkflowDocument * bool;
  ExecutionMode := bool;
  CpuExact := false;
  MetalFp32 := true;
  default_mode := false;
  CancellationSource := bool;
  fresh_source := false;
  cancel_source := fun _ => true;
  token_cancelled := fun c => c;
|}.

#[export] Instance ref_runtime_laws : RuntimeLaws ref_runtime.
Proof. by split. Qed.
