(* ===== verification/CodecWitness.v ===== *)
(** The properties of the codec on concrete messages, under the kernel of
    [RefKernel]. *)
From S2P Require Import Prelude OrdMap Kernel Protocol Utf8 Wire RoundTrip Scalars.
From S2P Require Import CodecRequest CodecResult Codec CodecSpec Layout ProtocolErrors Framing.
From S2P Require Import ResponseSpec RefKernel.

(** Discharges the bounds of a concrete message. *)
Ltac closed_bounds :=
  repeat first
    [ exact I
    | reflexivity
    | match goal with
      | H : _ \/ _ |- _ => destruct H
      | H : _ = _ |- _ => discriminate H
      | |- _ /\ _ => split
      | |- _ \/ _ => first [left; closed_bounds; fail | right; closed_bounds; fail]
      | |- Forall _ _ => constructor
      | |- is_uint _ _ => unfold is_uint; lia
      | |- is_int64 _ => unfold is_int64; lia
      | |- text_ok _ _ => split
      | |- _ -> _ => intro
      | |- exists _, _ => eexists
      | |- sorted_map _ => solve [vm_compute; repeat constructor]
      | |- node_ok _ => split
      | |- input_ok _ => unfold input_ok
      | |- output_ok _ => unfold output_ok
      | |- parameter_ok _ => unfold parameter_ok
      | |- wire_supported _ => unfold wire_supported
      | |- backend_known _ => unfold backend_known
      | |- diagnostics_ok _ => split
      | |- diagnostics_fit _ => split
      | |- result_fits _ => split
      | |- daemon_info_fits _ => split
      | |- facets_bounded _ => unfold facets_bounded
      | |- timing_fits _ => unfold timing_fits
      | |- backend_fits _ => unfold backend_fits
      end
    | progress cbn
    | lia | discriminate | done ].

(** Checks an equation by evaluating both sides in the virtual machine, without reading
    their values back. *)
Ltac evaluated :=
  lazymatch goal with |- ?a = ?b => exact (eq_refl b <: a = b) end.

(** ** Messages *)

(** A two-node document with a parameter of every kind. *)
Definition w_document : WorkflowDocument :=
  mk_WorkflowDocument 1 []
    [mk_WorkflowNode 1 (lit "image.constant") []
       [(lit "fill", PDouble 4607182418800017408); (lit "name", PString (lit "a"));
        (lit "tiled", PBool true); (lit "width", PInt64 (-5))];
     mk_WorkflowNode 2 (lit "image.blur") [NodeOutput (mk_WorkflowNodeOutput 1 (lit "out"))] []]
    [mk_WorkflowOutput (lit "result") 2 (lit "out")].

Definition w_request : Request :=
  mk_Request 7 Method.SessionCreate w_document default_SessionId default_JobId
    default_submit_options.

(** A 2x1 byte image with a facet. *)
Definition w_value : ref_value :=
  mk_ref_value (mk_ValueDescriptor 1 [2; 1]) [mk_RegionDimension 0 2; mk_RegionDimension 0 1]
    (mk_StridedLayout 0 [1; -1] [0; 0]) [mk_ValueFacet (lit "color") 1 [1; 2]] [10; 20].

Definition w_result : ExecutionResult :=
  mk_ExecutionResult [(lit "a", w_value); (lit "b", w_value)]
    (mk_ExecutionDiagnostics 12 [(1, 0); (2, 1)] 1 2 64 [lit "no gpu"]
       [mk_OperationTiming 1 0 5 0; mk_OperationTiming 2 1 6 4] (lit "d1") (lit "d2")).

Definition w_response : Response :=
  mk_Response 9 Method.JobResult success default_SessionId default_JobId default_job_status
    w_result default_daemon_info false.

(** The bytes an encoder returned. *)
Definition returned {E} (o : outcome E (Result bytes)) : bytes :=
  match o with Return (ROk bs) => bs | _ => [] end.

(** ** Witnesses *)

Lemma w_document_ok : document_ok w_document.
Proof.
  split; closed_bounds.
Qed.

Lemma w_request_ok : request_ok w_request.
Proof. split; closed_bounds. apply w_document_ok. Qed.

Lemma w_request_fits : request_fits w_request.
Proof. split; closed_bounds. apply document_ok_fits, w_document_ok. Qed.

Lemma w_value_ok : value_ok w_value.
Proof. split; closed_bounds. Qed.

Lemma w_result_ok : result_ok w_result.
Proof.
  split; closed_bounds; apply w_value_ok.
Qed.

Lemma w_response_ok : response_ok w_response.
Proof. split; closed_bounds. apply w_result_ok. Qed.

Lemma w_response_fits : response_fits w_response.
Proof.
  split; closed_bounds.
Qed.

Lemma request_roundtrip_witness :
  request_fits w_request /\ encode_request w_request = Return (ROk (wire_request w_request)) /\
  zlen (wire_request w_request) <= kMaximumFramePayloadBytes /\
  decode_request (wire_request w_request) = ROk (canonical_request w_request).
Proof.
  assert (encode_request w_request = Return (ROk (wire_request w_request))) as He
    by (evaluated).
  split; [exact w_request_fits|]. split; [exact He|].
  exact (request_roundtrip _ _ w_request_fits He).
Defined.


Lemma bytes_checked bs : forallb (fun b => (0 <=? b) && (b <? 256)) bs = true -> Forall (is_uint 8) bs.
Proof. apply forallb_Forall_impl. intros b. unfold is_uint. lia. Qed.

Lemma decode_request_sound_witness : request_ok (canonical_request w_request).
Proof.
  apply (decode_request_sound (wire_request w_request)).
  - apply bytes_checked. evaluated.
  - evaluated.
Defined.

(** The response a decoder builds. *)
Definition decoded {A} (d : A) (r : Result A) : A := match r with ROk v => v | RErr _ => d end.

Lemma decode_response_sound_witness :
  response_decoded Method.JobResult 9
    (decoded default_response (decode_response (wire_response w_response) Method.JobResult 9)).
Proof.
  apply (decode_response_sound (wire_response w_response)).
  - apply bytes_checked. evaluated.
  - evaluated.
Defined.

Lemma encode_request_refines_layout_witness :
  encode_request w_request = Return (ROk (wire_request w_request)).
Proof. exact (encode_request_refines_layout w_request w_request_ok). Defined.

Lemma encode_response_refines_layout_witness :
  encode_response w_response = Return (ROk (wire_response w_response)).
Proof. exact (encode_response_refines_layout w_response w_response_ok). Defined.

Lemma decode_prefix_free_witness :
  (exists s, decode_request (wire_request w_request ++ [0]) = RErr s) /\
  (exists s, decode_response (wire_response w_response ++ [0]) Method.JobResult 9 = RErr s).
Proof.
  assert ([0] <> @nil Z) as Hne by discriminate.
  assert (Forall (is_uint 8) (wire_request w_request)) as Hq
    by (apply bytes_checked; evaluated).
  assert (Forall (is_uint 8) (wire_response w_response)) as Hp
    by (apply bytes_checked; evaluated).
  split.
  - apply (proj1 (decode_prefix_free _ [0] Method.JobResult 9 Hq Hne) (canonical_request w_request)).
    evaluated.
  - apply (proj2 (decode_prefix_free _ [0] Method.JobResult 9 Hp Hne)
             (decoded default_response
                (decode_response (wire_response w_response) Method.JobResult 9))).
    evaluated.
Defined.

Lemma recover_correlation_agrees_witness :
  recover_correlation (Some (wire_request w_request)) = (7, Method.SessionCreate).
Proof.
  exact (recover_correlation_agrees (wire_request w_request) (canonical_request w_request)
           ltac:(evaluated)).
Defined.

Lemma protocol_error_roundtrip_witness :
  exists bs,
    encode_protocol_error (failure InvalidArgument (lit "bad")) (Some (wire_request w_request))
    = Return (ROk bs) /\
    zlen bs <= kMaximumFramePayloadBytes /\
    decode_protocol_error bs =
      Return (ROk (response_header 7 Method.SessionCreate (failure InvalidArgument (lit "bad")))) /\
    (7 <> 0 -> decode_response bs Method.SessionCreate 7 =
      ROk (response_header 7 Method.SessionCreate (failure InvalidArgument (lit "bad")))).
Proof.
  refine (protocol_error_roundtrip (failure InvalidArgument (lit "bad"))
            (Some (wire_request w_request)) _ _ _).
  - split; closed_bounds.
  - reflexivity.
  - intros bs [= <-]. apply bytes_checked. evaluated.
Defined.
