(* ===== verification/JobWitness.v ===== *)
(** The properties of the frames and of the Job registry on concrete runs, under the
    kernel and the runtime of [RefKernel]. *)
From S2P Require Import Prelude OrdMap Kernel Protocol Utf8 Wire CodecRequest Codec CodecSpec.
From S2P Require Import Layout Frame FrameSpec Jobs JobSystem JobSpec JobOutcome JobOps.
From S2P Require Import RefKernel.

(** Checks an equation by evaluation. *)
Ltac evaluated :=
  lazymatch goal with |- ?a = ?b => exact (eq_refl b <: a = b) end.

(** ** Frames *)

(** "hi" arrives byte by byte, with an interruption, and the next byte behind it. *)
Definition w_arrivals : list arrival :=
  [Arrive [0; 0]; RecvInterrupted; Arrive [0]; Arrive [2; 104]; Arrive [105; 9]].

Lemma w_arrivals_wf : arrivals_wf w_arrivals.
Proof. repeat constructor; first [discriminate | unfold is_uint; lia]. Qed.

Lemma read_frame_parses_witness : frame_answered 3 (Some default_progress) w_arrivals.
Proof. exact (read_frame_parses 3 (Some default_progress) w_arrivals w_arrivals_wf ltac:(lia)). Defined.

(** Two short writes and an interruption. *)
Definition w_outgoing : outgoing :=
  mk_outgoing [Accept 3; SendInterrupted; Accept 1; Accept 1; Accept 9] [].

Lemma frame_roundtrip_witness :
  exists s', read_frame 4 (Some default_progress) w_arrivals
    = Done (ROk [104; 105], progress_or_none (Some default_progress) [104; 105], s') /\
    stream s' = ([9], Waiting).
Proof.
  refine (proj1 (frame_roundtrip 3 4 [104; 105] w_outgoing success
    (mk_outgoing [] (frame_bytes [104; 105])) (Some default_progress) w_arrivals [9] Waiting
    _ _ _ _ _ _ _) _ _).
  - repeat constructor; discriminate.
  - split; [discriminate|]. vm_compute. discriminate.
  - lia.
  - lia.
  - reflexivity.
  - evaluated.
  - exact w_arrivals_wf.
  - reflexivity.
  - evaluated.
Defined.

(** ** Executions *)

Definition w_sid : SessionId := mk_SessionId 1 1.
Definition w_graph : WorkflowDocument := default_document.

Definition w_submit : event := ESubmit w_sid w_graph default_submit_options None.

Definition w_run (es : list event) : JobSystem :=
  default (initial 2) (run 4 1 false es (initial 2)).

Lemma w_reach es : run 4 1 false es (initial 2) = Some (w_run es) -> reachable 4 1 false 2 (w_run es).
Proof. intros Hr. eapply reach_run; [apply reach_initial|exact Hr]. Qed.

(** The record at a reference. *)
Definition record_at (s : JobSystem) (r : nat) : JobRecord :=
  default (mk_JobRecord default_JobId default_SessionId w_graph default_submit_options
             JobState.Queued success false None) (heap (reg s) !! r).

(** Two submissions; the first worker starts the first. *)
Definition es_queued : list event := [w_submit; w_submit].
Definition es_started : list event := es_queued ++ [EWorker 0 Go; EWorker 0 Go].
(** It compiles and executes to the end. *)
Definition es_executed : list event :=
  es_started ++ [EWorker 0 Go; EWorker 0 (Compiles (Answered (ROk (w_graph, false))));
    EWorker 0 Go; EWorker 0 (Executes (Answered (ROk default_execution_result))); EWorker 0 Go].
Definition es_done : list event := es_executed ++ [EWorker 0 Go].
(** Cancelled while its result waits to be published. *)
Definition es_cancelled : list event := es_executed ++ [ECancel 0].

Lemma lifecycle_forward_witness :
  exists x', heap (reg (w_run es_done)) !! 0%nat = Some x' /\
    same_identity (record_at (w_run es_executed) 0) x' /\
    stage (jr_state (record_at (w_run es_executed) 0)) <= stage (jr_state x') /\
    (terminal (jr_state (record_at (w_run es_executed) 0)) = true ->
     ~ held (w_run es_executed) 0 ->
     same_core (record_at (w_run es_executed) 0) x' /\ ~ held (w_run es_done) 0).
Proof.
  exact (lifecycle_forward 4 1 false 2 (w_run es_executed) (EWorker 0 Go) (w_run es_done) 0
    (record_at (w_run es_executed) 0) (w_reach es_executed ltac:(evaluated))
    ltac:(evaluated) ltac:(evaluated)).
Defined.

Lemma w_not_held (s : JobSystem) r :
  forallb (fun pc => bool_decide (holds pc <> Some r)) (workers s) = true -> ~ held s r.
Proof.
  rewrite forallb_forall. intros Hall (w & pc & Hw & Hh).
  apply list_elem_of_lookup_2, list_elem_of_In, Hall in Hw. by rewrite bool_decide_eq_true in Hw.
Qed.

(** The result survives the release of its record and a close of its namespace. *)
Lemma terminal_snapshot_stable_witness :
  let s := w_run es_done in
  let s' := w_run (es_done ++ [ERelease (mk_JobId 1 1); EDetach w_sid false; ECancel 0; EStop]) in
  exists x', heap (reg s') !! 0%nat = Some x' /\
    result_snapshot x' = result_snapshot (record_at s 0) /\
    status_snapshot x' = status_snapshot (record_at s 0).
Proof.
  exact (terminal_snapshot_stable 4 1 false 2
    [ERelease (mk_JobId 1 1); EDetach w_sid false; ECancel 0; EStop] (w_run es_done)
    (w_run (es_done ++ [ERelease (mk_JobId 1 1); EDetach w_sid false; ECancel 0; EStop])) 0
    (record_at (w_run es_done) 0) (w_reach es_done ltac:(evaluated)) ltac:(evaluated)
    ltac:(evaluated) (w_not_held (w_run es_done) 0 ltac:(evaluated)) ltac:(evaluated)).
Defined.


Lemma running_bounded_witness : (length [0%nat] <= 2)%nat.
Proof.
  refine (running_bounded 4 1 false 2 (w_run es_started) [0%nat]
    (w_reach es_started ltac:(evaluated)) _ _).
  - apply NoDup_singleton.
  - intros r ->%list_elem_of_singleton. exists (record_at (w_run es_started) 0).
    split; evaluated.
Defined.

Lemma workers_pop_fifo_witness :
  exists x, heap (reg (w_run es_queued)) !! 0%nat = Some x /\
    queue (reg (w_run es_queued)) = 0%nat :: queue (reg (w_run (es_queued ++ [EWorker 1 Go]))) /\
    jr_state x = JobState.Queued /\
    forall r' x', r' ∈ queue (reg (w_run (es_queued ++ [EWorker 1 Go]))) ->
      heap (reg (w_run es_queued)) !! r' = Some x' -> job_value (jr_id x) < job_value (jr_id x').
Proof.
  exact (workers_pop_fifo 4 1 false 2 (w_run es_queued) 1 Go
    (w_run (es_queued ++ [EWorker 1 Go])) 0 (w_reach es_queued ltac:(evaluated))
    ltac:(evaluated) ltac:(evaluated) ltac:(evaluated)).
Defined.

(** A kernel that compiles and then fails to execute. *)
Definition w_choose (pc : worker_pc) : worker_input :=
  match pc with
  | WCompile _ graph mode => Compiles (Answered (ROk (graph, mode)))
  | WExecute _ _ _ => Executes (Raised NonStandard)
  | _ => Go
  end.

Lemma execution_terminates_witness :
  exists s' x, drive 4 1 false 9 w_choose 0 (w_run es_started) = Some s' /\
    workers s' !! 0%nat = Some WIdle /\ heap (reg s') !! 0%nat = Some x /\
    terminal (jr_state x) = true.
Proof.
  refine (execution_terminates 4 1 false 2 (w_run es_started) 0 (WStarted 0) 0 w_choose
    (w_reach es_started ltac:(evaluated)) ltac:(evaluated) eq_refl _).
  intros []; cbn; eauto.
Defined.


Lemma submit_spec_witness :
  let '(g', res) := submit 4 1 w_sid w_graph default_submit_options None (reg (w_run es_started)) in
  submit_post 4 1 w_sid w_graph default_submit_options None (reg (w_run es_started)) g' res.
Proof.
  exact (submit_spec 4 1 false 2 (w_run es_started) w_sid w_graph default_submit_options None
    (w_reach es_started ltac:(evaluated))).
Defined.

Lemma release_spec_witness :
  exists x, heap (reg (w_run es_done)) !! 0%nat = Some x /\
    if terminal (jr_state x)
    then success = success /\
         find 1 (mk_JobId 1 1) (release 1 (mk_JobId 1 1) (reg (w_run es_done))).1 = None /\
         heap (release 1 (mk_JobId 1 1) (reg (w_run es_done))).1 = heap (reg (w_run es_done)) /\
         queue (release 1 (mk_JobId 1 1) (reg (w_run es_done))).1 = queue (reg (w_run es_done)) /\
         (forall id', id' <> mk_JobId 1 1 ->
            find 1 id' (release 1 (mk_JobId 1 1) (reg (w_run es_done))).1
            = find 1 id' (reg (w_run es_done)))
    else (release 1 (mk_JobId 1 1) (reg (w_run es_done))).1 = reg (w_run es_done) /\
         code success = InvalidArgument.
Proof.
  exact (release_spec 4 1 false 2 (w_run es_done) (mk_JobId 1 1)
    (w_reach es_done ltac:(evaluated))).
Defined.

(** The close of the namespace takes the queued record and the running one. *)
Lemma close_detach_spec_witness :
  let g := (close_detach w_sid false (reg (w_run es_started))).1 in
  (forall k r, (k, r) ∈ jobs g <->
     (k, r) ∈ jobs (reg (w_run es_started)) /\
     in_session w_sid (reg (w_run es_started)) r = false) /\
  (forall r, r ∈ [1%nat] -> exists x, heap g !! r = Some x /\ jr_session_id x = w_sid /\
     jr_state x = JobState.Queued).
Proof.
  destruct (close_detach_spec 4 1 false 2 (w_run es_started) w_sid
    (close_detach w_sid false (reg (w_run es_started))).1 [1%nat] [0%nat]
    (w_reach es_started ltac:(evaluated)) ltac:(evaluated)) as (Hjobs & _ & _ & Hqueued & _).
  split; [exact Hjobs|exact Hqueued].
Defined.
