(* ===== verification/ServiceWitness.v ===== *)
(** The properties of the service on concrete runs, under the kernel and the runtime of
    [RefKernel]. *)
From S2P Require Import Prelude OrdMap Kernel Protocol Utf8 Codec CodecSpec Jobs JobSystem.
From S2P Require Import JobSpec JobOutcome Service ServiceSystem ServiceLink ServiceSpec.
From S2P Require Import SessionSpec Dispatch Progress RefKernel JobWitness.

(** Two workers, two Sessions, four executions. *)
Definition w_config : ServiceConfig := mk_ServiceConfig 2 4 2 false.
Definition w_version : bytes := lit "0.2.0".

Definition w_srun (es : list service_event) : ServiceState :=
  default (service_initial w_config)
    (service_run w_config 1 w_version es (service_initial w_config)).

(** Whether every event of a schedule is enabled in its turn. *)
Definition ran (es : list service_event) : bool :=
  match service_run w_config 1 w_version es (service_initial w_config) with
  | Some _ => true
  | None => false
  end.

Lemma ran_state es :
  ran es = true ->
  service_run w_config 1 w_version es (service_initial w_config) = Some (w_srun es).
Proof. unfold ran, w_srun. by destruct (service_run _ _ _ es _). Qed.

Lemma w_sreach es : ran es = true -> service_reachable w_config 1 w_version (w_srun es).
Proof. intros Hr. eapply srun_reach; [constructor|by apply ran_state]. Qed.

Lemma service_run_app es1 es2 s :
  service_run w_config 1 w_version (es1 ++ es2) s
  = (s1 ← service_run w_config 1 w_version es1 s; service_run w_config 1 w_version es2 s1).
Proof.
  revert s. induction es1 as [|e es1 IH]; intros s; [done|]. cbn [app service_run].
  destruct (service_step _ _ _ e s); [apply IH|done].
Qed.

(** A schedule that goes on from where another ended. *)
Lemma w_goes_on es1 es2 :
  ran es1 = true -> ran (es1 ++ es2) = true ->
  service_run w_config 1 w_version es2 (w_srun es1) = Some (w_srun (es1 ++ es2)).
Proof.
  intros H1 H2. apply ran_state in H1, H2. by rewrite service_run_app, H1 in H2.
Qed.

Lemma w_next es e :
  ran es = true -> ran (es ++ [e]) = true ->
  service_step w_config 1 w_version e (w_srun es) = Some (w_srun (es ++ [e])).
Proof.
  intros H1 H2. pose proof (w_goes_on es [e] H1 H2) as Hr. cbn [service_run] in Hr.
  by destruct (service_step _ _ _ e _).
Qed.

Definition w_request (id : Z) (m : Method.t) (sid : SessionId) : Request :=
  mk_Request id m default_document sid default_JobId default_submit_options.

Definition go (c n : nat) : list service_event := replicate n (SStep c Proceed).

(** Call [c] creates a Session. *)
Definition es_create (c : nat) (id : Z) : list service_event :=
  SDispatch (w_request id Method.SessionCreate default_SessionId) :: go c 3
  ++ [SStep c (Validates (Answered (ROk (default_document, false))))] ++ go c 2.

(** Call [c] submits to a Session. *)
Definition es_submit (c : nat) (id : Z) (sid : SessionId) : list service_event :=
  SDispatch (w_request id Method.JobSubmit sid) :: go c 4.

Definition w_sid2 : SessionId := mk_SessionId 1 2.

(** Two Sessions; an execution in each. *)
Definition es_two : list service_event :=
  es_create 0 1 ++ es_create 1 2 ++ es_submit 2 3 w_sid ++ es_submit 3 4 w_sid2.
(** A worker takes the first, and its Session is closed: call 4 waits for it. *)
Definition w_close : Request := w_request 5 Method.SessionClose w_sid.
Definition es_waits : list service_event :=
  es_two ++ [SWorker 0 Go; SDispatch w_close] ++ go 4 6.
(** The worker sees the cancellation and ends; the close goes on. *)
Definition es_settled : list service_event :=
  es_waits ++ replicate 3 (SWorker 0 Go) ++ go 4 2.

(** The next step of the worker is one of the registry. *)
Lemma service_refines_registry_witness :
  reachable (cfg_maximum_jobs w_config) 1 (cfg_gpu_enabled w_config)
    (Z.to_nat (cfg_maximum_concurrency w_config)) (sys (w_srun es_waits)) /\
  (sys (w_srun (es_waits ++ [SWorker 0 Go])) = sys (w_srun es_waits) \/
   exists je, job_step (cfg_maximum_jobs w_config) 1 (cfg_gpu_enabled w_config) je
       (sys (w_srun es_waits)) = Some (sys (w_srun (es_waits ++ [SWorker 0 Go])))).
Proof.
  exact (service_refines_registry w_config 1 w_version (w_srun es_waits) (SWorker 0 Go)
    (w_srun (es_waits ++ [SWorker 0 Go])) (w_sreach es_waits ltac:(evaluated))
    (w_next es_waits (SWorker 0 Go) ltac:(evaluated) ltac:(evaluated))).
Defined.

Lemma session_capacity_witness :
  zlen (sessions (w_srun es_two)) + pending_session_creates (w_srun es_two)
    <= Z.max 0 (cfg_maximum_sessions w_config) /\
  pending_session_creates (w_srun es_two) = creations (calls (w_srun es_two)) /\
  (forall c req, calls (w_srun es_two) !! c <> Some (req, CTerminated)).
Proof.
  exact (session_capacity w_config 1 w_version (w_srun es_two) (w_sreach es_two ltac:(evaluated))).
Defined.

Lemma w_queued (g : JobRegistry) q r : queue g = q -> r ∈ q -> r ∈ queue g.
Proof. by intros ->. Qed.


(** The execution that was running when the close began. *)
Lemma close_session_settles_witness :
  terminal (jr_state (record_at (sys (w_srun es_settled)) 0)) = true.
Proof.
  exact (close_session_settles w_config 1 w_version (w_srun es_settled) 4 w_close 0 0
    (record_at (sys (w_srun es_settled)) 0) (w_sreach es_settled ltac:(evaluated))
    ltac:(evaluated) ltac:(evaluated) ltac:(evaluated)).
Defined.

(** From the wait of the close, with a kernel whose compiler throws. *)
Definition w_calls (pc : call_pc) : call_input :=
  match pc with CCreateCompile _ => Validates (Raised NonStandard) | _ => Proceed end.


(** The answer to the first creation carries the Session it made. *)
Definition w_created : Response :=
  mk_Response 1 Method.SessionCreate success w_sid default_JobId default_job_status
    default_execution_result default_daemon_info false.

Lemma dispatch_answers_witness :
  answered (w_request 1 Method.SessionCreate default_SessionId) w_created /\
  (resp_shutdown_after_write w_created = true ->
   req_method (w_request 1 Method.SessionCreate default_SessionId) = Method.DaemonShutdown /\
   shutting_down (w_srun es_waits) = true).
Proof.
  exact (dispatch_answers w_config 1 w_version (w_srun es_waits) 0
    (w_request 1 Method.SessionCreate default_SessionId) w_created
    (w_sreach es_waits ltac:(evaluated)) ltac:(evaluated)).
Defined.

(** Shutdown is accepted; a later creation is refused. *)
Definition es_down : list service_event :=
  es_two ++ SDispatch (w_request 5 Method.DaemonShutdown default_SessionId) :: go 4 2.
Definition es_late : list service_event :=
  SDispatch (w_request 6 Method.SessionCreate default_SessionId) :: go 5 1.

Lemma finished_or_fence (s : ServiceState) :
  forallb (fun call => finished call) (calls s) = true ->
  forall c call, calls s !! c = Some call -> finished call = true \/ call.2 = CFence.
Proof.
  rewrite forallb_forall. intros Hall c call Hc. left. apply Hall.
  by eapply list_elem_of_In, list_elem_of_lookup_2.
Qed.


(** A response that was half filled when an allocation failed. *)
Lemma fence_encodable_witness :
  status_ok (resp_status (fence BadAlloc false w_created)) = false /\
  exists bs, encode_response (fence BadAlloc false w_created) = Return (ROk bs).
Proof.
  refine (fence_encodable BadAlloc false w_created _ _ _).
  - discriminate.
  - reflexivity.
  - by right.
Defined.
