(* ===== verification/NetWitness.v ===== *)
(** The properties of the client, of the local sockets and of the command line on concrete
    inputs, under the kernel of [RefKernel] and a concrete set of system constants. *)
From S2P Require Import Prelude OrdMap Kernel Protocol Utf8 Wire RoundTrip Scalars.
From S2P Require Import CodecRequest CodecResult Codec CodecSpec Layout ProtocolErrors.
From S2P Require Import Framing ResponseSpec Frame FrameSpec Posix UnixSocket.
From S2P Require Import UnixSocketSpec Client ClientSpec DaemonMain DaemonMainSpec.
From S2P Require Import RefKernel CodecWitness.

#[export] Program Instance ref_posix : Posix := {|
  EINTR := 4; ENOENT := 2; EINVAL := 22; EPROTONOSUPPORT := 93; ENOSYS := 38; EADDRINUSE := 98;
  EBADF := 9; ENOTDIR := 20; sun_path_size := 108;
  strerror := fun _ => lit "system error";
|}.
Next Obligation. apply (bool_decide_unpack _). by vm_compute. Defined.

Ltac evaluated :=
  lazymatch goal with |- ?a = ?b => exact (eq_refl b <: a = b) end.

(** ** The client *)

(** A connection that has made eight calls; the request asks for a result. *)
Definition w_impl : Impl := mk_Impl 4 9.
Definition w_rpc : Request := job_request Method.JobResult (mk_JobId 1 2).
Definition w_encoded : bytes := returned (encode_request (correlate 9 w_rpc)).
Definition w_answer : bytes := returned (encode_response w_response).

(** The kernel accepts one byte at a time; the response comes in two pieces. *)
Definition w_peer : Link :=
  mk_Link [Arrive (take 3 (frame_bytes w_answer)); RecvInterrupted;
           Arrive (drop 3 (frame_bytes w_answer)); PeerClosed]
    (mk_outgoing (SendInterrupted :: replicate 40 (Accept 1)) []).

Definition w_world : World :=
  mk_World (mk_Outside ∅ ∅ []) (<[4 := (OStream 1000, true)]> ∅) [] 0 [].
Definition w_net : Net := mk_Net w_world w_peer.

Lemma w_peer_wf : link_wf w_peer.
Proof.
  split; [|repeat constructor; lia]. unfold arrivals_wf, w_peer. cbn [incoming].
  assert (forallb (fun b => (0 <=? b) && (b <? 256)) (frame_bytes w_answer) = true) as Hb
    by (evaluated).
  assert (Forall (is_uint 8) (frame_bytes w_answer)) as Hf.
  { eapply forallb_Forall_impl, Hb. unfold is_uint. lia. }
  apply Forall_cons; split; [split; [by vm_compute|by apply Forall_take]|].
  apply Forall_cons; split; [exact I|].
  apply Forall_cons; split; [split; [by vm_compute|by apply Forall_drop]|].
  apply Forall_cons; split; [exact I|]. by apply Forall_nil.
Qed.

Lemma w_holds : holds ∅ 0 w_impl w_net.
Proof.
  unfold holds. cbn. split_and!; [done|apply w_peer_wf|]. exists (OStream 1000, true). by split.
Qed.

Lemma w_rpc_fits : request_fits (correlate 9 w_rpc).
Proof. split; closed_bounds. Qed.

Lemma rpc_end_to_end_witness :
  holds ∅ 0 w_impl w_net /\
  exists response' net' k,
    call w_rpc w_impl w_net = Done (Return (ROk response'), kept w_impl, net') /\
    response_equiv w_response response' /\
    stream (incoming (link net')) = ([], Closed) /\
    sent (outbound (link net')) = sent (outbound (link w_net)) ++ k /\
    received_as k (canonical_request (correlate (next_request_id w_impl) w_rpc)).
Proof.
  assert (encode_request (correlate 9 w_rpc) = Return (ROk w_encoded)) as He by (evaluated).
  assert (encode_response w_response = Return (ROk w_answer)) as Hr by (evaluated).
  assert (roomy (4 + zlen w_encoded) (outbound (link w_net))) as Hroom.
  { split; [repeat constructor; lia|].
    assert ((4 + zlen w_encoded <=? zlen (filter (fun c => is_accept c = true)
      (capacities (outbound (link w_net))))) = true) as Hb by (evaluated). by apply Z.leb_le. }
  assert (stream (incoming (link w_net)) = (frame_bytes w_answer ++ [], Closed)) as Hs
    by (evaluated).
  split; [exact w_holds|].
  refine (rpc_end_to_end ∅ 0 w_rpc w_response w_encoded w_answer w_impl w_net [] Closed w_holds
    _ _ w_rpc_fits w_response_fits _ _ He Hr Hroom Hs); done.
Defined.


Definition w_ops : list client_op :=
  [Connect (lit "/tmp/d") (Some 1000) w_peer; Call w_rpc; Connect (lit "/tmp/d") None w_peer;
   GiveAway; Shutdown].

Lemma w_ops_wf : Forall op_wf w_ops.
Proof.
  apply Forall_cons; split; [exact w_peer_wf|]. apply Forall_cons; split; [exact I|].
  apply Forall_cons; split; [exact w_peer_wf|]. apply Forall_cons; split; [exact I|].
  apply Forall_cons; split; [exact I|]. by apply Forall_nil.
Qed.

Lemma client_owns_descriptor_witness :
  Forall op_wf w_ops /\
  match (client ← perform_all w_ops make_client; _ ← destroy_client client; mret client) w_net with
  | Done (client, net') => fds (world net') = fds (world w_net) /\
      bad_closes (world net') = bad_closes (world w_net)
  | Blocked => True
  | OutOfFuel => False
  end.
Proof. split; [exact w_ops_wf|]. pose proof (client_owns_descriptor w_ops w_net w_ops_wf) as H. exact H. Defined.

(** ** Sockets *)

(** A calm machine with one directory, a waiting peer and a listener. *)
Definition w_machine : World :=
  mk_World (mk_Outside ∅ (<[lit "/run" := ((8, 77), Directory)]> ∅) [1000; 0])
    (<[3 := (OListener 5, true)]> ∅) [] 0 [].

(** The first waiting peer is accepted. *)
Definition lets_in (r : option (SameUserAcceptResult * World)) : bool :=
  match r with Some (mk_SameUserAcceptResult Accepted _ _, _) => true | _ => false end.

Lemma accept_only_same_user_witness :
  exists r w', accept_same_user 1000 3 w_machine = Some (r, w') /\ disposition r = Accepted /\
    accept_post 1000 (fds w_machine) (bad_closes w_machine) r w'.
Proof.
  assert (lets_in (accept_same_user 1000 3 w_machine) = true) as Hin by (evaluated).
  destruct (accept_same_user 1000 3 w_machine) as [[r w']|] eqn:Ha; [|discriminate Hin].
  exists r, w'. split; [done|]. split; [by destruct r as [[] ? ?]|].
  exact (accept_only_same_user 1000 3 w_machine r w' Ha).
Defined.

Definition creates (r : option (Result (Z * SocketNodeGuard) * World)) : bool :=
  match r with Some (ROk _, _) => true | _ => false end.

Lemma listener_roundtrip_witness :
  exists fd g w1,
    create_unix_listener (lit "/run/d.sock") 5 w_machine = Some (ROk (fd, g), w1) /\
    let key := (parent_identity g, leaf_name g) in
    resolved (outside w_machine) !! parent_path g = Some (parent_identity g, Directory) /\
    entries (outside w_machine) !! key = None /\
    outside w1 = set_entries
      (<[key := (node_identity g, SocketNode)]> (entries (outside w_machine))) (outside w_machine) /\
    exists w2, (_ ← destroy_descriptor fd; destroy_guard g) w1 = Some (tt, w2) /\
      outside w2 = outside w_machine /\ fds w2 = fds w_machine /\
      bad_closes w2 = bad_closes w_machine.
Proof.
  assert (creates (create_unix_listener (lit "/run/d.sock") 5 w_machine) = true) as Hc by (evaluated).
  destruct (create_unix_listener (lit "/run/d.sock") 5 w_machine) as [[[[fd g]|st] w1]|] eqn:Ha;
    [|discriminate Hc|discriminate Hc].
  exists fd, g, w1. split; [done|].
  exact (listener_roundtrip (lit "/run/d.sock") 5 w_machine (ROk (fd, g)) w1 eq_refl Ha).
Defined.

Lemma listener_owns_descriptors_witness :
  exists r w', create_unix_listener (lit "/run/d.sock") 5 w_machine = Some (r, w') /\
    created (lit "/run/d.sock") 5 (fds w_machine) (bad_closes w_machine) r w' /\
    forall fd g, r = ROk (fd, g) ->
      exists w'', (_ ← destroy_descriptor fd; destroy_guard g) w' = Some (tt, w'') /\
        fds w'' = fds w_machine /\ bad_closes w'' = bad_closes w_machine.
Proof.
  pose proof (listener_owns_descriptors (lit "/run/d.sock") 5 w_machine) as H. exact H.
Defined.

(** An armed guard whose directory is open, as nobody interferes. *)
Definition w_guard : SocketNodeGuard :=
  mk_SocketNodeGuard 3 (lit "/run") (lit "d.sock") (8, 77) (0, 9) NodeState.Armed.
Definition w_bound : World :=
  mk_World (mk_Outside (<[((8, 77), lit "d.sock") := ((0, 9), SocketNode)]> ∅)
              (<[lit "/run" := ((8, 77), Directory)]> ∅) [])
    (<[3 := (ODirectory (8, 77), true)]> ∅) [] 0 [].

Definition removes_one (r : option (SocketNodeGuard * World)) : bool :=
  match r with Some (_, w) => (length (unlinked w) =? 1)%nat | None => false end.


(** ** The command line *)

Definition w_options : Options := mk_Options (lit "/run/d.sock") 4 1024 128 64 true false.

Lemma w_options_ok : options_ok w_options.
Proof. split; cbn; unfold uint32_limit; try lia. by right. Qed.

Lemma command_line_roundtrip_witness :
  options_ok w_options /\ parse_options (render w_options) = Return w_options.
Proof. split; [exact w_options_ok|]. exact (command_line_roundtrip _ w_options_ok ltac:(done)). Defined.

Lemma command_line_sound_witness :
  parse_options [lit "--max-jobs"; lit " +7"; lit "--socket"; lit "d"]
    = Return (mk_Options (lit "d") 1 7 128 64 false false) /\
  options_ok (mk_Options (lit "d") 1 7 128 64 false false).
Proof.
  assert (parse_options [lit "--max-jobs"; lit " +7"; lit "--socket"; lit "d"]
    = Return (mk_Options (lit "d") 1 7 128 64 false false)) as Hp by (evaluated).
  split; [exact Hp|]. exact (command_line_sound _ _ Hp).
Defined.
