(* ===== verification/ServerWitness.v ===== *)
(** The properties of the server on a concrete run: a peer asks for shutdown while another
    says nothing. *)
From S2P Require Import Prelude OrdMap Kernel Protocol Utf8 Wire RoundTrip Scalars.
From S2P Require Import CodecRequest CodecResult Codec CodecSpec Layout Framing Frame FrameSpec.
From S2P Require Import Jobs JobSystem JobSpec JobOutcome Service ServiceSystem ServiceLink.
From S2P Require Import ServiceSpec SessionSpec Dispatch Server ServerSpec ServerLife ServerTalk.
From S2P Require Import ServerStop Progress ServerEnd RefKernel CodecWitness JobWitness ServiceWitness.

(** Two connections at most. *)
Definition w_server : ServerConfig := mk_ServerConfig (lit "/run/d.sock") w_config 5 2.
Definition w_pipe : bytes := lit "Broken pipe".

Abbreviation w_vrun es := (server_run w_server 1 w_version w_pipe es (server_initial w_server 3)).

Definition w_vstate (es : list server_event) : ServerState :=
  default (server_initial w_server 3) (w_vrun es).

(** Every event of the schedule is enabled in its turn. *)
Definition vran (es : list server_event) : bool :=
  match w_vrun es with Some _ => true | None => false end.

Lemma server_run_reach es s s' :
  server_reachable w_server 1 w_version w_pipe 3 s -> server_run w_server 1 w_version w_pipe es s = Some s' ->
  server_reachable w_server 1 w_version w_pipe 3 s'.
Proof.
  revert s. induction es as [|e es IH]; intros s Hs Hr; cbn [server_run] in Hr; [congruence|].
  destruct (server_step _ _ _ _ e s) as [s1|] eqn:He; [|done]. cbn in Hr.
  eapply IH; [|exact Hr]. by econstructor.
Qed.

Lemma w_vreach es : vran es = true -> server_reachable w_server 1 w_version w_pipe 3 (w_vstate es).
Proof.
  unfold vran, w_vstate. destruct (w_vrun es) as [s|] eqn:Hr; [|done]. intros _. cbn.
  eapply server_run_reach; [constructor|exact Hr].
Qed.

(** A peer connects when [n] handlers are retained. *)
Definition vs_connect (d : Z) (n : nat) : list server_event :=
  replicate 2 (VRun RProceed) ++
  [VRun (RAnswer (AcceptedPeer d (replicate 16 (Accept 4))))] ++ replicate (5 + n) (VRun RProceed).

Definition vs_go (k n : nat) : list server_event := replicate n (VHandler k HProceed).

(** It asks for shutdown. *)
Definition w_shutdown : Request := w_request 9 Method.DaemonShutdown default_SessionId.
Definition w_frame : bytes := frame_bytes (returned (encode_request w_shutdown)).

(** Two peers are connected, and their handlers read. *)
Definition vs_reading : list server_event :=
  VRun RProceed :: vs_connect 5 0 ++ vs_connect 6 1 ++ vs_go 0 2 ++ vs_go 1 2.
(** One asks for shutdown and is answered; its handler stops the server. *)
Definition vs_stopped : list server_event :=
  vs_reading ++ [VDeliver 0 [Arrive (take 5 w_frame); RecvInterrupted; Arrive (drop 5 w_frame)]]
  ++ vs_go 0 2 ++ replicate 2 (VCall 0 Proceed) ++ vs_go 0 7.
(** Both handlers end, and [run] joins them. *)
Definition vs_joined : list server_event :=
  vs_stopped ++ vs_go 0 5 ++ vs_go 1 6 ++ replicate 6 (VRun RProceed).

Lemma w_server_ok :
  server_config_valid w_server = true /\ is_uint 32 (scfg_maximum_active_connections w_server).
Proof. by split. Qed.

Lemma handlers_accounted_witness :
  let s := w_vstate vs_stopped in
  active_handlers s = Z.of_nat (num live (place <$> threads s)) + reserved (run s) /\
  active_handlers s <= scfg_maximum_active_connections w_server /\
  (forall k h, threads s !! k = Some h -> h_pc h <> HEnd -> k ∈ handlers s ++ joining (run s)) /\
  NoDup (handlers s ++ joining (run s)) /\
  zlen (handlers s) <= scfg_maximum_active_connections w_server + 1.
Proof.
  pose proof (handlers_accounted w_server 1 w_version w_pipe 3 (w_vstate vs_stopped)
    (proj1 w_server_ok) (proj2 w_server_ok) (w_vreach vs_stopped ltac:(evaluated))) as H. exact H.
Defined.

Lemma connections_exact_witness :
  let s := w_vstate vs_stopped in
  (forall d, d ∈ active_connections s <->
     exists k h, threads s !! k = Some h /\ attached (place h) = true /\ h_descriptor h = d) /\
  (forall k h, threads s !! k = Some h -> attached (place h) = true -> h_open h = true) /\
  (forall j k hj hk, threads s !! j = Some hj -> threads s !! k = Some hk ->
     h_open hj = true -> h_open hk = true -> h_descriptor hj = h_descriptor hk -> j = k) /\
  (forall d k h, held (run s) = Some d -> threads s !! k = Some h -> h_open h = true ->
     h_descriptor h <> d).
Proof.
  pose proof (connections_exact w_server 1 w_version w_pipe 3 (w_vstate vs_stopped)
    (proj1 w_server_ok) (proj2 w_server_ok) (w_vreach vs_stopped ltac:(evaluated))) as H. exact H.
Defined.

(** [run] has joined both. *)
Definition joined_all (r : run_pc) : option (Status + exn) :=
  match r with RJoin [] o => Some o | _ => None end.

Lemma joined_all_spec r o : joined_all r = Some o -> r = RJoin [] o.
Proof. destruct r as [| | | | | | | | | | | | | |[|k l] o1| | | | | | | | |]; cbn; congruence. Qed.

Lemma teardown_safe_witness :
  let s := w_vstate vs_joined in
  (forall k h, threads s !! k = Some h -> h_pc h = HEnd) /\ active_connections s = ∅ /\
  active_handlers s = 0 /\
  (forall c call, calls (service s) !! c = Some call -> finished call = true) /\
  is_Some (service_step (scfg_service w_server) 1 w_version SDestroy (service s)) /\
  (run s = Gone -> forall w pc, workers (sys (service s)) !! w = Some pc -> pc = WExited).
Proof.
  assert (joined_all (run (w_vstate vs_joined)) = Some (inl success)) as Hj by (evaluated).
  apply joined_all_spec in Hj.
  pose proof (teardown_safe w_server 1 w_version w_pipe 3 (w_vstate vs_joined)
    (proj1 w_server_ok) (proj2 w_server_ok) (w_vreach vs_joined ltac:(evaluated))
    (or_introl (ex_intro _ (inl success) Hj))) as H. exact H.
Defined.

(** The handler of a connection. *)
Definition w_thread (es : list server_event) (k : nat) : Handler :=
  default (new_handler 0 []) (threads (w_vstate es) !! k).

Definition w_has (es : list server_event) (k : nat) : bool :=
  match threads (w_vstate es) !! k with Some _ => true | None => false end.

Lemma w_thread_at es k : w_has es k = true -> threads (w_vstate es) !! k = Some (w_thread es k).
Proof. unfold w_has, w_thread. by destruct (threads _ !! k). Qed.

(** The first peer got its answer, of call 0. *)
Lemma server_converses_witness :
  let s := w_vstate vs_stopped in let h := w_thread vs_stopped 0 in
  h_calls h = [0%nat] /\
  spoken (calls (service s)) h /\ NoDup (h_calls h) /\
  (forall j hj c, threads s !! j = Some hj -> c ∈ h_calls h -> c ∈ h_calls hj -> j = 0%nat) /\
  (forall c, c ∈ h_calls h -> exists req resp,
     calls (service s) !! c = Some (req, CDone resp) /\ answered req resp).
Proof.
  assert (h_calls (w_thread vs_stopped 0) = [0%nat]) as Hc by (evaluated). split; [exact Hc|].
  pose proof (server_converses w_server 1 w_version w_pipe 3 (w_vstate vs_stopped) 0
    (w_thread vs_stopped 0) (proj1 w_server_ok) (proj2 w_server_ok)
    (w_vreach vs_stopped ltac:(evaluated)) (w_thread_at vs_stopped 0 ltac:(evaluated))) as H.
  exact H.
Defined.

(** Nobody writes to a connection that [stop] does not know. *)
Definition ends_surely (s : ServerState) : bool :=
  stopping s && forallb (fun h => h_registered h || negb (failing (h_pc h))) (threads s)
  && match run s with RReap _ _ _ | RCapacity _ _ | RRefuse _ _ => false | _ => true end.

Lemma ends_surely_spec s : ends_surely s = true -> ending s.
Proof.
  intros [[Hs Hf]%andb_prop Hr]%andb_prop. split; [done| |by destruct (run s)].
  intros k p Hk Hreg. rewrite list_lookup_fmap in Hk. destruct (threads s !! k) as [h|] eqn:E; [|done].
  injection Hk as <-. rewrite forallb_forall in Hf.
  specialize (Hf h (proj1 (list_elem_of_In _ _) (list_elem_of_lookup_2 _ _ _ E))).
  cbn in Hreg |- *. rewrite Hreg in Hf. by apply negb_true_iff in Hf.
Qed.

(** What [accept_same_user] reports of a closed listener. *)
Definition w_closed : Status := failure Internal (lit "local accept failed: Bad file descriptor").

