(* ===== verification/EndToEndWitness.v ===== *)
(** A client and the server on a concrete connection: the client asks for the daemon's
    information and then for its shutdown, while another peer says nothing. *)
From S2P Require Import Prelude OrdMap Kernel Protocol Wire Codec CodecSpec Frame FrameSpec.
From S2P Require Import Jobs JobSystem Posix UnixSocket UnixSocketSpec Client ClientSpec.
From S2P Require Import Service Server ServerSpec ServerTalk EndToEnd.
From S2P Require Import RefKernel CodecWitness JobWitness ServiceWitness NetWitness ServerWitness.

(** The session starts with identifier nine. *)
Definition w_session : list Request :=
  [method_request Method.DaemonInfo; method_request Method.DaemonShutdown].
Definition w_payloads : list bytes :=
  [returned (encode_request (correlate 9 (method_request Method.DaemonInfo)));
   returned (encode_request (correlate 10 (method_request Method.DaemonShutdown)))].

(** The two frames arrive in three pieces; the handler answers one after the other. *)
Definition vs_session : list server_event :=
  vs_reading
  ++ [VRoom 0 (replicate 400 (Accept 3));
      VDeliver 0 [Arrive (take 7 (frames w_payloads)); RecvInterrupted;
                  Arrive (take 10 (drop 7 (frames w_payloads)));
                  Arrive (drop 17 (frames w_payloads))]]
  ++ vs_go 0 2 ++ replicate 4 (VCall 0 Proceed) ++ vs_go 0 6 ++ replicate 2 (VCall 1 Proceed)
  ++ vs_go 0 3.

(** What the handler has sent. *)
Definition w_replies : bytes := sent (h_outgoing (w_thread vs_session 0)).

(** It comes back in two pieces. *)
Definition w_line : Net :=
  mk_Net w_world
    (mk_Link [Arrive (take 9 w_replies); RecvInterrupted; Arrive (drop 9 w_replies)]
       (mk_outgoing (SendInterrupted :: replicate 40 (Accept 1)) [])).

Lemma w_replies_bytes : Forall (is_uint 8) w_replies.
Proof.
  assert (forallb (fun b => (0 <=? b) && (b <? 256)) w_replies = true) as Hb by (evaluated).
  eapply forallb_Forall_impl, Hb. unfold is_uint. lia.
Qed.

Lemma w_line_holds : holds ∅ 0 w_impl w_line.
Proof.
  unfold holds. cbn -[w_replies]. split_and!; [done| |exists (OStream 1000, true); by split].
  split; [|repeat constructor; lia]. unfold arrivals_wf. cbn [incoming].
  apply Forall_cons; split; [split; [by vm_compute|apply Forall_take, w_replies_bytes]|].
  apply Forall_cons; split; [exact I|]. apply Forall_singleton.
  split; [by vm_compute|apply Forall_drop, w_replies_bytes].
Qed.

Lemma w_session_encodings : encodings 9 w_session w_payloads.
Proof. cbn -[encode_request]. split_and!; try (split; closed_bounds); try done; evaluated. Qed.

Lemma w_session_room : roomy (room w_payloads) (outbound (link w_line)).
Proof.
  split; [repeat constructor; lia|]. apply Z.leb_le.
  change ((room w_payloads <=? zlen (filter (fun c => is_accept c = true)
    (capacities (outbound (link w_line))))) = true). evaluated.
Qed.

(** The answers of the two calls. *)
Lemma w_session_answers c req resp :
  calls (service (w_vstate vs_session)) !! c = Some (req, CDone resp) -> response_fits resp.
Proof.
  let v := eval vm_compute in (calls (service (w_vstate vs_session))) in
    assert (calls (service (w_vstate vs_session)) = v) as -> by (evaluated).
  destruct c as [|[|c]]; cbn [lookup list_lookup]; [intros [= <- <-]..|done]; split; closed_bounds.
Qed.

Lemma w_session_thread :
  threads (w_vstate vs_session) !! 0%nat = Some (w_thread vs_session 0).
Proof.
  assert (w_has vs_session 0 = true) as Hh by (evaluated). unfold w_has in Hh. unfold w_thread.
  by destruct (threads _ !! _).
Qed.

