(* ===== verification/HostedWitness.v ===== *)
(** The properties of the server on its world and of the construction of the service on
    concrete runs: a peer of another user and one of the daemon's own connect, the server is
    stopped and destroyed; a worker does not start. *)
From S2P Require Import Prelude OrdMap Kernel Protocol Utf8 Wire RoundTrip Scalars.
From S2P Require Import Codec Frame Jobs JobSystem Service Server ServerSpec.
From S2P Require Import Startup StartupSpec Posix UnixSocket UnixSocketSpec.
From S2P Require Import Hosted HostedSpec HostedLife HostedFiles RefKernel CodecWitness.
From S2P Require Import JobWitness ServiceWitness NetWitness ServerWitness.

(** ** The server *)

(** The calm machine when no descriptor is open; a peer of root waits, then one of ours. *)
Definition w_ground : World :=
  mk_World (mk_Outside ∅ (<[lit "/run" := ((8, 77), Directory)]> ∅) [0; 1000]) ∅ [] 0 [].

Definition w_no_guard : Z * SocketNodeGuard := (-1, empty_guard).

(** What the constructor makes. *)
Definition w_constructed : (Z * SocketNodeGuard) * World :=
  match construct w_server ImplBuilt w_ground with
  | Some (inr made, w) => (made, w)
  | _ => (w_no_guard, w_ground)
  end.

Definition constructs (r : option ((construct_exn + (Z * SocketNodeGuard)) * World)) : bool :=
  match r with Some (inr _, _) => true | _ => false end.

(** Its socket node. *)
Definition w_node : SocketNodeGuard := w_constructed.1.2.

Lemma w_constructed_ok :
  construct w_server ImplBuilt w_ground
  = Some (inr (w_constructed.1.1, w_node), w_constructed.2).
Proof.
  assert (constructs (construct w_server ImplBuilt w_ground) = true) as Hc by (evaluated).
  unfold w_node, w_constructed. by destruct (construct _ _ _) as [[[e|[fd g]] w]|].
Qed.

Definition w_hosted : Hosted :=
  hosted_initial w_server (w_constructed.1.1, w_node) w_constructed.2.

Abbreviation w_xreach := (hosted_reachable w_server 1 w_version w_pipe 1000 w_ground).

Definition w_xrun (es : list (server_event * bool * list tick)) : option Hosted :=
  hosted_run w_server 1 w_version w_pipe 1000 es w_hosted.
Definition w_xstate (es : list (server_event * bool * list tick)) : Hosted := default w_hosted (w_xrun es).
Definition xran (es : list (server_event * bool * list tick)) : bool :=
  match w_xrun es with Some _ => true | None => false end.

Lemma hosted_run_reach es x x' :
  w_xreach x -> hosted_run w_server 1 w_version w_pipe 1000 es x = Some x' -> w_xreach x'.
Proof.
  revert x. induction es as [|[[e kept] ts] es IH]; intros x Hx Hr; cbn [hosted_run] in Hr; [congruence|].
  destruct (hosted_step _ _ _ _ _ e kept ts x) as [x1|] eqn:He; [|done]. cbn in Hr.
  eapply IH; [|exact Hr]. by econstructor.
Qed.

Lemma w_xreached es : xran es = true -> w_xreach (w_xstate es).
Proof.
  unfold xran, w_xstate, w_xrun. destruct (hosted_run _ _ _ _ _ es w_hosted) as [x|] eqn:Hr; [|done].
  intros _. cbn. eapply hosted_run_reach; [|exact Hr]. constructor.
  apply w_constructed_ok.
Qed.

(** Nothing is refused and nobody interferes. *)
Definition calmly (e : server_event) : server_event * bool * list tick :=
  (e, false, []).
Definition w_answered : server_event := VRun (RAnswer (AcceptedPeer 0 (replicate 16 (Accept 4)))).

(** Another process makes a file of its own next to the node; a signal interrupts a call. *)
Definition w_busy : tick :=
  mk_tick (fun o => set_entries (<[((8, 77), lit "other") := ((0, 5), SocketNode)]> (entries o)) o) None.
Definition w_interrupted : tick := mk_tick id (Some EINTR).

(** A peer of root is turned away; one of the daemon's user is connected, and its handler
    waits for a request. *)
Definition xs_serving : list (server_event * bool * list tick) :=
  (calmly <$> (replicate 3 (VRun RProceed) ++ [w_answered] ++ replicate 3 (VRun RProceed)))
  ++ [(w_answered, false, [w_interrupted; w_busy])]
  ++ (calmly <$> (replicate 5 (VRun RProceed) ++ [VHandler 0 HProceed])).
(** The server is stopped and destroyed, to the workers of its service. *)
Definition xs_torn : list (server_event * bool * list tick) :=
  xs_serving
  ++ (calmly <$> ([VRequestStop] ++ replicate 3 (VStopper 0) ++ replicate 6 (VHandler 0 HProceed)
                  ++ replicate 14 (VRun RProceed))).

Lemma w_max_uint : is_uint 32 (scfg_maximum_active_connections w_server).
Proof. done. Qed.


Definition accepted_as (d : Z) (r : option (SameUserAcceptResult * World)) : bool :=
  match r with
  | Some (mk_SameUserAcceptResult Accepted fd _, _) => fd =? d
  | _ => false
  end.
Definition waits_at (l : Z) (r : run_pc) : bool :=
  match r with RAccept l' => l' =? l | _ => false end.

Lemma waits_at_spec l r : waits_at l r = true -> r = RAccept l.
Proof. destruct r; try done. by intros ->%Z.eqb_eq. Qed.

Lemma accepted_as_spec d r :
  accepted_as d r = true -> exists st w, r = Some (mk_SameUserAcceptResult Accepted d st, w).
Proof. destruct r as [[[[] fd st] w]|]; try done. intros ->%Z.eqb_eq. eauto. Qed.

(** The kernel's answer to the second peer. *)
Lemma w_second_peer :
  exists st w, accept_same_user 1000 1
    (with_ticks [w_interrupted; w_busy] (world (w_xstate (take 7 xs_serving))))
  = Some (mk_SameUserAcceptResult Accepted 2 st, w).
Proof. apply accepted_as_spec. evaluated. Qed.

Lemma w_waits : run (host (w_xstate (take 7 xs_serving))) = RAccept 1.
Proof. apply waits_at_spec. evaluated. Qed.

Lemma server_runs_on_world_witness :
  exists x', hosted_step w_server 1 w_version w_pipe 1000 w_answered false [w_interrupted; w_busy]
    (w_xstate (take 7 xs_serving)) = Some x' /\
    run (host x') = RTest (AcceptedPeer 2 (replicate 16 (Accept 4))).
Proof.
  destruct w_second_peer as (st & w & E).
  destruct (server_runs_on_world w_server 1 w_version w_pipe 1000 w_ground
    (w_xstate (take 7 xs_serving)) w_max_uint (w_xreached (take 7 xs_serving) ltac:(evaluated)))
    as (_ & _ & _ & H).
  destruct (H 1 false [w_interrupted; w_busy] _ w (replicate 16 (Accept 4)) w_waits E eq_refl)
    as (x' & Hs & _ & Hrun).
  exists x'. exact (conj Hs Hrun).
Defined.

(** ** The socket node *)

Abbreviation w_alone :=
  (left_alone w_server 1 w_version w_pipe 1000 (key_of w_node) (parent_path w_node) w_hosted).

(** Nothing happens to the calls where the node is removed. *)
Fixpoint spared (es : list (server_event * bool * list tick)) (x : Hosted) : bool :=
  match es with
  | [] => true
  | (e, kept, ts) :: es' =>
    (negb (removing (run (host x))) || (length ts =? 0)%nat) &&
    match hosted_step w_server 1 w_version w_pipe 1000 e kept ts x with
    | Some x' => spared es' x'
    | None => false
    end
  end.

Lemma hosted_run_alone es x x' :
  w_alone x -> Forall (fun e => Forall (gentle (key_of w_node) (parent_path w_node)) e.2) es ->
  spared es x = true -> hosted_run w_server 1 w_version w_pipe 1000 es x = Some x' -> w_alone x'.
Proof.
  revert x. induction es as [|[[e kept] ts] es IH]; intros x Hx Hg Hs Hr; cbn [hosted_run] in Hr; [congruence|].
  apply Forall_cons in Hg as [Hg Hgs]. cbn [spared] in Hs. apply andb_true_iff in Hs as [Hn Hs].
  destruct (hosted_step _ _ _ _ _ e kept ts x) as [x1|] eqn:He; [|done]. cbn in Hr.
  eapply IH; [|exact Hgs|exact Hs|exact Hr]. econstructor; [exact Hx|exact Hg| |exact He].
  intros Hrm. rewrite Hrm in Hn. cbn in Hn. destruct ts; [constructor|done].
Qed.

Lemma w_gentle : Forall (gentle (key_of w_node) (parent_path w_node)) [w_interrupted; w_busy].
Proof.
  assert (key_of w_node = ((8, 77), lit "d.sock")) as -> by (evaluated).
  apply Forall_cons; split; [done|]. apply Forall_singleton. intros o. split; [|done].
  cbn. by rewrite lookup_insert_ne.
Qed.

Lemma calmly_gentle key parent es : Forall (fun e => Forall (gentle key parent) e.2) (calmly <$> es).
Proof. apply Forall_fmap, Forall_true. intros e. constructor. Qed.

Lemma xs_torn_gentle :
  Forall (fun e => Forall (gentle (key_of w_node) (parent_path w_node)) e.2) xs_torn.
Proof.
  unfold xs_torn, xs_serving. rewrite !Forall_app, Forall_singleton.
  split_and!; try apply calmly_gentle. apply w_gentle.
Qed.

Lemma w_left_alone es :
  Forall (fun e => Forall (gentle (key_of w_node) (parent_path w_node)) e.2) es ->
  spared es w_hosted = true -> xran es = true -> w_alone (w_xstate es).
Proof.
  unfold xran, w_xstate, w_xrun. intros Hg Hs. destruct (hosted_run _ _ _ _ _ es w_hosted) as [x|] eqn:Hr; [|done].
  intros _. eapply hosted_run_alone; [constructor|exact Hg|exact Hs|exact Hr].
Qed.


(** ** Construction of the service *)

(** The second worker does not start; the first one is joined. *)
Definition gs_short : list start_event :=
  replicate 4 (SOwner None) ++ [SOwner (Some BadAlloc); SOwner None; SWorkerGoes 0 Go]
  ++ replicate 2 (SOwner None).
(** Both start. *)
Definition gs_whole : list start_event := replicate 7 (SOwner None).

Definition w_gstate (es : list start_event) : Starting :=
  default starting_initial (starting_run w_config 1 es starting_initial).
Definition gran (es : list start_event) : bool :=
  match starting_run w_config 1 es starting_initial with Some _ => true | None => false end.

Lemma starting_run_reach es s s' :
  starting_reachable w_config 1 s -> starting_run w_config 1 es s = Some s' ->
  starting_reachable w_config 1 s'.
Proof.
  revert s. induction es as [|e es IH]; intros s Hs Hr; cbn [starting_run] in Hr; [congruence|].
  destruct (starting_step _ _ e s) as [s1|] eqn:He; [|done]. cbn in Hr.
  eapply IH; [|exact Hr]. by econstructor.
Qed.

Lemma w_greach es : gran es = true -> starting_reachable w_config 1 (w_gstate es).
Proof.
  unfold gran, w_gstate. destruct (starting_run _ _ es starting_initial) as [s|] eqn:Hr; [|done].
  intros _. eapply starting_run_reach; [constructor|exact Hr].
Qed.

