(* ===== verification/DaemonWitness.v ===== *)
(** The properties of the process on a concrete run: a SIGTERM arrives while the server
    waits for a peer. *)
From S2P Require Import Prelude OrdMap Kernel Protocol Utf8 Wire RoundTrip Scalars.
From S2P Require Import Codec Frame Jobs JobSystem JobSpec Posix UnixSocket Service Server.
From S2P Require Import Progress ServerSpec ServerEnd DaemonMain DaemonMainSpec Daemon DaemonSpec.
From S2P Require Import DaemonLife DaemonAsk DaemonEnd RefKernel CodecWitness JobWitness.
From S2P Require Import ServiceWitness NetWitness ServerWitness.

Definition w_arguments : list bytes :=
  [lit "--socket"; lit "/run/d.sock"; lit "--max-connections"; lit "2"; lit "--max-jobs"; lit "8"].

Definition w_what (error : Z) (w : bytes) : bytes := w ++ lit ": error".
Definition w_bad_alloc : bytes := lit "std::bad_alloc".

(** Started with no signal blocked and none pending. *)
Definition w_start : Daemon := daemon_initial sigemptyset sigemptyset.

Abbreviation w_drun args es :=
  (daemon_run args 3 1 w_version w_pipe w_what w_bad_alloc es w_start).
Abbreviation w_dreachable args :=
  (daemon_reachable args 3 1 w_version w_pipe w_what w_bad_alloc sigemptyset sigemptyset).

Definition w_dstate (args : list bytes) (es : list daemon_event) : Daemon :=
  default w_start (w_drun args es).
Definition dran (args : list bytes) (es : list daemon_event) : bool :=
  match w_drun args es with Some _ => true | None => false end.

Lemma daemon_run_reach args es d d' :
  w_dreachable args d -> daemon_run args 3 1 w_version w_pipe w_what w_bad_alloc es d = Some d' ->
  w_dreachable args d'.
Proof.
  revert d. induction es as [|e es IH]; intros d Hd Hr; cbn [daemon_run] in Hr; [congruence|].
  destruct (daemon_step _ _ _ _ _ _ _ e d) as [d1|] eqn:He; [|done]. cbn in Hr.
  eapply IH; [|exact Hr]. by econstructor.
Qed.

Lemma w_dreach args es : dran args es = true -> w_dreachable args (w_dstate args es).
Proof.
  unfold dran, w_dstate. destruct (w_drun args es) as [d|] eqn:Hr; [|done]. intros _. cbn.
  eapply daemon_run_reach; [constructor|exact Hr].
Qed.

(** The server waits for a peer, and SIGTERM arrives. *)
Definition ds_asked : list daemon_event :=
  [DMain Works; DMain Works; DMain (Bound 3); DMain Works] ++ replicate 3 (DServer (VRun RProceed))
  ++ [DSignal SIGTERM].
(** The waiter takes it and is about to call [request_stop]. *)
Definition ds_stopping : list daemon_event := ds_asked ++ [DWaiter (WTakes false SIGTERM); DWaiter WGoes].
(** [run] returns, the waiter ends, another SIGINT arrives, and the server is destroyed. *)
Definition ds_destroyed : list daemon_event :=
  ds_stopping ++ replicate 5 (DWaiter WGoes) ++ [DServer (VRun (RAnswer (AcceptFailed success)))]
  ++ replicate 6 (DServer (VRun RProceed)) ++ [DMain Works; DMain Works; DMain (Wakes 0); DMain Works; DMain Works]
  ++ [DSignal SIGINT] ++ replicate 7 (DServer (VRun RProceed))
  ++ [DServer (VWorker 0 Go)] ++ replicate 2 (DServer (VRun RProceed)) ++ [DMain Works].
(** It is drained and the process exits. *)
Definition ds_exited : list daemon_event :=
  ds_destroyed ++ [DMain Works; DMain (Takes SIGINT); DMain Works; DMain Works; DMain Works].

(** A command line with a number that is no number. *)
Definition w_wrong : list bytes := [lit "--max-jobs"; lit "many"].

Lemma signals_contained_witness :
  let d := w_dstate w_arguments ds_exited in
  d_main d = MExit 0 /\ mask d = sigemptyset /\
  exists x, process_pending (w_dstate w_arguments (take 40 ds_exited)) x = true.
Proof.
  assert (d_main (w_dstate w_arguments ds_exited) = MExit 0) as Hm by (evaluated).
  assert (d_main (w_dstate w_arguments (take 40 ds_exited)) = MDrain success) as Hm' by (evaluated).
  split; [exact Hm|]. split.
  - exact (proj2 (proj2 (proj2 (signals_contained w_arguments 3 1 w_version w_pipe w_what w_bad_alloc
      sigemptyset sigemptyset (w_dstate w_arguments ds_exited)
      (w_dreach w_arguments ds_exited ltac:(evaluated))))) Hm).
  - exact (proj1 (proj2 (proj2 (signals_contained w_arguments 3 1 w_version w_pipe w_what w_bad_alloc
      sigemptyset sigemptyset (w_dstate w_arguments (take 40 ds_exited))
      (w_dreach w_arguments (take 40 ds_exited) ltac:(evaluated))))) success Hm').
Defined.

Definition w_served (args : list bytes) (es : list daemon_event) : ServerState :=
  default (server_initial w_server 3) (server (w_dstate args es)).
Definition served (args : list bytes) (es : list daemon_event) : bool :=
  match server (w_dstate args es) with Some _ => true | None => false end.

Lemma w_served_at args es : served args es = true -> server (w_dstate args es) = Some (w_served args es).
Proof. unfold served, w_served. by destruct (server _). Qed.

Lemma server_outlives_waiter_witness :
  let d := w_dstate w_arguments ds_stopping in
  d_waiter d = WaiterRequests /\ alive (w_served w_arguments ds_stopping) = true /\
  is_Some (waiter_step 1 w_version w_pipe WGoes d).
Proof.
  assert (d_waiter (w_dstate w_arguments ds_stopping) = WaiterRequests) as Hw by (evaluated).
  split; [exact Hw|].
  exact (proj1 (proj2 (server_outlives_waiter w_arguments 3 1 w_version w_pipe w_what w_bad_alloc
    sigemptyset sigemptyset (w_dstate w_arguments ds_stopping) (w_served w_arguments ds_stopping)
    (w_dreach w_arguments ds_stopping ltac:(evaluated))
    (w_served_at w_arguments ds_stopping ltac:(evaluated)))) (or_introl Hw)).
Defined.


Lemma daemon_stops_witness :
  exists d1 s1 o d',
    d_comes w_arguments 3 1 w_version w_pipe w_what w_bad_alloc w_choose w_calls w_closed
      (w_dstate w_arguments ds_asked) d1 /\
    server d1 = Some s1 /\ run s1 = RReturned o /\
    d_comes w_arguments 3 1 w_version w_pipe w_what w_bad_alloc w_choose w_calls w_closed d1 d' /\
    running d' = false /\ (forall status, o = inl status -> d_main d' = MExit (exit_status status)).
Proof.
  assert (d_main (w_dstate w_arguments ds_asked) = MRun) as Hm by (evaluated).
  assert (process_pending (w_dstate w_arguments ds_asked) SIGTERM = true) as Hp by (evaluated).
  assert (error_ (w_dstate w_arguments ds_asked) = 0) as Herr by (evaluated).
  destruct (daemon_stops w_arguments 3 1 w_version w_pipe w_what w_bad_alloc w_choose w_calls w_closed
    ltac:(intros []; cbn; eauto) ltac:(intros []; cbn; eauto) sigemptyset sigemptyset
    (w_dstate w_arguments ds_asked) (w_served w_arguments ds_asked)
    (w_dreach w_arguments ds_asked ltac:(evaluated)) (or_intror Hm)
    (w_served_at w_arguments ds_asked ltac:(evaluated))
    (ends_surely_spec (set_stopping (w_served w_arguments ds_asked)) ltac:(evaluated))
    (or_intror (or_introl (ex_intro _ SIGTERM (conj (or_intror eq_refl) (or_introl Hp))))))
    as (d1 & s1 & o & d' & H1 & H2 & H3 & H4 & H5 & H6).
  exists d1, s1, o, d'. split_and!; [exact H1|exact H2|exact H3|exact H4|exact H5|exact (H6 Herr)].
Defined.
