(* ===== verification/DeploymentWitness.v ===== *)
(** The whole daemon on a concrete run: started, asked to stop by SIGTERM while another process
    makes a file next to the socket, and gone. *)
From S2P Require Import Prelude OrdMap Kernel Protocol Utf8 Wire RoundTrip Scalars Codec Frame.
From S2P Require Import Jobs JobSystem Service Server Posix UnixSocket Hosted HostedFiles.
From S2P Require Import Progress ServerEnd HostedShut DaemonMain Daemon DaemonEnd Deployment.
From S2P Require Import DeploymentSpec DeploymentFiles DeploymentEnd RefKernel.
From S2P Require Import CodecWitness JobWitness ServiceWitness NetWitness ServerWitness.
From S2P Require Import HostedWitness DaemonWitness.

Definition deployed_event : Type := daemon_event * impl_input * bool * list tick.

Definition w_deployed : Deployed := mk_Deployed w_start (Idle w_ground).

Abbreviation w_prun es :=
  (deployed_run w_arguments 3 1 w_version w_pipe w_what w_bad_alloc 1000 es).
Abbreviation w_preach :=
  (deployed_reachable w_arguments 3 1 w_version w_pipe w_what w_bad_alloc 1000
     (undisturbed (key_of w_node)) sigemptyset sigemptyset w_ground).

Definition calmly_placed (e : daemon_event) : deployed_event := (e, ImplBuilt, false, []).

(** The process of [ds_exited] on its world: while [accept_same_user] is called on the closed
    listener a signal interrupts it and another process is busy. *)
Definition ps_exited : list deployed_event :=
  (calmly_placed <$> take 15 ds_exited)
  ++ [(DServer (VRun (RAnswer (AcceptFailed success))), ImplBuilt, false, [w_interrupted; w_busy])]
  ++ (calmly_placed <$> drop 16 ds_exited).

Definition w_pstate (es : list deployed_event) : Deployed := default w_deployed (w_prun es w_deployed).

(** Nobody interferes with the construction, and no call is refused where the node is removed. *)
Fixpoint unhindered (es : list deployed_event) (p : Deployed) : bool :=
  match es with
  | [] => true
  | (e, i, kept, ts) :: es' =>
    (match site_of p with Idle _ => false | Serving x => negb (removing (run (host x))) end
     || (length ts =? 0)%nat) &&
    match deployed_step w_arguments 3 1 w_version w_pipe w_what w_bad_alloc 1000 e i kept ts p with
    | Some p' => unhindered es' p'
    | None => false
    end
  end.

(** Others leave the daemon's entry alone. *)
Definition leaves_node (ts : list tick) : Prop :=
  forall parent, Forall (gentle (key_of w_node) parent) ts.

Lemma deployed_run_reach es p p' :
  w_preach p -> Forall (fun e => leaves_node e.2) es -> unhindered es p = true ->
  w_prun es p = Some p' -> w_preach p'.
Proof.
  revert p. induction es as [|[[[e i] kept] ts] es IH]; intros p Hp Hg Hu Hr; cbn [deployed_run] in Hr; [congruence|].
  apply Forall_cons in Hg as [Hg Hgs]. cbn [unhindered] in Hu. apply andb_true_iff in Hu as [Hn Hu].
  destruct (deployed_step _ _ _ _ _ _ _ _ e i kept ts p) as [p1|] eqn:He; [|done]. cbn in Hr.
  eapply IH; [|exact Hgs|exact Hu|exact Hr]. econstructor; [exact Hp| |exact He].
  unfold undisturbed. destruct (site_of p) as [w|x]; [by destruct ts|]. split; [apply Hg|].
  intros Hrm. rewrite Hrm in Hn. destruct ts; [constructor|done].
Qed.

Lemma calmly_placed_leaves es : Forall (fun e => leaves_node e.2) (calmly_placed <$> es).
Proof. apply Forall_fmap, Forall_true. intros e parent. constructor. Qed.

Lemma ps_exited_leaves : Forall (fun e => leaves_node e.2) ps_exited.
Proof.
  unfold ps_exited. rewrite !Forall_app, Forall_singleton. split_and!; try apply calmly_placed_leaves.
  intros parent. assert (key_of w_node = ((8, 77), lit "d.sock")) as -> by (evaluated).
  apply Forall_cons; split; [done|]. apply Forall_singleton. intros o. split; [|done].
  cbn. by rewrite lookup_insert_ne.
Qed.

Definition pran (es : list deployed_event) : bool :=
  match w_prun es w_deployed with Some _ => true | None => false end.

Lemma w_preached es :
  Forall (fun e => leaves_node e.2) es -> unhindered es w_deployed = true -> pran es = true ->
  w_preach (w_pstate es).
Proof.
  unfold pran, w_pstate. intros Hg Hu. destruct (deployed_run _ _ _ _ _ _ _ _ es w_deployed) as [p|] eqn:Hr; [|done].
  intros _. eapply deployed_run_reach; [constructor|exact Hg|exact Hu|exact Hr].
Qed.

(** The world of a process without a server. *)
Definition w_left (p : Deployed) : option World :=
  match site_of p with Idle w => Some w | Serving _ => None end.

Definition w_node_there (p : Deployed) : bool :=
  match site_of p with
  | Serving x => bool_decide (is_Some (entries (outside (world x)) !! key_of w_node))
  | Idle _ => false
  end.


(** ** What the process can do there *)

Definition w_dstep := (daemon_step w_arguments 3 1 w_version w_pipe w_what w_bad_alloc).
Definition w_pstep := (deployed_step w_arguments 3 1 w_version w_pipe w_what w_bad_alloc 1000).

Definition goes {A} (o : option A) : bool := match o with Some _ => true | None => false end.

Lemma goes_spec {A} (o : option A) : goes o = true -> exists a, o = Some a.
Proof. destruct o; [by eexists|done]. Qed.

(** At [socket_node.remove()] in [run]; and at the construction of the server. *)
Definition w_removing : Deployed := w_pstate (take 21 ps_exited).
Definition w_constructing : Deployed := w_pstate (take 2 ps_exited).


(** ** SIGTERM while the server waits for a peer *)

Definition w_asked : Deployed := w_pstate (take 8 ps_exited).
Definition w_asked_server : ServerState := default (server_initial w_server 3) (server (process w_asked)).

Abbreviation w_p_comes :=
  (p_comes w_arguments 3 1 w_version w_pipe w_what w_bad_alloc 1000 w_choose w_calls).

