(* ===== verification/Findings.v ===== *)
(** Concrete runs in which the code departs from what its comments say, under the
    kernel of [RefKernel]. *)
From S2P Require Import Prelude OrdMap Kernel Protocol Utf8 Wire CodecRequest CodecResult.
From S2P Require Import Codec CodecSpec Layout Jobs JobSystem RefKernel CodecWitness.
From S2P Require Import JobWitness.

(** The kernel reports a cancellation that nobody requested, and the diagnostic of
    [finish_cancelled] cannot be allocated. *)
Definition es_lost_cancellation : list event :=
  es_started ++ [EWorker 0 Go; EWorker 0 (Compiles (Answered (ROk (w_graph, false))));
    EWorker 0 Go; EWorker 0 (Executes (Answered (RErr (failure Cancelled (lit "stopped")))));
    EWorker 0 Go; EWorker 0 AllocFails].

(** One execution reaches two terminal states: [finish_cancelled] writes Cancelled before
    the allocation that throws, and the fence then writes Failed; in between, the
    snapshot of [job.status] is terminal with an [Ok] outcome and cannot be encoded. *)
Lemma two_terminal_states :
  run 4 1 false es_lost_cancellation (initial 2) = Some (w_run es_lost_cancellation) /\
  jr_state (record_at (w_run es_lost_cancellation) 0) = JobState.Cancelled /\
  jr_outcome (record_at (w_run es_lost_cancellation) 0) = success /\
  job_status_valid (status_snapshot (record_at (w_run es_lost_cancellation) 0)) = false /\
  jr_state (record_at (w_run (es_lost_cancellation ++ [EWorker 0 Go])) 0) = JobState.Failed.
Proof. split_and!; evaluated. Qed.

(** The compiler answers with the category Cancelled. *)
Definition es_compile_cancelled : list event :=
  es_started ++ [EWorker 0 Go; EWorker 0 (Compiles (Answered (RErr (failure Cancelled []))));
    EWorker 0 Go].

Definition status_response (s : JobStatus) : Response :=
  mk_Response 3 Method.JobStatus success default_SessionId default_JobId s
    default_execution_result default_daemon_info false.

(** [finish_failure] then publishes a Failed record whose outcome is Cancelled, which
    [validate_job_status] refuses: its [job.status] response is never encoded. *)
Lemma compile_cancelled_unencodable :
  jr_state (record_at (w_run es_compile_cancelled) 0) = JobState.Failed /\
  code (jr_outcome (record_at (w_run es_compile_cancelled) 0)) = Cancelled /\
  (match encode_response (status_response (status_snapshot
     (record_at (w_run es_compile_cancelled) 0))) with
   | Return (RErr _) => true
   | _ => false
   end) = true.
Proof. split_and!; evaluated. Qed.

(** A value with a facet of 65537 bytes. *)
Definition big_facet_value : ref_value :=
  mk_ref_value (mk_ValueDescriptor 1 [1]) [mk_RegionDimension 0 1] (mk_StridedLayout 0 [1] [])
    [mk_ValueFacet (lit "k") 1 (replicate (Z.to_nat 65537) 0)] [7].

Definition big_facet_response : Response :=
  mk_Response 9 Method.JobResult success default_SessionId default_JobId default_job_status
    (mk_ExecutionResult [(lit "a", big_facet_value)] default_diagnostics) default_daemon_info false.

(** [encode_value] accepts it; [decode_value] bounds the payload of a facet by 64 KiB
    and refuses what [encode_value] produced. *)
Lemma facet_payload_asymmetry :
  (match encode_response big_facet_response with
   | Return (ROk bs) =>
     match decode_response bs Method.JobResult 9 with RErr _ => true | ROk _ => false end
   | _ => false
   end) = true.
Proof. evaluated. Qed.
